(* ===== verification/_CoqProject ===== *)
-Q . S2P
Prelude.v
Checked.v
Status.v
Digest.v
Random.v
Ledger.v
Authority.v
Request.v
Bytes.v
Crc32c.v
Wire.v
Record.v
Journal.v
Window.v
Account.v
Engine.v
Recovery.v
Steps.v
Invariant.v
Verdicts.v
Safety.v
Sample.v
Guarantees.v
Durability.v
Replay.v
AccountDigest.v
RecoveryProps.v
Explain.v
Restart.v
Lives.v
Typing.v
Checkpoint.v
Resume.v
Automatic.v
Platform.v
FileJournal.v
FileLog.v
FileSnapshot.v
Crash.v
Transport.v
SocketCalls.v
Coordinator.v
Service.v
Client.v
Consumer.v
ClientProps.v
Dialogue.v
Submission.v
Args.v
LocalSession.v
Bench.v
Cfctl.v
Text.v
Worker.v
WorkerProps.v
