(* ===== verification/Prelude.v ===== *)
(** * Credit Fabric: a verification development

    Credit Fabric (sources under [src/src] and [src/include/creditfabric]) keeps
    credit accounts for a fabric of producers and consumers.  One engine decides
    every attempt to issue, spend, return, protect or revoke credit, writes the
    decision to a journal before acknowledging it, and rebuilds its state from
    the journal after a restart.  This library models the engine, everything it
    is built from down to the bytes it stores and sends, and proves what its
    clients rely on.

    ** Parts and how they fit

    A client builds a [CreditRequest] for an account, an authority vector
    (domain, account, epoch, generation, incarnation) and a sequence number, and
    sends it in a frame.  The engine validates it, checks the authority of the
    incarnation that presents it, finds whether the attempt was decided before,
    places it in the incarnation's sequence, decides it on the account through a
    ledger plan, appends an intent and a commit record to its journal, and only
    then publishes the result.  Recovery loads the last snapshot and replays the
    commit records after it, checking digests at each step, and finally forgets
    which incarnations were live.  The journal is in memory or in a file.  The
    coordinator service accepts connections and serves the one engine to all of
    them, a worker for each connection.

    ** Files

    - [Prelude]: machine words as [Z] with explicit wrap-around ([wrap64], the
      notations [+%], [-%], [*%]), the hint database [word], tactics, generic lemmas.
    - [Checked] (checked.hpp), [Status] (status.hpp, status.cpp), [Digest]
      (strong.hpp, strong.cpp): overflow-checked arithmetic, reasons, identities,
      the 128-bit digest builder, hexadecimal and decimal text.  [Random]
      (strong.cpp): the random numbers of a process, drawn by overlapping calls.
    - [Ledger] (ledger.hpp, ledger.cpp): counters, view, closure invariants and
      the operations of [LedgerPlan], with an abstract model of five buckets.
    - [Authority] (authority.hpp, authority.cpp, policy.hpp, policy.cpp), [Request]
      (engine.hpp and the first part of engine.cpp): incarnations, fences, the reconciliation challenge,
      configuration and limits; operations, requests, outcomes and their digests.
    - [Bytes] (bytes.hpp), [Crc32c], [Wire], [Record] (the files of those names):
      the byte reader and writer, a decoder monad over it, the checksum, frames
      and messages, journal payloads.  [Bytes.Roundtrip] is the class that states
      that an encoder and a decoder agree; each encoded type is an instance.
    - [Journal] (journal.hpp, journal.cpp): the abstract journal as the class
      [Journal], what it promises as [JournalLaws], and the in-memory journal as
      an instance of both.
    - [Window], [Account], [Engine], [Recovery] (engine.cpp): the attempt window;
      the account with the decision of each operation as a [Verdict]; the engine
      with [apply], [persist_locked], [snapshot]; replay and [recover].
    - [Steps], [Invariant], [Verdicts], [Safety]: proof infrastructure.  [Steps]
      splits a call of [apply] into its outcomes, [Invariant] says when an
      account is well formed, [Verdicts] that every decision keeps it so, and
      [Safety] lifts this to the engine and to runs of commands.
    - [Sample]: a concrete engine on which the theorems are evaluated.
    - [Guarantees], [Durability], [Replay], [AccountDigest], [RecoveryProps]:
      the theorems about the engine.  [Explain]: explanations and their rendering.
      [Restart]: the theorem that a restart brings the accounts back; [Lives]: what
      becomes of a second one.  [Typing]: every field keeps to its machine type.
      [Checkpoint]: what a snapshot keeps; [Resume]: a restart from a snapshot and
      the records after it; [Automatic]: the snapshots the engine takes by itself.
    - [Platform] (platform.hpp, platform.cpp), [FileJournal] (file_journal.hpp,
      file_journal.cpp): what the operating system answers, and the journal on
      disk as a second instance of [Journal]; [FileLog], [FileSnapshot]: what the
      log keeps across crashes and damage, and the snapshot file.  [Crash]: the
      engine on its file, cut off anywhere and started again.
    - [Transport] (transport.hpp, transport.cpp): sockets, frames on a stream, the
      listener, with theorems on their transfers.  [SocketCalls] (transport.cpp): the
      same loops over the answers of the system calls, and the native handles.
    - [Coordinator] (coordinator.hpp and the server side of coordinator.cpp): the
      service as interleaved stretches of its threads; [Service]: its theorems.
    - [Client] (coordinator.hpp and the client side of coordinator.cpp): the
      client in a monad [Op] of operations that may wait forever, over any
      connection of the class [Link]; [ClientProps]: what a client sends.
      [Dialogue]: a client and the service in one system, the connection class
      implemented by a worker that answers on the other end; [Submission]: what a
      submission over it comes to.
    - [Args], [LocalSession], [Cfctl], [Worker] (the files of those names under apps,
      with cf_coordinator.cpp and cf_bench.cpp in [Worker]): options, the session of
      a program that owns its engine, the operator's command line, the worker.
      [Consumer] (examples/consumer/main.cpp): the example program.
      [Bench] (bench.hpp, bench.cpp): the synthetic benchmark.  [Text]: numbers read
      and printed.  [WorkerProps]: what a worker's run does to the account.

    Names follow the source; record fields carry a short prefix ([ac_] for
    AccountState, [e_] for CreditEngine, [rq_] for CreditRequest, [o_] for
    CreditOutcome, ...).  An operation that mutates an object is a function from
    its state to its state and result.  Where one C++ function is long its stages
    are definitions of their own, composed in the same order: [apply_locked] is
    [malformed], then [describe_outcome], [create_account_locked] or
    [decide_locked], which is [unauthorized], [known_attempt], [misplaced] and one
    of [decide_data_locked] and [decide_control_locked].

    ** What the theorems show

    - Accounting: ledgers stay closed in every reachable state, plans refine the
      abstract buckets, no credit is spent twice.
    - Exactly once: sequences of decided attempts increase; duplicates are
      answered from the window without effect; request digests tell apart
      requests that differ in one word.
    - Authority: nothing is applied without live authority, or for an opening and
      a reconciliation a proof; fences are permanent; eras never go back; proofs
      bind to one challenge; recovery forgets liveness.
    - Durability: decisions are written ahead; a journal failure stops the engine;
      replaying a journaled decision reproduces it; recovery terminates.
    - Restart: an engine restarted on its journal has every account back, by
      replaying its records, by loading its snapshot, or by both; after a crash at
      any byte of the file it has every acknowledged decision, and the last one whole
      or not.  A second restart recovers if the first incarnation that reconciled was
      the only one left live, and fails if exactly one other was.  The refusals whose
      record does not describe the account they leave are excluded by name
      ([Restart.durable_outcome], [Durability.refused_binding]).
    - Types: every field the engine keeps or answers fits its machine type, so
      every answer reaches a client unchanged.
    - Client: no two requests of a client carry the same attempt identity; a
      submission is decided after at most one reconciliation, and a worker's run is
      applied and leaves every bucket as it was, over a connection of its own that
      moves bytes in pieces of any one size and does not stall.
    - Programs: a call of a local session is decided; the benchmark hands back what
      it took and counts every operation; numbers are parsed exactly.
    - Formats: round trips of frames, messages and records; truncation and
      corruption are detected; the table-driven checksum is the bit-serial one.
    - Storage: a log on disk survives a crash at any byte; damage ends it and is
      never guessed over; snapshots are replaced as a whole.
    - Service: any interleaving of connections is one run of the engine; messages
      get through whatever the chunking; what waits is served; stopping drains, also
      workers inside a transfer and an accept loop inside [Listener::accept].
      Interrupted system calls do not break a transfer; no handle leaks or is closed
      twice.
    - Bounds: memory stays within the configured limits, checked arithmetic is
      exact, explanations are faithful and bounded.
    - Some theorems state behaviour of the code that its comments do not: a client
      stuck on an account where it lags behind, malformed options that pass, a
      refused binding that cannot be replayed, a journal that the second restart
      cannot read, one that a snapshot the engine took by itself makes unreadable,
      an incomplete undo of an era change, a repaired log that refuses appends, an interrupted creation that is never
      repaired, a snapshot whose sequence has no checksum, a limit on connections
      that counts the closed ones, and duplicates that a snapshot turns into
      conflicts.

    ** Modelling decisions

    - Strong identities are their 64-bit values.  [std::unordered_map] is [gmap];
      where the source iterates over one without sorting, the model takes the
      order of [map_to_list] (only the order of the incarnations in a snapshot
      depends on it).  [memcpy] of integers is little-endian.
    - Randomness (the challenge nonce, the seed of attempt identities) is an
      argument.  The journal is a parameter of the engine through the class
      [Journal]; theorems that need its behaviour assume [JournalLaws].
    - Each public operation of the engine runs under its mutex, so concurrent
      calls are modelled as the sequences of commands of [Safety.run].
    - What the operating system answers is an argument: [Platform.OS] says which
      calls of one journal operation fail and how many bytes of a failing write
      reach the file; a crash is such a failure followed by a new process.  A
      script of [Transport.IoEvent]s drives the loops of a socket, one event for an
      iteration; a loop whose script runs out is still waiting ([None]).
    - Threads of the service interleave between stretches that touch shared state
      at most once ([Coordinator.Action]).  A stretch that was waiting when the stop
      flag was set is taken up past its look at the flag, and finds the flag once
      its transfer has nothing else to do ([Coordinator.flag_seen]).
    - A client and the service that answers it form one system in [Dialogue]: after
      a request is sent, the worker of the connection runs until it has answered.
    - The programs return their exit code and everything they print; the error
      stream is not kept apart.  A [double] appears as the text it prints as, boot
      identities and entropy are arguments, and [std::sort] is any stable sort.
    - Fuel: only [Recovery.replay_loop] takes fuel.  One unit more than the
      journal has entries suffices, which [RecoveryProps.recovery_terminates]
      proves; running out is the answer [None], never a status.

    ** Not modelled

    Sectors written out of order and two processes on one journal; what happens
    inside system calls, the time they take and the sleeps of the loops that wait
    (wait_for_listener and cf_coordinator); the Windows branches of the file
    functions; the buckets of unordered containers (their hash functions are
    definitions, but nothing depends on them), and the hash of [StrongId], which
    cannot be instantiated; the benchmark's measured durations, which are given
    as text. *)

From Stdlib Require Export ZArith Lia Bool.
From stdpp Require Export base tactics numbers list option gmap strings sorting.

#[global] Open Scope Z_scope.

(** ** Machine words

    A [w]-bit unsigned integer of the C++ source is a [Z]; arithmetic that can
    leave the range is wrapped explicitly where the source computes it. *)

Definition in_u8 (z : Z) : Prop := 0 <= z < 256.
Definition in_u16 (z : Z) : Prop := 0 <= z < 65536.
Definition in_u32 (z : Z) : Prop := 0 <= z < 4294967296.
Definition in_u64 (z : Z) : Prop := 0 <= z < 18446744073709551616.

(** The largest [std::uint64_t]. *)
Definition u64_max : Z := 18446744073709551615.

(** Reduction to 64 and to 32 bits. *)
Definition wrap64 (z : Z) : Z := Z.land z 18446744073709551615.
Definition wrap32 (z : Z) : Z := Z.land z 4294967295.

Declare Scope word_scope.
Delimit Scope word_scope with word.
Notation "a +% b" := (wrap64 (a + b)) (at level 50, left associativity) : word_scope.
Notation "a -% b" := (wrap64 (a - b)) (at level 50, left associativity) : word_scope.
Notation "a *% b" := (wrap64 (a * b)) (at level 40, left associativity) : word_scope.
Notation "a ^^ b" := (Z.lxor a b) (at level 45, left associativity) : word_scope.
Notation "a >>> k" := (Z.shiftr a k) (at level 36, left associativity) : word_scope.

#[global] Arguments wrap64 : simpl never.
#[global] Arguments wrap32 : simpl never.

Create HintDb word discriminated.

Lemma wrap64_mod z : wrap64 z = z mod 18446744073709551616.
Proof. exact (Z.land_ones z 64 ltac:(lia)). Qed.

Lemma wrap32_mod z : wrap32 z = z mod 4294967296.
Proof. exact (Z.land_ones z 32 ltac:(lia)). Qed.

Lemma wrap64_range z : in_u64 (wrap64 z).
Proof. rewrite wrap64_mod. apply Z.mod_pos_bound. lia. Qed.

Lemma wrap32_range z : in_u32 (wrap32 z).
Proof. rewrite wrap32_mod. apply Z.mod_pos_bound. lia. Qed.

Lemma wrap64_small z : in_u64 z -> wrap64 z = z.
Proof. intros H. rewrite wrap64_mod. by apply Z.mod_small. Qed.

Lemma wrap32_small z : in_u32 z -> wrap32 z = z.
Proof. intros H. rewrite wrap32_mod. by apply Z.mod_small. Qed.

Lemma wrap64_add_wrap a b : wrap64 (wrap64 a + b) = wrap64 (a + b).
Proof. rewrite !wrap64_mod. by rewrite Zplus_mod_idemp_l. Qed.

(** A sum of two words that leaves the range wraps exactly once. *)
Lemma wrap64_add_over a b :
  in_u64 a -> in_u64 b -> 18446744073709551616 <= a + b ->
  wrap64 (a + b) = a + b - 18446744073709551616.
Proof.
  unfold in_u64. intros Ha Hb Hab. rewrite wrap64_mod.
  symmetry. apply (Z.mod_unique_pos _ _ 1); lia.
Qed.

Lemma in_u64_0 : in_u64 0.
Proof. unfold in_u64. lia. Qed.

Lemma in_u64_u8 z : in_u8 z -> in_u64 z.
Proof. unfold in_u8, in_u64. lia. Qed.

#[export] Hint Resolve wrap64_range wrap32_range in_u64_0 in_u64_u8 : word.

(** Bounds of the bit operations on words. *)
Lemma testbit_above_word z w i :
  0 <= w -> 0 <= z < 2 ^ w -> w <= i -> Z.testbit z i = false.
Proof.
  intros Hw Hz Hi.
  rewrite <-(Z.mod_small z (2 ^ w)) by lia.
  by apply Z.mod_pow2_bits_high; lia.
Qed.

Lemma word_of_bits w z :
  0 <= w -> 0 <= z -> (forall i, w <= i -> Z.testbit z i = false) -> 0 <= z < 2 ^ w.
Proof.
  intros Hw Hz Hbits. split; [done |].
  assert (Z.shiftr z w = 0) as Hs.
  { apply Z.bits_inj_0. intros i. destruct (Z_lt_le_dec i 0).
    - by rewrite Z.testbit_neg_r.
    - rewrite Z.shiftr_spec by lia. apply Hbits. lia. }
  rewrite Z.shiftr_div_pow2 in Hs by lia.
  apply Z.div_small_iff in Hs as [?|?]; lia.
Qed.

Lemma lxor_word w a b :
  0 <= w -> 0 <= a < 2 ^ w -> 0 <= b < 2 ^ w -> 0 <= Z.lxor a b < 2 ^ w.
Proof.
  intros Hw Ha Hb. apply word_of_bits; [done | apply Z.lxor_nonneg; lia |].
  intros i Hi. rewrite Z.lxor_spec, !(testbit_above_word _ w) by lia. done.
Qed.

Lemma shiftr_word w a k :
  0 <= k -> 0 <= a < 2 ^ w -> 0 <= Z.shiftr a k < 2 ^ w.
Proof.
  intros Hk Ha. rewrite Z.shiftr_div_pow2 by lia.
  assert (0 < 2 ^ k) by (apply Z.pow_pos_nonneg; lia).
  split; [apply Z.div_pos; lia |].
  apply Z.le_lt_trans with a; [| lia].
  apply Z.div_le_upper_bound; [lia | nia].
Qed.

Lemma lxor_u64 a b : in_u64 a -> in_u64 b -> in_u64 (Z.lxor a b).
Proof. apply (lxor_word 64). lia. Qed.

Lemma shiftr_u64 a k : 0 <= k -> in_u64 a -> in_u64 (Z.shiftr a k).
Proof. apply (shiftr_word 64). Qed.

#[export] Hint Resolve lxor_u64 : word.
#[export] Hint Extern 2 (in_u64 (Z.shiftr _ _)) => (apply shiftr_u64; [lia |]) : word.

Lemma lxor_cancel_l a b c : Z.lxor a b = Z.lxor a c -> b = c.
Proof.
  intros H.
  rewrite <-(Z.lxor_0_l b), <-(Z.lxor_0_l c), <-(Z.lxor_nilpotent a).
  by rewrite !Z.lxor_assoc, H.
Qed.

Lemma lxor_cancel_r a b c : Z.lxor b a = Z.lxor c a -> b = c.
Proof. rewrite (Z.lxor_comm b), (Z.lxor_comm c). apply lxor_cancel_l. Qed.

(** ** Automation *)

(** Arithmetic on words: expose the ranges and call [lia]. *)
Ltac word_lia := unfold in_u64, in_u32, in_u16, in_u8, u64_max in *; lia.

(** Case analysis on the next [if] or [match] of the goal, with its equation. *)
Ltac step_if :=
  match goal with
  | |- context [if ?b then _ else _] => destruct b eqn:?
  end.

(** Case analysis on the first [if] or [match] of a hypothesis. *)
Ltac step_in H :=
  match type of H with
  | context [if ?b then _ else _] => destruct b eqn:?
  | context [match ?x with _ => _ end] => destruct x eqn:?
  end.

(** ** Lists *)

Lemma Forall_app_2 {A} (P : A -> Prop) l k : Forall P l -> Forall P k -> Forall P (l ++ k).
Proof. intros. by apply Forall_app. Qed.

Lemma take_app_exact {A} (l k : list A) n : n = length l -> take n (l ++ k) = l.
Proof. intros ->. by rewrite take_app_length. Qed.

Lemma drop_app_exact {A} (l k : list A) n : n = length l -> drop n (l ++ k) = k.
Proof. intros ->. by rewrite drop_app_length. Qed.

Lemma size_list_to_set_le `{Countable A} (l : list A) : (size (list_to_set l : gset A) <= length l)%nat.
Proof.
  induction l as [|x l IH]; [by vm_compute |].
  rewrite list_to_set_cons, size_union_alt, size_singleton. cbn [length]. apply le_n_S.
  etrans; [| exact IH]. apply subseteq_size. by apply subseteq_difference_l.
Qed.

(** Or-ing a shifted value above a smaller one is an addition. *)
Lemma lor_shiftl_add a b k :
  0 <= k -> 0 <= a < 2 ^ k -> Z.lor a (Z.shiftl b k) = a + 2 ^ k * b.
Proof.
  intros Hk Ha.
  assert (Hland : Z.land a (Z.shiftl b k) = 0).
  { apply Z.bits_inj'. intros j Hj. rewrite Z.land_spec, Z.bits_0.
    destruct (Z_lt_le_dec j k).
    - by rewrite Z.shiftl_spec_low, andb_false_r by lia.
    - by rewrite (testbit_above_word a k j) by lia. }
  rewrite <-Z.lxor_lor, <-Z.add_nocarry_lxor by done.
  rewrite Z.shiftl_mul_pow2 by lia. lia.
Qed.

(** Inserting the items of a list under distinct keys. *)
Lemma lookup_fold_insert {A B} (key : A -> Z) (val : A -> B) (l : list A) (m : gmap Z B) k v :
  NoDup (key <$> l) ->
  (fold_left (fun m x => <[key x := val x]> m) l m) !! k = Some v <->
  (exists x, x ∈ l /\ key x = k /\ val x = v) \/ (¬ k ∈ (key <$> l) /\ m !! k = Some v).
Proof.
  revert m. induction l as [|x l IH]; intros m Hn; simpl.
  { split; [intros H; right; split; [apply not_elem_of_nil | done] |].
    intros [(x & ?%elem_of_nil & _)|[_ ?]]; done. }
  apply NoDup_cons in Hn as [Hx Hn]. rewrite IH by done. split.
  - intros [(y & Hy & ? & ?)|[Hk Hm]]; [left; exists y; split; [by right | done] |].
    apply lookup_insert_Some in Hm as [[<- <-]|[Hne Hm]].
    + left. exists x. split; [left | done].
    + right. split; [| done]. rewrite not_elem_of_cons. done.
  - intros [(y & [->|Hy]%elem_of_cons & Hk & Hv)|[Hk Hm]].
    + right. subst k. split; [done |]. by rewrite lookup_insert_eq, Hv.
    + left. by exists y.
    + apply not_elem_of_cons in Hk as [Hne Hk]. right. split; [done |]. by rewrite lookup_insert_ne.
Qed.
