(* ===== verification/Checked.v ===== *)
(** * Checked integer arithmetic (include/creditfabric/checked.hpp)

    The overflow-reporting primitives every counter of the authority goes
    through.  An out parameter becomes the second component of the result: the
    value the C++ function stores, whether or not it reports overflow. *)

From S2P Require Import Prelude.

(** ** Primitives *)

Definition add_overflow (a b : Z) : bool * Z :=
  let out := wrap64 (a + b) in
  (out <? a, out).

Definition sub_overflow (a b : Z) : bool * Z :=
  if b >? a then (true, 0) else (false, wrap64 (a - b)).

Definition mul_overflow (a b : Z) : bool * Z :=
  if (a =? 0) || (b =? 0) then (false, 0)
  else if a >? u64_max / b then (true, 0)
  else (false, wrap64 (a * b)).

Definition saturating_add (a b : Z) : Z :=
  let max := u64_max in
  if b >? wrap64 (max - a) then max else wrap64 (a + b).

(** ** The latching accumulator *)

Record CheckedAccumulator := mkAccumulator {
  acc_value : Z;
  acc_ok : bool;
  acc_underflowed : bool;
}.

Definition acc_init (initial : Z) : CheckedAccumulator := mkAccumulator initial true false.

Definition acc_reset (value : Z) (c : CheckedAccumulator) : CheckedAccumulator :=
  mkAccumulator value true false.

Definition acc_add (v : Z) (c : CheckedAccumulator) : CheckedAccumulator * bool :=
  if negb (acc_ok c) then (c, false) else
  let '(over, next) := add_overflow (acc_value c) v in
  if over then (mkAccumulator (acc_value c) false (acc_underflowed c), false)
  else (mkAccumulator next (acc_ok c) (acc_underflowed c), true).

Definition acc_sub (v : Z) (c : CheckedAccumulator) : CheckedAccumulator * bool :=
  if negb (acc_ok c) then (c, false) else
  let '(over, next) := sub_overflow (acc_value c) v in
  if over then (mkAccumulator (acc_value c) false true, false)
  else (mkAccumulator next (acc_ok c) (acc_underflowed c), true).

Definition acc_mul (v : Z) (c : CheckedAccumulator) : CheckedAccumulator * bool :=
  if negb (acc_ok c) then (c, false) else
  let '(over, next) := mul_overflow (acc_value c) v in
  if over then (mkAccumulator (acc_value c) false (acc_underflowed c), false)
  else (mkAccumulator next (acc_ok c) (acc_underflowed c), true).

Definition acc_is_overflowed (c : CheckedAccumulator) : bool :=
  negb (acc_ok c) && negb (acc_underflowed c).

Definition acc_is_underflowed (c : CheckedAccumulator) : bool :=
  negb (acc_ok c) && acc_underflowed c.

(** One staged operation, to speak of runs of the accumulator. *)
Inductive AccOp := AccAdd (v : Z) | AccSub (v : Z) | AccMul (v : Z).

Definition acc_step (c : CheckedAccumulator) (op : AccOp) : CheckedAccumulator :=
  match op with
  | AccAdd v => fst (acc_add v c)
  | AccSub v => fst (acc_sub v c)
  | AccMul v => fst (acc_mul v c)
  end.

(** The exact integer meaning of a staged operation. *)
Definition acc_exact (x : Z) (op : AccOp) : Z :=
  match op with
  | AccAdd v => x + v
  | AccSub v => x - v
  | AccMul v => x * v
  end.

Definition acc_op_arg (op : AccOp) : Z :=
  match op with AccAdd v | AccSub v | AccMul v => v end.

(** ** What the primitives compute *)

Lemma add_overflow_ok a b :
  in_u64 a -> in_u64 b -> a + b <= u64_max -> add_overflow a b = (false, a + b).
Proof.
  intros Ha Hb Hs. unfold add_overflow. rewrite wrap64_small by word_lia.
  f_equal. word_lia.
Qed.

Lemma add_overflow_over a b :
  in_u64 a -> in_u64 b -> u64_max < a + b ->
  add_overflow a b = (true, a + b - 18446744073709551616).
Proof.
  intros Ha Hb Hs. unfold add_overflow. rewrite wrap64_add_over by word_lia.
  f_equal. word_lia.
Qed.

(** Case analysis on a checked addition of two words. *)
Lemma add_overflow_cases a b :
  in_u64 a -> in_u64 b ->
  (a + b <= u64_max /\ add_overflow a b = (false, a + b)) \/
  (u64_max < a + b /\ add_overflow a b = (true, a + b - 18446744073709551616)).
Proof.
  intros Ha Hb. destruct (Z_le_gt_dec (a + b) u64_max).
  - left. split; [lia | by apply add_overflow_ok].
  - right. split; [lia | apply add_overflow_over; auto; lia].
Qed.

Lemma sub_overflow_spec a b :
  in_u64 a -> in_u64 b ->
  sub_overflow a b = if a <? b then (true, 0) else (false, a - b).
Proof.
  intros Ha Hb. unfold sub_overflow.
  destruct (Z.gtb_spec b a), (Z.ltb_spec a b); try lia; [done |].
  by rewrite wrap64_small by word_lia.
Qed.

Lemma mul_overflow_spec a b :
  in_u64 a -> in_u64 b ->
  mul_overflow a b = if u64_max <? a * b then (true, 0) else (false, a * b).
Proof.
  unfold in_u64. intros Ha Hb. unfold mul_overflow.
  destruct (Z.eqb_spec a 0) as [->|Ha0]; simpl; [done |].
  destruct (Z.eqb_spec b 0) as [->|Hb0]; simpl; [by rewrite Z.mul_0_r |].
  assert (Hiff : u64_max / b < a <-> u64_max < a * b).
  { pose proof (Z.div_mod u64_max b Hb0). pose proof (Z.mod_pos_bound u64_max b).
    unfold u64_max in *. split; intros; nia. }
  destruct (Z.gtb_spec a (u64_max / b)), (Z.ltb_spec u64_max (a * b));
    try (exfalso; unfold u64_max in *; lia); [done |].
  by rewrite wrap64_small by word_lia.
Qed.

Lemma saturating_add_spec a b :
  in_u64 a -> in_u64 b -> saturating_add a b = Z.min u64_max (a + b).
Proof.
  intros Ha Hb. unfold saturating_add.
  rewrite (wrap64_small (u64_max - a)) by word_lia.
  destruct (Z.gtb_spec b (u64_max - a)).
  - word_lia.
  - rewrite wrap64_small by word_lia. word_lia.
Qed.

Lemma saturating_add_range a b :
  in_u64 a -> in_u64 b -> in_u64 (saturating_add a b).
Proof. intros. rewrite saturating_add_spec by done. word_lia. Qed.

#[export] Hint Resolve saturating_add_range : word.

#[global] Opaque add_overflow sub_overflow mul_overflow saturating_add.

(** ** The accumulator never wraps *)

(** The staged operations over the unbounded integers, up to the first one whose
    exact result is not a word: the last value in range, and, when an operation
    left the range, whether it left below zero. *)
Fixpoint exact_run (ops : list AccOp) (x : Z) : Z * option bool :=
  match ops with
  | [] => (x, None)
  | op :: rest =>
      let y := acc_exact x op in
      if (0 <=? y) && (y <=? u64_max) then exact_run rest y else (x, Some (y <? 0))
  end.

Lemma acc_step_spec x op :
  in_u64 x -> in_u64 (acc_op_arg op) ->
  let y := acc_exact x op in
  acc_step (acc_init x) op =
  if (0 <=? y) && (y <=? u64_max) then acc_init y else mkAccumulator x false (y <? 0).
Proof.
  intros Hx Hv y. unfold y, acc_step, acc_add, acc_sub, acc_mul, acc_init, acc_exact. simpl.
  destruct op as [v|v|v]; simpl in Hv.
  - destruct (add_overflow_cases x v) as [[H1 H2]|[H1 H2]]; try done; rewrite H2; simpl;
      destruct (Z.leb_spec 0 (x + v)), (Z.leb_spec (x + v) u64_max), (Z.ltb_spec (x + v) 0); simpl;
      word_lia || done.
  - rewrite sub_overflow_spec by done.
    destruct (Z.ltb_spec x v), (Z.leb_spec 0 (x - v)), (Z.leb_spec (x - v) u64_max),
      (Z.ltb_spec (x - v) 0); simpl; word_lia || done.
  - rewrite mul_overflow_spec by done.
    assert (0 <= x * v) by (unfold in_u64 in *; nia).
    destruct (Z.ltb_spec u64_max (x * v)), (Z.leb_spec 0 (x * v)), (Z.leb_spec (x * v) u64_max),
      (Z.ltb_spec (x * v) 0); simpl; lia || done.
Qed.

Lemma acc_run_failed ops c :
  acc_ok c = false -> fold_left acc_step ops c = c.
Proof.
  induction ops as [|op ops IH]; [done |]. intros Hc. simpl.
  assert (acc_step c op = c) as ->; [| auto].
  destruct op; unfold acc_step, acc_add, acc_sub, acc_mul; by rewrite Hc.
Qed.

(** The checked accumulator never wraps: after any sequence of additions,
    subtractions and multiplications it holds the exact integer result as long
    as every intermediate result is a 64-bit word; from the first one that is
    not it is latched at the last exact value, and reports underflow when that
    result was negative and overflow otherwise. *)
Theorem checked_accumulator_never_wraps ops x :
  in_u64 x -> Forall (fun op => in_u64 (acc_op_arg op)) ops ->
  let c := fold_left acc_step ops (acc_init x) in
  acc_value c = (exact_run ops x).1 /\
  acc_ok c = bool_decide ((exact_run ops x).2 = None) /\
  acc_is_overflowed c = bool_decide ((exact_run ops x).2 = Some false) /\
  acc_is_underflowed c = bool_decide ((exact_run ops x).2 = Some true).
Proof.
  revert x. induction ops as [|op ops IH]; intros x Hx Hops; [done |].
  apply Forall_cons in Hops as [Hop Hops]. cbn [fold_left exact_run]. rewrite acc_step_spec by done.
  destruct (Z.leb_spec 0 (acc_exact x op)), (Z.leb_spec (acc_exact x op) u64_max); simpl;
    try (apply IH; [word_lia | done]); rewrite acc_run_failed by done; simpl;
    by destruct (acc_exact x op <? 0).
Qed.

Lemma checked_accumulator_never_wraps_witness :
  acc_is_underflowed (fold_left acc_step [AccAdd 5; AccMul 2; AccSub 21; AccAdd 9] (acc_init 5)) = true.
Proof.
  destruct (checked_accumulator_never_wraps [AccAdd 5; AccMul 2; AccSub 21; AccAdd 9] 5)
    as (_ & _ & _ & Hu); [word_lia | repeat constructor; simpl; word_lia | exact Hu].
Defined.
