(* ===== verification/Status.v ===== *)
(** * Refusal reasons and status values (include/creditfabric/status.hpp, src/status.cpp)

    The [Reason] enumeration with its durable numeric codes, the descriptive
    classification, and [Status]: a reason with a detail word. *)

From stdpp Require Import pretty.
From S2P Require Import Prelude.

(** ** Reasons *)

Inductive Reason : Set :=
| ROk
| RUnknownState
| RReconciliationRequired
| RStaleAuthority
| RStaleEvidence
| RFencedIncarnation
| RUnknownIncarnation
| RIncarnationNotReconciled
| RStaleReplay
| RSequenceGap
| RAttemptConflict
| RDuplicateAttempt
| RAttemptUnknown
| RAccountUnknown
| RAccountExists
| RAccountClosed
| RDomainMismatch
| RResourceMismatch
| RProducerMismatch
| RConsumerMismatch
| RGrantMismatch
| RPolicyRefused
| RProfileNotSupported
| RInsufficientAvailable
| RInsufficientOutstanding
| RInsufficientProtected
| RCapacityExceeded
| RCapacityShrinkViolation
| RCapacityOutOfRange
| RCountZero
| RCountOverflow
| RExhaustedHard
| RNotExhausted
| RNothingToRetire
| RInvalidState
| RMalformedMessage
| RUnsupportedVersion
| ROversizedFrame
| RChecksumMismatch
| RTruncatedInput
| RJournalCorrupt
| RJournalTorn
| RJournalVersionUnsupported
| RJournalDigestMismatch
| RIoError
| RTransportError
| RConnectionLimitReached
| RShutdownInProgress
| RCancelled
| RBudgetExceeded
| RUnsupported
| RNotOperator
| RInternalError.

(** [static_cast<std::uint8_t>(reason)]: the stable numeric value. *)
Definition reason_code (r : Reason) : Z :=
  match r with
  | ROk => 0
  | RUnknownState => 1
  | RReconciliationRequired => 2
  | RStaleAuthority => 3
  | RStaleEvidence => 4
  | RFencedIncarnation => 5
  | RUnknownIncarnation => 6
  | RIncarnationNotReconciled => 7
  | RStaleReplay => 8
  | RSequenceGap => 9
  | RAttemptConflict => 10
  | RDuplicateAttempt => 11
  | RAttemptUnknown => 12
  | RAccountUnknown => 13
  | RAccountExists => 14
  | RAccountClosed => 15
  | RDomainMismatch => 16
  | RResourceMismatch => 17
  | RProducerMismatch => 18
  | RConsumerMismatch => 19
  | RGrantMismatch => 20
  | RPolicyRefused => 21
  | RProfileNotSupported => 22
  | RInsufficientAvailable => 23
  | RInsufficientOutstanding => 24
  | RInsufficientProtected => 25
  | RCapacityExceeded => 26
  | RCapacityShrinkViolation => 27
  | RCapacityOutOfRange => 28
  | RCountZero => 29
  | RCountOverflow => 30
  | RExhaustedHard => 31
  | RNotExhausted => 32
  | RNothingToRetire => 33
  | RInvalidState => 34
  | RMalformedMessage => 35
  | RUnsupportedVersion => 36
  | ROversizedFrame => 37
  | RChecksumMismatch => 38
  | RTruncatedInput => 39
  | RJournalCorrupt => 40
  | RJournalTorn => 41
  | RJournalVersionUnsupported => 42
  | RJournalDigestMismatch => 43
  | RIoError => 44
  | RTransportError => 45
  | RConnectionLimitReached => 46
  | RShutdownInProgress => 47
  | RCancelled => 48
  | RBudgetExceeded => 49
  | RUnsupported => 50
  | RNotOperator => 51
  | RInternalError => 52
  end.

Definition kReasonCount : Z := 53.

Definition is_valid_reason (raw : Z) : bool := raw <? kReasonCount.

(** Every reason, in code order. *)
Definition all_reasons : list Reason :=
  [ROk; RUnknownState; RReconciliationRequired; RStaleAuthority;
   RStaleEvidence; RFencedIncarnation; RUnknownIncarnation; RIncarnationNotReconciled;
   RStaleReplay; RSequenceGap; RAttemptConflict; RDuplicateAttempt;
   RAttemptUnknown; RAccountUnknown; RAccountExists; RAccountClosed;
   RDomainMismatch; RResourceMismatch; RProducerMismatch; RConsumerMismatch;
   RGrantMismatch; RPolicyRefused; RProfileNotSupported; RInsufficientAvailable;
   RInsufficientOutstanding; RInsufficientProtected; RCapacityExceeded; RCapacityShrinkViolation;
   RCapacityOutOfRange; RCountZero; RCountOverflow; RExhaustedHard;
   RNotExhausted; RNothingToRetire; RInvalidState; RMalformedMessage;
   RUnsupportedVersion; ROversizedFrame; RChecksumMismatch; RTruncatedInput;
   RJournalCorrupt; RJournalTorn; RJournalVersionUnsupported; RJournalDigestMismatch;
   RIoError; RTransportError; RConnectionLimitReached; RShutdownInProgress;
   RCancelled; RBudgetExceeded; RUnsupported; RNotOperator;
   RInternalError].

(** [static_cast<Reason>(raw)], used by the source only after [is_valid_reason]. *)
Definition reason_cast (raw : Z) : Reason :=
  default RInternalError (all_reasons !! Z.to_nat raw).

Definition reason_to_string (r : Reason) : string :=
  match r with
  | ROk => "Ok"
  | RUnknownState => "UnknownState"
  | RReconciliationRequired => "ReconciliationRequired"
  | RStaleAuthority => "StaleAuthority"
  | RStaleEvidence => "StaleEvidence"
  | RFencedIncarnation => "FencedIncarnation"
  | RUnknownIncarnation => "UnknownIncarnation"
  | RIncarnationNotReconciled => "IncarnationNotReconciled"
  | RStaleReplay => "StaleReplay"
  | RSequenceGap => "SequenceGap"
  | RAttemptConflict => "AttemptConflict"
  | RDuplicateAttempt => "DuplicateAttempt"
  | RAttemptUnknown => "AttemptUnknown"
  | RAccountUnknown => "AccountUnknown"
  | RAccountExists => "AccountExists"
  | RAccountClosed => "AccountClosed"
  | RDomainMismatch => "DomainMismatch"
  | RResourceMismatch => "ResourceMismatch"
  | RProducerMismatch => "ProducerMismatch"
  | RConsumerMismatch => "ConsumerMismatch"
  | RGrantMismatch => "GrantMismatch"
  | RPolicyRefused => "PolicyRefused"
  | RProfileNotSupported => "ProfileNotSupported"
  | RInsufficientAvailable => "InsufficientAvailable"
  | RInsufficientOutstanding => "InsufficientOutstanding"
  | RInsufficientProtected => "InsufficientProtected"
  | RCapacityExceeded => "CapacityExceeded"
  | RCapacityShrinkViolation => "CapacityShrinkViolation"
  | RCapacityOutOfRange => "CapacityOutOfRange"
  | RCountZero => "CountZero"
  | RCountOverflow => "CountOverflow"
  | RExhaustedHard => "ExhaustedHard"
  | RNotExhausted => "NotExhausted"
  | RNothingToRetire => "NothingToRetire"
  | RInvalidState => "InvalidState"
  | RMalformedMessage => "MalformedMessage"
  | RUnsupportedVersion => "UnsupportedVersion"
  | ROversizedFrame => "OversizedFrame"
  | RChecksumMismatch => "ChecksumMismatch"
  | RTruncatedInput => "TruncatedInput"
  | RJournalCorrupt => "JournalCorrupt"
  | RJournalTorn => "JournalTorn"
  | RJournalVersionUnsupported => "JournalVersionUnsupported"
  | RJournalDigestMismatch => "JournalDigestMismatch"
  | RIoError => "IoError"
  | RTransportError => "TransportError"
  | RConnectionLimitReached => "ConnectionLimitReached"
  | RShutdownInProgress => "ShutdownInProgress"
  | RCancelled => "Cancelled"
  | RBudgetExceeded => "BudgetExceeded"
  | RUnsupported => "Unsupported"
  | RNotOperator => "NotOperator"
  | RInternalError => "InternalError"
  end.

Inductive ReasonClass : Set :=
| ClassSuccess | ClassAuthority | ClassReplay | ClassAccounting
| ClassInput | ClassDurability | ClassLifecycle.

Definition classify_reason (r : Reason) : ReasonClass :=
  match r with
  | ROk => ClassSuccess
  | RReconciliationRequired | RStaleAuthority | RStaleEvidence
  | RFencedIncarnation | RUnknownIncarnation | RIncarnationNotReconciled
  | RUnknownState | RAccountUnknown | RAccountExists
  | RAccountClosed | RDomainMismatch | RResourceMismatch
  | RProducerMismatch | RConsumerMismatch | RGrantMismatch => ClassAuthority
  | RStaleReplay | RSequenceGap | RAttemptConflict
  | RDuplicateAttempt | RAttemptUnknown => ClassReplay
  | RInsufficientAvailable | RInsufficientOutstanding | RInsufficientProtected
  | RCapacityExceeded | RCapacityShrinkViolation | RCapacityOutOfRange
  | RCountZero | RCountOverflow | RExhaustedHard
  | RNotExhausted | RNothingToRetire | RInvalidState
  | RPolicyRefused | RProfileNotSupported => ClassAccounting
  | RMalformedMessage | RUnsupportedVersion | ROversizedFrame
  | RChecksumMismatch | RTruncatedInput | RUnsupported => ClassInput
  | RJournalCorrupt | RJournalTorn | RJournalVersionUnsupported
  | RJournalDigestMismatch | RIoError => ClassDurability
  | RTransportError | RConnectionLimitReached | RShutdownInProgress
  | RCancelled | RBudgetExceeded | RInternalError => ClassLifecycle
  | RNotOperator => ClassLifecycle (* no case of the switch: the fall-through return *)
  end.

(** ** Status *)

Record Status := mkStatus { reason : Reason; detail : Z }.

Definition success : Status := mkStatus ROk 0.
Definition refused_status (r : Reason) (d : Z) : Status := mkStatus r d.

Definition status_ok (s : Status) : bool := reason_code (reason s) =? reason_code ROk.

Definition reason_eqb (a b : Reason) : bool := reason_code a =? reason_code b.

(** [operator==(Status, Status)]. *)
Definition status_eqb (a b : Status) : bool :=
  reason_eqb (reason a) (reason b) && (detail a =? detail b).

(** [std::to_string] of an unsigned word. *)
Definition dec_string (z : Z) : string := pretty (Z.to_N z).

(** ** Version (version.hpp, version.cpp) *)

Record Version := mkVersion { v_major : Z; v_minor : Z; v_patch : Z }.

Definition version : Version := mkVersion 1 0 0.

Definition version_string : string :=
  dec_string (v_major version) +:+ "." +:+ dec_string (v_minor version) +:+ "." +:+ dec_string (v_patch version).

(** [ndebug] says whether [NDEBUG] was defined for the build. *)
Definition build_profile (ndebug : bool) : string := if ndebug then "release" else "debug".


Definition status_describe (s : Status) : string :=
  if reason_eqb (reason s) ROk then "ok"
  else if negb (detail s =? 0)
       then reason_to_string (reason s) +:+ " (detail=" +:+ dec_string (detail s) +:+ ")"
       else reason_to_string (reason s).

(** ** Codes identify reasons *)

Lemma reason_cast_code r : reason_cast (reason_code r) = r.
Proof. by destruct r. Qed.

Lemma reason_code_inj r s : reason_code r = reason_code s -> r = s.
Proof. intros H. by rewrite <-(reason_cast_code r), <-(reason_cast_code s), H. Qed.

Lemma reason_code_range r : 0 <= reason_code r < kReasonCount.
Proof. by destruct r. Qed.

Lemma reason_code_u16 r : in_u16 (reason_code r).
Proof. pose proof (reason_code_range r). unfold kReasonCount in *. word_lia. Qed.

Lemma reason_code_valid r : is_valid_reason (reason_code r) = true.
Proof. unfold is_valid_reason. pose proof (reason_code_range r). lia. Qed.

Lemma reason_code_cast raw :
  0 <= raw -> is_valid_reason raw = true -> reason_code (reason_cast raw) = raw.
Proof.
  unfold is_valid_reason, kReasonCount. intros H0 Hv.
  rewrite <-(Z2Nat.id raw) by lia.
  assert (Hn : (Z.to_nat raw < 53)%nat) by lia. revert Hn.
  generalize (Z.to_nat raw). intros n Hn. unfold reason_cast. rewrite Nat2Z.id.
  do 53 (destruct n as [|n]; [done |]). lia.
Qed.

#[global] Instance reason_eq_dec : EqDecision Reason.
Proof.
  refine (fun r s => cast_if (decide (reason_code r = reason_code s)));
    [by apply reason_code_inj | congruence].
Defined.

#[global] Instance status_eq_dec : EqDecision Status.
Proof. solve_decision. Defined.

Lemma reason_eqb_spec a b : reason_eqb a b = bool_decide (a = b).
Proof.
  unfold reason_eqb. destruct (Z.eqb_spec (reason_code a) (reason_code b)) as [H|H].
  - apply reason_code_inj in H as ->. by rewrite bool_decide_true.
  - rewrite bool_decide_false; [done |]. by intros ->.
Qed.

Lemma status_ok_iff s : status_ok s = true <-> reason s = ROk.
Proof.
  unfold status_ok. rewrite Z.eqb_eq. split; [apply reason_code_inj | by intros ->].
Qed.

Lemma status_ok_success : status_ok success = true.
Proof. done. Qed.

Lemma status_eqb_eq a b : status_eqb a b = true <-> a = b.
Proof.
  unfold status_eqb. rewrite andb_true_iff, Z.eqb_eq, reason_eqb_spec, bool_decide_eq_true.
  destruct a, b; simpl. split; [by intros [-> ->] | by intros [= -> ->]].
Qed.

Lemma reason_eqb_refl r : reason_eqb r r = true.
Proof. unfold reason_eqb. apply Z.eqb_refl. Qed.

#[export] Hint Resolve reason_code_u16 : word.
