(* ===== verification/Digest.v ===== *)
(** * Identities and binding digests (include/creditfabric/strong.hpp, src/strong.cpp)

    The 64-bit mixers, the incremental 128-bit [DigestBuilder], incarnation
    identities, attempt identities and the hexadecimal and decimal codecs.  A
    strong identity type ([StrongId<Tag>]) is its 64-bit representation; the
    tags only exist at compile time in the source.

    The mixers are bijections on words, so a digest over a fixed number of
    words changes, in both halves, whenever exactly one of the words changes. *)

From Stdlib Require Import Ascii String.
From S2P Require Import Prelude.
Local Open Scope word_scope.
Local Open Scope Z_scope.

(** ** Strong identities *)

Definition is_set (id : Z) : bool := negb (id =? 0).
Definition is_unset (id : Z) : bool := id =? 0.

(** ** Mixers *)

Definition mix64 (x : Z) : Z :=
  let x := x +% 0x9E3779B97F4A7C15 in
  let x := (x ^^ (x >>> 30)) *% 0xBF58476D1CE4E5B9 in
  let x := (x ^^ (x >>> 27)) *% 0x94D049BB133111EB in
  x ^^ (x >>> 31).

Definition avalanch64 (x : Z) : Z :=
  let x := x ^^ (x >>> 33) in
  let x := x *% 0xFF51AFD7ED558CCD in
  let x := x ^^ (x >>> 33) in
  let x := x *% 0xC4CEB9FE1A85EC53 in
  x ^^ (x >>> 33).

(** ** Digests and the incremental builder *)

Record Digest128 := mkDigest { lo : Z; hi : Z }.

Definition digest_zero : Digest128 := mkDigest 0 0.

Definition is_zero (d : Digest128) : bool := (lo d =? 0) && (hi d =? 0).

Definition digest_eqb (a b : Digest128) : bool := (lo a =? lo b) && (hi a =? hi b).

Record DigestBuilder := mkBuilder { db_lo : Z; db_hi : Z; db_length : Z }.

(** The default-constructed builder and the keyed one. *)
Definition db_default : DigestBuilder :=
  mkBuilder 0xCBF29CE484222325 0x9E3779B97F4A7C15 0.

Definition db_keyed (key : Digest128) : DigestBuilder :=
  mkBuilder (lo key ^^ 0xCBF29CE484222325) (hi key ^^ 0x9E3779B97F4A7C15) 0.

Definition db_u64 (v : Z) (b : DigestBuilder) : DigestBuilder :=
  mkBuilder (avalanch64 (db_lo b ^^ mix64 (v +% 0x9E3779B97F4A7C15)))
            (avalanch64 (db_hi b +% mix64 (v ^^ 0xD6E8FEB86659FD93)))
            (db_length b +% 1).

Definition db_u32 (v : Z) (b : DigestBuilder) : DigestBuilder :=
  db_u64 (Z.lor v 0x100000000) b.

Definition bool_word (v : bool) : Z := if v then 0x9E3779B97F4A7C15 else 1.

Definition db_boolean (v : bool) (b : DigestBuilder) : DigestBuilder := db_u64 (bool_word v) b.

Definition db_digest (value : Digest128) (b : DigestBuilder) : DigestBuilder :=
  db_u64 (hi value) (db_u64 (lo value) b).

(** The loop of [bytes], from index [i]. *)
Fixpoint db_bytes_from (i : Z) (data : list Z) (b : DigestBuilder) : DigestBuilder :=
  match data with
  | [] => b
  | p :: rest =>
      db_bytes_from (i + 1) rest
        (mkBuilder (avalanch64 (db_lo b ^^ Z.shiftl p ((i mod 8) * 8)))
                   (avalanch64 ((db_hi b +% p) +% mix64 (i +% 1)))
                   (db_length b))
  end.

Definition db_bytes (data : list Z) (b : DigestBuilder) : DigestBuilder :=
  let b' := db_bytes_from 0 data b in
  mkBuilder (db_lo b') (db_hi b') (db_length b' +% Z.of_nat (List.length data)).

(** [text]: a [std::string] is its list of bytes. *)
Definition db_text (sv : list Z) (b : DigestBuilder) : DigestBuilder := db_bytes sv b.

Definition db_finish (b : DigestBuilder) : Digest128 :=
  mkDigest (avalanch64 (db_lo b ^^ mix64 (db_length b +% 0x2545F4914F6CDD1D)))
           (avalanch64 (db_hi b ^^ mix64 (db_length b +% 0x14057B7EF767814F))).

(** The source chains [builder.u64(a).u64(b)]; the pipe keeps its order. *)
Notation "b |> f" := (f b) (at level 51, left associativity, only parsing) : word_scope.

(** ** Identities built from digests *)

Definition make_incarnation_id (publisher boot : Z) : Z :=
  let d := db_keyed (mkDigest 0x1234567890ABCDEF 0xFEDCBA0987654321)
             |> db_u64 publisher |> db_u64 boot |> db_finish in
  lo d ^^ hi d.

(** [std::hash] of a digest and of an attempt identity. *)
Definition hash_digest (d : Digest128) : Z := mix64 (lo d ^^ mix64 (hi d)).

(** [AttemptIdGenerator]: the attempt identity is a 128-bit digest value. *)
Record AttemptIdGenerator := mkGenerator { stream_seed : Z; counter : Z }.

(** The seeded constructor; [entropy] is what [process_entropy_seed] returns. *)
Definition generator_make (entropy seed : Z) : AttemptIdGenerator :=
  mkGenerator (if seed =? 0 then entropy else seed) 0.

Definition attempt_raw (seed counter : Z) : Digest128 :=
  let a := mix64 (seed ^^ (counter *% 0x9E3779B97F4A7C15)) in
  mkDigest a (avalanch64 ((a +% counter) +% seed)).

Definition generator_next (g : AttemptIdGenerator) : Digest128 * AttemptIdGenerator :=
  let c := counter g +% 1 in
  let id := attempt_raw (stream_seed g) c in
  (if is_zero id then mkDigest 1 (hi id) else id, mkGenerator (stream_seed g) c).

(** ** Hexadecimal and decimal text *)

Definition kHexDigits : list ascii := list_ascii_of_string "0123456789abcdef".

Definition hex_digit (n : Z) : ascii := default "0"%char (kHexDigits !! Z.to_nat n).

Definition char_code (c : ascii) : Z := Z.of_N (N_of_ascii c).

Definition hex_value (c : ascii) : Z :=
  let n := char_code c in
  if (48 <=? n) && (n <=? 57) then n - 48
  else if (97 <=? n) && (n <=? 102) then n - 97 + 10
  else if (65 <=? n) && (n <=? 70) then n - 65 + 10
  else -1.

(** One step of the [to_hex] loop: the two digits of byte [i]. *)
Definition digest_hex_pair (d : Digest128) (i : Z) : list ascii :=
  let word := if i <? 8 then lo d else hi d in
  let byte := Z.land (Z.shiftr word ((i mod 8) * 8)) 0xFF in
  [hex_digit (Z.shiftr byte 4); hex_digit (Z.land byte 0x0F)].

Definition digest_to_hex (d : Digest128) : list ascii :=
  mjoin (digest_hex_pair d <$> seqZ 0 16).

(** The [parse] loop from byte [i], [fuel] bytes to go. *)
Fixpoint digest_parse_from (fuel : nat) (i : Z) (text : list ascii) (value : Digest128)
    : option Digest128 :=
  match fuel, text with
  | S fuel, c1 :: c2 :: rest =>
      let high := hex_value c1 in
      let low := hex_value c2 in
      if (high <? 0) || (low <? 0) then None else
      let byte := Z.lor (Z.shiftl high 4) low in
      digest_parse_from fuel (i + 1) rest
        (if i <? 8 then mkDigest (Z.lor (lo value) (Z.shiftl byte ((i mod 8) * 8))) (hi value)
         else mkDigest (lo value) (Z.lor (hi value) (Z.shiftl byte ((i mod 8) * 8))))
  | _, _ => Some value
  end.

Definition digest_parse (text : list ascii) : option Digest128 :=
  if negb (Z.of_nat (List.length text) =? 32) then None
  else digest_parse_from 16 0 text digest_zero.

(** [to_hex(std::uint64_t)]. *)
Definition to_hex (value : Z) : list ascii :=
  (fun i => hex_digit (Z.land (Z.shiftr value ((15 - i) * 4)) 0xF)) <$> seqZ 0 16.

(** The loop of [parse_u64]. *)
Fixpoint parse_u64_loop (text : list ascii) (value : Z) : option Z :=
  match text with
  | [] => Some value
  | c :: rest =>
      let n := char_code c in
      if (n <? 48) || (57 <? n) then None else
      let digit := n - 48 in
      if value >? (u64_max - digit) / 10 then None
      else parse_u64_loop rest (value *% 10 +% digit)
  end.

Definition parse_u64 (text : list ascii) : option Z :=
  if (Z.of_nat (List.length text) =? 0) || (Z.of_nat (List.length text) >? 20) then None
  else parse_u64_loop text 0.

#[global] Arguments mix64 : simpl never.
#[global] Arguments avalanch64 : simpl never.
#[global] Arguments db_u64 : simpl never.
#[global] Arguments db_finish : simpl never.

#[global] Instance digest_eq_dec : EqDecision Digest128.
Proof. solve_decision. Defined.

#[global] Instance digest_countable : Countable Digest128.
Proof.
  refine (inj_countable' (fun d => (lo d, hi d)) (fun p => mkDigest (fst p) (snd p)) _).
  by intros [].
Defined.

(** ** Ranges *)

Lemma mix64_range x : in_u64 (mix64 x).
Proof. unfold mix64. auto 8 with word. Qed.

Lemma avalanch64_range x : in_u64 (avalanch64 x).
Proof. unfold avalanch64. auto 8 with word. Qed.

#[export] Hint Resolve mix64_range avalanch64_range : word.

Definition digest_range (d : Digest128) : Prop := in_u64 (lo d) /\ in_u64 (hi d).
Definition builder_range (b : DigestBuilder) : Prop :=
  in_u64 (db_lo b) /\ in_u64 (db_hi b) /\ in_u64 (db_length b).

Lemma db_u64_range v b : builder_range (db_u64 v b).
Proof. split_and!; simpl; auto with word. Qed.

Lemma db_finish_range b : digest_range (db_finish b).
Proof. split; simpl; auto with word. Qed.

Lemma db_keyed_range key : digest_range key -> builder_range (db_keyed key).
Proof.
  intros [? ?]. split_and!; simpl; auto with word;
    apply lxor_u64; auto; word_lia.
Qed.

#[export] Hint Resolve db_u64_range db_finish_range db_keyed_range : word.

Lemma make_incarnation_id_range p b : in_u64 (make_incarnation_id p b).
Proof. unfold make_incarnation_id. apply lxor_u64; apply db_finish_range. Qed.

#[export] Hint Resolve make_incarnation_id_range : word.

(** ** The mixers are injective on words *)

(** [x ^ (x >> k)] determines [x]: the difference is its own shift. *)
Lemma xorshift_inj k x y :
  0 < k -> 0 <= x -> 0 <= y -> x ^^ (x >>> k) = y ^^ (y >>> k) -> x = y.
Proof.
  intros Hk Hx Hy H.
  apply Z.lxor_eq. set (z := Z.lxor x y).
  assert (0 <= z) by (apply Z.lxor_nonneg; lia).
  assert (Hz : z = z >>> k).
  { unfold z. rewrite Z.shiftr_lxor. apply Z.lxor_eq.
    rewrite (Z.lxor_comm (x >>> k)), Z.lxor_assoc, <-(Z.lxor_assoc y).
    rewrite <-H, Z.lxor_assoc, Z.lxor_nilpotent, Z.lxor_0_r.
    apply Z.lxor_nilpotent. }
  rewrite Z.shiftr_div_pow2 in Hz by lia.
  assert (1 < 2 ^ k) by (apply Z.pow_gt_1; lia).
  destruct (Z.eq_dec z 0); [done |].
  pose proof (Z.div_lt z (2 ^ k)). lia.
Qed.

Lemma wrap64_mul_inj c ci x y :
  wrap64 (c * ci) = 1 -> in_u64 x -> in_u64 y -> x *% c = y *% c -> x = y.
Proof.
  intros Hc Hx Hy H. rewrite !wrap64_mod in *.
  assert (E : forall z, (z * c) mod 18446744073709551616 * ci mod 18446744073709551616
                        = z mod 18446744073709551616).
  { intros z. rewrite Zmult_mod_idemp_l, <-Z.mul_assoc, <-Zmult_mod_idemp_r, Hc.
    by rewrite Z.mul_1_r. }
  rewrite <-(Z.mod_small x 18446744073709551616), <-(Z.mod_small y 18446744073709551616) by done.
  by rewrite <-(E x), <-(E y), H.
Qed.

Lemma wrap64_add_inj c x y : in_u64 x -> in_u64 y -> x +% c = y +% c -> x = y.
Proof.
  intros Hx Hy H. rewrite !wrap64_mod in H.
  assert (E : forall z, ((z + c) mod 18446744073709551616 - c) mod 18446744073709551616
                        = z mod 18446744073709551616).
  { intros z. rewrite Zminus_mod_idemp_l. f_equal. lia. }
  rewrite <-(Z.mod_small x 18446744073709551616), <-(Z.mod_small y 18446744073709551616) by done.
  by rewrite <-(E x), <-(E y), H.
Qed.

Ltac word_inj :=
  repeat match goal with
  | H : (?x ^^ (?x >>> ?k))%word = (?y ^^ (?y >>> ?k))%word |- _ =>
      apply xorshift_inj in H;
        [| lia | apply wrap64_range || word_lia | apply wrap64_range || word_lia]
  end.

Lemma mix64_inj x y : in_u64 x -> in_u64 y -> mix64 x = mix64 y -> x = y.
Proof.
  intros Hx Hy H. unfold mix64 in H. word_inj.
  apply (wrap64_mul_inj _ 0x319642B2D24D8EC3) in H; [| done | auto with word..]. word_inj.
  apply (wrap64_mul_inj _ 0x96DE1B173F119089) in H; [| done | auto with word..]. word_inj.
  by apply wrap64_add_inj in H.
Qed.

Lemma avalanch64_inj x y : in_u64 x -> in_u64 y -> avalanch64 x = avalanch64 y -> x = y.
Proof.
  intros Hx Hy H. unfold avalanch64 in H. word_inj.
  apply (wrap64_mul_inj _ 0x9CB4B2F8129337DB) in H; [| done | auto with word..]. word_inj.
  apply (wrap64_mul_inj _ 0x4F74430C22A54005) in H; [| done | auto with word..]. word_inj.
  done.
Qed.

(** ** A digest separates inputs that differ in one word *)

(** Two builders that differ in both halves and agree on the length. *)
Definition apart (b c : DigestBuilder) : Prop :=
  builder_range b /\ builder_range c /\
  db_lo b <> db_lo c /\ db_hi b <> db_hi c /\ db_length b = db_length c.

Lemma db_u64_apart_value v w b :
  builder_range b -> in_u64 v -> in_u64 w -> v <> w -> apart (db_u64 v b) (db_u64 w b).
Proof.
  intros (Hl & Hh & Hn) Hv Hw Hne. split_and!; try apply db_u64_range; simpl; try done.
  - intros H. apply Hne.
    apply avalanch64_inj, lxor_cancel_l, mix64_inj, wrap64_add_inj in H; auto with word.
  - intros H. apply Hne. rewrite !(Z.add_comm (db_hi b)) in H.
    apply avalanch64_inj, wrap64_add_inj, mix64_inj, lxor_cancel_r in H; auto with word;
      apply lxor_u64; auto; word_lia.
Qed.

Lemma db_u64_apart v b c : apart b c -> apart (db_u64 v b) (db_u64 v c).
Proof.
  intros ((Hl & Hh & Hn) & (Hl' & Hh' & Hn') & Hlo & Hhi & Hlen).
  split_and!; try apply db_u64_range; simpl.
  - intros H. apply Hlo. apply avalanch64_inj, lxor_cancel_r in H; auto with word.
  - intros H. apply Hhi. apply avalanch64_inj, wrap64_add_inj in H; auto with word.
  - by rewrite Hlen.
Qed.

Lemma db_bytes_apart i data b c :
  Forall in_u8 data -> apart b c -> apart (db_bytes_from i data b) (db_bytes_from i data c).
Proof.
  revert i b c. induction data as [|p data IH]; [done |].
  intros i b c [Hp Hd]%Forall_cons ((Hl & Hh & Hn) & (Hl' & Hh' & Hn') & Hlo & Hhi & Hlen).
  apply IH; [done |].
  assert (Hsh : in_u64 (Z.shiftl p ((i mod 8) * 8))).
  { pose proof (Z.mod_pos_bound i 8 ltac:(lia)).
    rewrite Z.shiftl_mul_pow2 by lia. unfold in_u8, in_u64 in *.
    assert (0 < 2 ^ ((i mod 8) * 8)) by (apply Z.pow_pos_nonneg; lia).
    assert (2 ^ ((i mod 8) * 8) <= 2 ^ 56) by (apply Z.pow_le_mono_r; lia).
    change (2 ^ 56) with 72057594037927936 in *. split; nia. }
  split_and!; simpl; auto with word; try (split_and!; simpl; auto with word; fail).
  - intros H. apply Hlo. apply avalanch64_inj, lxor_cancel_r in H; auto with word.
  - intros H. apply Hhi.
    apply avalanch64_inj, wrap64_add_inj, wrap64_add_inj in H; auto with word.
Qed.

Lemma db_text_apart data b c :
  Forall in_u8 data -> apart b c -> apart (db_text data b) (db_text data c).
Proof.
  intros Hd Hbc. destruct (db_bytes_apart 0 data b c Hd Hbc)
    as ((Hl & Hh & Hn) & (Hl' & Hh' & Hn') & Hlo & Hhi & Hlen).
  unfold db_text, db_bytes. split_and!; simpl; auto with word;
    try (split_and!; simpl; auto with word; fail).
  by rewrite Hlen.
Qed.

Lemma db_finish_apart b c :
  apart b c -> lo (db_finish b) <> lo (db_finish c) /\ hi (db_finish b) <> hi (db_finish c).
Proof.
  intros ((Hl & Hh & Hn) & (Hl' & Hh' & Hn') & Hlo & Hhi & Hlen). simpl. rewrite Hlen.
  split; intros H; [apply Hlo | apply Hhi];
    apply avalanch64_inj, lxor_cancel_r in H; auto with word.
Qed.

(** Absorbing a list of words. *)
Definition db_words (ws : list Z) (b : DigestBuilder) : DigestBuilder :=
  fold_left (fun b w => db_u64 w b) ws b.

Lemma db_words_app ws vs b : db_words (ws ++ vs) b = db_words vs (db_words ws b).
Proof. apply fold_left_app. Qed.

Lemma db_words_apart ws b c : apart b c -> apart (db_words ws b) (db_words ws c).
Proof. revert b c. induction ws; simpl; auto using db_u64_apart. Qed.

Lemma db_words_range ws b : builder_range b -> builder_range (db_words ws b).
Proof. revert b. induction ws; simpl; auto with word. Qed.

#[export] Hint Resolve db_words_range : word.

(** The digest of a word list under a key. *)
Definition words_digest (key : Digest128) (ws : list Z) : Digest128 :=
  db_finish (db_words ws (db_keyed key)).

Lemma words_digest_one_word key pre v w post :
  digest_range key -> in_u64 v -> in_u64 w -> v <> w ->
  lo (words_digest key (pre ++ v :: post)) <> lo (words_digest key (pre ++ w :: post)) /\
  hi (words_digest key (pre ++ v :: post)) <> hi (words_digest key (pre ++ w :: post)).
Proof.
  intros Hk Hv Hw Hne. unfold words_digest.
  rewrite !db_words_app. apply db_finish_apart. simpl.
  apply db_words_apart, db_u64_apart_value; auto with word.
Qed.

Lemma digest_eqb_eq a b : digest_eqb a b = true <-> a = b.
Proof.
  unfold digest_eqb. rewrite andb_true_iff, !Z.eqb_eq.
  destruct a, b; simpl. split; [by intros [-> ->] | by intros [= -> ->]].
Qed.

Lemma digest_eqb_refl a : digest_eqb a a = true.
Proof. by apply digest_eqb_eq. Qed.

Lemma digest_eqb_neq a b : a <> b -> digest_eqb a b = false.
Proof. intros H. destruct (digest_eqb a b) eqn:E; [| done]. by apply digest_eqb_eq in E. Qed.

Lemma is_zero_iff d : is_zero d = true <-> d = digest_zero.
Proof.
  unfold is_zero, digest_zero. rewrite andb_true_iff, !Z.eqb_eq.
  destruct d; simpl. split; [by intros [-> ->] | by intros [= -> ->]].
Qed.

(** Two word lists that differ in exactly one place have different digests. *)
Lemma words_digest_neq key pre v w post :
  digest_range key -> in_u64 v -> in_u64 w -> v <> w ->
  words_digest key (pre ++ v :: post) <> words_digest key (pre ++ w :: post).
Proof.
  intros Hk Hv Hw Hne H.
  destruct (words_digest_one_word key pre v w post) as [Hl _]; auto. by rewrite H in Hl.
Qed.

(** ** Attempt identities *)

Lemma attempt_raw_lo_inj s c d :
  in_u64 s -> in_u64 c -> in_u64 d -> lo (attempt_raw s c) = lo (attempt_raw s d) -> c = d.
Proof.
  intros Hs Hc Hd H. simpl in H.
  apply mix64_inj, lxor_cancel_l in H; auto with word.
  by apply (wrap64_mul_inj _ 0xF1DE83E19937733D) in H; auto with word.
Qed.

Lemma generator_next_set g : is_zero (fst (generator_next g)) = false.
Proof. unfold generator_next. simpl. by destruct (is_zero (attempt_raw _ _)) eqn:E. Qed.
