(* ===== verification/Random.v ===== *)
(** * Random numbers of a process (the start of strong.cpp)

    [random_u64] draws from one atomic word that all threads share: the first call
    seeds it, and every call advances it with a compare-and-exchange that may fail.
    Its loads, stores and exchanges are the steps of an interleaving.  Calls that
    overlap draw what calls one after the other would. *)

From S2P Require Import Prelude Digest.
Local Open Scope word_scope.
Local Open Scope Z_scope.

(** [first] and [second] are what the random device answers, [now] the clock and
    [pid] the process. *)
Definition entropy_from_system (first second now pid : Z) : Z :=
  let value := Z.shiftl first 32 ^^ second in
  let value := value ^^ now in
  let value := value ^^ (pid *% 0x9E3779B97F4A7C15) in
  avalanch64 value.

(** The number a call returns when it advances the state from [current]. *)
Definition draw (current : Z) : Z := avalanch64 (mix64 current ^^ current).

(** Where a call is: before its load, before it asks the system for entropy, before
    the store of its seed, before an exchange, or done. *)
Inductive Caller := Loading | Seeding | Storing (seed : Z) | Trying (current : Z) | Drawn (value : Z).

(** One access of a call to the shared word [state].  [entropy] is what
    [entropy_from_system] returns; a weak exchange may fail for no reason, and one
    that fails reads the word. *)
Definition caller_step (entropy : Z) (spurious : bool) (state : Z) (c : Caller) : Z * Caller :=
  match c with
  | Loading => (state, if state =? 0 then Seeding else Trying state)
  | Seeding => (state, Storing entropy)
  | Storing seed => (seed, Trying seed)
  | Trying current =>
      if negb spurious && (state =? current) then (mix64 current, Drawn (draw current))
      else (state, Trying state)
  | Drawn value => (state, Drawn value)
  end.

(** The calls in progress take turns: [i] is whose it is. *)
Record Turn := mkTurn { tn_caller : nat; tn_entropy : Z; tn_spurious : bool }.

(** The word, the calls, and the numbers drawn so far in the order they were drawn. *)
Definition random_step (t : Turn) (x : Z * list Caller * list Z) : Z * list Caller * list Z :=
  let '(state, callers, drawn) := x in
  match callers !! tn_caller t with
  | None | Some (Drawn _) => x
  | Some c =>
      let '(state, c) := caller_step (tn_entropy t) (tn_spurious t) state c in
      (state, <[tn_caller t := c]> callers, drawn ++ (if c is Drawn value then [value] else []))
  end.

Definition random_run (turns : list Turn) (x : Z * list Caller * list Z) : Z * list Caller * list Z :=
  foldl (fun x t => random_step t x) x turns.

(** [n] calls one after the other from [state], with the word they leave. *)
Fixpoint sequential (n : nat) (state : Z) : Z * list Z :=
  match n with
  | O => (state, [])
  | S n => let '(last, drawn) := sequential n (mix64 state) in (last, draw state :: drawn)
  end.

(** ** Overlapping calls *)

Definition past_seeding (c : Caller) : Prop :=
  match c with Seeding | Storing _ => False | _ => True end.

Lemma sequential_snoc n state :
  sequential (S n) state =
  (mix64 (sequential n state).1, (sequential n state).2 ++ [draw (sequential n state).1]).
Proof.
  revert state. induction n as [|n IH]; intros state; [done |]. change (sequential (S (S n)) state) with
    (let '(last, drawn) := sequential (S n) (mix64 state) in (last, draw state :: drawn)).
  rewrite IH. simpl. by destruct (sequential n (mix64 state)).
Qed.

#[local] Arguments random_step : simpl never.

(** A turn draws the next number, or none. *)
Lemma random_step_sequential n seed t callers x :
  (sequential n seed).1 <> 0 -> Forall past_seeding callers ->
  random_step t ((sequential n seed).1, callers, (sequential n seed).2) = x ->
  Forall past_seeding x.1.2 /\ exists m, (m = n \/ m = S n) /\ (x.1.1, x.2) = sequential m seed.
Proof.
  intros H0 Hc <-. unfold random_step. set (s := sequential n seed) in *.
  assert (Hs : (s.1, s.2) = s) by (by destruct s).
  destruct (callers !! tn_caller t) as [c|] eqn:Ec; [| split; [done | exists n; auto]].
  assert (Hp : past_seeding c) by (by eapply Forall_lookup_1).
  destruct c as [| |sd|cur|v]; try done; simpl.
  - destruct (Z.eqb_spec s.1 0) as [?|_]; [done |]. rewrite app_nil_r. split; [by apply Forall_insert |].
    exists n. auto.
  - destruct (_ && _) eqn:E; simpl.
    + apply andb_prop in E as [_ <-%Z.eqb_eq]. split; [by apply Forall_insert |].
      exists (S n). split; [auto |]. by rewrite sequential_snoc.
    + rewrite app_nil_r. split; [by apply Forall_insert |]. exists n. auto.
  - split; [done |]. exists n. auto.
Qed.

(** Overlapping calls of [random_u64] draw what the same number of calls one after
    the other draw, in the order of their exchanges: once the word is seeded, and as
    long as it does not become zero, no interleaving and no spurious failure makes
    two calls use the same state. *)
Theorem random_calls_linearize turns seed callers :
  (forall n, (n <= length turns)%nat -> (sequential n seed).1 <> 0) -> Forall past_seeding callers ->
  exists n, let x := random_run turns (seed, callers, []) in
    (x.1.1, x.2) = sequential n seed /\ (n <= length turns)%nat.
Proof.
  intros H0.
  assert (G : forall turns k callers, (forall n, (n <= k + length turns)%nat -> (sequential n seed).1 <> 0) ->
    Forall past_seeding callers ->
    exists n, let x := random_run turns ((sequential k seed).1, callers, (sequential k seed).2) in
      (x.1.1, x.2) = sequential n seed /\ (n <= k + length turns)%nat).
  { clear turns callers H0. intros turns. induction turns as [|t turns IH]; intros k cs H0 Hcs.
    - exists k. simpl. split; [by destruct (sequential k seed) | lia].
    - simpl length in H0. destruct (random_step_sequential k seed t cs _ (H0 k ltac:(lia)) Hcs eq_refl) as (Hcs' & m & Hm & Hx).
      cbv zeta. unfold random_run in *. simpl foldl.
      destruct (random_step t _) as [[st cs'] dr]. simpl in Hcs', Hx.
      destruct (IH m cs') as (n & Hn & Hl); [intros n Hn; apply H0; lia | done |].
      rewrite <-Hx in Hn. exists n. split; [exact Hn | simpl; lia]. }
  intros Hc. destruct (G turns 0%nat callers H0 Hc) as (n & Hn & Hl). by exists n.
Qed.

(** Alone, a call is done after at most four accesses. *)
Lemma random_call_completes entropy state :
  exists value, (random_run (replicate 4 (mkTurn 0 entropy false)) (state, [Loading], [])).1.2 = [Drawn value].
Proof.
  unfold random_run, random_step. simpl. destruct (Z.eqb_spec state 0) as [E|E]; simpl; rewrite Z.eqb_refl; simpl; by eexists.
Qed.

(** Two calls that load the same word: the exchange of the second fails once. *)
Example overlapping_draws :
  let turn i := mkTurn i 0 false in
  random_run [turn 0%nat; turn 1%nat; turn 0%nat; turn 1%nat; turn 1%nat] (7, [Loading; Loading], []) =
  ((sequential 2 7).1, [Drawn (draw 7); Drawn (draw (mix64 7))], (sequential 2 7).2).
Proof. vm_compute. reflexivity. Qed.
