(* ===== verification/Ledger.v ===== *)
(** * The credit accounting core (include/creditfabric/ledger.hpp, src/ledger.cpp)

    [CreditTotals] are the committed counters of one account, [CreditView] the
    derived buckets, [LedgerPlan] the object that stages one mutation: every
    mutator validates its candidate against the closure invariants before it
    publishes it.

    Besides the concrete operations this file states the abstract accounting
    model, five buckets that partition the capacity ([Buckets]), with one
    transition per operation, and proves that the plan refines it. *)

From S2P Require Import Prelude Checked Status Digest.
Local Open Scope word_scope.
Local Open Scope Z_scope.

(** ** Counters and derived view *)

Record CreditTotals := mkTotals {
  issued : Z;
  consumed : Z;
  returned : Z;
  stale : Z;
  spent : Z;
  protected_credits : Z;
}.

Definition totals_zero : CreditTotals := mkTotals 0 0 0 0 0 0.

Definition totals_eqb (a b : CreditTotals) : bool :=
  (issued a =? issued b) && (consumed a =? consumed b) && (returned a =? returned b) &&
  (stale a =? stale b) && (spent a =? spent b) && (protected_credits a =? protected_credits b).

(** Field updates of a candidate. *)
Definition set_issued (v : Z) (t : CreditTotals) : CreditTotals :=
  mkTotals v (consumed t) (returned t) (stale t) (spent t) (protected_credits t).
Definition set_consumed (v : Z) (t : CreditTotals) : CreditTotals :=
  mkTotals (issued t) v (returned t) (stale t) (spent t) (protected_credits t).
Definition set_returned (v : Z) (t : CreditTotals) : CreditTotals :=
  mkTotals (issued t) (consumed t) v (stale t) (spent t) (protected_credits t).
Definition set_stale (v : Z) (t : CreditTotals) : CreditTotals :=
  mkTotals (issued t) (consumed t) (returned t) v (spent t) (protected_credits t).
Definition set_spent (v : Z) (t : CreditTotals) : CreditTotals :=
  mkTotals (issued t) (consumed t) (returned t) (stale t) v (protected_credits t).
Definition set_protected (v : Z) (t : CreditTotals) : CreditTotals :=
  mkTotals (issued t) (consumed t) (returned t) (stale t) (spent t) v.

Record CreditView := mkView {
  v_capacity : Z;
  v_issued : Z;
  v_consumed : Z;
  v_returned : Z;
  v_stale : Z;
  v_spent : Z;
  v_protected : Z;
  v_in_flight : Z;
  v_outstanding : Z;
  v_quarantined : Z;
  v_available : Z;
  v_closed : bool;
}.

Definition view_zero : CreditView := mkView 0 0 0 0 0 0 0 0 0 0 0 false.

Definition view_exhausted (v : CreditView) : bool := v_available v =? 0.

(** The assignments of [compute_view] before [fill_derived]. *)
Definition view_of_totals (capacity : Z) (t : CreditTotals) : CreditView :=
  mkView capacity (issued t) (consumed t) (returned t) (stale t) (spent t)
    (protected_credits t) 0 0 0 0 false.

Definition set_v_closed (c : bool) (v : CreditView) : CreditView :=
  mkView (v_capacity v) (v_issued v) (v_consumed v) (v_returned v) (v_stale v) (v_spent v)
    (v_protected v) (v_in_flight v) (v_outstanding v) (v_quarantined v) (v_available v) c.
Definition set_v_in_flight (x : Z) (v : CreditView) : CreditView :=
  mkView (v_capacity v) (v_issued v) (v_consumed v) (v_returned v) (v_stale v) (v_spent v)
    (v_protected v) x (v_outstanding v) (v_quarantined v) (v_available v) (v_closed v).
Definition set_v_outstanding (x : Z) (v : CreditView) : CreditView :=
  mkView (v_capacity v) (v_issued v) (v_consumed v) (v_returned v) (v_stale v) (v_spent v)
    (v_protected v) (v_in_flight v) x (v_quarantined v) (v_available v) (v_closed v).
Definition set_v_quarantined (x : Z) (v : CreditView) : CreditView :=
  mkView (v_capacity v) (v_issued v) (v_consumed v) (v_returned v) (v_stale v) (v_spent v)
    (v_protected v) (v_in_flight v) (v_outstanding v) x (v_available v) (v_closed v).
Definition set_v_available (x : Z) (v : CreditView) : CreditView :=
  mkView (v_capacity v) (v_issued v) (v_consumed v) (v_returned v) (v_stale v) (v_spent v)
    (v_protected v) (v_in_flight v) (v_outstanding v) (v_quarantined v) x (v_closed v).

(** The early returns leave the fields assigned so far in place. *)
Definition fill_derived (view : CreditView) : CreditView :=
  let view := set_v_closed false view in
  if v_returned view >? v_issued view then view else
  let view := set_v_in_flight (v_issued view -% v_returned view) view in
  let '(over, reserved) := add_overflow (v_spent view) (v_stale view) in
  if over then view else
  if reserved >? v_in_flight view then view else
  let view := set_v_outstanding (v_in_flight view -% reserved) view in
  let view := set_v_quarantined (v_stale view) view in
  let '(over, claimed) := add_overflow (v_protected view) (v_in_flight view) in
  if over then view else
  if claimed >? v_capacity view then view else
  let view := set_v_available (v_capacity view -% claimed) view in
  set_v_closed true view.

Definition compute_view (capacity : Z) (totals : CreditTotals) : CreditView :=
  let view := fill_derived (view_of_totals capacity totals) in
  if negb (v_closed view)
  then set_v_available 0 (set_v_quarantined (v_stale view)
         (set_v_outstanding 0 (set_v_in_flight 0 view)))
  else view.

Definition check_invariants (capacity : Z) (totals : CreditTotals) : Status :=
  if returned totals >? issued totals then refused_status RInvalidState 4 else
  let in_flight := issued totals -% returned totals in
  let '(over, reserved) := add_overflow (spent totals) (stale totals) in
  if over then refused_status RCountOverflow 3 else
  if reserved >? in_flight then refused_status RInvalidState 3 else
  let '(over, claimed) := add_overflow (protected_credits totals) in_flight in
  if over then refused_status RCountOverflow 5 else
  if claimed >? capacity then refused_status RInvalidState 6 else
  success.

(** [CreditView::digest]. *)
Definition view_digest (v : CreditView) : Digest128 :=
  db_keyed (mkDigest 0x1F2E3D4C5B6A7988 0x88796A5B4C3D2E1F)
    |> db_u64 (v_capacity v) |> db_u64 (v_issued v) |> db_u64 (v_consumed v)
    |> db_u64 (v_returned v) |> db_u64 (v_stale v) |> db_u64 (v_spent v)
    |> db_u64 (v_protected v) |> db_u64 (v_in_flight v) |> db_u64 (v_outstanding v)
    |> db_u64 (v_available v) |> db_boolean (v_closed v) |> db_finish.

(** ** The staged plan *)

Record LedgerPlan := mkPlan {
  lp_capacity : Z;
  lp_totals : CreditTotals;
  lp_status : Status;
}.

(** The constructor [LedgerPlan(capacity, current)]. *)
Definition plan_make (capacity : Z) (current : CreditTotals) : LedgerPlan :=
  mkPlan capacity current (check_invariants capacity current).

Definition plan_view (p : LedgerPlan) : CreditView := compute_view (lp_capacity p) (lp_totals p).

Definition plan_valid (p : LedgerPlan) : bool := status_ok (lp_status p).

Definition plan_refuse (r : Reason) (d : Z) (p : LedgerPlan) : LedgerPlan * bool :=
  (mkPlan (lp_capacity p) (lp_totals p) (refused_status r d), false).

Definition obligation_floor (p : LedgerPlan) : Z :=
  let t := lp_totals p in
  let in_flight := if returned t <=? issued t then issued t -% returned t else 0 in
  saturating_add (protected_credits t) in_flight.

Definition plan_commit (candidate : CreditTotals) (p : LedgerPlan) : LedgerPlan * bool :=
  if negb (status_ok (lp_status p)) then (p, false) else
  let verdict := check_invariants (lp_capacity p) candidate in
  if negb (status_ok verdict)
  then (mkPlan (lp_capacity p) (lp_totals p) verdict, false)
  else (mkPlan (lp_capacity p) candidate (lp_status p), true).

Definition plan_issue (count min_issue max_issue : Z) (p : LedgerPlan) : LedgerPlan * bool :=
  if negb (status_ok (lp_status p)) then (p, false) else
  if count =? 0 then plan_refuse RCountZero 0 p else
  if (count <? min_issue) || (count >? max_issue) then plan_refuse RPolicyRefused count p else
  let current := plan_view p in
  if v_available current <? count
  then plan_refuse RInsufficientAvailable (v_available current) p else
  let candidate := lp_totals p in
  let '(over, x) := add_overflow (issued candidate) count in
  if over then plan_refuse RCountOverflow x p else
  plan_commit (set_issued x candidate) p.

Definition plan_consume (count : Z) (p : LedgerPlan) : LedgerPlan * bool :=
  if negb (status_ok (lp_status p)) then (p, false) else
  if count =? 0 then plan_refuse RCountZero 0 p else
  let current := plan_view p in
  if v_outstanding current <? count
  then plan_refuse RInsufficientOutstanding (v_outstanding current) p else
  let candidate := lp_totals p in
  let '(over, x) := add_overflow (spent candidate) count in
  if over then plan_refuse RCountOverflow x p else
  let candidate := set_spent x candidate in
  let '(over, y) := add_overflow (consumed candidate) count in
  if over then plan_refuse RCountOverflow y p else
  plan_commit (set_consumed y candidate) p.

Definition plan_give_back (count : Z) (p : LedgerPlan) : LedgerPlan * bool :=
  if negb (status_ok (lp_status p)) then (p, false) else
  if count =? 0 then plan_refuse RCountZero 0 p else
  let current := plan_view p in
  let returnable := v_in_flight current -% v_stale current in
  if (v_in_flight current <? count) || (returnable <? count)
  then plan_refuse RInsufficientOutstanding returnable p else
  let candidate := lp_totals p in
  let from_spent := if spent candidate <? count then spent candidate else count in
  let candidate := set_spent (spent candidate -% from_spent) candidate in
  let '(over, x) := add_overflow (returned candidate) count in
  if over then plan_refuse RCountOverflow x p else
  plan_commit (set_returned x candidate) p.

Definition plan_protect (count : Z) (allowed : bool) (p : LedgerPlan) : LedgerPlan * bool :=
  if negb (status_ok (lp_status p)) then (p, false) else
  if negb allowed then plan_refuse RPolicyRefused 0 p else
  if count =? 0 then plan_refuse RCountZero 0 p else
  let current := plan_view p in
  if v_available current <? count
  then plan_refuse RInsufficientAvailable (v_available current) p else
  let candidate := lp_totals p in
  let '(over, x) := add_overflow (protected_credits candidate) count in
  if over then plan_refuse RCountOverflow x p else
  plan_commit (set_protected x candidate) p.

Definition plan_unprotect (count : Z) (p : LedgerPlan) : LedgerPlan * bool :=
  if negb (status_ok (lp_status p)) then (p, false) else
  if count =? 0 then plan_refuse RCountZero 0 p else
  if protected_credits (lp_totals p) <? count
  then plan_refuse RInsufficientProtected (protected_credits (lp_totals p)) p else
  let candidate := lp_totals p in
  plan_commit (set_protected (protected_credits candidate -% count) candidate) p.

Definition plan_retire_stale (count : Z) (p : LedgerPlan) : LedgerPlan * bool :=
  if negb (status_ok (lp_status p)) then (p, false) else
  if count =? 0 then plan_refuse RCountZero 0 p else
  let current := plan_view p in
  if v_outstanding current <? count
  then plan_refuse RInsufficientOutstanding (v_outstanding current) p else
  let candidate := lp_totals p in
  let '(over, x) := add_overflow (stale candidate) count in
  if over then plan_refuse RCountOverflow x p else
  plan_commit (set_stale x candidate) p.

Definition plan_quarantine_in_flight (p : LedgerPlan) : LedgerPlan * bool :=
  if negb (status_ok (lp_status p)) then (p, false) else
  let current := plan_view p in
  let amount := v_in_flight current -% v_stale current in
  if amount =? 0 then (p, true) else
  let candidate := set_spent 0 (lp_totals p) in
  let '(over, x) := add_overflow (stale candidate) amount in
  if over then plan_refuse RCountOverflow x p else
  plan_commit (set_stale x candidate) p.

Definition plan_revalidate_to_returned (count : Z) (p : LedgerPlan) : LedgerPlan * bool :=
  if negb (status_ok (lp_status p)) then (p, false) else
  if count =? 0 then plan_refuse RCountZero 0 p else
  if stale (lp_totals p) <? count then plan_refuse RNothingToRetire (stale (lp_totals p)) p else
  let candidate := lp_totals p in
  let candidate := set_stale (stale candidate -% count) candidate in
  let '(over, x) := add_overflow (returned candidate) count in
  if over then plan_refuse RCountOverflow x p else
  plan_commit (set_returned x candidate) p.

Definition plan_revalidate_to_consumed (count : Z) (p : LedgerPlan) : LedgerPlan * bool :=
  if negb (status_ok (lp_status p)) then (p, false) else
  if count =? 0 then plan_refuse RCountZero 0 p else
  if stale (lp_totals p) <? count then plan_refuse RNothingToRetire (stale (lp_totals p)) p else
  let candidate := lp_totals p in
  let candidate := set_stale (stale candidate -% count) candidate in
  let '(over, x) := add_overflow (spent candidate) count in
  if over then plan_refuse RCountOverflow x p else
  let candidate := set_spent x candidate in
  let '(over, y) := add_overflow (consumed candidate) count in
  if over then plan_refuse RCountOverflow y p else
  plan_commit (set_consumed y candidate) p.

Definition plan_set_capacity (new_capacity max_capacity : Z) (allow_growth : bool)
    (p : LedgerPlan) : LedgerPlan * bool :=
  if negb (status_ok (lp_status p)) then (p, false) else
  if new_capacity =? 0 then plan_refuse RCapacityOutOfRange 0 p else
  if new_capacity >? max_capacity then plan_refuse RCapacityExceeded max_capacity p else
  if (new_capacity >? lp_capacity p) && negb allow_growth
  then plan_refuse RPolicyRefused (lp_capacity p) p else
  let floor := obligation_floor p in
  if new_capacity <? floor then plan_refuse RCapacityShrinkViolation floor p else
  (mkPlan new_capacity (lp_totals p) (lp_status p), true).

(** ** The closure invariants as arithmetic *)

Definition totals_range (t : CreditTotals) : Prop :=
  in_u64 (issued t) /\ in_u64 (consumed t) /\ in_u64 (returned t) /\
  in_u64 (stale t) /\ in_u64 (spent t) /\ in_u64 (protected_credits t).

(** Closure and partition, on exact integers. *)
Record ledger_ok (capacity : Z) (t : CreditTotals) : Prop := {
  ok_capacity : in_u64 capacity;
  ok_range : totals_range t;
  ok_flight : returned t <= issued t;
  ok_partition : spent t + stale t <= issued t - returned t;
  ok_closure : protected_credits t + (issued t - returned t) <= capacity;
}.

Definition plan_ok (p : LedgerPlan) : Prop :=
  status_ok (lp_status p) = true /\ ledger_ok (lp_capacity p) (lp_totals p).

Create HintDb ledger discriminated.

(** Expose the arithmetic of a well-formed ledger to [lia]. *)
Ltac ledger_lia :=
  repeat match goal with
  | H : plan_ok _ |- _ => destruct H
  | H : ledger_ok _ _ |- _ => destruct H
  end;
  unfold totals_range in *; destruct_and?; simpl in *; word_lia.

Lemma check_invariants_ok_iff capacity t :
  in_u64 capacity -> totals_range t ->
  status_ok (check_invariants capacity t) = true <-> ledger_ok capacity t.
Proof.
  intros Hc Ht. pose proof Ht as (Hi & Hco & Hr & Hst & Hsp & Hp).
  unfold check_invariants.
  destruct (Z.gtb_spec (returned t) (issued t)); simpl.
  { split; [done | intros []; lia]. }
  rewrite wrap64_small by word_lia.
  destruct (add_overflow_cases (spent t) (stale t)) as [[? ->]|[? ->]]; [done..| |]; simpl.
  2: { split; [done | intros []; word_lia]. }
  destruct (Z.gtb_spec (spent t + stale t) (issued t - returned t)); simpl.
  { split; [done | intros []; lia]. }
  destruct (add_overflow_cases (protected_credits t) (issued t - returned t))
    as [[? ->]|[? ->]]; [done | word_lia | |]; simpl.
  2: { split; [done | intros []; word_lia]. }
  destruct (Z.gtb_spec (protected_credits t + (issued t - returned t)) capacity); simpl.
  { split; [done | intros []; lia]. }
  split; [| done]. intros _. constructor; auto; lia.
Qed.

Lemma check_invariants_success capacity t :
  ledger_ok capacity t -> check_invariants capacity t = success.
Proof.
  intros H. pose proof H as [? Ht]. apply check_invariants_ok_iff in H; auto.
  unfold check_invariants in *. by repeat (case_match; try done).
Qed.

(** The view of a well-formed ledger, in exact arithmetic. *)
Definition exact_view (capacity : Z) (t : CreditTotals) : CreditView :=
  let f := issued t - returned t in
  mkView capacity (issued t) (consumed t) (returned t) (stale t) (spent t) (protected_credits t)
    f (f - (spent t + stale t)) (stale t) (capacity - (protected_credits t + f)) true.

Lemma compute_view_ok capacity t :
  ledger_ok capacity t -> compute_view capacity t = exact_view capacity t.
Proof.
  intros [Hc (Hi & Hco & Hr & Hst & Hsp & Hp) Hf Hpa Hcl].
  unfold compute_view, fill_derived, view_of_totals. simpl.
  destruct (Z.gtb_spec (returned t) (issued t)); [lia |]. simpl.
  rewrite (wrap64_small (issued t - returned t)) by word_lia.
  rewrite (add_overflow_ok (spent t)) by word_lia. simpl.
  destruct (Z.gtb_spec (spent t + stale t) (issued t - returned t)); [lia |]. simpl.
  rewrite (wrap64_small (_ - (spent t + stale t))) by word_lia.
  rewrite add_overflow_ok by word_lia. simpl.
  destruct (Z.gtb_spec (protected_credits t + (issued t - returned t)) capacity); [lia |].
  simpl. by rewrite (wrap64_small (capacity - _)) by word_lia.
Qed.

(** A view marked closed comes from a well-formed ledger; a broken one offers
    nothing to issue or spend. *)
Lemma compute_view_closed capacity t :
  in_u64 capacity -> totals_range t ->
  v_closed (compute_view capacity t) = status_ok (check_invariants capacity t).
Proof.
  intros Hc Ht. unfold compute_view, fill_derived, check_invariants, view_of_totals. simpl.
  repeat (case_match; simpl; try done; simplify_eq; try congruence).
Qed.

Lemma compute_view_broken capacity t :
  v_closed (compute_view capacity t) = false ->
  v_available (compute_view capacity t) = 0 /\ v_outstanding (compute_view capacity t) = 0 /\
  v_in_flight (compute_view capacity t) = 0.
Proof.
  unfold compute_view. destruct (v_closed (fill_derived _)) eqn:E; simpl; [congruence | done].
Qed.

(** The constructor of a plan over a well-formed ledger. *)
Lemma plan_make_ok capacity t :
  ledger_ok capacity t -> plan_make capacity t = mkPlan capacity t success.
Proof. intros H. unfold plan_make. by rewrite check_invariants_success. Qed.

Lemma plan_make_plan_ok capacity t : ledger_ok capacity t -> plan_ok (plan_make capacity t).
Proof. intros H. rewrite plan_make_ok by done. by split. Qed.

Lemma plan_commit_ok candidate p :
  status_ok (lp_status p) = true -> ledger_ok (lp_capacity p) candidate ->
  plan_commit candidate p = (mkPlan (lp_capacity p) candidate (lp_status p), true).
Proof.
  intros Hs Hc. unfold plan_commit. by rewrite Hs, check_invariants_success.
Qed.

#[export] Hint Resolve plan_make_plan_ok : ledger.

(** ** The abstract accounting model *)

(** Every unit of capacity is in exactly one bucket. *)
Record Buckets := mkBuckets {
  b_available : Z;
  b_protected : Z;
  b_outstanding : Z;
  b_spent : Z;
  b_stale : Z;
}.

Definition bucket_sum (b : Buckets) : Z :=
  b_available b + b_protected b + b_outstanding b + b_spent b + b_stale b.

Definition buckets_nonneg (b : Buckets) : Prop :=
  0 <= b_available b /\ 0 <= b_protected b /\ 0 <= b_outstanding b /\
  0 <= b_spent b /\ 0 <= b_stale b.

(** The operations of [LedgerPlan] as one type. *)
Inductive LedgerOp :=
| LIssue (count min_issue max_issue : Z)
| LConsume (count : Z)
| LGiveBack (count : Z)
| LProtect (count : Z) (allowed : bool)
| LUnprotect (count : Z)
| LRetireStale (count : Z)
| LQuarantine
| LToReturned (count : Z)
| LToConsumed (count : Z)
| LSetCapacity (new_capacity max_capacity : Z) (allow_growth : bool).

Definition run_op (op : LedgerOp) (p : LedgerPlan) : LedgerPlan * bool :=
  match op with
  | LIssue n mn mx => plan_issue n mn mx p
  | LConsume n => plan_consume n p
  | LGiveBack n => plan_give_back n p
  | LProtect n a => plan_protect n a p
  | LUnprotect n => plan_unprotect n p
  | LRetireStale n => plan_retire_stale n p
  | LQuarantine => plan_quarantine_in_flight p
  | LToReturned n => plan_revalidate_to_returned n p
  | LToConsumed n => plan_revalidate_to_consumed n p
  | LSetCapacity n mx g => plan_set_capacity n mx g p
  end.

(** The word arguments of an operation. *)
Definition op_range (op : LedgerOp) : Prop :=
  match op with
  | LIssue n mn mx => in_u64 n
  | LConsume n | LGiveBack n | LProtect n _ | LUnprotect n | LRetireStale n
  | LToReturned n | LToConsumed n => in_u64 n
  | LQuarantine => True
  | LSetCapacity n mx _ => in_u64 n
  end.

(** The transitions of the abstract model: credit moves between buckets, and
    only [set capacity] changes their sum.  A return hands spent credit back
    before spendable credit. *)
Inductive bucket_step : LedgerOp -> Buckets -> Buckets -> Prop :=
| step_issue n mn mx a p o s t :
    0 < n <= a -> mn <= n <= mx ->
    bucket_step (LIssue n mn mx) (mkBuckets a p o s t) (mkBuckets (a - n) p (o + n) s t)
| step_consume n a p o s t :
    0 < n <= o ->
    bucket_step (LConsume n) (mkBuckets a p o s t) (mkBuckets a p (o - n) (s + n) t)
| step_give_back n k a p o s t :
    0 < n <= o + s -> k = Z.min s n ->
    bucket_step (LGiveBack n) (mkBuckets a p o s t)
      (mkBuckets (a + n) p (o - (n - k)) (s - k) t)
| step_protect n a p o s t :
    0 < n <= a ->
    bucket_step (LProtect n true) (mkBuckets a p o s t) (mkBuckets (a - n) (p + n) o s t)
| step_unprotect n a p o s t :
    0 < n <= p ->
    bucket_step (LUnprotect n) (mkBuckets a p o s t) (mkBuckets (a + n) (p - n) o s t)
| step_retire n a p o s t :
    0 < n <= o ->
    bucket_step (LRetireStale n) (mkBuckets a p o s t) (mkBuckets a p (o - n) s (t + n))
| step_quarantine a p o s t :
    bucket_step LQuarantine (mkBuckets a p o s t) (mkBuckets a p 0 0 (t + o + s))
| step_to_returned n a p o s t :
    0 < n <= t ->
    bucket_step (LToReturned n) (mkBuckets a p o s t) (mkBuckets (a + n) p o s (t - n))
| step_to_consumed n a p o s t :
    0 < n <= t ->
    bucket_step (LToConsumed n) (mkBuckets a p o s t) (mkBuckets a p o (s + n) (t - n))
| step_set_capacity c mx g a p o s t :
    0 < c <= mx -> p + o + s + t <= c -> (g = false -> c <= a + p + o + s + t) ->
    bucket_step (LSetCapacity c mx g) (mkBuckets a p o s t)
      (mkBuckets (c - (p + o + s + t)) p o s t).

(** The abstraction: the buckets a plan denotes. *)
Definition plan_buckets (p : LedgerPlan) : Buckets :=
  let t := lp_totals p in
  let f := issued t - returned t in
  mkBuckets (lp_capacity p - (protected_credits t + f)) (protected_credits t)
    (f - (spent t + stale t)) (spent t) (stale t).

(** The cumulative counters are the only ones that can run out of range. *)
Definition counters_fit (op : LedgerOp) (p : LedgerPlan) : Prop :=
  let t := lp_totals p in
  match op with
  | LIssue n _ _ => issued t + n <= u64_max
  | LConsume n | LToConsumed n => consumed t + n <= u64_max
  | _ => True
  end.

(** The totals an accepted operation publishes, in exact arithmetic. *)
Definition exact_totals (op : LedgerOp) (t : CreditTotals) : CreditTotals :=
  match op with
  | LIssue n _ _ => set_issued (issued t + n) t
  | LConsume n => set_consumed (consumed t + n) (set_spent (spent t + n) t)
  | LGiveBack n => set_returned (returned t + n) (set_spent (spent t - Z.min (spent t) n) t)
  | LProtect n _ => set_protected (protected_credits t + n) t
  | LUnprotect n => set_protected (protected_credits t - n) t
  | LRetireStale n => set_stale (stale t + n) t
  | LQuarantine => set_stale (issued t - returned t) (set_spent 0 t)
  | LToReturned n => set_returned (returned t + n) (set_stale (stale t - n) t)
  | LToConsumed n =>
      set_consumed (consumed t + n) (set_spent (spent t + n) (set_stale (stale t - n) t))
  | LSetCapacity _ _ _ => t
  end.

Definition exact_capacity (op : LedgerOp) (c : Z) : Z :=
  match op with LSetCapacity n _ _ => n | _ => c end.

Definition exact_plan (op : LedgerOp) (p : LedgerPlan) : LedgerPlan :=
  mkPlan (exact_capacity op (lp_capacity p)) (exact_totals op (lp_totals p)) (lp_status p).

(** ** What a plan does with one operation *)

(** The three possible results of an operation on a well-formed plan. *)
Inductive op_result (op : LedgerOp) (p : LedgerPlan) : LedgerPlan * bool -> Prop :=
| op_applied p' :
    plan_ok p' -> counters_fit op p -> p' = exact_plan op p ->
    bucket_step op (plan_buckets p) (plan_buckets p') ->
    op_result op p (p', true)
| op_refused r d :
    r <> ROk -> (forall b, ~ bucket_step op (plan_buckets p) b) ->
    op_result op p (mkPlan (lp_capacity p) (lp_totals p) (refused_status r d), false)
| op_overflow d :
    ~ counters_fit op p ->
    op_result op p (mkPlan (lp_capacity p) (lp_totals p) (refused_status RCountOverflow d), false).

Lemma plan_view_ok p : plan_ok p -> plan_view p = exact_view (lp_capacity p) (lp_totals p).
Proof. intros [_ H]. by apply compute_view_ok. Qed.

(** Opening of every operation proof: the status test, the zero test and the view. *)
Ltac plan_start Hok :=
  let Hs := fresh "Hs" in let Hl := fresh "Hl" in
  pose proof Hok as [Hs Hl];
  rewrite ?Hs; cbn [negb]; rewrite ?(plan_view_ok _ Hok); unfold exact_view; simpl.

(** A refusal because the abstract guard fails. *)
Ltac plan_refused :=
  apply op_refused; [done | unfold plan_buckets; intros ? Hstep; inversion Hstep; subst; ledger_lia].

(** The published counters are the exact ones. *)
Ltac plan_exact :=
  unfold exact_plan, exact_totals, exact_capacity;
  match goal with
  | p : LedgerPlan |- _ =>
      destruct p as [? [] ?]; simpl in *; unfold set_issued, set_consumed, set_returned,
        set_stale, set_spent, set_protected; simpl; repeat f_equal; ledger_lia
  end.

(** A success: the candidate is well formed and the buckets moved. *)
Ltac plan_applied :=
  match goal with
  | |- op_result _ _ (plan_commit _ _) =>
      rewrite plan_commit_ok by (done || (constructor; simpl; ledger_lia))
  | _ => idtac
  end;
  apply op_applied;
  [split; [done | constructor; simpl; ledger_lia] | simpl; ledger_lia | plan_exact | ].

Lemma bucket_step_eq op b c d : bucket_step op b c -> c = d -> bucket_step op b d.
Proof. by intros ? <-. Qed.

(** The move between the buckets of two concrete plans. *)
Ltac bucket_move :=
  unfold plan_buckets; simpl;
  eapply bucket_step_eq;
  [constructor; first [reflexivity | ledger_lia] | simpl; f_equal; ledger_lia].

Lemma plan_issue_result n mn mx p :
  plan_ok p -> in_u64 n -> op_result (LIssue n mn mx) p (plan_issue n mn mx p).
Proof.
  intros Hok Hn. unfold plan_issue. plan_start Hok.
  destruct (Z.eqb_spec n 0); [plan_refused |].
  destruct ((n <? mn) || (n >? mx)) eqn:Epol; [plan_refused |].
  step_if; [plan_refused |].
  destruct (add_overflow_cases (issued (lp_totals p)) n) as [[? ->]|[? ->]];
    [ledger_lia | done | | apply op_overflow; simpl; lia].
  plan_applied. bucket_move.
Qed.

Lemma plan_consume_result n p :
  plan_ok p -> in_u64 n -> op_result (LConsume n) p (plan_consume n p).
Proof.
  intros Hok Hn. unfold plan_consume. plan_start Hok.
  destruct (Z.eqb_spec n 0); [plan_refused |].
  step_if; [plan_refused |].
  rewrite add_overflow_ok by ledger_lia.
  destruct (add_overflow_cases (consumed (lp_totals p)) n) as [[? ->]|[? ->]];
    [ledger_lia | done | | apply op_overflow; simpl; lia].
  plan_applied. bucket_move.
Qed.

Lemma plan_give_back_result n p :
  plan_ok p -> in_u64 n -> op_result (LGiveBack n) p (plan_give_back n p).
Proof.
  intros Hok Hn. unfold plan_give_back. plan_start Hok.
  destruct (Z.eqb_spec n 0); [plan_refused |].
  rewrite (wrap64_small (issued (lp_totals p) - returned (lp_totals p) - stale (lp_totals p)))
    by ledger_lia.
  step_if; [plan_refused |].
  rewrite add_overflow_ok by ledger_lia.
  rewrite (wrap64_small (spent (lp_totals p) - _)) by (step_if; ledger_lia).
  destruct (Z.ltb_spec (spent (lp_totals p)) n); plan_applied; bucket_move.
Qed.

Lemma plan_protect_result n a p :
  plan_ok p -> in_u64 n -> op_result (LProtect n a) p (plan_protect n a p).
Proof.
  intros Hok Hn. unfold plan_protect. plan_start Hok.
  destruct a; cbn [negb]; [| plan_refused].
  destruct (Z.eqb_spec n 0); [plan_refused |].
  step_if; [plan_refused |].
  rewrite add_overflow_ok by ledger_lia.
  plan_applied. bucket_move.
Qed.

Lemma plan_unprotect_result n p :
  plan_ok p -> in_u64 n -> op_result (LUnprotect n) p (plan_unprotect n p).
Proof.
  intros Hok Hn. unfold plan_unprotect. plan_start Hok.
  destruct (Z.eqb_spec n 0); [plan_refused |].
  step_if; [plan_refused |].
  rewrite wrap64_small by ledger_lia.
  plan_applied. bucket_move.
Qed.

Lemma plan_retire_stale_result n p :
  plan_ok p -> in_u64 n -> op_result (LRetireStale n) p (plan_retire_stale n p).
Proof.
  intros Hok Hn. unfold plan_retire_stale. plan_start Hok.
  destruct (Z.eqb_spec n 0); [plan_refused |].
  step_if; [plan_refused |].
  rewrite add_overflow_ok by ledger_lia.
  plan_applied. bucket_move.
Qed.

Lemma plan_quarantine_result p :
  plan_ok p -> op_result LQuarantine p (plan_quarantine_in_flight p).
Proof.
  intros Hok. unfold plan_quarantine_in_flight. plan_start Hok.
  rewrite wrap64_small by ledger_lia.
  destruct (Z.eqb_spec (issued (lp_totals p) - returned (lp_totals p) - stale (lp_totals p)) 0).
  - apply op_applied; [done | done | plan_exact |]. bucket_move.
  - rewrite add_overflow_ok by ledger_lia. plan_applied. bucket_move.
Qed.

Lemma plan_to_returned_result n p :
  plan_ok p -> in_u64 n -> op_result (LToReturned n) p (plan_revalidate_to_returned n p).
Proof.
  intros Hok Hn. unfold plan_revalidate_to_returned. plan_start Hok.
  destruct (Z.eqb_spec n 0); [plan_refused |].
  step_if; [plan_refused |].
  rewrite wrap64_small, add_overflow_ok by ledger_lia.
  plan_applied. bucket_move.
Qed.

Lemma plan_to_consumed_result n p :
  plan_ok p -> in_u64 n -> op_result (LToConsumed n) p (plan_revalidate_to_consumed n p).
Proof.
  intros Hok Hn. unfold plan_revalidate_to_consumed. plan_start Hok.
  destruct (Z.eqb_spec n 0); [plan_refused |].
  step_if; [plan_refused |].
  rewrite wrap64_small, (add_overflow_ok (spent (lp_totals p))) by ledger_lia.
  destruct (add_overflow_cases (consumed (lp_totals p)) n) as [[? ->]|[? ->]];
    [ledger_lia | done | | apply op_overflow; simpl; lia].
  plan_applied. bucket_move.
Qed.

Lemma plan_set_capacity_result c mx g p :
  plan_ok p -> in_u64 c -> op_result (LSetCapacity c mx g) p (plan_set_capacity c mx g p).
Proof.
  intros Hok Hn. unfold plan_set_capacity, obligation_floor. plan_start Hok.
  destruct (Z.eqb_spec c 0); [plan_refused |].
  destruct (Z.gtb_spec c mx); [plan_refused |].
  destruct ((c >? lp_capacity p) && negb g) eqn:Eg; [destruct g; plan_refused |].
  destruct (Z.leb_spec (returned (lp_totals p)) (issued (lp_totals p))); [| ledger_lia].
  rewrite wrap64_small, saturating_add_spec, Z.min_r by ledger_lia.
  step_if; [plan_refused |].
  plan_applied. unfold plan_buckets; simpl.
  eapply bucket_step_eq; [constructor; [ledger_lia | ledger_lia |] | f_equal; ledger_lia].
  intros ->. ledger_lia.
Qed.

(** Every operation on a well-formed plan has one of the three results. *)
Lemma run_op_result op p :
  plan_ok p -> op_range op -> op_result op p (run_op op p).
Proof.
  intros Hok Hr. destruct op; simpl in *;
    auto using plan_issue_result, plan_consume_result, plan_give_back_result,
      plan_protect_result, plan_unprotect_result, plan_retire_stale_result,
      plan_quarantine_result, plan_to_returned_result, plan_to_consumed_result,
      plan_set_capacity_result.
Qed.

(** ** Runs of a ledger *)

(** An account keeps its capacity and its totals; each operation is staged on a
    fresh plan and adopted only when the plan accepts it. *)
Definition ledger_step (st : Z * CreditTotals) (op : LedgerOp) : Z * CreditTotals :=
  let '(p, ok) := run_op op (plan_make (fst st) (snd st)) in
  if ok then (lp_capacity p, lp_totals p) else st.

Definition ledger_run (ops : list LedgerOp) (st : Z * CreditTotals) : Z * CreditTotals :=
  fold_left ledger_step ops st.

Lemma ledger_step_cases op st :
  ledger_ok (fst st) (snd st) -> op_range op ->
  ledger_step st op = st \/
  (ledger_ok (fst (ledger_step st op)) (snd (ledger_step st op)) /\
   counters_fit op (plan_make (fst st) (snd st)) /\
   bucket_step op (plan_buckets (plan_make (fst st) (snd st)))
     (plan_buckets (plan_make (fst (ledger_step st op)) (snd (ledger_step st op))))).
Proof.
  intros Hok Hr. unfold ledger_step.
  destruct (run_op_result op (plan_make (fst st) (snd st))) as [p' [_ Hp'] Hfit _ Hb| |];
    auto with ledger.
Qed.

Lemma ledger_step_ok op st :
  ledger_ok (fst st) (snd st) -> op_range op ->
  ledger_ok (fst (ledger_step st op)) (snd (ledger_step st op)).
Proof.
  intros Hok Hr. destruct (ledger_step_cases op st Hok Hr) as [->|(? & _ & _)]; auto.
Qed.

Lemma ledger_run_ok ops st :
  ledger_ok (fst st) (snd st) -> Forall op_range ops ->
  ledger_ok (fst (ledger_run ops st)) (snd (ledger_run ops st)).
Proof.
  revert st. induction ops as [|op ops IH]; [done |].
  intros st Hok [Hop Hops]%Forall_cons. apply IH; auto using ledger_step_ok.
Qed.

Lemma ledger_ok_fresh capacity : in_u64 capacity -> ledger_ok capacity totals_zero.
Proof. intros. constructor; simpl; unfold totals_range; simpl; try split_and!; word_lia. Qed.

#[export] Hint Resolve ledger_ok_fresh : ledger.

(** Operations other than resolving quarantined credit as spent keep the spend
    counter within what was handed back, is spent, or is quarantined. *)
Definition not_to_consumed (op : LedgerOp) : Prop :=
  match op with LToConsumed _ => False | _ => True end.

Definition spend_bound (t : CreditTotals) : Prop :=
  consumed t <= spent t + stale t + returned t.

(** An accepted operation publishes exactly [exact_plan]. *)
Lemma run_op_exact op p p' :
  plan_ok p -> op_range op -> run_op op p = (p', true) ->
  p' = exact_plan op p /\ plan_ok p' /\ counters_fit op p /\
  bucket_step op (plan_buckets p) (plan_buckets p').
Proof.
  intros Hok Hr Hrun. pose proof (run_op_result op p Hok Hr) as H. rewrite Hrun in H.
  by inv H.
Qed.

Lemma run_op_refused op p p' :
  plan_ok p -> op_range op -> run_op op p = (p', false) ->
  lp_totals p' = lp_totals p /\ lp_capacity p' = lp_capacity p /\
  status_ok (lp_status p') = false /\
  ~ (counters_fit op p /\ exists b, bucket_step op (plan_buckets p) b).
Proof.
  intros Hok Hr Hrun. pose proof (run_op_result op p Hok Hr) as H. rewrite Hrun in H.
  inversion H as [|r d Hr' Hno|d Hno]; subst; simpl; split_and!; try done;
    [| by intros [_ [b Hb]]; apply (Hno b) | by intros [? _]].
  destruct (status_ok _) eqn:E; [| done]. by apply status_ok_iff in E.
Qed.

Lemma ledger_step_spend op st :
  ledger_ok (fst st) (snd st) -> op_range op -> not_to_consumed op ->
  spend_bound (snd st) -> spend_bound (snd (ledger_step st op)).
Proof.
  intros Hok Hr Hn Hb. unfold ledger_step.
  destruct (run_op op _) as [p' []] eqn:E; [| done]. simpl.
  apply run_op_exact in E as (-> & _ & _ & Hstep); auto with ledger.
  unfold spend_bound, plan_make in *. simpl in *.
  destruct Hok as [_ Hrange _ Hpart _]. unfold totals_range in Hrange.
  destruct op; simpl in *; try done; try (inv Hstep); word_lia.
Qed.

Lemma ledger_run_spend ops st :
  ledger_ok (fst st) (snd st) -> Forall op_range ops -> Forall not_to_consumed ops ->
  spend_bound (snd st) -> spend_bound (snd (ledger_run ops st)).
Proof.
  revert st. induction ops as [|op ops IH]; [done |].
  intros st Hok [? ?]%Forall_cons [? ?]%Forall_cons Hb.
  apply IH; auto using ledger_step_ok, ledger_step_spend.
Qed.

Lemma bucket_step_sum op b c :
  bucket_step op b c ->
  bucket_sum c = match op with LSetCapacity n _ _ => n | _ => bucket_sum b end.
Proof. intros []; unfold bucket_sum; simpl; lia. Qed.

(** ** Properties *)

(** C17: On a well-formed plan every ledger operation implements the abstract
    five-bucket accounting model exactly: it is accepted if and only if the
    abstract transition is possible and the cumulative counter it advances does
    not leave 64 bits; when accepted the buckets move by that transition and
    the counters are the exact sums (no wrap-around); when refused, capacity
    and totals are untouched and the plan carries a refusal. *)
Theorem ledger_plan_refines_buckets op p :
  plan_ok p -> op_range op ->
  (snd (run_op op p) = true <->
     counters_fit op p /\ exists b, bucket_step op (plan_buckets p) b) /\
  (snd (run_op op p) = true ->
     fst (run_op op p) = exact_plan op p /\ plan_ok (fst (run_op op p)) /\
     bucket_step op (plan_buckets p) (plan_buckets (fst (run_op op p)))) /\
  (snd (run_op op p) = false ->
     lp_totals (fst (run_op op p)) = lp_totals p /\
     lp_capacity (fst (run_op op p)) = lp_capacity p /\
     status_ok (lp_status (fst (run_op op p))) = false).
Proof.
  intros Hok Hr. destruct (run_op op p) as [p' []] eqn:E; simpl.
  - apply run_op_exact in E as (-> & ? & ? & ?); auto. split_and!; try done; split; eauto.
  - apply run_op_refused in E as (? & ? & ? & ?); auto. split_and!; try done.
Qed.

(** A plan with credit in every bucket. *)
Definition sample_totals : CreditTotals := mkTotals 60 12 10 7 5 20.
Definition sample_plan : LedgerPlan := plan_make 100 sample_totals.

Lemma sample_plan_ok : plan_ok sample_plan.
Proof.
  split; [done |]. constructor; unfold totals_range; simpl; try split_and!; word_lia.
Qed.

Lemma ledger_plan_refines_buckets_witness :
  snd (run_op (LGiveBack 8) sample_plan) = true /\
  fst (run_op (LGiveBack 8) sample_plan) = exact_plan (LGiveBack 8) sample_plan.
Proof.
  split; [reflexivity |].
  apply (ledger_plan_refines_buckets (LGiveBack 8) sample_plan sample_plan_ok);
    [unfold op_range; word_lia | reflexivity].
Defined.

(** However a ledger is driven, starting from a freshly opened account of
    any 64-bit capacity, both closure invariants hold: the view is closed,
    capacity = available + protected + in_flight, and
    in_flight = outstanding + spent + stale, every bucket non-negative. *)
Theorem ledger_always_closed capacity ops :
  in_u64 capacity -> Forall op_range ops ->
  let st := ledger_run ops (capacity, totals_zero) in
  let v := compute_view (fst st) (snd st) in
  v_closed v = true /\
  v_capacity v = v_available v + v_protected v + v_in_flight v /\
  v_in_flight v = v_outstanding v + v_spent v + v_stale v /\
  0 <= v_available v /\ 0 <= v_protected v /\ 0 <= v_outstanding v /\
  0 <= v_spent v /\ 0 <= v_stale v.
Proof.
  intros Hc Hops st v.
  pose proof (ledger_run_ok ops (capacity, totals_zero) (ledger_ok_fresh _ Hc) Hops) as Hok.
  unfold v, st. rewrite compute_view_ok by done. simpl.
  split_and!; ledger_lia.
Qed.

Lemma ledger_always_closed_witness :
  v_available (compute_view (fst (ledger_run [LIssue 40 1 50; LConsume 10; LQuarantine; LToReturned 15]
     (100, totals_zero))) (snd (ledger_run [LIssue 40 1 50; LConsume 10; LQuarantine; LToReturned 15]
     (100, totals_zero)))) = 75 /\
  v_closed (compute_view (fst (ledger_run [LIssue 40 1 50; LConsume 10; LQuarantine; LToReturned 15]
     (100, totals_zero))) (snd (ledger_run [LIssue 40 1 50; LConsume 10; LQuarantine; LToReturned 15]
     (100, totals_zero)))) = true.
Proof.
  split; [vm_compute; reflexivity |].
  apply (ledger_always_closed 100 [LIssue 40 1 50; LConsume 10; LQuarantine; LToReturned 15]);
    [| repeat constructor]; word_lia.
Defined.

(** No credit is spent twice: along any run in which quarantined credit is
    not resolved as spent, the number of spend events never exceeds the number
    of credits ever issued, and what is still outstanding can be spent at most
    once more: consumed + outstanding <= issued. *)
Theorem ledger_no_double_spend capacity ops :
  in_u64 capacity -> Forall op_range ops -> Forall not_to_consumed ops ->
  let st := ledger_run ops (capacity, totals_zero) in
  consumed (snd st) + v_outstanding (compute_view (fst st) (snd st)) <= issued (snd st).
Proof.
  intros Hc Hops Hn st.
  pose proof (ledger_run_ok ops (capacity, totals_zero) (ledger_ok_fresh _ Hc) Hops) as Hok.
  assert (spend_bound (snd st)) as Hb.
  { apply ledger_run_spend; auto with ledger. unfold spend_bound. simpl. lia. }
  unfold st in *. rewrite compute_view_ok by done. unfold spend_bound in Hb. simpl.
  destruct Hok as [_ Hrange _ _ _]. unfold totals_range in Hrange. word_lia.
Qed.

Lemma ledger_no_double_spend_witness :
  consumed (snd (ledger_run [LIssue 40 1 50; LConsume 30; LGiveBack 35; LConsume 6] (100, totals_zero)))
   + v_outstanding (compute_view 100
       (snd (ledger_run [LIssue 40 1 50; LConsume 30; LGiveBack 35; LConsume 6] (100, totals_zero)))) <= 40.
Proof.
  apply (ledger_no_double_spend 100 [LIssue 40 1 50; LConsume 30; LGiveBack 35; LConsume 6]);
    [word_lia | repeat constructor; word_lia | repeat constructor].
Defined.

(** The derived view never disguises a broken counter set: for any 64-bit
    capacity and counters the view is marked closed exactly when
    [check_invariants] accepts them, which is exactly when both invariants hold
    as integer arithmetic; otherwise nothing is reported as issuable,
    spendable or in flight. *)
Theorem view_closed_iff_invariants capacity t :
  in_u64 capacity -> totals_range t ->
  (v_closed (compute_view capacity t) = true <-> ledger_ok capacity t) /\
  (status_ok (check_invariants capacity t) = true <-> ledger_ok capacity t) /\
  (v_closed (compute_view capacity t) = false ->
     v_available (compute_view capacity t) = 0 /\ v_outstanding (compute_view capacity t) = 0 /\
     v_in_flight (compute_view capacity t) = 0).
Proof.
  intros Hc Ht. rewrite compute_view_closed by done.
  split_and!; [by apply check_invariants_ok_iff..|].
  intros H. apply compute_view_broken. by rewrite compute_view_closed.
Qed.

Lemma view_closed_iff_invariants_witness :
  totals_range (mkTotals 5 0 9 0 0 0) /\ v_available (compute_view 100 (mkTotals 5 0 9 0 0 0)) = 0.
Proof.
  assert (totals_range (mkTotals 5 0 9 0 0 0)) as Hr
    by (unfold totals_range; simpl; split_and!; word_lia).
  split; [done |].
  apply (view_closed_iff_invariants 100 (mkTotals 5 0 9 0 0 0)); [word_lia | done | reflexivity].
Defined.
