(* ===== verification/Authority.v ===== *)
(** * Authority vectors, incarnations, fences, policy
      (include/creditfabric/authority.hpp, src/authority.cpp,
       include/creditfabric/policy.hpp, src/policy.cpp)

    The identities a decision is bound to, the standing of an incarnation, the
    reconciliation challenge, and the account configuration and engine limits. *)

From S2P Require Import Prelude Status Digest.
Local Open Scope word_scope.
Local Open Scope Z_scope.

(** ** Incarnations *)

Inductive AuthorityState : Set := Unknown | Reconciled | Fenced | Retired.

Definition authority_state_code (s : AuthorityState) : Z :=
  match s with Unknown => 0 | Reconciled => 1 | Fenced => 2 | Retired => 3 end.

(** [static_cast<AuthorityState>(raw)] of a raw value checked to be at most 3. *)
Definition authority_state_cast (raw : Z) : AuthorityState :=
  if raw =? 0 then Unknown else if raw =? 1 then Reconciled
  else if raw =? 2 then Fenced else Retired.

Definition authority_state_to_string (s : AuthorityState) : string :=
  match s with
  | Unknown => "UNKNOWN"
  | Reconciled => "RECONCILED"
  | Fenced => "FENCED"
  | Retired => "RETIRED"
  end.

Definition state_eqb (a b : AuthorityState) : bool :=
  authority_state_code a =? authority_state_code b.

Record Incarnation := mkIncarnation { i_publisher : Z; i_boot : Z; i_id : Z }.

Definition incarnation_zero : Incarnation := mkIncarnation 0 0 0.

Definition incarnation_make (publisher boot : Z) : Incarnation :=
  mkIncarnation publisher boot (make_incarnation_id publisher boot).

Record AuthorityVector := mkVector {
  a_domain : Z;
  a_account : Z;
  a_epoch : Z;
  a_generation : Z;
  a_incarnation : Z;
}.

Definition vector_zero : AuthorityVector := mkVector 0 0 0 0 0.

Definition vector_is_complete (a : AuthorityVector) : bool :=
  is_set (a_domain a) && is_set (a_account a) && is_set (a_epoch a) &&
  is_set (a_generation a) && is_set (a_incarnation a).

Definition vector_digest (a : AuthorityVector) : Digest128 :=
  db_default
    |> db_u64 (a_domain a) |> db_u64 (a_account a) |> db_u64 (a_epoch a)
    |> db_u64 (a_generation a) |> db_u64 (a_incarnation a) |> db_finish.

(** [outcome.authority.epoch = ...; outcome.authority.generation = ...]. *)
Definition vector_set_era (epoch generation : Z) (a : AuthorityVector) : AuthorityVector :=
  mkVector (a_domain a) (a_account a) epoch generation (a_incarnation a).

Record IncarnationRecord := mkRecord {
  ir_id : Z;
  ir_publisher : Z;
  ir_boot : Z;
  ir_state : AuthorityState;
  ir_epoch : Z;
  ir_generation : Z;
  ir_proof : Digest128;
  ir_producer : Z;
  ir_consumer : Z;
  ir_grant : Z;
  ir_last_sequence : Z;
  ir_committed_ops : Z;
  ir_refused_ops : Z;
  ir_fenced_at : Z;
}.

Definition record_zero : IncarnationRecord :=
  mkRecord 0 0 0 Unknown 0 0 digest_zero 0 0 0 0 0 0 0.

Definition is_live (epoch generation : Z) (r : IncarnationRecord) : bool :=
  state_eqb (ir_state r) Reconciled && (ir_epoch r =? epoch) && (ir_generation r =? generation).

(** Field updates of a record. *)
Definition set_ir_state (s : AuthorityState) (r : IncarnationRecord) : IncarnationRecord :=
  mkRecord (ir_id r) (ir_publisher r) (ir_boot r) s (ir_epoch r) (ir_generation r) (ir_proof r)
    (ir_producer r) (ir_consumer r) (ir_grant r) (ir_last_sequence r) (ir_committed_ops r)
    (ir_refused_ops r) (ir_fenced_at r).
(** [state = Reconciled] together with the era and the proof it was given for. *)
Definition set_ir_reconciled (epoch generation : Z) (proof : Digest128) (r : IncarnationRecord)
    : IncarnationRecord :=
  mkRecord (ir_id r) (ir_publisher r) (ir_boot r) Reconciled epoch generation proof
    (ir_producer r) (ir_consumer r) (ir_grant r) (ir_last_sequence r) (ir_committed_ops r)
    (ir_refused_ops r) (ir_fenced_at r).
Definition set_ir_producer (v : Z) (r : IncarnationRecord) : IncarnationRecord :=
  mkRecord (ir_id r) (ir_publisher r) (ir_boot r) (ir_state r) (ir_epoch r) (ir_generation r)
    (ir_proof r) v (ir_consumer r) (ir_grant r) (ir_last_sequence r) (ir_committed_ops r)
    (ir_refused_ops r) (ir_fenced_at r).
Definition set_ir_consumer (v : Z) (r : IncarnationRecord) : IncarnationRecord :=
  mkRecord (ir_id r) (ir_publisher r) (ir_boot r) (ir_state r) (ir_epoch r) (ir_generation r)
    (ir_proof r) (ir_producer r) v (ir_grant r) (ir_last_sequence r) (ir_committed_ops r)
    (ir_refused_ops r) (ir_fenced_at r).
Definition set_ir_grant (v : Z) (r : IncarnationRecord) : IncarnationRecord :=
  mkRecord (ir_id r) (ir_publisher r) (ir_boot r) (ir_state r) (ir_epoch r) (ir_generation r)
    (ir_proof r) (ir_producer r) (ir_consumer r) v (ir_last_sequence r) (ir_committed_ops r)
    (ir_refused_ops r) (ir_fenced_at r).
Definition set_ir_last_sequence (v : Z) (r : IncarnationRecord) : IncarnationRecord :=
  mkRecord (ir_id r) (ir_publisher r) (ir_boot r) (ir_state r) (ir_epoch r) (ir_generation r)
    (ir_proof r) (ir_producer r) (ir_consumer r) (ir_grant r) v (ir_committed_ops r)
    (ir_refused_ops r) (ir_fenced_at r).
Definition incr_ir_committed (r : IncarnationRecord) : IncarnationRecord :=
  mkRecord (ir_id r) (ir_publisher r) (ir_boot r) (ir_state r) (ir_epoch r) (ir_generation r)
    (ir_proof r) (ir_producer r) (ir_consumer r) (ir_grant r) (ir_last_sequence r)
    (ir_committed_ops r +% 1) (ir_refused_ops r) (ir_fenced_at r).
Definition incr_ir_refused (r : IncarnationRecord) : IncarnationRecord :=
  mkRecord (ir_id r) (ir_publisher r) (ir_boot r) (ir_state r) (ir_epoch r) (ir_generation r)
    (ir_proof r) (ir_producer r) (ir_consumer r) (ir_grant r) (ir_last_sequence r)
    (ir_committed_ops r) (ir_refused_ops r +% 1) (ir_fenced_at r).
(** [state = Fenced; fenced_at_sequence = sequence]. *)
Definition set_ir_fenced (sequence : Z) (r : IncarnationRecord) : IncarnationRecord :=
  mkRecord (ir_id r) (ir_publisher r) (ir_boot r) Fenced (ir_epoch r) (ir_generation r)
    (ir_proof r) (ir_producer r) (ir_consumer r) (ir_grant r) (ir_last_sequence r)
    (ir_committed_ops r) (ir_refused_ops r) sequence.

Record FenceRecord := mkFence {
  f_incarnation : Z;
  f_epoch : Z;
  f_generation : Z;
  f_cause : Reason;
  f_sequence : Z;
  f_credit : Z;
}.

(** ** The reconciliation challenge *)

(** The constructor: two random words, never both zero. *)
Definition challenge_make (r1 r2 : Z) : Digest128 :=
  let nonce := mkDigest r1 r2 in
  if is_zero nonce then mkDigest 1 (hi nonce) else nonce.

Definition challenge_compute (nonce : Digest128) (i : Incarnation) (a : AuthorityVector)
    : Digest128 :=
  db_keyed (mkDigest 0x5A5A5A5A5A5A5A5A 0xA5A5A5A5A5A5A5A5)
    |> db_digest nonce
    |> db_u64 (i_publisher i) |> db_u64 (i_boot i) |> db_u64 (i_id i)
    |> db_u64 (a_domain a) |> db_u64 (a_account a) |> db_u64 (a_epoch a)
    |> db_u64 (a_generation a) |> db_u64 (a_incarnation a) |> db_finish.

Definition challenge_verify (nonce : Digest128) (i : Incarnation) (a : AuthorityVector)
    (proof : Digest128) : bool :=
  let expected := challenge_compute nonce i a in
  let difference := Z.lor (lo expected ^^ lo proof) (hi expected ^^ hi proof) in
  difference =? 0.

(** ** Policy and limits *)

Inductive ProfileKind : Set := Abstract | Synthetic | PhysicalUnvalidated | PhysicalValidated.

Definition profile_code (k : ProfileKind) : Z :=
  match k with Abstract => 0 | Synthetic => 1 | PhysicalUnvalidated => 2 | PhysicalValidated => 3 end.

Definition profile_cast (raw : Z) : ProfileKind :=
  if raw =? 0 then Abstract else if raw =? 1 then Synthetic
  else if raw =? 2 then PhysicalUnvalidated else PhysicalValidated.

Definition profile_to_string (k : ProfileKind) : string :=
  match k with
  | Abstract => "ABSTRACT"
  | Synthetic => "SYNTHETIC"
  | PhysicalUnvalidated => "PHYSICAL-UNVALIDATED"
  | PhysicalValidated => "PHYSICAL-VALIDATED"
  end.

Record CreditPolicy := mkPolicy {
  min_issue : Z;
  max_issue_per_attempt : Z;
  allow_protect : bool;
  allow_return : bool;
  allow_capacity_growth : bool;
}.

Definition policy_default : CreditPolicy := mkPolicy 1 u64_max true true false.

Record AccountConfig := mkConfig {
  c_domain : Z;
  c_account : Z;
  c_resource : Z;
  c_policy : Z;
  c_capacity : Z;
  c_max_capacity : Z;
  c_profile : ProfileKind;
  c_rules : CreditPolicy;
}.

Definition config_zero : AccountConfig := mkConfig 0 0 0 0 0 0 Abstract policy_default.

Record EngineLimits := mkLimits {
  max_accounts : Z;
  max_incarnations_per_account : Z;
  max_fences_per_account : Z;
  max_attempt_window : Z;
  max_ambiguous_attempts : Z;
  max_refusal_log : Z;
  max_explanation_incarnations : Z;
  max_explanation_fences : Z;
  max_explanation_refusals : Z;
  max_note_bytes : Z;
  max_journal_record_bytes : Z;
  max_frame_payload_bytes : Z;
  max_connections : Z;
  max_journal_bytes : Z;
  journal_records_per_snapshot : Z;
}.

Definition default_limits : EngineLimits :=
  mkLimits 64 256 1024 8192 256 256 64 64 32 128 1048576 65536 64 67108864 4096.

(** ** Codes *)

#[global] Instance authority_state_eq_dec : EqDecision AuthorityState.
Proof. solve_decision. Defined.
#[global] Instance profile_eq_dec : EqDecision ProfileKind.
Proof. solve_decision. Defined.
#[global] Instance incarnation_eq_dec : EqDecision Incarnation.
Proof. solve_decision. Defined.
#[global] Instance vector_eq_dec : EqDecision AuthorityVector.
Proof. solve_decision. Defined.
#[global] Instance record_eq_dec : EqDecision IncarnationRecord.
Proof. solve_decision. Defined.
#[global] Instance fence_eq_dec : EqDecision FenceRecord.
Proof. solve_decision. Defined.

Lemma authority_state_cast_code s : authority_state_cast (authority_state_code s) = s.
Proof. by destruct s. Qed.

Lemma profile_cast_code k : profile_cast (profile_code k) = k.
Proof. by destruct k. Qed.

Lemma state_eqb_spec a b : state_eqb a b = bool_decide (a = b).
Proof. by destruct a, b. Qed.

Lemma is_live_iff e g r :
  is_live e g r = true <-> ir_state r = Reconciled /\ ir_epoch r = e /\ ir_generation r = g.
Proof.
  unfold is_live. rewrite !andb_true_iff, !Z.eqb_eq, state_eqb_spec, bool_decide_eq_true. tauto.
Qed.

(** ** The challenge *)

(** The words a proof absorbs. *)
Definition challenge_words (nonce : Digest128) (i : Incarnation) (a : AuthorityVector) : list Z :=
  [lo nonce; hi nonce; i_publisher i; i_boot i; i_id i;
   a_domain a; a_account a; a_epoch a; a_generation a; a_incarnation a].

Lemma challenge_compute_words nonce i a :
  challenge_compute nonce i a =
  words_digest (mkDigest 0x5A5A5A5A5A5A5A5A 0xA5A5A5A5A5A5A5A5) (challenge_words nonce i a).
Proof. done. Qed.

Lemma challenge_verify_iff nonce i a proof :
  challenge_verify nonce i a proof = true <-> proof = challenge_compute nonce i a.
Proof.
  unfold challenge_verify. rewrite Z.eqb_eq, Z.lor_eq_0_iff, !Z.lxor_eq_0_iff.
  destruct proof as [pl ph], (challenge_compute nonce i a) as [el eh]; simpl.
  split; [by intros [-> ->] | by intros [= -> ->]].
Qed.

Lemma challenge_verify_prove nonce i a :
  challenge_verify nonce i a (challenge_compute nonce i a) = true.
Proof. by apply challenge_verify_iff. Qed.

(** Two inputs of the challenge that differ in exactly one of their ten words. *)
Definition differ_in_one_word (ws vs : list Z) : Prop :=
  exists pre v w post, ws = pre ++ v :: post /\ vs = pre ++ w :: post /\
    in_u64 v /\ in_u64 w /\ v <> w.

Lemma words_digest_differ key ws vs :
  digest_range key -> differ_in_one_word ws vs -> words_digest key ws <> words_digest key vs.
Proof. intros Hk (pre & v & w & post & -> & -> & Hv & Hw & Hne). by apply words_digest_neq. Qed.

(** C39: A reconciliation proof is accepted if and only if it is the digest computed
    for this nonce, incarnation and authority vector; a proof captured under a
    vector, incarnation or boot nonce that differs in exactly one 64-bit
    component (one nonce half, publisher, boot, identity, domain, account,
    epoch, generation or incarnation) is always rejected. *)
Theorem reconciliation_proof_binds nonce i a nonce' i' a' :
  challenge_verify nonce i a (challenge_compute nonce i a) = true /\
  (forall proof, challenge_verify nonce i a proof = true -> proof = challenge_compute nonce i a) /\
  (differ_in_one_word (challenge_words nonce' i' a') (challenge_words nonce i a) ->
     challenge_verify nonce i a (challenge_compute nonce' i' a') = false).
Proof.
  split_and!.
  - apply challenge_verify_prove.
  - intros proof. by rewrite challenge_verify_iff.
  - intros Hd. destruct (challenge_verify _ _ _ _) eqn:E; [| done].
    apply challenge_verify_iff in E. rewrite !challenge_compute_words in E.
    by apply words_digest_differ in E; [| split; simpl; word_lia |].
Qed.

Lemma reconciliation_proof_binds_witness :
  challenge_verify (mkDigest 3 4) (mkIncarnation 7 8 9) (mkVector 1 2 6 5 9)
    (challenge_compute (mkDigest 3 4) (mkIncarnation 7 8 9) (mkVector 1 2 5 5 9)) = false.
Proof.
  apply (reconciliation_proof_binds (mkDigest 3 4) (mkIncarnation 7 8 9) (mkVector 1 2 6 5 9)
           (mkDigest 3 4) (mkIncarnation 7 8 9) (mkVector 1 2 5 5 9)).
  exists [3; 4; 7; 8; 9; 1; 2], 5, 6, [5; 9]. split_and!; try reflexivity; word_lia.
Defined.
