(* ===== verification/Request.v ===== *)
(** * Requests and outcomes (include/creditfabric/engine.hpp, the data and
      digest part of src/engine.cpp)

    Operation kinds and their authorization classes, the request and outcome
    records, the bounded audit notes, and the digests that bind a request, an
    account configuration and an outcome. *)

From S2P Require Import Prelude Status Digest Authority Ledger.
Local Open Scope word_scope.
Local Open Scope Z_scope.

(** ** Operations *)

Inductive OpKind : Set :=
| Describe | Open | Issue | Consume | Return | Protect | Unprotect | Exhaust
| ClearExhaustion | SetCapacity | AdvanceEpoch | Fence | Rotate | Retire | Revalidate
| Reconcile | RetireIncarnation.

Definition op_code (op : OpKind) : Z :=
  match op with
  | Describe => 0 | Open => 1 | Issue => 2 | Consume => 3 | Return => 4 | Protect => 5
  | Unprotect => 6 | Exhaust => 7 | ClearExhaustion => 8 | SetCapacity => 9
  | AdvanceEpoch => 10 | Fence => 11 | Rotate => 12 | Retire => 13 | Revalidate => 14
  | Reconcile => 15 | RetireIncarnation => 16
  end.

Definition kOpKindCount : Z := 17.

Definition is_valid_op (raw : Z) : bool := raw <? kOpKindCount.

Definition all_ops : list OpKind :=
  [Describe; Open; Issue; Consume; Return; Protect; Unprotect; Exhaust; ClearExhaustion;
   SetCapacity; AdvanceEpoch; Fence; Rotate; Retire; Revalidate; Reconcile; RetireIncarnation].

(** [static_cast<OpKind>(raw)], used by the source only after [is_valid_op]. *)
Definition op_cast (raw : Z) : OpKind := default Describe (all_ops !! Z.to_nat raw).

Definition op_to_string (op : OpKind) : string :=
  match op with
  | Describe => "Describe" | Open => "Open" | Issue => "Issue" | Consume => "Consume"
  | Return => "Return" | Protect => "Protect" | Unprotect => "Unprotect"
  | Exhaust => "Exhaust" | ClearExhaustion => "ClearExhaustion"
  | SetCapacity => "SetCapacity" | AdvanceEpoch => "AdvanceEpoch" | Fence => "Fence"
  | Rotate => "Rotate" | Retire => "Retire" | Revalidate => "Revalidate"
  | Reconcile => "Reconcile" | RetireIncarnation => "RetireIncarnation"
  end.

Inductive OpClass : Set := OpRead | OpData | OpControl.

Definition classify (op : OpKind) : OpClass :=
  match op with
  | Describe => OpRead
  | Issue | Consume | Return | Protect | Unprotect | Reconcile => OpData
  | _ => OpControl
  end.

Definition op_requires_count (op : OpKind) : bool :=
  match op with
  | Issue | Consume | Return | Protect | Unprotect | Retire | Revalidate => true
  | _ => false
  end.

Definition op_is_ledger (op : OpKind) : bool :=
  match op with
  | Issue | Consume | Return | Protect | Unprotect => true
  | _ => false
  end.

Inductive RevalidationDecision : Set := DecisionNone | ToReturned | ToConsumed.

Definition decision_code (d : RevalidationDecision) : Z :=
  match d with DecisionNone => 0 | ToReturned => 1 | ToConsumed => 2 end.

Definition decision_to_string (d : RevalidationDecision) : string :=
  match d with DecisionNone => "None" | ToReturned => "ToReturned" | ToConsumed => "ToConsumed" end.

Definition decision_cast (raw : Z) : RevalidationDecision :=
  if raw =? 0 then DecisionNone else if raw =? 1 then ToReturned else ToConsumed.

(** ** Requests and outcomes *)

(** The note is a bounded byte string. *)
Record CreditRequest := mkRequest {
  rq_attempt : Digest128;
  rq_op : OpKind;
  rq_sequence : Z;
  rq_authority : AuthorityVector;
  rq_presenter : Incarnation;
  rq_resource : Z;
  rq_producer : Z;
  rq_consumer : Z;
  rq_grant : Z;
  rq_target : Z;
  rq_count : Z;
  rq_new_capacity : Z;
  rq_proof : Digest128;
  rq_expected_state : Digest128;
  rq_config : AccountConfig;
  rq_decision : RevalidationDecision;
  rq_fence_cause : Reason;
  rq_note : list Z;
}.

Record CreditOutcome := mkOutcome {
  o_status : Status;
  o_op : OpKind;
  o_sequence : Z;
  o_applied : bool;
  o_duplicate : bool;
  o_decided : bool;
  o_authority : AuthorityVector;
  o_view : CreditView;
  o_state_digest : Digest128;
  o_ambiguous_pending : Z;
}.

Definition outcome_zero : CreditOutcome :=
  mkOutcome success Describe 0 false false false vector_zero view_zero digest_zero 0.

Definition outcome_describe (o : CreditOutcome) : string :=
  op_to_string (o_op o) +:+ " seq=" +:+ dec_string (o_sequence o) +:+ " -> "
    +:+ status_describe (o_status o)
    +:+ (if o_duplicate o then " [duplicate]" else if o_applied o then " [applied]" else "")
    +:+ (if o_decided o then " [decided]" else "").

Record AmbiguousNote := mkAmbiguous {
  an_attempt : Digest128;
  an_op : OpKind;
  an_sequence : Z;
  an_incarnation : Z;
  an_journal_sequence : Z;
}.

Record RefusalNote := mkRefusal {
  rn_attempt : Digest128;
  rn_op : OpKind;
  rn_sequence : Z;
  rn_incarnation : Z;
  rn_reason : Reason;
  rn_detail : Z;
  rn_epoch : Z;
  rn_generation : Z;
}.

Record EngineStats := mkStats {
  st_attempts_applied : Z;
  st_attempts_refused : Z;
  st_duplicates_absorbed : Z;
  st_journal_records : Z;
  st_journal_bytes : Z;
  st_snapshots : Z;
  st_replayed_records : Z;
  st_replayed_ambiguous : Z;
}.

Definition stats_zero : EngineStats := mkStats 0 0 0 0 0 0 0 0.

(** ** Digests *)

Definition config_digest (c : AccountConfig) : Digest128 :=
  db_keyed (mkDigest 0x3C9A17E5B2D48F60 0x608FD4B2E517A93C)
    |> db_u64 (c_domain c) |> db_u64 (c_account c) |> db_u64 (c_resource c)
    |> db_u64 (c_policy c) |> db_u64 (c_capacity c) |> db_u64 (c_max_capacity c)
    |> db_u64 (profile_code (c_profile c))
    |> db_u64 (min_issue (c_rules c)) |> db_u64 (max_issue_per_attempt (c_rules c))
    |> db_boolean (allow_protect (c_rules c)) |> db_boolean (allow_return (c_rules c))
    |> db_boolean (allow_capacity_growth (c_rules c))
    |> db_finish.

Definition outcome_digest (o : CreditOutcome) : Digest128 :=
  db_keyed (mkDigest 0x1122334455667788 0x8877665544332211)
    |> db_u64 (reason_code (reason (o_status o))) |> db_u64 (detail (o_status o))
    |> db_u64 (op_code (o_op o)) |> db_u64 (o_sequence o)
    |> db_boolean (o_applied o) |> db_boolean (o_decided o)
    |> db_digest (o_state_digest o) |> db_finish.

(** The words [CreditRequest::digest] absorbs before the note. *)
Definition request_words (r : CreditRequest) : list Z :=
  [lo (rq_attempt r); hi (rq_attempt r); op_code (rq_op r); rq_sequence r;
   lo (vector_digest (rq_authority r)); hi (vector_digest (rq_authority r));
   i_publisher (rq_presenter r); i_boot (rq_presenter r); i_id (rq_presenter r);
   rq_resource r; rq_producer r; rq_consumer r; rq_grant r; rq_target r;
   rq_count r; rq_new_capacity r; lo (rq_proof r); hi (rq_proof r);
   lo (rq_expected_state r); hi (rq_expected_state r);
   lo (config_digest (rq_config r)); hi (config_digest (rq_config r));
   decision_code (rq_decision r); reason_code (rq_fence_cause r)].

Definition request_digest (r : CreditRequest) : Digest128 :=
  db_keyed (mkDigest 0xFEEDFACE12345678 0x87654321CEFAEDEF)
    |> db_digest (rq_attempt r) |> db_u64 (op_code (rq_op r)) |> db_u64 (rq_sequence r)
    |> db_digest (vector_digest (rq_authority r))
    |> db_u64 (i_publisher (rq_presenter r)) |> db_u64 (i_boot (rq_presenter r))
    |> db_u64 (i_id (rq_presenter r))
    |> db_u64 (rq_resource r) |> db_u64 (rq_producer r) |> db_u64 (rq_consumer r)
    |> db_u64 (rq_grant r) |> db_u64 (rq_target r) |> db_u64 (rq_count r)
    |> db_u64 (rq_new_capacity r) |> db_digest (rq_proof r) |> db_digest (rq_expected_state r)
    |> db_digest (config_digest (rq_config r))
    |> db_u64 (decision_code (rq_decision r)) |> db_u64 (reason_code (rq_fence_cause r))
    |> db_text (rq_note r) |> db_finish.

(** ** Codes and decidable equality *)

Lemma op_cast_code op : op_cast (op_code op) = op.
Proof. by destruct op. Qed.

Lemma op_code_inj a b : op_code a = op_code b -> a = b.
Proof. intros H. by rewrite <-(op_cast_code a), <-(op_cast_code b), H. Qed.

Lemma op_code_range op : 0 <= op_code op < kOpKindCount.
Proof. by destruct op. Qed.

Lemma op_code_valid op : is_valid_op (op_code op) = true.
Proof. by destruct op. Qed.

Lemma op_code_u8 op : in_u8 (op_code op).
Proof. by destruct op. Qed.

Lemma decision_cast_code d : decision_cast (decision_code d) = d.
Proof. by destruct d. Qed.

Lemma decision_code_u8 d : in_u8 (decision_code d).
Proof. by destruct d. Qed.

#[export] Hint Resolve op_code_u8 decision_code_u8 : word.

#[global] Instance op_eq_dec : EqDecision OpKind.
Proof. solve_decision. Defined.
#[global] Instance op_class_eq_dec : EqDecision OpClass.
Proof. solve_decision. Defined.
#[global] Instance decision_eq_dec : EqDecision RevalidationDecision.
Proof. solve_decision. Defined.

Definition op_eqb (a b : OpKind) : bool := op_code a =? op_code b.

Lemma op_eqb_eq a b : op_eqb a b = true <-> a = b.
Proof. unfold op_eqb. rewrite Z.eqb_eq. split; [apply op_code_inj | by intros ->]. Qed.

Lemma op_eqb_refl a : op_eqb a a = true.
Proof. by apply op_eqb_eq. Qed.

(** ** The request digest is sensitive to every word *)

Lemma request_digest_words r :
  request_digest r =
  db_finish (db_text (rq_note r)
    (db_words (request_words r) (db_keyed (mkDigest 0xFEEDFACE12345678 0x87654321CEFAEDEF)))).
Proof. done. Qed.

(** Two requests with the same note whose other fields differ in exactly one
    digested word (attempt identity half, operation, sequence, presenter,
    count, target, proof half, ...) have different request digests, in both
    halves: such a changed retry of a decided sequence is always recognised as
    a contradiction and never absorbed as a duplicate. *)
Theorem request_digest_separates r r' :
  rq_note r = rq_note r' -> Forall in_u8 (rq_note r) ->
  differ_in_one_word (request_words r) (request_words r') ->
  lo (request_digest r) <> lo (request_digest r') /\
  hi (request_digest r) <> hi (request_digest r').
Proof.
  intros Hn Hb (pre & v & w & post & E1 & E2 & Hv & Hw & Hne).
  rewrite !request_digest_words, Hn, E1, E2, !db_words_app.
  apply db_finish_apart, db_text_apart; [by rewrite <-Hn |]. simpl.
  apply db_words_apart, db_u64_apart_value; auto.
  apply db_words_range, db_keyed_range. split; simpl; word_lia.
Qed.

(** A sample request: issue 5 credits at sequence 2. *)
Definition sample_request (count : Z) : CreditRequest :=
  mkRequest (mkDigest 11 12) Issue 2 (mkVector 1 2 1 1 9) (mkIncarnation 7 8 9) 0 0 0 0 0
    count 0 digest_zero digest_zero config_zero DecisionNone RUnknownState [].

Lemma request_digest_separates_witness :
  lo (request_digest (sample_request 5)) <> lo (request_digest (sample_request 6)).
Proof.
  apply (request_digest_separates (sample_request 5) (sample_request 6));
    [reflexivity | constructor |].
  exists (take 14 (request_words (sample_request 5))), 5, 6,
    (drop 15 (request_words (sample_request 5))).
  split_and!; try reflexivity; word_lia.
Defined.
