(* ===== verification/Bytes.v ===== *)
(** * The bounded little-endian byte codec (include/creditfabric/bytes.hpp)

    [ByteWriter] methods return the bytes they append.  [ByteReader] is the
    unread suffix of a buffer of [rd_size] bytes; its position is what has been
    consumed.  A decoder is a reader action that ends in a value or in the
    refusal the source returns, in the error monad [Decoder].

    [Roundtrip wf enc dec] is the interface the wire and durable codecs are
    proved against: decoding what was encoded gives the value back and leaves
    exactly the bytes that followed it. *)

From S2P Require Import Prelude Status Digest.
Local Open Scope Z_scope.

(** ** Writer *)

Definition w_u8 (v : Z) : list Z := [v].
Definition w_boolean (v : bool) : list Z := [if v then 1 else 0].

(** The loop [for (i < n) push_back((value >> (8 * i)) & 0xFF)]. *)
Definition w_le (n : nat) (v : Z) : list Z :=
  (fun i => Z.land (Z.shiftr v (8 * Z.of_nat i)) 0xFF) <$> seq 0 n.

Definition w_u16 (v : Z) : list Z := w_le 2 v.
Definition w_u32 (v : Z) : list Z := w_le 4 v.
Definition w_u64 (v : Z) : list Z := w_le 8 v.
Definition w_digest (d : Digest128) : list Z := w_u64 (lo d) ++ w_u64 (hi d).
Definition w_raw (data : list Z) : list Z := data.

(** [text]: [None] when the value is longer than [max_bytes]; nothing is written then. *)
Definition w_text (value : list Z) (max_bytes : Z) : option (list Z) :=
  if Z.of_nat (length value) >? max_bytes then None
  else Some (w_u32 (wrap32 (Z.of_nat (length value))) ++ w_raw value).

(** ** Reader *)

Record ByteReader := mkReader { rd_size : Z; rd_rest : list Z; rd_failed : bool }.

Definition reader_make (data : list Z) : ByteReader :=
  mkReader (Z.of_nat (length data)) data false.

Definition rd_remaining (r : ByteReader) : Z := Z.of_nat (length (rd_rest r)).
Definition rd_position (r : ByteReader) : Z := rd_size r - rd_remaining r.
Definition rd_done (r : ByteReader) : bool := rd_position r =? rd_size r.

Definition rd_fail (r : ByteReader) : ByteReader := mkReader (rd_size r) (rd_rest r) true.

(** [ensure(count)] followed by taking [count] bytes. *)
Definition r_take (count : nat) (r : ByteReader) : option (list Z) * ByteReader :=
  if Z.of_nat count >? rd_remaining r then (None, rd_fail r)
  else (Some (take count (rd_rest r)), mkReader (rd_size r) (drop count (rd_rest r)) (rd_failed r)).

(** The loop [value |= data[position + i] << (8 * i)]. *)
Fixpoint le_or (i : Z) (acc : Z) (bytes : list Z) : Z :=
  match bytes with
  | [] => acc
  | b :: rest => le_or (i + 1) (Z.lor acc (Z.shiftl b (8 * i))) rest
  end.

Definition r_le (n : nat) (r : ByteReader) : option Z * ByteReader :=
  match r_take n r with
  | (Some bytes, r') => (Some (le_or 0 0 bytes), r')
  | (None, r') => (None, r')
  end.

Definition r_u8 (r : ByteReader) : option Z * ByteReader := r_le 1 r.
Definition r_u16 (r : ByteReader) : option Z * ByteReader := r_le 2 r.
Definition r_u32 (r : ByteReader) : option Z * ByteReader := r_le 4 r.
Definition r_u64 (r : ByteReader) : option Z * ByteReader := r_le 8 r.

Definition r_boolean (r : ByteReader) : option bool * ByteReader :=
  match r_u8 r with
  | (Some raw, r') => if raw >? 1 then (None, rd_fail r') else (Some (raw =? 1), r')
  | (None, r') => (None, r')
  end.

Definition r_digest (r : ByteReader) : option Digest128 * ByteReader :=
  match r_u64 r with
  | (Some l, r') =>
      match r_u64 r' with
      | (Some h, r'') => (Some (mkDigest l h), r'')
      | (None, r'') => (None, r'')
      end
  | (None, r') => (None, r')
  end.

(** The bytes copied to the destination. *)
Definition r_raw (count : Z) (r : ByteReader) : option (list Z) * ByteReader := r_take (Z.to_nat count) r.

Definition r_skip (count : Z) (r : ByteReader) : option unit * ByteReader :=
  match r_take (Z.to_nat count) r with
  | (Some _, r') => (Some tt, r')
  | (None, r') => (None, r')
  end.

Definition r_text (max_bytes : Z) (r : ByteReader) : option (list Z) * ByteReader :=
  match r_u32 r with
  | (None, r') => (None, r')
  | (Some len, r') =>
      if (len >? max_bytes) || (len >? rd_remaining r') then (None, rd_fail r')
      else (Some (take (Z.to_nat len) (rd_rest r')),
            mkReader (rd_size r') (drop (Z.to_nat len) (rd_rest r')) (rd_failed r'))
  end.

(** ** Decoders *)

Definition Decoder (A : Type) : Type := ByteReader -> (Status + A) * ByteReader.

Definition d_ret {A} (a : A) : Decoder A := fun r => (inr a, r).

Definition d_bind {A B} (m : Decoder A) (k : A -> Decoder B) : Decoder B := fun r =>
  match m r with
  | (inr a, r') => k a r'
  | (inl s, r') => (inl s, r')
  end.

Declare Scope decoder_scope.
Delimit Scope decoder_scope with dec.
Notation "x <-- m ;; k" := (d_bind m (fun x => k))
  (at level 100, m at next level, right associativity) : decoder_scope.
Notation "m ;;; k" := (d_bind m (fun _ => k))
  (at level 100, right associativity) : decoder_scope.

(** [if (!reader.x(out)) return Status::refused(TruncatedInput, reader.position())]. *)
Definition need {A} (m : ByteReader -> option A * ByteReader) : Decoder A := fun r =>
  match m r with
  | (Some a, r') => (inr a, r')
  | (None, r') => (inl (refused_status RTruncatedInput (rd_position r')), r')
  end.

(** The same with another refusal. *)
Definition need_or {A} (m : ByteReader -> option A * ByteReader) (s : ByteReader -> Status)
    : Decoder A := fun r =>
  match m r with
  | (Some a, r') => (inr a, r')
  | (None, r') => (inl (s r'), r')
  end.

(** [if (!condition) return status]. *)
Definition require (condition : bool) (s : Status) : Decoder unit := fun r =>
  if condition then (inr tt, r) else (inl s, r).

(** [if (!reader.done()) return Status::refused(MalformedMessage, reader.position())]. *)
Definition require_done : Decoder unit := fun r =>
  if rd_done r then (inr tt, r) else (inl (refused_status RMalformedMessage (rd_position r)), r).

(** Running a decoder on a whole buffer. *)
Definition run_decoder {A} (m : Decoder A) (data : list Z) : Status + A :=
  fst (m (reader_make data)).

(** ** Little-endian words *)

Lemma length_w_le n v : length (w_le n v) = n.
Proof. unfold w_le. by rewrite length_fmap, length_seq. Qed.

Lemma w_le_S n v : w_le (S n) v = Z.land v 0xFF :: w_le n (Z.shiftr v 8).
Proof.
  unfold w_le. change (seq 0 (S n)) with (0%nat :: seq 1 n).
  rewrite fmap_cons. f_equal.
  rewrite <-(fmap_S_seq 0 n), <-list_fmap_compose. apply list_fmap_ext. intros i x _. simpl.
  rewrite Z.shiftr_shiftr by lia. f_equal. f_equal. lia.
Qed.

Lemma w_le_bytes n v : Forall in_u8 (w_le n v).
Proof.
  unfold w_le. apply Forall_fmap, Forall_true. intros i. simpl.
  unfold in_u8. change 0xFF with (Z.ones 8). rewrite Z.land_ones by lia.
  apply Z.mod_pos_bound. lia.
Qed.

(** Or-ing the bytes back at their positions. *)
Lemma le_or_w_le n i acc v :
  0 <= i -> 0 <= acc < 2 ^ (8 * i) ->
  le_or i acc (w_le n v) = acc + 2 ^ (8 * i) * (v mod 2 ^ (8 * Z.of_nat n)).
Proof.
  revert i acc v. induction n as [|n IH]; intros i acc v Hi Hacc.
  { simpl. rewrite Z.mod_1_r. lia. }
  rewrite w_le_S. cbn [le_or].
  change 255 with (Z.ones 8). rewrite Z.land_ones by lia.
  assert (Hb : 0 <= v mod 2 ^ 8 < 2 ^ 8) by (apply Z.mod_pos_bound; lia).
  assert (Hp : 0 < 2 ^ (8 * i)) by (apply Z.pow_pos_nonneg; lia).
  assert (Hs : 2 ^ (8 * (i + 1)) = 2 ^ (8 * i) * 2 ^ 8).
  { rewrite <-Z.pow_add_r by lia. f_equal. lia. }
  rewrite lor_shiftl_add by lia.
  rewrite IH by (rewrite ?Hs; nia).
  rewrite Hs, Z.shiftr_div_pow2 by lia.
  replace (8 * Z.of_nat (S n)) with (8 + 8 * Z.of_nat n) by lia.
  rewrite Z.pow_add_r, Z.rem_mul_r by lia. lia.
Qed.

Lemma le_or_word n v : 0 <= v < 2 ^ (8 * Z.of_nat n) -> le_or 0 0 (w_le n v) = v.
Proof.
  intros Hv. rewrite le_or_w_le by (simpl; lia).
  rewrite Z.mod_small by done. change (2 ^ (8 * 0)) with 1. lia.
Qed.

Lemma le_or_single v : le_or 0 0 [v] = v.
Proof. simpl. by rewrite Z.shiftl_0_r. Qed.

#[global] Opaque w_le le_or.

(** ** Reading back what was written *)

Lemma r_take_app n bs sz k :
  length bs = n -> r_take n (mkReader sz (bs ++ k) false) = (Some bs, mkReader sz k false).
Proof.
  intros <-. unfold r_take, rd_remaining. simpl.
  destruct (Z.gtb_spec (Z.of_nat (length bs)) (Z.of_nat (length (bs ++ k)))) as [H|H].
  { rewrite length_app in H. lia. }
  by rewrite take_app_length, drop_app_length.
Qed.

Lemma r_le_app n v sz k :
  0 <= v < 2 ^ (8 * Z.of_nat n) ->
  r_le n (mkReader sz (w_le n v ++ k) false) = (Some v, mkReader sz k false).
Proof.
  intros Hv. unfold r_le. rewrite r_take_app by apply length_w_le. by rewrite le_or_word.
Qed.

(** A primitive reader undoes a writer on the values satisfying [wf]. *)
Definition reads {A} (wf : A -> Prop) (w : A -> list Z) (m : ByteReader -> option A * ByteReader)
    : Prop :=
  forall a sz k, wf a -> m (mkReader sz (w a ++ k) false) = (Some a, mkReader sz k false).

Lemma reads_u8 : reads in_u8 w_u8 r_u8.
Proof.
  intros v sz k Hv. unfold r_u8, r_le, w_u8. rewrite r_take_app by done.
  by rewrite le_or_single.
Qed.
Lemma reads_u16 : reads in_u16 w_u16 r_u16.
Proof. intros v sz k Hv. by apply (r_le_app 2). Qed.
Lemma reads_u32 : reads in_u32 w_u32 r_u32.
Proof. intros v sz k Hv. by apply (r_le_app 4). Qed.
Lemma reads_u64 : reads in_u64 w_u64 r_u64.
Proof. intros v sz k Hv. by apply (r_le_app 8). Qed.

Lemma reads_boolean : reads (fun _ => True) w_boolean r_boolean.
Proof.
  intros v sz k _. unfold r_boolean, w_boolean.
  change [if v then 1 else 0] with (w_u8 (if v then 1 else 0)).
  rewrite reads_u8 by (destruct v; unfold in_u8; lia). by destruct v.
Qed.

Lemma reads_digest : reads digest_range w_digest r_digest.
Proof.
  intros [l h] sz k [Hl Hh]. cbn [lo hi] in *. unfold r_digest, w_digest. cbn [lo hi].
  rewrite <-app_assoc, reads_u64 by done. by rewrite reads_u64.
Qed.

Lemma reads_text max sz value bytes k :
  w_text value max = Some bytes -> Z.of_nat (length value) < 4294967296 ->
  r_text max (mkReader sz (bytes ++ k) false) = (Some value, mkReader sz k false).
Proof.
  unfold w_text, w_raw. destruct (Z.gtb_spec (Z.of_nat (length value)) max); [done |].
  intros [= <-] Hlen. unfold r_text. rewrite <-app_assoc, wrap32_small by word_lia.
  rewrite reads_u32 by word_lia. unfold rd_remaining. simpl.
  destruct (Z.gtb_spec (Z.of_nat (length value)) max); [lia |].
  destruct (Z.gtb_spec (Z.of_nat (length value)) (Z.of_nat (length (value ++ k)))) as [H1|H1].
  { rewrite length_app in H1. lia. }
  simpl. by rewrite Nat2Z.id, take_app_length, drop_app_length.
Qed.

(** ** The codec interface *)

(** Decoding an encoded value returns it and leaves the bytes that follow. *)
Class Roundtrip {A} (wf : A -> Prop) (enc : A -> list Z) (dec : Decoder A) : Prop :=
  roundtrip : forall a sz k, wf a ->
    dec (mkReader sz (enc a ++ k) false) = (inr a, mkReader sz k false).

Lemma d_bind_ok {A B} (m : Decoder A) (f : A -> Decoder B) r a r' :
  m r = (inr a, r') -> d_bind m f r = f a r'.
Proof. unfold d_bind. by intros ->. Qed.

Lemma need_reads {A} (wf : A -> Prop) w m a sz k :
  reads wf w m -> wf a -> need m (mkReader sz (w a ++ k) false) = (inr a, mkReader sz k false).
Proof. intros Hr Ha. unfold need. by rewrite Hr. Qed.

Section NeedBind.
Context {B : Type} (f : Z -> Decoder B) (sz : Z) (k : list Z).

Lemma need_u8 v :
  in_u8 v -> d_bind (need r_u8) f (mkReader sz (w_u8 v ++ k) false) = f v (mkReader sz k false).
Proof. intros. apply d_bind_ok, (need_reads in_u8); auto using reads_u8. Qed.
Lemma need_u16 v :
  in_u16 v -> d_bind (need r_u16) f (mkReader sz (w_u16 v ++ k) false) = f v (mkReader sz k false).
Proof. intros. apply d_bind_ok, (need_reads in_u16); auto using reads_u16. Qed.
Lemma need_u32 v :
  in_u32 v -> d_bind (need r_u32) f (mkReader sz (w_u32 v ++ k) false) = f v (mkReader sz k false).
Proof. intros. apply d_bind_ok, (need_reads in_u32); auto using reads_u32. Qed.
Lemma need_u64 v :
  in_u64 v -> d_bind (need r_u64) f (mkReader sz (w_u64 v ++ k) false) = f v (mkReader sz k false).
Proof. intros. apply d_bind_ok, (need_reads in_u64); auto using reads_u64. Qed.
End NeedBind.

Lemma need_boolean {B} (f : bool -> Decoder B) sz k v :
  d_bind (need r_boolean) f (mkReader sz (w_boolean v ++ k) false) = f v (mkReader sz k false).
Proof. apply d_bind_ok, (need_reads (fun _ => True)); auto using reads_boolean. Qed.

Lemma need_digest {B} (f : Digest128 -> Decoder B) sz k d :
  digest_range d ->
  d_bind (need r_digest) f (mkReader sz (w_digest d ++ k) false) = f d (mkReader sz k false).
Proof. intros. apply d_bind_ok, (need_reads digest_range); auto using reads_digest. Qed.

Lemma require_true {B} (f : unit -> Decoder B) (b : bool) s r :
  b = true -> d_bind (require b s) f r = f tt r.
Proof. by intros ->. Qed.

Lemma roundtrip_bind {A B} (wf : A -> Prop) enc dec `{Roundtrip A wf enc dec}
    (f : A -> Decoder B) a sz k :
  wf a -> d_bind dec f (mkReader sz (enc a ++ k) false) = f a (mkReader sz k false).
Proof. intros Ha. apply d_bind_ok. by apply roundtrip. Qed.

Lemma require_done_nil {B} (f : unit -> Decoder B) sz :
  d_bind require_done f (mkReader sz [] false) = f tt (mkReader sz [] false).
Proof. unfold d_bind, require_done, rd_done, rd_position, rd_remaining. simpl.
  by rewrite Z.sub_0_r, Z.eqb_refl. Qed.

(** A whole-buffer decode of an encoding that is followed by nothing. *)
Lemma run_decoder_roundtrip {A} (wf : A -> Prop) enc dec `{Roundtrip A wf enc dec} a :
  wf a -> run_decoder dec (enc a) = inr a.
Proof.
  intros Ha. unfold run_decoder, reader_make.
  pose proof (roundtrip (dec := dec) a (Z.of_nat (length (enc a))) [] Ha) as E.
  rewrite app_nil_r in E. by rewrite E.
Qed.

(** One step of a round trip proof: consume the next written field. *)
Ltac codec_step :=
  first
  [ rewrite need_u64 by eauto with word
  | rewrite need_u8 by eauto with word
  | rewrite need_u16 by eauto with word
  | rewrite need_u32 by eauto with word
  | rewrite need_boolean
  | rewrite need_digest by eauto with word
  | rewrite require_true by eauto ].

#[global] Opaque w_u8 w_u16 w_u32 w_u64 w_boolean w_digest.
#[global] Opaque r_u8 r_u16 r_u32 r_u64 r_boolean r_digest r_text need require.
