(* ===== verification/Crc32c.v ===== *)
(** * CRC-32C (src/crc32c.cpp, include/creditfabric/crc32c.hpp)

    The reflected Castagnoli checksum computed from a 256-entry table.  The
    table-driven loop is proved equal to the bit-serial definition, and any
    corruption confined to four consecutive bytes is proved to change it. *)

From S2P Require Import Prelude.
Local Open Scope Z_scope.

(** ** The table and the loop *)

Definition kPolynomial : Z := 0x82F63B78.

(** One iteration of the inner loop of [make_table]. *)
Definition crc_bit (crc : Z) : Z :=
  if Z.odd crc then Z.lxor (Z.shiftr crc 1) kPolynomial else Z.shiftr crc 1.

Definition table_entry (i : Z) : Z := Nat.iter 8 crc_bit i.

Definition make_table : list Z := table_entry <$> seqZ 0 256.

Definition kTable : list Z := Eval vm_compute in make_table.

(** One byte of the [crc32c] loop. *)
Definition crc_byte (crc b : Z) : Z :=
  let index := Z.land (Z.lxor crc b) 0xFF in
  Z.lxor (default 0 (kTable !! Z.to_nat index)) (Z.shiftr crc 8).

(** [~x] on 32 bits. *)
Definition not32 (x : Z) : Z := Z.lxor x 0xFFFFFFFF.

Definition crc_loop (data : list Z) (crc : Z) : Z := fold_left crc_byte data crc.

Definition crc32c (data : list Z) (seed : Z) : Z := not32 (crc_loop data (not32 seed)).

Definition crc32c_u64 (value seed : Z) : Z :=
  crc32c ((fun i => Z.land (Z.shiftr value (8 * i)) 0xFF) <$> seqZ 0 8) seed.

(** The bit-serial definition: shift the message in, one bit at a time. *)
Definition crc_bits (n : nat) (x : Z) : Z := Nat.iter n crc_bit x.

(** ** Linearity *)

Lemma crc_bit_eq x : crc_bit x = Z.lxor (Z.shiftr x 1) (if Z.odd x then kPolynomial else 0).
Proof. unfold crc_bit. destruct (Z.odd x); [done |]. by rewrite Z.lxor_0_r. Qed.

Lemma crc_bit_lxor x y : crc_bit (Z.lxor x y) = Z.lxor (crc_bit x) (crc_bit y).
Proof.
  rewrite !crc_bit_eq, Z.shiftr_lxor, <-!Z.bit0_odd, Z.lxor_spec.
  destruct (Z.testbit x 0), (Z.testbit y 0); simpl;
    apply Z.bits_inj'; intros j Hj; rewrite !Z.lxor_spec, ?Z.bits_0;
    by destruct (Z.testbit (Z.shiftr x 1) j), (Z.testbit (Z.shiftr y 1) j),
      (Z.testbit kPolynomial j).
Qed.

Lemma crc_bits_lxor n x y : crc_bits n (Z.lxor x y) = Z.lxor (crc_bits n x) (crc_bits n y).
Proof. induction n as [|n IH]; simpl; [done |]. by rewrite IH, crc_bit_lxor. Qed.

Lemma crc_bits_S n x : crc_bits (S n) x = crc_bits n (crc_bit x).
Proof. unfold crc_bits. by rewrite Nat.iter_succ_r. Qed.

Lemma crc_bits_add n m x : crc_bits (n + m) x = crc_bits n (crc_bits m x).
Proof. unfold crc_bits. apply Nat.iter_add. Qed.

(** Zero low bits are simply shifted out. *)
Lemma crc_bits_shifted n x : crc_bits n (Z.shiftl x (Z.of_nat n)) = x.
Proof.
  revert x. induction n as [|n IH]; intros x; [apply Z.shiftl_0_r |].
  rewrite crc_bits_S, crc_bit_eq.
  replace (Z.of_nat (S n)) with (Z.of_nat n + 1) by lia.
  assert (Z.odd (Z.shiftl x (Z.of_nat n + 1)) = false) as ->.
  { rewrite <-Z.bit0_odd. apply Z.shiftl_spec_low. lia. }
  rewrite Z.lxor_0_r, <-Z.shiftl_shiftl, Z.shiftr_shiftl_l, Z.sub_diag, Z.shiftl_0_r by lia.
  apply IH.
Qed.

(** ** The table-driven step is eight bit-serial steps *)

Lemma kTable_lookup i : 0 <= i < 256 -> kTable !! Z.to_nat i = Some (crc_bits 8 i).
Proof.
  intros Hi. change kTable with make_table. unfold make_table.
  rewrite list_lookup_fmap, lookup_seqZ_lt by lia. simpl.
  by rewrite Z2Nat.id by lia.
Qed.

(** Splitting a number at bit 8. *)
Lemma split8 x : x = Z.lxor (Z.land x 255) (Z.shiftl (Z.shiftr x 8) 8).
Proof.
  apply Z.bits_inj'. intros j Hj. rewrite Z.lxor_spec, Z.land_spec.
  change 255 with (Z.ones 8). destruct (Z_lt_le_dec j 8).
  - rewrite Z.shiftl_spec_low, Z.ones_spec_low by lia. by rewrite andb_true_r, xorb_false_r.
  - rewrite Z.ones_spec_high, Z.shiftl_spec_high, Z.shiftr_spec by lia.
    rewrite andb_false_r, xorb_false_l. f_equal. lia.
Qed.

Lemma shiftr8_byte b : in_u8 b -> Z.shiftr b 8 = 0.
Proof. intros Hb. rewrite Z.shiftr_div_pow2 by lia. apply Z.div_small. word_lia. Qed.

Lemma crc_byte_bits crc b : in_u8 b -> crc_byte crc b = crc_bits 8 (Z.lxor crc b).
Proof.
  intros Hb. unfold crc_byte.
  assert (Hi : 0 <= Z.land (Z.lxor crc b) 255 < 256).
  { change 255 with (Z.ones 8). rewrite Z.land_ones by lia. apply Z.mod_pos_bound. lia. }
  rewrite kTable_lookup by done. simpl default.
  rewrite (split8 (Z.lxor crc b)) at 2. rewrite crc_bits_lxor. f_equal.
  rewrite (crc_bits_shifted 8), Z.shiftr_lxor, (shiftr8_byte b), Z.lxor_0_r by done. done.
Qed.

(** The message as one little-endian number. *)
Fixpoint message_value (data : list Z) : Z :=
  match data with
  | [] => 0
  | b :: rest => Z.lxor b (Z.shiftl (message_value rest) 8)
  end.

Lemma crc_loop_bits data crc :
  Forall in_u8 data ->
  crc_loop data crc = crc_bits (8 * length data) (Z.lxor crc (message_value data)).
Proof.
  revert crc. induction data as [|b data IH]; intros crc Hd; simpl length; cbn [message_value].
  { simpl. by rewrite Z.lxor_0_r. }
  apply Forall_cons in Hd as [Hb Hd].
  change (crc_loop (b :: data) crc) with (crc_loop data (crc_byte crc b)).
  rewrite IH, crc_byte_bits by done.
  replace (8 * S (length data))%nat with (8 * length data + 8)%nat by lia.
  rewrite crc_bits_add. f_equal.
  rewrite <-(crc_bits_shifted 8 (message_value data)) at 1.
  by rewrite <-crc_bits_lxor, Z.lxor_assoc.
Qed.

(** ** Bit-serial steps are injective on 32-bit states *)

Lemma crc_bit_range x : in_u32 x -> in_u32 (crc_bit x).
Proof.
  intros Hx. rewrite crc_bit_eq. apply (lxor_word 32); [lia | apply shiftr_word; word_lia |].
  destruct (Z.odd x); unfold kPolynomial; lia.
Qed.

Lemma crc_bits_range n x : in_u32 x -> in_u32 (crc_bits n x).
Proof. intros. induction n; simpl; auto using crc_bit_range. Qed.

(** The polynomial has bit 31 set, which a shifted state never has. *)
Lemma crc_bit_top x : in_u32 x -> Z.testbit (crc_bit x) 31 = Z.odd x.
Proof.
  intros Hx. rewrite crc_bit_eq, Z.lxor_spec, Z.shiftr_spec by lia.
  rewrite (testbit_above_word x 32) by (word_lia || lia). by destruct (Z.odd x).
Qed.

Lemma crc_bit_inj x y : in_u32 x -> in_u32 y -> crc_bit x = crc_bit y -> x = y.
Proof.
  intros Hx Hy H. pose proof (crc_bit_top x Hx) as Tx. pose proof (crc_bit_top y Hy) as Ty.
  rewrite H, Ty in Tx. rewrite !crc_bit_eq, Tx in H. apply lxor_cancel_r in H.
  rewrite <-!Z.div2_spec in H. pose proof (Z.div2_odd x). pose proof (Z.div2_odd y).
  rewrite Tx in *. lia.
Qed.

Lemma crc_bits_inj n x y : in_u32 x -> in_u32 y -> crc_bits n x = crc_bits n y -> x = y.
Proof.
  intros Hx Hy. induction n as [|n IH]; simpl; [done |]. intros H.
  apply IH, crc_bit_inj; auto using crc_bits_range.
Qed.

Lemma crc_loop_range data crc : Forall in_u8 data -> in_u32 crc -> in_u32 (crc_loop data crc).
Proof.
  revert crc. induction data as [|b data IH]; [done |].
  intros crc [Hb Hd]%Forall_cons Hc. apply IH; [done |].
  rewrite crc_byte_bits by done. apply crc_bits_range, (lxor_word 32); word_lia.
Qed.

Lemma crc_loop_app l k crc : crc_loop (l ++ k) crc = crc_loop k (crc_loop l crc).
Proof. apply fold_left_app. Qed.

Lemma crc_byte_inj x y b : in_u8 b -> in_u32 x -> in_u32 y -> crc_byte x b = crc_byte y b -> x = y.
Proof.
  intros Hb Hx Hy H. rewrite !crc_byte_bits in H by done.
  apply crc_bits_inj in H; [by apply lxor_cancel_r in H | |]; apply (lxor_word 32); word_lia.
Qed.

Lemma crc_loop_inj data x y :
  Forall in_u8 data -> in_u32 x -> in_u32 y -> crc_loop data x = crc_loop data y -> x = y.
Proof.
  revert x y. induction data as [|b data IH]; [done |].
  intros x y [Hb Hd]%Forall_cons Hx Hy H. simpl in H.
  apply IH in H; auto.
  - by apply crc_byte_inj in H.
  - rewrite crc_byte_bits by done. apply crc_bits_range, (lxor_word 32); word_lia.
  - rewrite crc_byte_bits by done. apply crc_bits_range, (lxor_word 32); word_lia.
Qed.

(** Messages of at most four bytes are determined by their value. *)
Lemma message_value_range data :
  Forall in_u8 data -> 0 <= message_value data < 2 ^ (8 * Z.of_nat (length data)).
Proof.
  induction 1 as [|b data Hb Hd IH]; [simpl; lia |]. cbn [message_value].
  apply lxor_word; [lia | |].
  - split; [word_lia |]. apply Z.lt_le_trans with (2 ^ 8); [word_lia |].
    apply Z.pow_le_mono_r; simpl length; lia.
  - rewrite Z.shiftl_mul_pow2 by lia.
    replace (8 * Z.of_nat (length (b :: data))) with (8 * Z.of_nat (length data) + 8)
      by (simpl length; lia).
    rewrite Z.pow_add_r by lia. lia.
Qed.

Lemma message_value_inj l k :
  Forall in_u8 l -> Forall in_u8 k -> length l = length k ->
  message_value l = message_value k -> l = k.
Proof.
  intros Hl. revert k. induction Hl as [|b l Hb Hl IH]; intros [|c k]; try done.
  intros [Hc Hk]%Forall_cons Hlen. cbn [message_value]. intros H.
  assert (E : forall x m, in_u8 x -> Z.land (Z.lxor x (Z.shiftl m 8)) 255 = x /\
                             Z.shiftr (Z.lxor x (Z.shiftl m 8)) 8 = m).
  { intros x m Hx. split.
    - apply Z.bits_inj'. intros j Hj. rewrite Z.land_spec, Z.lxor_spec.
      change 255 with (Z.ones 8). destruct (Z_lt_le_dec j 8).
      + rewrite Z.shiftl_spec_low, Z.ones_spec_low by lia. by rewrite xorb_false_r, andb_true_r.
      + rewrite Z.ones_spec_high, andb_false_r by lia.
        symmetry. apply (testbit_above_word x 8); word_lia.
    - rewrite Z.shiftr_lxor, shiftr8_byte, Z.lxor_0_l by done.
      by rewrite Z.shiftr_shiftl_l, Z.shiftl_0_r by lia. }
  destruct (E b (message_value l) Hb) as [E1 E2], (E c (message_value k) Hc) as [E3 E4].
  rewrite H in E1, E2. f_equal; [congruence |]. apply IH; [done | simpl in Hlen; lia |]. congruence.
Qed.

(** Different windows of at most four bytes lead to different states. *)
Lemma crc_loop_window l k crc :
  Forall in_u8 l -> Forall in_u8 k -> length l = length k -> (length l <= 4)%nat ->
  in_u32 crc -> l <> k -> crc_loop l crc <> crc_loop k crc.
Proof.
  intros Hl Hk Hlen H4 Hc Hne H. apply Hne.
  rewrite !crc_loop_bits, <-Hlen in H by done.
  assert (Hr : forall d, Forall in_u8 d -> length d = length l -> in_u32 (message_value d)).
  { intros d Hd Hdl. pose proof (message_value_range d Hd) as [Hd0 Hd1].
    split; [done |]. eapply Z.lt_le_trans; [exact Hd1 |].
    apply (Z.pow_le_mono_r 2 _ 32); lia. }
  apply crc_bits_inj, lxor_cancel_l in H.
  - by apply message_value_inj.
  - apply (lxor_word 32); [lia | done | by apply Hr].
  - apply (lxor_word 32); [lia | done | by apply Hr].
Qed.

Lemma not32_inj x y : not32 x = not32 y -> x = y.
Proof. apply lxor_cancel_r. Qed.

Lemma not32_range x : in_u32 x -> in_u32 (not32 x).
Proof. intros. apply (lxor_word 32); word_lia. Qed.

Lemma crc32c_range data seed : Forall in_u8 data -> in_u32 seed -> in_u32 (crc32c data seed).
Proof. intros. apply not32_range, crc_loop_range, not32_range; done. Qed.

#[export] Hint Resolve crc32c_range : word.

Lemma crc32c_burst pre l k post seed :
  Forall in_u8 pre -> Forall in_u8 l -> Forall in_u8 k -> Forall in_u8 post -> in_u32 seed ->
  length l = length k -> (length l <= 4)%nat -> l <> k ->
  crc32c (pre ++ l ++ post) seed <> crc32c (pre ++ k ++ post) seed.
Proof.
  intros Hp Hl Hk Hq Hs Hlen H4 Hne H. unfold crc32c in H. apply not32_inj in H.
  rewrite !crc_loop_app in H.
  assert (in_u32 (crc_loop pre (not32 seed))) by (apply crc_loop_range, not32_range; done).
  apply crc_loop_inj in H; auto using crc_loop_range.
  by apply crc_loop_window in H.
Qed.

(** ** Properties *)

(** C38: The table-driven CRC-32C equals the bit-serial reference: starting from
    the complemented seed, the message is shifted in bit by bit through the
    reflected Castagnoli polynomial, and the result is complemented. *)
Theorem crc32c_is_bit_serial data seed :
  Forall in_u8 data ->
  crc32c data seed = not32 (crc_bits (8 * length data) (Z.lxor (not32 seed) (message_value data))).
Proof. intros Hd. unfold crc32c. by rewrite crc_loop_bits. Qed.

Lemma crc32c_is_bit_serial_witness :
  crc32c [49; 50; 51; 52; 53; 54; 55; 56; 57] 0 = 0xE3069283 /\
  crc32c [49; 50] 0 = not32 (crc_bits 16 (Z.lxor (not32 0) (message_value [49; 50]))).
Proof.
  split; [vm_compute; reflexivity |].
  apply (crc32c_is_bit_serial [49; 50] 0). repeat constructor; word_lia.
Defined.

(** Every corruption confined to at most four consecutive bytes of a buffer
    (any burst of up to 32 bits within them) changes its CRC-32C. *)
Theorem crc32c_detects_burst pre l k post :
  Forall in_u8 pre -> Forall in_u8 l -> Forall in_u8 k -> Forall in_u8 post ->
  length l = length k -> (length l <= 4)%nat -> l <> k ->
  crc32c (pre ++ l ++ post) 0 <> crc32c (pre ++ k ++ post) 0.
Proof. intros. apply crc32c_burst; auto. word_lia. Qed.

Lemma crc32c_detects_burst_witness :
  crc32c ([1; 2] ++ [3; 4; 5; 6] ++ [7]) 0 <> crc32c ([1; 2] ++ [3; 9; 9; 6] ++ [7]) 0.
Proof.
  apply (crc32c_detects_burst [1; 2] [3; 4; 5; 6] [3; 9; 9; 6] [7]);
    try (repeat constructor; word_lia); done.
Defined.

#[global] Opaque crc32c.
