(* ===== verification/Wire.v ===== *)
(** * The wire protocol (include/creditfabric/wire.hpp, src/wire.cpp)

    Frames with magic, version, type, flags, length and a CRC-32C trailer; the
    field codecs shared with the durable records; and the four messages.  The
    codecs are instances of [Roundtrip]; the frame layer is proved to invert
    itself, to recognise every strict prefix as truncated, and to refuse every
    corruption of up to four consecutive payload bytes. *)

From S2P Require Import Prelude Status Digest Ledger Authority Request Bytes Crc32c.
Local Open Scope Z_scope.

(** ** Frames *)

Definition kWireMagic : Z := 0x31524643.
Definition kFrameHeaderBytes : Z := 12.
Definition kFrameTrailerBytes : Z := 4.
Definition kFrameOverheadBytes : Z := kFrameHeaderBytes + kFrameTrailerBytes.
Definition kFormatVersion : Z := 1.

Inductive MessageType : Set := Hello | HelloAck | MRequest | MResponse | Bye.

Definition message_code (t : MessageType) : Z :=
  match t with Hello => 1 | HelloAck => 2 | MRequest => 3 | MResponse => 4 | Bye => 5 end.

(** [static_cast<MessageType>(raw)] and the check that it is one of the five. *)
Definition message_cast (raw : Z) : option MessageType :=
  if raw =? 1 then Some Hello else if raw =? 2 then Some HelloAck
  else if raw =? 3 then Some MRequest else if raw =? 4 then Some MResponse
  else if raw =? 5 then Some Bye else None.

Definition message_to_string (t : MessageType) : string :=
  match t with
  | Hello => "Hello" | HelloAck => "HelloAck" | MRequest => "Request"
  | MResponse => "Response" | Bye => "Bye"
  end.

Record FrameHeader := mkHeader {
  fh_version : Z;
  fh_type : MessageType;
  fh_flags : Z;
  fh_payload_length : Z;
}.

(** The payload pointer and length are the payload bytes. *)
Record FrameView := mkFrameView {
  fv_header : FrameHeader;
  fv_payload : list Z;
  fv_consumed : Z;
}.

(** [memcpy] of a 32-bit word is little-endian on the supported hosts. *)
Definition write_header (type : MessageType) (flags payload_length : Z) : list Z :=
  w_u32 kWireMagic ++
  [kFormatVersion; message_code type; Z.land flags 0xFF; Z.land (Z.shiftr flags 8) 0xFF] ++
  w_u32 payload_length.

Definition read_u32 (data : list Z) (offset : Z) : Z :=
  le_or 0 0 (take 4 (drop (Z.to_nat offset) data)).

Definition byte_at (data : list Z) (i : nat) : Z := default 0 (data !! i).

Definition encode_frame (type : MessageType) (payload : list Z) : Status + list Z :=
  let size := Z.of_nat (length payload) in
  if size >? 0xFFFFFFFF then inl (refused_status ROversizedFrame size) else
  let out := write_header type 0 (wrap32 size) ++ payload in
  let crc := crc32c out 0 in
  inr (out ++ w_u32 crc).

Definition decode_frame (data : list Z) (max_payload : Z) : Status + FrameView :=
  let size := Z.of_nat (length data) in
  if size <? kFrameOverheadBytes then inl (refused_status RTruncatedInput size) else
  if negb (read_u32 data 0 =? kWireMagic) then inl (refused_status RMalformedMessage 1) else
  if negb (byte_at data 4 =? kFormatVersion)
  then inl (refused_status RUnsupportedVersion (byte_at data 4)) else
  match message_cast (byte_at data 5) with
  | None => inl (refused_status RMalformedMessage 2)
  | Some type =>
      let flags := Z.lor (byte_at data 6) (Z.shiftl (byte_at data 7) 8) in
      if negb (flags =? 0) then inl (refused_status RMalformedMessage 3) else
      let len := read_u32 data 8 in
      if len >? max_payload then inl (refused_status ROversizedFrame len) else
      let total := kFrameOverheadBytes + len in
      if size <? total then inl (refused_status RTruncatedInput size) else
      let expected := read_u32 data (kFrameHeaderBytes + len) in
      let actual := crc32c (take (Z.to_nat (kFrameHeaderBytes + len)) data) 0 in
      if negb (expected =? actual)
      then inl (refused_status RChecksumMismatch (Z.lxor expected actual)) else
      inr (mkFrameView (mkHeader (byte_at data 4) type flags len)
             (take (Z.to_nat len) (drop (Z.to_nat kFrameHeaderBytes) data)) total)
  end.

(** ** Field codecs *)

Definition encode_authority (a : AuthorityVector) : list Z :=
  w_u64 (a_domain a) ++ w_u64 (a_account a) ++ w_u64 (a_epoch a) ++ w_u64 (a_generation a) ++
  w_u64 (a_incarnation a).

Definition decode_authority : Decoder AuthorityVector :=
  (domain <-- need r_u64;; account <-- need r_u64;; epoch <-- need r_u64;;
   generation <-- need r_u64;; incarnation <-- need r_u64;;
   d_ret (mkVector domain account epoch generation incarnation))%dec.

Definition encode_account_config (c : AccountConfig) : list Z :=
  w_u64 (c_domain c) ++ w_u64 (c_account c) ++ w_u64 (c_resource c) ++ w_u64 (c_policy c) ++
  w_u64 (c_capacity c) ++ w_u64 (c_max_capacity c) ++ w_u8 (profile_code (c_profile c)) ++
  w_u64 (min_issue (c_rules c)) ++ w_u64 (max_issue_per_attempt (c_rules c)) ++
  w_boolean (allow_protect (c_rules c)) ++ w_boolean (allow_return (c_rules c)) ++
  w_boolean (allow_capacity_growth (c_rules c)).

Definition decode_account_config : Decoder AccountConfig :=
  (domain <-- need r_u64;; account <-- need r_u64;; resource <-- need r_u64;;
   policy <-- need r_u64;; capacity <-- need r_u64;; max_capacity <-- need r_u64;;
   profile <-- need r_u8;; min_issue <-- need r_u64;; max_issue <-- need r_u64;;
   protect <-- need r_boolean;; give_back <-- need r_boolean;; growth <-- need r_boolean;;
   require (profile <=? profile_code PhysicalValidated)
     (refused_status RMalformedMessage profile);;;
   d_ret (mkConfig domain account resource policy capacity max_capacity (profile_cast profile)
            (mkPolicy min_issue max_issue protect give_back growth)))%dec.

Definition encode_view (v : CreditView) : list Z :=
  w_u64 (v_capacity v) ++ w_u64 (v_issued v) ++ w_u64 (v_consumed v) ++ w_u64 (v_returned v) ++
  w_u64 (v_stale v) ++ w_u64 (v_spent v) ++ w_u64 (v_protected v) ++ w_u64 (v_in_flight v) ++
  w_u64 (v_outstanding v) ++ w_u64 (v_available v) ++ w_boolean (v_closed v).

(** [quarantined] is not sent: the receiver sets it to [stale]. *)
Definition decode_view : Decoder CreditView :=
  (capacity <-- need r_u64;; issued <-- need r_u64;; consumed <-- need r_u64;;
   returned <-- need r_u64;; stale <-- need r_u64;; spent <-- need r_u64;;
   protected <-- need r_u64;; in_flight <-- need r_u64;; outstanding <-- need r_u64;;
   available <-- need r_u64;; closed <-- need r_boolean;;
   d_ret (mkView capacity issued consumed returned stale spent protected in_flight outstanding
            stale available closed))%dec.

(** The result of [writer.text] is discarded: a note of more than 4096 bytes
    leaves the body without its last field. *)
Definition encode_request_body (r : CreditRequest) : list Z :=
  w_digest (rq_attempt r) ++ w_u8 (op_code (rq_op r)) ++ w_u64 (rq_sequence r) ++
  encode_authority (rq_authority r) ++
  w_u64 (i_publisher (rq_presenter r)) ++ w_u64 (i_boot (rq_presenter r)) ++
  w_u64 (i_id (rq_presenter r)) ++
  w_u64 (rq_resource r) ++ w_u64 (rq_producer r) ++ w_u64 (rq_consumer r) ++
  w_u64 (rq_grant r) ++ w_u64 (rq_target r) ++ w_u64 (rq_count r) ++
  w_u64 (rq_new_capacity r) ++ w_digest (rq_proof r) ++ w_digest (rq_expected_state r) ++
  encode_account_config (rq_config r) ++ w_u8 (decision_code (rq_decision r)) ++
  w_u16 (reason_code (rq_fence_cause r)) ++ default [] (w_text (rq_note r) 4096).

Definition decode_request_body (max_note_bytes : Z) : Decoder CreditRequest :=
  (attempt <-- need r_digest;; op <-- need r_u8;; sequence <-- need r_u64;;
   require (is_valid_op op) (refused_status RMalformedMessage op);;;
   authority <-- decode_authority;;
   publisher <-- need r_u64;; boot <-- need r_u64;; incarnation <-- need r_u64;;
   resource <-- need r_u64;; producer <-- need r_u64;; consumer <-- need r_u64;;
   grant <-- need r_u64;; target <-- need r_u64;; count <-- need r_u64;;
   new_capacity <-- need r_u64;; proof <-- need r_digest;; expected <-- need r_digest;;
   config <-- decode_account_config;;
   decision <-- need r_u8;;
   require (decision <=? decision_code ToConsumed) (refused_status RMalformedMessage decision);;;
   fence_cause <-- need r_u16;;
   require (is_valid_reason fence_cause) (refused_status RMalformedMessage fence_cause);;;
   note <-- need_or (r_text max_note_bytes)
              (fun r => refused_status RMalformedMessage (rd_position r));;
   d_ret (mkRequest attempt (op_cast op) sequence authority
            (mkIncarnation publisher boot incarnation) resource producer consumer grant target
            count new_capacity proof expected config (decision_cast decision)
            (reason_cast fence_cause) note))%dec.

Definition encode_outcome_body (o : CreditOutcome) : list Z :=
  w_u16 (reason_code (reason (o_status o))) ++ w_u64 (detail (o_status o)) ++
  w_u8 (op_code (o_op o)) ++ w_u64 (o_sequence o) ++ w_boolean (o_applied o) ++
  w_boolean (o_duplicate o) ++ w_boolean (o_decided o) ++ encode_authority (o_authority o) ++
  encode_view (o_view o) ++ w_digest (o_state_digest o) ++ w_u64 (o_ambiguous_pending o).

Definition decode_outcome_body : Decoder CreditOutcome :=
  (raw_reason <-- need r_u16;; raw_detail <-- need r_u64;;
   require (is_valid_reason raw_reason) (refused_status RMalformedMessage raw_reason);;;
   op <-- need r_u8;;
   require (is_valid_op op) (refused_status RMalformedMessage op);;;
   sequence <-- need r_u64;; applied <-- need r_boolean;; duplicate <-- need r_boolean;;
   decided <-- need r_boolean;;
   authority <-- decode_authority;; view <-- decode_view;;
   state_digest <-- need r_digest;; ambiguous <-- need r_u64;;
   d_ret (mkOutcome (mkStatus (reason_cast raw_reason) raw_detail) (op_cast op) sequence applied
            duplicate decided authority view state_digest ambiguous))%dec.

(** ** Messages *)

Definition kMaxLabelBytes : Z := 64.

Record HelloMessage := mkHello { h_publisher : Z; h_boot : Z; h_label : list Z }.

Record HelloAckMessage := mkHelloAck {
  ha_session : Z;
  ha_challenge : Digest128;
  ha_server_label : list Z;
  ha_max_payload : Z;
  ha_format_version : Z;
}.

Definition encode_hello (m : HelloMessage) : Status + list Z :=
  match w_text (h_label m) kMaxLabelBytes with
  | None => inl (refused_status ROversizedFrame (Z.of_nat (length (h_label m))))
  | Some label => inr (w_u64 (h_publisher m) ++ w_u64 (h_boot m) ++ label)
  end.

Definition decode_hello (data : list Z) : Status + HelloMessage :=
  run_decoder
    (publisher <-- need r_u64;; boot <-- need r_u64;; label <-- need (r_text kMaxLabelBytes);;
     require_done;;;
     require (negb (is_unset publisher || is_unset boot)) (refused_status RMalformedMessage 7);;;
     d_ret (mkHello publisher boot label))%dec data.

Definition encode_hello_ack (m : HelloAckMessage) : Status + list Z :=
  match w_text (ha_server_label m) kMaxLabelBytes with
  | None => inl (refused_status ROversizedFrame (Z.of_nat (length (ha_server_label m))))
  | Some label =>
      inr (w_u32 (ha_session m) ++ w_digest (ha_challenge m) ++ w_u32 (ha_max_payload m) ++
           w_u32 (ha_format_version m) ++ label)
  end.

Definition decode_hello_ack (data : list Z) : Status + HelloAckMessage :=
  run_decoder
    (session <-- need r_u32;; challenge <-- need r_digest;; max_payload <-- need r_u32;;
     version <-- need r_u32;; label <-- need (r_text kMaxLabelBytes);;
     require_done;;;
     require (negb (is_zero challenge)) (refused_status RMalformedMessage 8);;;
     d_ret (mkHelloAck session challenge label max_payload version))%dec data.

Definition encode_request_message (r : CreditRequest) : list Z := encode_request_body r.

Definition decode_request_message (data : list Z) (max_note_bytes : Z) : Status + CreditRequest :=
  run_decoder (r <-- decode_request_body max_note_bytes;; require_done;;; d_ret r)%dec data.

Definition encode_response_message (o : CreditOutcome) : list Z := encode_outcome_body o.

Definition decode_response_message (data : list Z) : Status + CreditOutcome :=
  run_decoder (o <-- decode_outcome_body;; require_done;;; d_ret o)%dec data.

(** ** Well-formed values: every field fits the width it is written with *)

Record vector_wf (a : AuthorityVector) : Prop := {
  vwf_domain : in_u64 (a_domain a); vwf_account : in_u64 (a_account a);
  vwf_epoch : in_u64 (a_epoch a); vwf_generation : in_u64 (a_generation a);
  vwf_incarnation : in_u64 (a_incarnation a) }.

Record config_wf (c : AccountConfig) : Prop := {
  cwf_domain : in_u64 (c_domain c); cwf_account : in_u64 (c_account c);
  cwf_resource : in_u64 (c_resource c); cwf_policy : in_u64 (c_policy c);
  cwf_capacity : in_u64 (c_capacity c); cwf_max_capacity : in_u64 (c_max_capacity c);
  cwf_min_issue : in_u64 (min_issue (c_rules c));
  cwf_max_issue : in_u64 (max_issue_per_attempt (c_rules c)) }.

(** A view as [compute_view] builds it: the quarantined bucket is the stale one. *)
Record view_wf (v : CreditView) : Prop := {
  wwf_capacity : in_u64 (v_capacity v); wwf_issued : in_u64 (v_issued v);
  wwf_consumed : in_u64 (v_consumed v); wwf_returned : in_u64 (v_returned v);
  wwf_stale : in_u64 (v_stale v); wwf_spent : in_u64 (v_spent v);
  wwf_protected : in_u64 (v_protected v); wwf_in_flight : in_u64 (v_in_flight v);
  wwf_outstanding : in_u64 (v_outstanding v); wwf_available : in_u64 (v_available v);
  wwf_quarantined : v_quarantined v = v_stale v }.

Record incarnation_wf (i : Incarnation) : Prop := {
  nwf_publisher : in_u64 (i_publisher i); nwf_boot : in_u64 (i_boot i);
  nwf_id : in_u64 (i_id i) }.

Record request_wf (max_note : Z) (r : CreditRequest) : Prop := {
  rwf_attempt : digest_range (rq_attempt r); rwf_sequence : in_u64 (rq_sequence r);
  rwf_authority : vector_wf (rq_authority r); rwf_presenter : incarnation_wf (rq_presenter r);
  rwf_resource : in_u64 (rq_resource r); rwf_producer : in_u64 (rq_producer r);
  rwf_consumer : in_u64 (rq_consumer r); rwf_grant : in_u64 (rq_grant r);
  rwf_target : in_u64 (rq_target r); rwf_count : in_u64 (rq_count r);
  rwf_new_capacity : in_u64 (rq_new_capacity r); rwf_proof : digest_range (rq_proof r);
  rwf_expected : digest_range (rq_expected_state r); rwf_config : config_wf (rq_config r);
  rwf_note : Z.of_nat (length (rq_note r)) <= Z.min max_note 4096 }.

Record outcome_wf (o : CreditOutcome) : Prop := {
  owf_detail : in_u64 (detail (o_status o)); owf_sequence : in_u64 (o_sequence o);
  owf_authority : vector_wf (o_authority o); owf_view : view_wf (o_view o);
  owf_state : digest_range (o_state_digest o); owf_ambiguous : in_u64 (o_ambiguous_pending o) }.

#[export] Hint Resolve vwf_domain vwf_account vwf_epoch vwf_generation vwf_incarnation
  cwf_domain cwf_account cwf_resource cwf_policy cwf_capacity cwf_max_capacity cwf_min_issue
  cwf_max_issue wwf_capacity wwf_issued wwf_consumed wwf_returned wwf_stale wwf_spent
  wwf_protected wwf_in_flight wwf_outstanding wwf_available nwf_publisher nwf_boot nwf_id
  rwf_attempt rwf_sequence rwf_authority rwf_presenter rwf_resource rwf_producer rwf_consumer
  rwf_grant rwf_target rwf_count rwf_new_capacity rwf_proof rwf_expected rwf_config
  owf_detail owf_sequence owf_authority owf_view owf_state owf_ambiguous : word.

(** ** Field round trips *)

Lemma profile_code_u8 k : in_u8 (profile_code k).
Proof. by destruct k. Qed.

Lemma profile_code_max k : (profile_code k <=? profile_code PhysicalValidated) = true.
Proof. by destruct k. Qed.

Lemma decision_code_max d : (decision_code d <=? decision_code ToConsumed) = true.
Proof. by destruct d. Qed.

#[export] Hint Resolve profile_code_u8 : word.
#[export] Hint Resolve profile_code_max decision_code_max op_code_valid reason_code_valid : core.

(** Field-by-field: reassociate, then consume each written field. *)
Ltac codec_run := repeat first [rewrite <-app_assoc | codec_step].

(** Consume a nested record through its own round trip. *)
Ltac codec_field wf enc :=
  rewrite (roundtrip_bind wf enc) by first [exact _ | eauto with word]; codec_run.

#[export] Instance authority_roundtrip : Roundtrip vector_wf encode_authority decode_authority.
Proof.
  intros a sz k Hwf. unfold encode_authority, decode_authority. codec_run. by destruct a.
Qed.

#[export] Instance config_roundtrip :
  Roundtrip config_wf encode_account_config decode_account_config.
Proof.
  intros c sz k Hwf. unfold encode_account_config, decode_account_config. codec_run.
  rewrite profile_cast_code. by destruct c as [???????[]].
Qed.

#[export] Instance view_roundtrip : Roundtrip view_wf encode_view decode_view.
Proof.
  intros v sz k Hwf. unfold encode_view, decode_view. codec_run.
  pose proof (wwf_quarantined _ Hwf) as Hq. destruct v. simpl in *. by subst.
Qed.

#[export] Instance outcome_roundtrip : Roundtrip outcome_wf encode_outcome_body decode_outcome_body.
Proof.
  intros o sz k Hwf. unfold encode_outcome_body, decode_outcome_body. codec_run.
  codec_field vector_wf encode_authority.
  codec_field view_wf encode_view.
  rewrite reason_cast_code, op_cast_code. by destruct o as [[]].
Qed.

Lemma need_or_text {B} (f : list Z -> Decoder B) s max enc_max sz k note :
  Z.of_nat (length note) <= Z.min max enc_max -> enc_max < 4294967296 ->
  d_bind (need_or (r_text max) s) f
    (mkReader sz (default [] (w_text note enc_max) ++ k) false) = f note (mkReader sz k false).
Proof.
  intros Hn Hm. unfold d_bind, need_or.
  assert (forall m, Z.of_nat (length note) <= m ->
    w_text note m = Some (w_u32 (wrap32 (Z.of_nat (length note))) ++ w_raw note)) as E.
  { intros m Hl. unfold w_text. by destruct (Z.gtb_spec (Z.of_nat (length note)) m); [lia |]. }
  rewrite (E enc_max) by lia. simpl default.
  rewrite (reads_text max sz note) by (done || rewrite ?E; (done || lia)). done.
Qed.

#[export] Instance request_roundtrip max :
  Roundtrip (request_wf max) encode_request_body (decode_request_body max).
Proof.
  intros r sz k Hwf. unfold encode_request_body, decode_request_body. codec_run.
  codec_field vector_wf encode_authority.
  codec_field config_wf encode_account_config.
  rewrite need_or_text by (apply Hwf || lia).
  rewrite op_cast_code, decision_cast_code, reason_cast_code. by destruct r as [????[]].
Qed.

(** ** What is written are bytes *)

Lemma w_u64_in_u8 v : Forall in_u8 (w_u64 v).
Proof. apply (w_le_bytes 8). Qed.
Lemma w_u16_in_u8 v : Forall in_u8 (w_u16 v).
Proof. apply (w_le_bytes 2). Qed.
Lemma w_boolean_in_u8 b : Forall in_u8 (w_boolean b).
Proof.
  replace (w_boolean b) with [if b then 1 else 0] by reflexivity.
  constructor; [by destruct b; vm_compute | done].
Qed.
Lemma w_digest_in_u8 d : Forall in_u8 (w_digest d).
Proof. exact (Forall_app_2 _ _ _ (w_u64_in_u8 (lo d)) (w_u64_in_u8 (hi d))). Qed.
Lemma w_u8_in_u8 v : in_u8 v -> Forall in_u8 (w_u8 v).
Proof. intros. replace (w_u8 v) with [v] by reflexivity. by constructor. Qed.

Create HintDb written discriminated.
#[export] Hint Resolve w_u64_in_u8 w_u16_in_u8 w_boolean_in_u8 w_digest_in_u8 w_u8_in_u8 : written.
#[export] Hint Extern 2 (in_u8 (_ _)) => (match goal with |- in_u8 (_ ?x) => destruct x end; by vm_compute)
  : written.

(** The attempt identity is the first field of a request. *)
Lemma encode_request_attempt rq :
  exists rest, encode_request_message rq = w_digest (rq_attempt rq) ++ rest.
Proof. by eexists. Qed.

Lemma request_in_u8 rq : Forall in_u8 (rq_note rq) -> Forall in_u8 (encode_request_message rq).
Proof.
  intros Hn. unfold encode_request_message, encode_request_body, encode_authority, encode_account_config.
  repeat apply Forall_app_2; auto with written.
  unfold w_text. destruct (_ >? _); simpl; [done |]. apply Forall_app_2; [apply (w_le_bytes 4) | done].
Qed.

Lemma response_in_u8 o : Forall in_u8 (encode_response_message o).
Proof.
  unfold encode_response_message, encode_outcome_body, encode_authority, encode_view.
  repeat apply Forall_app_2; auto with written.
Qed.

Lemma length_request rq :
  Z.of_nat (length (rq_note rq)) <= 4096 ->
  length (encode_request_message rq) = (252 + length (rq_note rq))%nat.
Proof.
  intros Hn. unfold encode_request_message, encode_request_body, encode_authority, encode_account_config, w_text.
  destruct (Z.gtb_spec (Z.of_nat (length (rq_note rq))) 4096); [lia |].
  change (default [] (Some ?x)) with x. unfold w_raw. rewrite !length_app.
  change (length (w_u32 _)) with 4%nat. rewrite !Nat.add_assoc. f_equal.
Qed.

Lemma length_response o : length (encode_response_message o) = 167%nat.
Proof.
  unfold encode_response_message, encode_outcome_body, encode_authority, encode_view.
  rewrite !length_app. reflexivity.
Qed.

(** ** Frames: what the header decodes to *)

Lemma w_u32_bytes v : Forall in_u8 (w_u32 v) /\ length (w_u32 v) = 4%nat.
Proof. split; [apply (w_le_bytes 4) | apply (length_w_le 4)]. Qed.

Lemma le_or_u32 v : in_u32 v -> le_or 0 0 (w_u32 v) = v.
Proof. intros. by apply (le_or_word 4). Qed.

Lemma length_header t n : length (write_header t 0 n) = 12%nat.
Proof. unfold write_header. rewrite !length_app, !(proj2 (w_u32_bytes _)). done. Qed.

Lemma write_header_bytes t n : Forall in_u8 (write_header t 0 n).
Proof.
  unfold write_header. rewrite !Forall_app. split_and!; try apply w_u32_bytes.
  unfold kFormatVersion. destruct t; repeat (apply Forall_cons_2; [by split; vm_compute |]); constructor.
Qed.

Ltac frame_lia :=
  unfold kFrameOverheadBytes, kFrameHeaderBytes, kFrameTrailerBytes in *; lia.

(** Reading a 32-bit word that was written at an offset. *)
Lemma read_u32_app pre v post off :
  in_u32 v -> off = Z.of_nat (length pre) -> read_u32 (pre ++ w_u32 v ++ post) off = v.
Proof.
  intros Hv ->. unfold read_u32. rewrite Nat2Z.id, drop_app_length.
  rewrite take_app_exact by (by rewrite (proj2 (w_u32_bytes v))). by apply le_or_u32.
Qed.

(** Everything [decode_frame] does after the magic, version, type and flags
    checks that a written header passes. *)
Definition decode_tail (data : list Z) (t : MessageType) (n max_payload : Z) : Status + FrameView :=
  let size := Z.of_nat (length data) in
  if n >? max_payload then inl (refused_status ROversizedFrame n) else
  if size <? kFrameOverheadBytes + n then inl (refused_status RTruncatedInput size) else
  let expected := read_u32 data (kFrameHeaderBytes + n) in
  let actual := crc32c (take (Z.to_nat (kFrameHeaderBytes + n)) data) 0 in
  if negb (expected =? actual)
  then inl (refused_status RChecksumMismatch (Z.lxor expected actual)) else
  inr (mkFrameView (mkHeader kFormatVersion t 0 n)
         (take (Z.to_nat n) (drop (Z.to_nat kFrameHeaderBytes) data)) (kFrameOverheadBytes + n)).

Lemma byte_at_header t n body i :
  (4 <= i < 8)%nat ->
  byte_at (write_header t 0 n ++ body) i = byte_at [kFormatVersion; message_code t; 0; 0] (i - 4).
Proof.
  intros Hi. unfold byte_at, write_header. f_equal.
  pose proof (proj2 (w_u32_bytes kWireMagic)) as H4.
  rewrite <-!app_assoc, lookup_app_r by lia. rewrite H4.
  rewrite lookup_app_l by (simpl; lia). done.
Qed.

Lemma read_header_magic t n body : read_u32 (write_header t 0 n ++ body) 0 = kWireMagic.
Proof. unfold write_header. rewrite <-!app_assoc. by apply (read_u32_app []). Qed.

Lemma read_header_length t n body : in_u32 n -> read_u32 (write_header t 0 n ++ body) 8 = n.
Proof.
  intros Hn. unfold write_header. rewrite <-!app_assoc, (app_assoc (w_u32 _)).
  apply read_u32_app; [done |]. rewrite length_app, (proj2 (w_u32_bytes _)). done.
Qed.

Lemma decode_frame_header t n body max_payload :
  in_u32 n -> (4 <= length body)%nat ->
  decode_frame (write_header t 0 n ++ body) max_payload =
  decode_tail (write_header t 0 n ++ body) t n max_payload.
Proof.
  intros Hn Hb. unfold decode_frame.
  destruct (Z.ltb_spec (Z.of_nat (length (write_header t 0 n ++ body))) kFrameOverheadBytes) as [H|H].
  { rewrite length_app, length_header in H. frame_lia. }
  rewrite !byte_at_header by lia.
  rewrite read_header_magic, read_header_length by done.
  by destruct t.
Qed.

(** A frame is its header, its payload and the checksum of both. *)
Lemma encode_frame_inv t payload bytes :
  encode_frame t payload = inr bytes ->
  in_u32 (Z.of_nat (length payload)) /\
  bytes = write_header t 0 (Z.of_nat (length payload)) ++ payload ++
          w_u32 (crc32c (write_header t 0 (Z.of_nat (length payload)) ++ payload) 0).
Proof.
  unfold encode_frame. destruct (Z.gtb_spec (Z.of_nat (length payload)) 0xFFFFFFFF); [done |].
  intros [= <-]. assert (in_u32 (Z.of_nat (length payload))) by word_lia.
  rewrite wrap32_small by done. by rewrite <-app_assoc.
Qed.

Lemma length_frame t payload bytes :
  encode_frame t payload = inr bytes -> length bytes = (16 + length payload)%nat.
Proof.
  intros [_ ->]%encode_frame_inv. rewrite !length_app, length_header.
  set (crc := crc32c _ _). rewrite (proj2 (w_u32_bytes crc)). lia.
Qed.

Section TailOfFrame.
Context (t : MessageType) (payload trailer rest : list Z) (max_payload : Z).
Context (n : Z) (Hn : n = Z.of_nat (length payload)).
Context (Htr : length trailer = 4%nat) (Hmax : n <= max_payload).
Let data := write_header t 0 n ++ payload ++ trailer ++ rest.

(** On a buffer that holds the whole frame, only the checksum decides. *)
Lemma decode_tail_frame :
  decode_tail data t n max_payload =
  let expected := le_or 0 0 trailer in
  let actual := crc32c (write_header t 0 n ++ payload) 0 in
  if negb (expected =? actual)
  then inl (refused_status RChecksumMismatch (Z.lxor expected actual))
  else inr (mkFrameView (mkHeader kFormatVersion t 0 n) payload (kFrameOverheadBytes + n)).
Proof.
  pose proof (length_header t n) as Hh.
  assert (Hto : Z.to_nat (kFrameHeaderBytes + n) = length (write_header t 0 n ++ payload)).
  { rewrite length_app, Hh. frame_lia. }
  assert (Hr : read_u32 data (kFrameHeaderBytes + n) = le_or 0 0 trailer).
  { unfold read_u32, data. rewrite Hto, (app_assoc _ payload), drop_app_length.
    by rewrite take_app_exact. }
  assert (Hc : take (Z.to_nat (kFrameHeaderBytes + n)) data = write_header t 0 n ++ payload).
  { unfold data. rewrite Hto, (app_assoc _ payload). apply take_app_length. }
  assert (Hp : take (Z.to_nat n) (drop (Z.to_nat kFrameHeaderBytes) data) = payload).
  { unfold data. rewrite drop_app_exact by (by rewrite Hh).
    apply take_app_exact. lia. }
  unfold decode_tail. rewrite Hr, Hc, Hp.
  destruct (Z.gtb_spec n max_payload); [lia |].
  destruct (Z.ltb_spec (Z.of_nat (length data)) (kFrameOverheadBytes + n)) as [Hs|Hs]; [| done].
  unfold data in Hs. rewrite !length_app, Hh, Htr in Hs. frame_lia.
Qed.
End TailOfFrame.

Lemma crc_frame_range t n payload :
  Forall in_u8 payload -> in_u32 (crc32c (write_header t 0 n ++ payload) 0).
Proof.
  intros. apply crc32c_range; [| word_lia]. apply Forall_app. split; [apply write_header_bytes | done].
Qed.

(** Decoding an encoded frame, whatever follows it in the stream. *)
Lemma frame_decodes t payload bytes rest max_payload :
  Forall in_u8 payload -> encode_frame t payload = inr bytes ->
  Z.of_nat (length payload) <= max_payload ->
  decode_frame (bytes ++ rest) max_payload =
  inr (mkFrameView (mkHeader kFormatVersion t 0 (Z.of_nat (length payload))) payload
         (Z.of_nat (length bytes))).
Proof.
  intros Hp [Hn ->]%encode_frame_inv Hmax. set (n := Z.of_nat (length payload)) in *.
  pose proof (proj2 (w_u32_bytes (crc32c (write_header t 0 n ++ payload) 0))) as H4.
  rewrite <-!app_assoc, decode_frame_header by (rewrite ?length_app; (done || lia)).
  rewrite decode_tail_frame by done. cbv zeta.
  rewrite le_or_u32, Z.eqb_refl by (by apply crc_frame_range). simpl negb. cbv iota.
  do 2 f_equal. rewrite !length_app, length_header, H4. unfold n. frame_lia.
Qed.

(** ** Properties *)

(** Frame round trip: decoding an encoded frame, followed by any further
    stream bytes, returns exactly its type and payload with clear flags and the
    current version, and consumes exactly the frame's bytes. *)
Theorem frame_roundtrip t payload bytes rest max_payload :
  Forall in_u8 payload -> encode_frame t payload = inr bytes ->
  Z.of_nat (length payload) <= max_payload ->
  decode_frame (bytes ++ rest) max_payload =
  inr (mkFrameView (mkHeader kFormatVersion t 0 (Z.of_nat (length payload))) payload
         (Z.of_nat (length bytes))).
Proof. apply frame_decodes. Qed.

Lemma frame_roundtrip_witness :
  exists bytes, encode_frame Bye [] = inr bytes /\
  decode_frame (bytes ++ [9; 9]) 64 =
  inr (mkFrameView (mkHeader 1 Bye 0 0) [] (Z.of_nat (length bytes))).
Proof.
  eexists. split; [reflexivity |].
  apply (frame_roundtrip Bye [] _ [9; 9] 64); [constructor | reflexivity | simpl; lia].
Defined.

(** A partially received frame is never mistaken for anything else: every
    strict prefix of an encoded frame is refused as [TruncatedInput] with the
    number of bytes received, so a reader waiting for more bytes is correct. *)
Theorem frame_prefix_truncated t payload bytes (k : nat) max_payload :
  encode_frame t payload = inr bytes -> Z.of_nat (length payload) <= max_payload ->
  (k < length bytes)%nat ->
  decode_frame (take k bytes) max_payload = inl (refused_status RTruncatedInput (Z.of_nat k)).
Proof.
  intros [Hn ->]%encode_frame_inv Hmax Hk. set (n := Z.of_nat (length payload)) in *.
  set (tr := w_u32 (crc32c (write_header t 0 n ++ payload) 0)) in *.
  assert (H4 : length tr = 4%nat) by apply w_u32_bytes.
  pose proof (length_header t n) as Hh. rewrite !length_app, Hh, H4 in Hk.
  assert (Hl : length (take k (write_header t 0 n ++ payload ++ tr)) = k).
  { rewrite length_take, !length_app, Hh, H4. lia. }
  destruct (decide (k < 16)%nat).
  { unfold decode_frame. rewrite Hl.
    by destruct (Z.ltb_spec (Z.of_nat k) kFrameOverheadBytes); [| frame_lia]. }
  rewrite take_app_ge in * by lia. rewrite Hh in *.
  rewrite decode_frame_header by (done || (rewrite length_app, Hh in Hl; lia)).
  unfold decode_tail. rewrite Hl. destruct (Z.gtb_spec n max_payload); [lia |].
  destruct (Z.ltb_spec (Z.of_nat k) (kFrameOverheadBytes + n)) as [?|Hs]; [done |].
  unfold n in Hs. frame_lia.
Qed.

Lemma frame_prefix_truncated_witness :
  exists bytes, encode_frame Bye [] = inr bytes /\
  decode_frame (take 7 bytes) 64 = inl (refused_status RTruncatedInput 7).
Proof.
  destruct (encode_frame Bye []) as [s|bytes] eqn:E; [discriminate E |].
  exists bytes. split; [reflexivity |].
  apply (frame_prefix_truncated Bye [] bytes 7 64); [exact E | simpl; lia |].
  rewrite (length_frame _ _ _ E). lia.
Defined.

(** Corrupting up to four consecutive payload bytes of an encoded frame is
    always detected: the frame is refused as [ChecksumMismatch] whatever the
    surrounding payload, the type and the bytes that follow. *)
Theorem frame_corruption_detected t pre l k post bytes rest max_payload :
  Forall in_u8 pre -> Forall in_u8 l -> Forall in_u8 k -> Forall in_u8 post ->
  length l = length k -> (length l <= 4)%nat -> l <> k ->
  encode_frame t (pre ++ l ++ post) = inr bytes ->
  Z.of_nat (length (pre ++ l ++ post)) <= max_payload ->
  let n := (12 + length pre)%nat in
  let damaged := take n bytes ++ k ++ drop (n + length l) bytes in
  exists d, decode_frame (damaged ++ rest) max_payload = inl (refused_status RChecksumMismatch d).
Proof.
  intros Hpre Hl Hk Hpost Hlen H4 Hne [Hn ->]%encode_frame_inv Hmax n damaged.
  set (w := Z.of_nat (length (pre ++ l ++ post))) in *.
  set (tr := w_u32 (crc32c (write_header t 0 w ++ pre ++ l ++ post) 0)) in *.
  assert (Htr : length tr = 4%nat) by apply w_u32_bytes.
  pose proof (length_header t w) as Hh.
  assert (Hd : damaged = write_header t 0 w ++ (pre ++ k ++ post) ++ tr).
  { unfold damaged, n. rewrite <-!app_assoc.
    rewrite (app_assoc _ pre), take_app_exact by (rewrite length_app, Hh; done).
    rewrite (app_assoc _ l), drop_app_exact by (rewrite !length_app, Hh; lia).
    by rewrite <-!app_assoc. }
  assert (Hw : w = Z.of_nat (length (pre ++ k ++ post))).
  { unfold w. rewrite !length_app, Hlen. done. }
  rewrite Hd, <-!app_assoc, decode_frame_header by (rewrite ?length_app; (done || lia)).
  rewrite (app_assoc k), (app_assoc pre), decode_tail_frame by done. cbv zeta.
  unfold tr. rewrite le_or_u32 by (apply crc_frame_range; by repeat apply Forall_app_2).
  destruct (Z.eqb_spec (crc32c (write_header t 0 w ++ pre ++ l ++ post) 0)
                       (crc32c (write_header t 0 w ++ pre ++ k ++ post) 0)) as [E|E].
  - exfalso. revert E. rewrite !(app_assoc _ pre). apply crc32c_burst; auto; [| word_lia].
    apply Forall_app_2; [apply write_header_bytes | done].
  - simpl. eauto.
Qed.

Lemma frame_corruption_detected_witness :
  exists bytes d, encode_frame Hello ([1] ++ [2; 3] ++ [4]) = inr bytes /\
  decode_frame ((take 13 bytes ++ [2; 7] ++ drop 15 bytes) ++ []) 64 =
  inl (refused_status RChecksumMismatch d).
Proof.
  destruct (encode_frame Hello ([1] ++ [2; 3] ++ [4])) as [s|bytes] eqn:E; [discriminate E |].
  destruct (frame_corruption_detected Hello [1] [2; 3] [2; 7] [4] bytes [] 64) as [d Hd];
    [repeat constructor; word_lia .. | reflexivity | simpl; lia | discriminate | exact E
    | simpl; lia |].
  exists bytes, d. split; [reflexivity | exact Hd].
Defined.

Lemma request_message_decodes max_note r :
  request_wf max_note r -> decode_request_message (encode_request_message r) max_note = inr r.
Proof.
  intros Hr. unfold decode_request_message, encode_request_message, run_decoder, reader_make.
  rewrite <-(app_nil_r (encode_request_body r)) at 2.
  rewrite (roundtrip_bind (request_wf max_note) encode_request_body) by first [exact _ | done].
  by rewrite require_done_nil.
Qed.

Lemma response_message_decodes o :
  outcome_wf o -> decode_response_message (encode_response_message o) = inr o.
Proof.
  intros Ho. unfold decode_response_message, encode_response_message, run_decoder, reader_make.
  rewrite <-(app_nil_r (encode_outcome_body o)) at 2.
  rewrite (roundtrip_bind outcome_wf encode_outcome_body) by first [exact _ | done].
  by rewrite require_done_nil.
Qed.

(** C37: Requests and responses mean exactly one thing on the wire: a request
    whose fields fit their widths and whose note fits both bounds decodes to
    itself, and so does an outcome; no other field is dropped or defaulted. *)
Theorem request_response_roundtrip max_note r o :
  request_wf max_note r -> outcome_wf o ->
  decode_request_message (encode_request_message r) max_note = inr r /\
  decode_response_message (encode_response_message o) = inr o.
Proof.
  intros Hr Ho. split; [by apply request_message_decodes | by apply response_message_decodes].
Qed.

Lemma sample_request_wf max n : 0 <= max -> in_u64 n -> request_wf max (sample_request n).
Proof. intros. constructor; simpl; try constructor; simpl; try done; word_lia. Qed.

Lemma request_response_roundtrip_witness :
  decode_request_message (encode_request_message (sample_request 5)) 128 = inr (sample_request 5).
Proof.
  apply (request_response_roundtrip 128 (sample_request 5) outcome_zero).
  - apply sample_request_wf; word_lia.
  - constructor; simpl; try constructor; simpl; try done; word_lia.
Defined.
