(* ===== verification/Record.v ===== *)
(** * Durable records (include/creditfabric/record.hpp, src/record.cpp)

    The codecs of what the journal stores: a decided attempt with the account
    state after it, and a whole-state snapshot.  Every collection is decoded
    only if its claimed count fits in the remaining bytes.  Both top-level
    codecs are proved to invert their encoders. *)

From S2P Require Import Prelude Status Digest Ledger Authority Request Bytes Wire.
Local Open Scope Z_scope.

(** ** Data *)

Record DurableAccount := mkDurableAccount {
  da_config : AccountConfig;
  da_epoch : Z;
  da_generation : Z;
  da_capacity : Z;
  da_totals : CreditTotals;
  da_hard_exhausted : bool;
  da_exhaustion_cause : Reason;
  da_state_digest : Digest128;
  da_incarnations : list IncarnationRecord;
  da_fences : list FenceRecord;
  da_ambiguous : list AmbiguousNote;
  da_committed_attempts : Z;
  da_refused_attempts : Z;
  da_attempt_window : list (Z * Z);
}.

Definition durable_account_zero : DurableAccount :=
  mkDurableAccount config_zero 0 0 0 totals_zero false ROk digest_zero [] [] [] 0 0 [].

Record DurableState := mkDurableState {
  ds_journal_sequence : Z;
  ds_chain : Digest128;
  ds_snapshots : Z;
  ds_accounts : list DurableAccount;
  ds_state_digest : Digest128;
}.

Record DurableAttempt := mkDurableAttempt {
  dt_request : CreditRequest;
  dt_outcome : CreditOutcome;
  dt_has_account : bool;
  dt_created_account : bool;
  dt_account : DurableAccount;
  dt_engine_applied : Z;
  dt_engine_refused : Z;
}.

(** ** Collections *)

Definition kMaxCollection : Z := 1048576.

Definition within_budget (r : ByteReader) (count minimum_bytes_per_item : Z) : bool :=
  if count >? kMaxCollection then false
  else count * minimum_bytes_per_item <=? rd_remaining r.

(** [if (!reader.u64(count) || !within_budget(reader, count, min)) return refused(...)]. *)
Definition need_count (min : Z) (s : Status) : Decoder Z := fun r =>
  match r_u64 r with
  | (Some count, r') => if within_budget r' count min then (inr count, r') else (inl s, r')
  | (None, r') => (inl s, r')
  end.

(** [for (i < count) decode(reader, items[i])]. *)
Fixpoint decode_n {A} (n : nat) (dec : Decoder A) : Decoder (list A) :=
  match n with
  | O => d_ret []
  | S n => (x <-- dec;; xs <-- decode_n n dec;; d_ret (x :: xs))%dec
  end.

Definition encode_items {A} (enc : A -> list Z) (items : list A) : list Z :=
  concat (enc <$> items).

Definition encode_collection {A} (enc : A -> list Z) (items : list A) : list Z :=
  w_u64 (Z.of_nat (length items)) ++ encode_items enc items.

Definition decode_collection {A} (min : Z) (s : Status) (dec : Decoder A) : Decoder (list A) :=
  (count <-- need_count min s;; decode_n (Z.to_nat count) dec)%dec.

(** ** Item codecs *)

Definition encode_totals (t : CreditTotals) : list Z :=
  w_u64 (issued t) ++ w_u64 (consumed t) ++ w_u64 (returned t) ++ w_u64 (stale t) ++
  w_u64 (spent t) ++ w_u64 (protected_credits t).

Definition decode_totals : Decoder CreditTotals :=
  (issued <-- need r_u64;; consumed <-- need r_u64;; returned <-- need r_u64;;
   stale <-- need r_u64;; spent <-- need r_u64;; protected <-- need r_u64;;
   d_ret (mkTotals issued consumed returned stale spent protected))%dec.

Definition encode_incarnation (r : IncarnationRecord) : list Z :=
  w_u64 (ir_id r) ++ w_u64 (ir_publisher r) ++ w_u64 (ir_boot r) ++
  w_u8 (authority_state_code (ir_state r)) ++ w_u64 (ir_epoch r) ++ w_u64 (ir_generation r) ++
  w_digest (ir_proof r) ++ w_u64 (ir_producer r) ++ w_u64 (ir_consumer r) ++
  w_u64 (ir_grant r) ++ w_u64 (ir_last_sequence r) ++ w_u64 (ir_committed_ops r) ++
  w_u64 (ir_refused_ops r) ++ w_u64 (ir_fenced_at r).

Definition decode_incarnation : Decoder IncarnationRecord :=
  (id <-- need r_u64;; publisher <-- need r_u64;; boot <-- need r_u64;; state <-- need r_u8;;
   epoch <-- need r_u64;; generation <-- need r_u64;; proof <-- need r_digest;;
   producer <-- need r_u64;; consumer <-- need r_u64;; grant <-- need r_u64;;
   last_sequence <-- need r_u64;; committed <-- need r_u64;; refused <-- need r_u64;;
   fenced_at <-- need r_u64;;
   require (state <=? authority_state_code Retired) (refused_status RMalformedMessage state);;;
   d_ret (mkRecord id publisher boot (authority_state_cast state) epoch generation proof producer
            consumer grant last_sequence committed refused fenced_at))%dec.

Definition encode_fence (f : FenceRecord) : list Z :=
  w_u64 (f_incarnation f) ++ w_u64 (f_epoch f) ++ w_u64 (f_generation f) ++
  w_u16 (reason_code (f_cause f)) ++ w_u64 (f_sequence f) ++ w_u64 (f_credit f).

Definition decode_fence : Decoder FenceRecord :=
  (incarnation <-- need r_u64;; epoch <-- need r_u64;; generation <-- need r_u64;;
   cause <-- need r_u16;; sequence <-- need r_u64;; credit <-- need r_u64;;
   require (is_valid_reason cause) (refused_status RMalformedMessage cause);;;
   d_ret (mkFence incarnation epoch generation (reason_cast cause) sequence credit))%dec.

Definition encode_ambiguous (n : AmbiguousNote) : list Z :=
  w_digest (an_attempt n) ++ w_u8 (op_code (an_op n)) ++ w_u64 (an_sequence n) ++
  w_u64 (an_incarnation n) ++ w_u64 (an_journal_sequence n).

Definition decode_ambiguous : Decoder AmbiguousNote :=
  (attempt <-- need r_digest;; op <-- need r_u8;; sequence <-- need r_u64;;
   incarnation <-- need r_u64;; journal <-- need r_u64;;
   require (is_valid_op op) (refused_status RMalformedMessage op);;;
   d_ret (mkAmbiguous attempt (op_cast op) sequence incarnation journal))%dec.

Definition encode_window_entry (e : Z * Z) : list Z := w_u64 e.1 ++ w_u64 e.2.

Definition decode_window_entry : Decoder (Z * Z) :=
  (incarnation <-- need r_u64;; sequence <-- need r_u64;; d_ret (incarnation, sequence))%dec.

(** ** Accounts

    The account part of [encode_durable_attempt] and of [encode_durable_state]
    is the same sequence of fields; the decoders differ only in the detail
    codes of their collections, 13 to 16 in an attempt and 18 to 21 in a
    snapshot. *)

Definition encode_account (a : DurableAccount) : list Z :=
  encode_account_config (da_config a) ++
  w_u64 (da_epoch a) ++ w_u64 (da_generation a) ++ w_u64 (da_capacity a) ++
  encode_totals (da_totals a) ++ w_boolean (da_hard_exhausted a) ++
  w_u16 (reason_code (da_exhaustion_cause a)) ++ w_digest (da_state_digest a) ++
  encode_collection encode_incarnation (da_incarnations a) ++
  encode_collection encode_fence (da_fences a) ++
  encode_collection encode_ambiguous (da_ambiguous a) ++
  w_u64 (da_committed_attempts a) ++ w_u64 (da_refused_attempts a) ++
  encode_collection encode_window_entry (da_attempt_window a).

Definition decode_account (code : Z) : Decoder DurableAccount :=
  (config <-- decode_account_config;;
   epoch <-- need r_u64;; generation <-- need r_u64;; capacity <-- need r_u64;;
   totals <-- decode_totals;;
   hard <-- need r_boolean;; cause <-- need r_u16;;
   require (is_valid_reason cause) (refused_status RMalformedMessage cause);;;
   digest <-- need r_digest;;
   incarnations <-- decode_collection 112 (refused_status RMalformedMessage code)
                      decode_incarnation;;
   fences <-- decode_collection 40 (refused_status RMalformedMessage (code + 1)) decode_fence;;
   ambiguous <-- decode_collection 40 (refused_status RMalformedMessage (code + 2))
                   decode_ambiguous;;
   committed <-- need r_u64;; refused <-- need r_u64;;
   window <-- decode_collection 16 (refused_status RMalformedMessage (code + 3))
                decode_window_entry;;
   d_ret (mkDurableAccount config epoch generation capacity totals hard (reason_cast cause)
            digest incarnations fences ambiguous committed refused window))%dec.

(** ** Attempts *)

Definition encode_durable_attempt (t : DurableAttempt) : list Z :=
  encode_request_body (dt_request t) ++ encode_outcome_body (dt_outcome t) ++
  w_boolean (dt_has_account t) ++ w_boolean (dt_created_account t) ++
  (if dt_has_account t then encode_account (dt_account t) else []) ++
  w_u64 (dt_engine_applied t) ++ w_u64 (dt_engine_refused t).

Definition decode_durable_attempt (data : list Z) : Status + DurableAttempt :=
  run_decoder
    (request <-- decode_request_body 4096;; outcome <-- decode_outcome_body;;
     has <-- need r_boolean;; created <-- need r_boolean;;
     require (negb (created && negb has)) (refused_status RMalformedMessage 11);;;
     require (negb (created && negb (o_applied outcome))) (refused_status RMalformedMessage 12);;;
     account <-- (if has : bool then decode_account 13 else d_ret durable_account_zero);;
     applied <-- need r_u64;; refused <-- need r_u64;;
     require_done;;;
     d_ret (mkDurableAttempt request outcome has created account applied refused))%dec data.

(** ** Snapshots *)

Definition encode_nested_account (a : DurableAccount) : list Z :=
  let encoded := encode_account a in
  w_u32 (wrap32 (Z.of_nat (length encoded))) ++ w_raw encoded.

(** A length-prefixed block decoded by a reader of its own, which must end at
    the end of the block. *)
Definition decode_nested_account : Decoder DurableAccount :=
  (len <-- need r_u32;;
   fun r =>
     if len >? rd_remaining r
     then (inl (refused_status RTruncatedInput (rd_position r)), r) else
     let block := take (Z.to_nat len) (rd_rest r) in
     match r_skip len r with
     | (None, r') => (inl (refused_status RTruncatedInput (rd_position r')), r')
     | (Some _, r') =>
         match decode_account 18 (reader_make block) with
         | (inl s, _) => (inl s, r')
         | (inr a, nested) =>
             if rd_done nested then (inr a, r')
             else (inl (refused_status RMalformedMessage 22), r')
         end
     end)%dec.

Definition encode_durable_state (s : DurableState) : list Z :=
  w_u64 (ds_journal_sequence s) ++ w_digest (ds_chain s) ++ w_u64 (ds_snapshots s) ++
  w_digest (ds_state_digest s) ++ encode_collection encode_nested_account (ds_accounts s).

Definition decode_durable_state (data : list Z) : Status + DurableState :=
  run_decoder
    (sequence <-- need r_u64;; chain <-- need r_digest;; snapshots <-- need r_u64;;
     digest <-- need r_digest;;
     accounts <-- decode_collection 4 (refused_status RMalformedMessage 17) decode_nested_account;;
     require_done;;;
     d_ret (mkDurableState sequence chain snapshots accounts digest))%dec data.

(** ** Which refusals consume a sequence number *)

Definition is_admitted_stage_refusal (r : Reason) : bool :=
  match r with
  | RInsufficientAvailable | RInsufficientOutstanding | RInsufficientProtected
  | RCapacityExceeded | RCapacityShrinkViolation | RCapacityOutOfRange | RCountZero
  | RCountOverflow | RPolicyRefused | RExhaustedHard | RNotExhausted | RNothingToRetire
  | RInvalidState | RGrantMismatch | RProducerMismatch | RConsumerMismatch | RResourceMismatch
  | RDomainMismatch | RAccountExists | RAccountUnknown | RProfileNotSupported
  | RDuplicateAttempt => true
  | _ => false
  end.

(** ** Well-formed records *)

Record incarnation_record_wf (r : IncarnationRecord) : Prop := {
  iwf_id : in_u64 (ir_id r); iwf_publisher : in_u64 (ir_publisher r);
  iwf_boot : in_u64 (ir_boot r); iwf_epoch : in_u64 (ir_epoch r);
  iwf_generation : in_u64 (ir_generation r); iwf_proof : digest_range (ir_proof r);
  iwf_producer : in_u64 (ir_producer r); iwf_consumer : in_u64 (ir_consumer r);
  iwf_grant : in_u64 (ir_grant r); iwf_last : in_u64 (ir_last_sequence r);
  iwf_committed : in_u64 (ir_committed_ops r); iwf_refused : in_u64 (ir_refused_ops r);
  iwf_fenced : in_u64 (ir_fenced_at r) }.

Record fence_wf (f : FenceRecord) : Prop := {
  fwf_incarnation : in_u64 (f_incarnation f); fwf_epoch : in_u64 (f_epoch f);
  fwf_generation : in_u64 (f_generation f); fwf_sequence : in_u64 (f_sequence f);
  fwf_credit : in_u64 (f_credit f) }.

Record ambiguous_wf (n : AmbiguousNote) : Prop := {
  nwf_attempt : digest_range (an_attempt n); nwf_sequence : in_u64 (an_sequence n);
  nwf_incarnation : in_u64 (an_incarnation n); nwf_journal : in_u64 (an_journal_sequence n) }.

Definition window_entry_wf (e : Z * Z) : Prop := in_u64 e.1 /\ in_u64 e.2.

Record totals_wf (t : CreditTotals) : Prop := {
  twf_issued : in_u64 (issued t); twf_consumed : in_u64 (consumed t);
  twf_returned : in_u64 (returned t); twf_stale : in_u64 (stale t);
  twf_spent : in_u64 (spent t); twf_protected : in_u64 (protected_credits t) }.

(** A collection of valid items that respects the decoder's ceiling. *)
Definition collection_wf {A} (wf : A -> Prop) (items : list A) : Prop :=
  Forall wf items /\ Z.of_nat (length items) <= kMaxCollection.

Record durable_account_wf (a : DurableAccount) : Prop := {
  dwf_config : config_wf (da_config a); dwf_epoch : in_u64 (da_epoch a);
  dwf_generation : in_u64 (da_generation a); dwf_capacity : in_u64 (da_capacity a);
  dwf_totals : totals_wf (da_totals a); dwf_digest : digest_range (da_state_digest a);
  dwf_incarnations : collection_wf incarnation_record_wf (da_incarnations a);
  dwf_fences : collection_wf fence_wf (da_fences a);
  dwf_ambiguous : collection_wf ambiguous_wf (da_ambiguous a);
  dwf_committed : in_u64 (da_committed_attempts a); dwf_refused : in_u64 (da_refused_attempts a);
  dwf_window : collection_wf window_entry_wf (da_attempt_window a) }.

(** A snapshot block is prefixed by its length in 32 bits. *)
Definition nested_account_wf (a : DurableAccount) : Prop :=
  durable_account_wf a /\ in_u32 (Z.of_nat (length (encode_account a))).

Record durable_attempt_wf (t : DurableAttempt) : Prop := {
  twf_request : request_wf 4096 (dt_request t); twf_outcome : outcome_wf (dt_outcome t);
  twf_created : dt_created_account t = true ->
                dt_has_account t = true /\ o_applied (dt_outcome t) = true;
  twf_account : if dt_has_account t then durable_account_wf (dt_account t)
                else dt_account t = durable_account_zero;
  twf_engine_applied : in_u64 (dt_engine_applied t);
  twf_engine_refused : in_u64 (dt_engine_refused t) }.

Record durable_state_wf (s : DurableState) : Prop := {
  swf_sequence : in_u64 (ds_journal_sequence s); swf_chain : digest_range (ds_chain s);
  swf_snapshots : in_u64 (ds_snapshots s); swf_digest : digest_range (ds_state_digest s);
  swf_accounts : collection_wf nested_account_wf (ds_accounts s) }.

#[export] Hint Resolve iwf_id iwf_publisher iwf_boot iwf_epoch iwf_generation iwf_proof
  iwf_producer iwf_consumer iwf_grant iwf_last iwf_committed iwf_refused iwf_fenced
  fwf_incarnation fwf_epoch fwf_generation fwf_sequence fwf_credit
  nwf_attempt nwf_sequence nwf_incarnation nwf_journal
  twf_issued twf_consumed twf_returned twf_stale twf_spent twf_protected
  dwf_config dwf_epoch dwf_generation dwf_capacity dwf_totals dwf_digest dwf_incarnations
  dwf_fences dwf_ambiguous dwf_committed dwf_refused dwf_window
  twf_request twf_outcome twf_engine_applied twf_engine_refused
  swf_sequence swf_chain swf_snapshots swf_digest swf_accounts : word.

(** ** Item round trips *)

Lemma authority_state_code_u8 s : in_u8 (authority_state_code s).
Proof. by destruct s. Qed.

Lemma authority_state_code_max s :
  (authority_state_code s <=? authority_state_code Retired) = true.
Proof. by destruct s. Qed.

#[export] Hint Resolve authority_state_code_u8 : word.
#[export] Hint Resolve authority_state_code_max : core.

#[export] Instance totals_roundtrip : Roundtrip totals_wf encode_totals decode_totals.
Proof. intros t sz k Hwf. unfold encode_totals, decode_totals. codec_run. by destruct t. Qed.

#[export] Instance incarnation_roundtrip :
  Roundtrip incarnation_record_wf encode_incarnation decode_incarnation.
Proof.
  intros r sz k Hwf. unfold encode_incarnation, decode_incarnation. codec_run.
  rewrite authority_state_cast_code. by destruct r.
Qed.

#[export] Instance fence_roundtrip : Roundtrip fence_wf encode_fence decode_fence.
Proof.
  intros f sz k Hwf. unfold encode_fence, decode_fence. codec_run.
  rewrite reason_cast_code. by destruct f.
Qed.

#[export] Instance ambiguous_roundtrip : Roundtrip ambiguous_wf encode_ambiguous decode_ambiguous.
Proof.
  intros n sz k Hwf. unfold encode_ambiguous, decode_ambiguous. codec_run.
  rewrite op_cast_code. by destruct n.
Qed.

#[export] Instance window_roundtrip :
  Roundtrip window_entry_wf encode_window_entry decode_window_entry.
Proof.
  intros [i q] sz k [Hi Hq]. unfold encode_window_entry, decode_window_entry. simpl in *.
  codec_run. done.
Qed.

(** ** Collections round trip when every item is at least as long as budgeted *)

Lemma decode_n_roundtrip {A} (wf : A -> Prop) enc dec `{Roundtrip A wf enc dec} items sz k :
  Forall wf items ->
  decode_n (length items) dec (mkReader sz (encode_items enc items ++ k) false) =
  (inr items, mkReader sz k false).
Proof.
  induction 1 as [|x items Hx Hi IH]; [done |].
  change (encode_items enc (x :: items)) with (enc x ++ encode_items enc items).
  simpl. rewrite <-app_assoc, (roundtrip_bind wf enc) by done.
  rewrite (d_bind_ok _ _ _ _ _ IH). done.
Qed.

Definition item_size {A} (enc : A -> list Z) (min : Z) : Prop :=
  forall a, min <= Z.of_nat (length (enc a)).

Lemma encode_items_size {A} (enc : A -> list Z) min items :
  item_size enc min -> Z.of_nat (length items) * min <= Z.of_nat (length (encode_items enc items)).
Proof.
  intros Hs. induction items as [|x items IH]; [simpl; lia |].
  change (encode_items enc (x :: items)) with (enc x ++ encode_items enc items).
  rewrite length_app. pose proof (Hs x). simpl length. lia.
Qed.

Lemma collection_roundtrip {A} (wf : A -> Prop) enc dec min s `{!Roundtrip wf enc dec} :
  item_size enc min ->
  Roundtrip (collection_wf wf) (encode_collection enc) (decode_collection min s dec).
Proof.
  intros Hs items sz k [Hwf Hmax]. unfold decode_collection, encode_collection.
  rewrite <-app_assoc.
  assert (Hu : in_u64 (Z.of_nat (length items))) by (unfold kMaxCollection in Hmax; word_lia).
  rewrite (d_bind_ok _ _ _ (Z.of_nat (length items)) (mkReader sz (encode_items enc items ++ k) false)).
  - rewrite Nat2Z.id. by apply (decode_n_roundtrip wf).
  - unfold need_count. rewrite reads_u64 by done. unfold within_budget, rd_remaining. simpl.
    destruct (Z.gtb_spec (Z.of_nat (length items)) kMaxCollection); [lia |].
    pose proof (encode_items_size enc min items Hs). rewrite length_app.
    destruct (Z.leb_spec (Z.of_nat (length items) * min)
                (Z.of_nat (length (encode_items enc items) + length k))); [done | lia].
Qed.

Lemma length_w_u8 v : length (w_u8 v) = 1%nat.
Proof. done. Qed.
Lemma length_w_u16 v : length (w_u16 v) = 2%nat.
Proof. apply (length_w_le 2). Qed.
Lemma length_w_u64 v : length (w_u64 v) = 8%nat.
Proof. apply (length_w_le 8). Qed.
Lemma length_w_digest d : length (w_digest d) = 16%nat.
Proof.
  change (length (w_u64 (lo d) ++ w_u64 (hi d)) = 16%nat). by rewrite length_app, !length_w_u64.
Qed.

Ltac item_size_tac :=
  intros ?; rewrite ?length_app, ?length_w_u8, ?length_w_u16, ?length_w_u64, ?length_w_digest;
  simpl; lia.

Lemma incarnation_size : item_size encode_incarnation 112.
Proof. unfold encode_incarnation. item_size_tac. Qed.
Lemma fence_size : item_size encode_fence 40.
Proof. unfold encode_fence. item_size_tac. Qed.
Lemma ambiguous_size : item_size encode_ambiguous 40.
Proof. unfold encode_ambiguous. item_size_tac. Qed.
Lemma window_item_size : item_size encode_window_entry 16.
Proof. unfold encode_window_entry. item_size_tac. Qed.

#[export] Hint Resolve incarnation_size fence_size ambiguous_size window_item_size : core.

#[export] Instance incarnations_roundtrip s :
  Roundtrip (collection_wf incarnation_record_wf) (encode_collection encode_incarnation)
    (decode_collection 112 s decode_incarnation).
Proof. apply collection_roundtrip; auto. exact _. Qed.
#[export] Instance fences_roundtrip s :
  Roundtrip (collection_wf fence_wf) (encode_collection encode_fence)
    (decode_collection 40 s decode_fence).
Proof. apply collection_roundtrip; auto. exact _. Qed.
#[export] Instance ambiguous_list_roundtrip s :
  Roundtrip (collection_wf ambiguous_wf) (encode_collection encode_ambiguous)
    (decode_collection 40 s decode_ambiguous).
Proof. apply collection_roundtrip; auto. exact _. Qed.
#[export] Instance window_list_roundtrip s :
  Roundtrip (collection_wf window_entry_wf) (encode_collection encode_window_entry)
    (decode_collection 16 s decode_window_entry).
Proof. apply collection_roundtrip; auto. exact _. Qed.

#[export] Instance account_roundtrip code :
  Roundtrip durable_account_wf encode_account (decode_account code).
Proof.
  intros a sz k Hwf. unfold encode_account, decode_account. rewrite <-!app_assoc.
  codec_field config_wf encode_account_config.
  codec_field totals_wf encode_totals.
  codec_field (collection_wf incarnation_record_wf) (encode_collection encode_incarnation).
  codec_field (collection_wf fence_wf) (encode_collection encode_fence).
  codec_field (collection_wf ambiguous_wf) (encode_collection encode_ambiguous).
  codec_field (collection_wf window_entry_wf) (encode_collection encode_window_entry).
  rewrite reason_cast_code. by destruct a.
Qed.

Lemma length_w_boolean b : length (w_boolean b) = 1%nat.
Proof. done. Qed.

(** The length of an encoded account. *)
Lemma length_encode_items {A} (enc : A -> list Z) n items :
  (forall a, length (enc a) = n) -> length (encode_items enc items) = (length items * n)%nat.
Proof.
  intros Hn. induction items as [|x items IH]; [done |].
  change (encode_items enc (x :: items)) with (enc x ++ encode_items enc items).
  rewrite length_app, Hn, IH. done.
Qed.

Lemma length_encode_account a :
  length (encode_account a) =
  (207 + length (da_incarnations a) * 113 + length (da_fences a) * 42 +
   length (da_ambiguous a) * 41 + length (da_attempt_window a) * 16)%nat.
Proof.
  unfold encode_account, encode_collection, encode_account_config, encode_totals.
  rewrite !length_app, (length_encode_items encode_incarnation 113), (length_encode_items encode_fence 42),
    (length_encode_items encode_ambiguous 41), (length_encode_items encode_window_entry 16).
  - rewrite !length_w_u64, !length_w_u16, !length_w_u8, !length_w_digest, !length_w_boolean. lia.
  - intros e. unfold encode_window_entry. by rewrite !length_app, !length_w_u64.
  - intros n. unfold encode_ambiguous. by rewrite !length_app, !length_w_u64, length_w_u8, length_w_digest.
  - intros f. unfold encode_fence. by rewrite !length_app, !length_w_u64, length_w_u16.
  - intros r. unfold encode_incarnation. by rewrite !length_app, !length_w_u64, length_w_u8, length_w_digest.
Qed.

#[global] Opaque encode_account decode_account.

Lemma need_u32_at {B} (f : Z -> Decoder B) sz k v :
  in_u32 v -> d_bind (need r_u32) f (mkReader sz (w_u32 v ++ k) false) = f v (mkReader sz k false).
Proof. apply need_u32. Qed.

#[export] Instance nested_account_roundtrip :
  Roundtrip nested_account_wf encode_nested_account decode_nested_account.
Proof.
  intros a sz k [Hwf Hlen]. unfold encode_nested_account, decode_nested_account, w_raw.
  rewrite <-app_assoc, wrap32_small, need_u32_at by done.
  unfold rd_remaining. simpl rd_rest.
  destruct (Z.gtb_spec (Z.of_nat (length (encode_account a)))
    (Z.of_nat (length (encode_account a ++ k)))) as [H|H]; [rewrite length_app in H; lia |].
  unfold r_skip. rewrite Nat2Z.id, r_take_app, take_app_length by done.
  pose proof (roundtrip (dec := decode_account 18) a (Z.of_nat (length (encode_account a))) [] Hwf) as E.
  rewrite app_nil_r in E. unfold reader_make. rewrite E.
  unfold rd_done, rd_position, rd_remaining. simpl. by rewrite Z.sub_0_r, Z.eqb_refl.
Qed.

Lemma nested_account_size : item_size encode_nested_account 4.
Proof.
  intros a. unfold encode_nested_account. rewrite length_app.
  set (v := wrap32 _). rewrite (proj2 (w_u32_bytes v)). lia.
Qed.

#[export] Instance accounts_roundtrip s :
  Roundtrip (collection_wf nested_account_wf) (encode_collection encode_nested_account)
    (decode_collection 4 s decode_nested_account).
Proof. apply collection_roundtrip; auto using nested_account_size. exact _. Qed.

(** ** Properties *)

(** Decoding the bytes of a well-formed attempt. *)
Lemma durable_attempt_decodes t :
  durable_attempt_wf t -> decode_durable_attempt (encode_durable_attempt t) = inr t.
Proof.
  intros Hwf. unfold decode_durable_attempt, run_decoder, reader_make.
  generalize (Z.of_nat (length (encode_durable_attempt t))) as sz. intros sz.
  unfold encode_durable_attempt.
  rewrite <-(app_nil_r (w_u64 (dt_engine_refused t))).
  codec_field (request_wf 4096) encode_request_body.
  codec_field outcome_wf encode_outcome_body.
  pose proof (twf_created _ Hwf) as Hc. pose proof (twf_account _ Hwf) as Ha.
  rewrite !require_true by (destruct (dt_created_account t); [destruct Hc as [E1 E2]; rewrite ?E1, ?E2 |]; done).
  pose proof (twf_engine_applied _ Hwf). pose proof (twf_engine_refused _ Hwf).
  destruct t as [rq o has created acc ap rf]; simpl in *. destruct has.
  - codec_field durable_account_wf encode_account. by rewrite require_done_nil.
  - subst acc. erewrite (d_bind_ok (d_ret _)) by reflexivity. simpl app. codec_run. by rewrite require_done_nil.
Qed.

(** A journaled attempt decodes to exactly the request, outcome and account
    state that were appended, with no field lost or defaulted, and two attempts
    with the same bytes are the same attempt: recovery replays what was decided. *)
Theorem durable_attempt_roundtrip t t' :
  durable_attempt_wf t -> durable_attempt_wf t' ->
  decode_durable_attempt (encode_durable_attempt t) = inr t /\
  (encode_durable_attempt t = encode_durable_attempt t' -> t = t').
Proof.
  intros Ht Ht'. pose proof (durable_attempt_decodes t Ht) as E. split; [done |].
  intros Heq. rewrite Heq, durable_attempt_decodes in E by done. congruence.
Qed.

Definition sample_attempt : DurableAttempt :=
  mkDurableAttempt (sample_request 5) outcome_zero true false durable_account_zero 3 4.

Ltac wf_tac := repeat (constructor; simpl); try done; word_lia.

Lemma durable_account_zero_wf : durable_account_wf durable_account_zero.
Proof. constructor; simpl; wf_tac. Qed.

Lemma sample_attempt_wf : durable_attempt_wf sample_attempt.
Proof.
  constructor; simpl.
  - apply sample_request_wf; word_lia.
  - wf_tac.
  - discriminate.
  - apply durable_account_zero_wf.
  - word_lia.
  - word_lia.
Qed.

Lemma durable_attempt_roundtrip_witness :
  decode_durable_attempt (encode_durable_attempt sample_attempt) = inr sample_attempt.
Proof.
  exact (proj1 (durable_attempt_roundtrip sample_attempt sample_attempt sample_attempt_wf
    sample_attempt_wf)).
Defined.

(** A snapshot decodes to exactly the state it was taken of, accounts
    included, each through its own length-prefixed block. *)
Theorem durable_state_roundtrip s :
  durable_state_wf s -> decode_durable_state (encode_durable_state s) = inr s.
Proof.
  intros Hwf. unfold decode_durable_state, run_decoder, reader_make.
  generalize (Z.of_nat (length (encode_durable_state s))) as sz. intros sz.
  unfold encode_durable_state.
  rewrite <-(app_nil_r (encode_collection encode_nested_account (ds_accounts s))).
  codec_run. codec_field (collection_wf nested_account_wf) (encode_collection encode_nested_account).
  rewrite require_done_nil. by destruct s.
Qed.

Definition sample_state : DurableState :=
  mkDurableState 7 (mkDigest 1 2) 1 [durable_account_zero] (mkDigest 3 4).

Lemma durable_state_roundtrip_witness :
  decode_durable_state (encode_durable_state sample_state) = inr sample_state.
Proof.
  apply (durable_state_roundtrip sample_state). constructor; simpl; [wf_tac .. |].
  split; [| by vm_compute]. constructor; [| constructor].
  split; [apply durable_account_zero_wf | split; by vm_compute].
Defined.
