(* ===== verification/Journal.v ===== *)
(** * The journal interface and the in-memory journal
      (include/creditfabric/journal.hpp, src/journal.cpp)

    [Journal] is the virtual interface the engine is written against, as a
    class of operations on a journal state.  [JournalLaws] is what the engine
    relies on: an abstract log that a successful append extends by exactly one
    entry, that a refused append leaves alone, that rotation trims, and that a
    replay delivers in order.  [InMemoryJournal] implements it. *)

From S2P Require Import Prelude Status Digest.
Local Open Scope word_scope.
Local Open Scope Z_scope.

Inductive JournalRecordKind : Set := KUnknown | KAttempt | KSnapshot | KIntent.

Definition kind_code (k : JournalRecordKind) : Z :=
  match k with KUnknown => 0 | KAttempt => 1 | KSnapshot => 2 | KIntent => 3 end.

Record JournalRecord := mkJRecord {
  jr_valid : bool;
  jr_sequence : Z;
  jr_kind : JournalRecordKind;
  jr_chain : Digest128;
  jr_payload : list Z;
  jr_offset : Z;
}.

Definition jrecord_zero : JournalRecord := mkJRecord false 0 KUnknown digest_zero [] 0.

(** One entry as the engine appends it. *)
Record LogEntry := mkLog {
  lg_sequence : Z;
  lg_kind : JournalRecordKind;
  lg_chain : Digest128;
  lg_payload : list Z;
}.

(** ** The interface *)

Class Journal (J : Type) := {
  j_open : J -> Status * J;
  j_append : Z -> JournalRecordKind -> Digest128 -> list Z -> J -> Status * J;
  j_begin_replay : J -> Status * J;
  j_next_record : J -> (Status * JournalRecord) * J;
  j_end_replay : J -> Status * J;
  j_rotate : Z -> J -> Status * J;
  j_write_snapshot : Z -> Digest128 -> list Z -> J -> Status * J;
  (** [None] is [present == false]. *)
  j_read_snapshot : J -> Status * option (Z * Digest128 * list Z);
  j_bytes : J -> Z;
  j_records : J -> Z;
  j_torn_tail : J -> bool;
  j_close : J -> Status * J;
}.

(** What a journal promises: [j_log] is the durable content a replay would
    deliver, [j_snap] the newest durable snapshot. *)
Class JournalLaws (J : Type) `{Journal J} := {
  j_log : J -> list LogEntry;
  j_snap : J -> option (Z * Digest128 * list Z);
  append_ok : forall s k c p j st j',
    j_append s k c p j = (st, j') -> status_ok st = true ->
    j_log j' = j_log j ++ [mkLog s k c p] /\ j_snap j' = j_snap j;
  append_refused : forall s k c p j st j',
    j_append s k c p j = (st, j') -> status_ok st = false ->
    j_log j' = j_log j /\ j_snap j' = j_snap j;
  rotate_ok : forall s j st j',
    j_rotate s j = (st, j') -> status_ok st = true ->
    j_log j' = filter (fun e => s < lg_sequence e) (j_log j) /\ j_snap j' = j_snap j;
  write_snapshot_ok : forall s c p j st j',
    j_write_snapshot s c p j = (st, j') -> status_ok st = true ->
    j_log j' = j_log j /\ j_snap j' = Some (s, c, p);
  read_snapshot_ok : forall j, j_read_snapshot j = (success, j_snap j);
}.

(** ** The in-memory journal *)

Record Entry := mkEntry {
  en_sequence : Z;
  en_kind : JournalRecordKind;
  en_chain : Digest128;
  en_payload : list Z;
  en_corrupted : bool;
}.

Record InMemoryJournal := mkMemory {
  mj_entries : list Entry;
  mj_cursor : nat;
  mj_max_bytes : Z;
  mj_bytes : Z;
  mj_replaying : bool;
  mj_torn : bool;
  mj_snapshot : option (Z * Digest128 * list Z);
}.

Definition memory_make (max_bytes : Z) : InMemoryJournal :=
  mkMemory [] 0 max_bytes 0 false false None.

Definition memory_open (j : InMemoryJournal) : Status * InMemoryJournal :=
  (success, mkMemory (mj_entries j) 0 (mj_max_bytes j) (mj_bytes j) false false (mj_snapshot j)).

Definition memory_append (sequence : Z) (kind : JournalRecordKind) (chain : Digest128)
    (payload : list Z) (j : InMemoryJournal) : Status * InMemoryJournal :=
  if mj_replaying j then (refused_status RInvalidState 1, j) else
  let growth := Z.of_nat (length payload) +% 8 in
  if mj_bytes j +% growth >? mj_max_bytes j
  then (refused_status RBudgetExceeded (mj_bytes j), j) else
  (success,
   mkMemory (mj_entries j ++ [mkEntry sequence kind chain payload false]) (mj_cursor j)
     (mj_max_bytes j) (mj_bytes j +% growth) (mj_replaying j) (mj_torn j) (mj_snapshot j)).

Definition memory_begin_replay (j : InMemoryJournal) : Status * InMemoryJournal :=
  (success, mkMemory (mj_entries j) 0 (mj_max_bytes j) (mj_bytes j) true false (mj_snapshot j)).

(** The [while] loop returns in its first iteration. *)
Definition memory_next_record (j : InMemoryJournal) : (Status * JournalRecord) * InMemoryJournal :=
  match mj_entries j !! mj_cursor j with
  | None => ((success, jrecord_zero), j)
  | Some entry =>
      if en_corrupted entry
      then ((success, jrecord_zero),
            mkMemory (mj_entries j) (mj_cursor j) (mj_max_bytes j) (mj_bytes j)
              (mj_replaying j) true (mj_snapshot j))
      else ((success, mkJRecord true (en_sequence entry) (en_kind entry) (en_chain entry)
                        (en_payload entry) (Z.of_nat (mj_cursor j))),
            mkMemory (mj_entries j) (S (mj_cursor j)) (mj_max_bytes j) (mj_bytes j)
              (mj_replaying j) (mj_torn j) (mj_snapshot j))
  end.

Definition memory_end_replay (j : InMemoryJournal) : Status * InMemoryJournal :=
  (success, mkMemory (mj_entries j) (mj_cursor j) (mj_max_bytes j) (mj_bytes j) false
              (mj_torn j) (mj_snapshot j)).

Definition entry_bytes (acc : Z) (e : Entry) : Z := acc +% (Z.of_nat (length (en_payload e)) +% 8).

Definition memory_rotate (snapshot_sequence : Z) (j : InMemoryJournal) : Status * InMemoryJournal :=
  let kept := filter (fun e => snapshot_sequence < en_sequence e) (mj_entries j) in
  (success, mkMemory kept 0 (mj_max_bytes j) (fold_left entry_bytes kept 0) (mj_replaying j)
              (mj_torn j) (mj_snapshot j)).

Definition memory_write_snapshot (sequence : Z) (chain : Digest128) (payload : list Z)
    (j : InMemoryJournal) : Status * InMemoryJournal :=
  if Z.of_nat (length payload) >? mj_max_bytes j
  then (refused_status RBudgetExceeded (Z.of_nat (length payload)), j) else
  (success, mkMemory (mj_entries j) (mj_cursor j) (mj_max_bytes j) (mj_bytes j)
              (mj_replaying j) (mj_torn j) (Some (sequence, chain, payload))).

Definition memory_read_snapshot (j : InMemoryJournal) : Status * option (Z * Digest128 * list Z) :=
  (success, mj_snapshot j).

Definition memory_close (j : InMemoryJournal) : Status * InMemoryJournal := memory_end_replay j.

Definition corrupt_entry (e : Entry) : Entry :=
  mkEntry (en_sequence e) (en_kind e) (en_chain e) (en_payload e) true.

Definition set_entries (entries : list Entry) (j : InMemoryJournal) : InMemoryJournal :=
  mkMemory entries (mj_cursor j) (mj_max_bytes j) (mj_bytes j) (mj_replaying j) (mj_torn j)
    (mj_snapshot j).

(** [simulate_corruption(index)]; out of range it does nothing. *)
Definition simulate_corruption (index : nat) (j : InMemoryJournal) : InMemoryJournal :=
  set_entries (alter corrupt_entry index (mj_entries j)) j.

Definition simulate_torn_tail (j : InMemoryJournal) : InMemoryJournal :=
  match mj_entries j with
  | [] => j
  | _ => simulate_corruption (pred (length (mj_entries j))) j
  end.

#[global] Instance memory_journal : Journal InMemoryJournal := {
  j_open := memory_open;
  j_append := memory_append;
  j_begin_replay := memory_begin_replay;
  j_next_record := memory_next_record;
  j_end_replay := memory_end_replay;
  j_rotate := memory_rotate;
  j_write_snapshot := memory_write_snapshot;
  j_read_snapshot := memory_read_snapshot;
  j_bytes := mj_bytes;
  j_records := fun j => Z.of_nat (length (mj_entries j));
  j_torn_tail := mj_torn;
  j_close := memory_close;
}.

(** ** The in-memory journal keeps the promise *)

Definition entry_log (e : Entry) : LogEntry :=
  mkLog (en_sequence e) (en_kind e) (en_chain e) (en_payload e).

Definition memory_log (j : InMemoryJournal) : list LogEntry := entry_log <$> mj_entries j.

Lemma filter_entry_log s (entries : list Entry) :
  entry_log <$> filter (fun e => s < en_sequence e) entries =
  filter (fun e => s < lg_sequence e) (entry_log <$> entries).
Proof.
  induction entries as [|e entries IH]; [done |].
  rewrite fmap_cons, !filter_cons. change (lg_sequence (entry_log e)) with (en_sequence e).
  case_decide; [rewrite fmap_cons |]; by rewrite IH.
Qed.

#[global] Instance memory_laws : JournalLaws InMemoryJournal.
Proof.
  refine {| j_log := memory_log; j_snap := mj_snapshot |}; simpl.
  - intros s k c p j st j'. unfold memory_append.
    repeat case_match; intros [= <- <-]; try done. intros _.
    unfold memory_log. simpl. by rewrite fmap_app.
  - intros s k c p j st j'. unfold memory_append. repeat case_match; by intros [= <- <-].
  - intros s j st j' [= <- <-] _. unfold memory_log. simpl. by rewrite filter_entry_log.
  - intros s c p j st j'. unfold memory_write_snapshot. case_match; by intros [= <- <-].
  - done.
Defined.

(** Reading [n] records in a row. *)
Fixpoint read_n (n : nat) (j : InMemoryJournal) : list JournalRecord * InMemoryJournal :=
  match n with
  | O => ([], j)
  | S n =>
      let '((_, r), j1) := memory_next_record j in
      let '(rs, j2) := read_n n j1 in
      (r :: rs, j2)
  end.

Definition record_of_entry (i : nat) (e : Entry) : JournalRecord :=
  mkJRecord true (en_sequence e) (en_kind e) (en_chain e) (en_payload e) (Z.of_nat i).

Lemma read_n_entries entries i suffix j :
  drop i (mj_entries j) = entries ++ suffix -> mj_cursor j = i ->
  Forall (fun e => en_corrupted e = false) entries ->
  read_n (length entries) j =
    (imap (fun k e => record_of_entry (i + k) e) entries,
     mkMemory (mj_entries j) (i + length entries) (mj_max_bytes j) (mj_bytes j) (mj_replaying j)
       (mj_torn j) (mj_snapshot j)).
Proof.
  revert i j. induction entries as [|e entries IH]; intros i j Hd Hc Hok.
  { simpl. rewrite Nat.add_0_r, <-Hc. by destruct j. }
  apply Forall_cons in Hok as [He Hok].
  assert (Hl : mj_entries j !! i = Some e).
  { rewrite <-(Nat.add_0_r i), <-lookup_drop, Hd. done. }
  cbn [read_n length]. unfold memory_next_record. rewrite Hc, Hl, He.
  rewrite (IH (S i)); [| | done | done].
  - simpl. unfold record_of_entry at 2. rewrite Nat.add_0_r. f_equal; [f_equal |].
    + apply imap_ext. intros k x _. simpl. f_equal. lia.
    + f_equal. lia.
  - rewrite (drop_S _ _ _ Hl) in Hd. by injection Hd.
Qed.

(** ** Properties *)

(** Replaying the in-memory journal delivers exactly the durable prefix: from
    [begin_replay], the records come out in append order with their sequence,
    kind, chain and payload, up to the first damaged entry, where the journal
    reports the end of the stream and a torn tail. *)
Theorem memory_replay_delivers_prefix j good bad rest :
  mj_entries j = good ++ bad :: rest ->
  Forall (fun e => en_corrupted e = false) good -> en_corrupted bad = true ->
  let '(records, j') := read_n (length good) (memory_begin_replay j).2 in
  records = imap record_of_entry good /\
  (memory_next_record j').1 = (success, jrecord_zero) /\
  mj_torn (memory_next_record j').2 = true /\
  mj_entries (memory_next_record j').2 = mj_entries j.
Proof.
  intros He Hg Hb.
  rewrite (read_n_entries good 0 (bad :: rest)); [| done | done | done].
  split; [done |]. unfold memory_next_record. simpl.
  rewrite He, lookup_app_r, Nat.sub_diag by lia. simpl. by rewrite Hb.
Qed.

Lemma memory_replay_delivers_prefix_witness :
  let j := simulate_torn_tail (memory_append 2 KAttempt digest_zero [5] (memory_append 1 KIntent digest_zero [4] (memory_make 64)).2).2 in
  (read_n 1 (memory_begin_replay j).2).1 = [mkJRecord true 1 KIntent digest_zero [4] 0].
Proof.
  intros j.
  pose proof (memory_replay_delivers_prefix j [mkEntry 1 KIntent digest_zero [4] false]
    (mkEntry 2 KAttempt digest_zero [5] true) []) as H.
  destruct (read_n (length [mkEntry 1 KIntent digest_zero [4] false]) (memory_begin_replay j).2)
    as [records j'] eqn:E.
  destruct H as [H _]; [reflexivity | repeat constructor | reflexivity |].
  change 1%nat with (length [mkEntry 1 KIntent digest_zero [4] false]). rewrite E. exact H.
Defined.
