(* ===== verification/Window.v ===== *)
(** * The attempt window (struct CreditEngine::AttemptWindow, src/engine.cpp)

    The bounded set of recently decided attempts that absorbs replays: entries
    by (incarnation, sequence), an index by attempt identity, and the insertion
    order used for eviction.  The invariant [window_wf] ties the three together;
    the abstract behaviour is a bounded queue of keys. *)

From S2P Require Import Prelude Status Digest Ledger.
Local Open Scope Z_scope.

(** [Key] is the pair (incarnation, sequence). *)
Abbreviation Key := (Z * Z)%type.

Record WindowEntry := mkWindowEntry {
  we_key : Key;
  we_attempt : Digest128;
  we_request : Digest128;
  we_status : Status;
  we_applied : bool;
  we_view : CreditView;
}.

Record AttemptWindow := mkWindow {
  aw_order : list Key;
  aw_by_key : gmap Key WindowEntry;
  aw_by_attempt : gmap Digest128 Key;
  aw_limit : Z;
}.

(** [KeyHash]. *)
Definition key_hash (k : Key) : Z := mix64 ((k.1 *% 0x9E3779B97F4A7C15) ^^ k.2)%word.

Definition window_make (limit : Z) : AttemptWindow :=
  mkWindow [] ∅ ∅ (if limit =? 0 then 1 else limit).

Definition window_find (key : Key) (w : AttemptWindow) : option WindowEntry := aw_by_key w !! key.

Definition window_find_by_attempt (id : Digest128) (w : AttemptWindow) : option WindowEntry :=
  match aw_by_attempt w !! id with
  | None => None
  | Some key => window_find key w
  end.

(** The loop [while (order_.size() > limit_)]. *)
Fixpoint window_evict (limit : Z) (order : list Key) (by_key : gmap Key WindowEntry)
    (by_attempt : gmap Digest128 Key) : AttemptWindow :=
  match order with
  | [] => mkWindow [] by_key by_attempt limit
  | oldest :: rest =>
      if Z.of_nat (length order) >? limit then
        match by_key !! oldest with
        | Some entry =>
            window_evict limit rest (delete oldest by_key) (delete (we_attempt entry) by_attempt)
        | None => window_evict limit rest by_key by_attempt
        end
      else mkWindow order by_key by_attempt limit
  end.

Definition window_insert (entry : WindowEntry) (w : AttemptWindow) : AttemptWindow :=
  let by_attempt :=
    match aw_by_key w !! we_key entry with
    | Some previous => delete (we_attempt previous) (aw_by_attempt w)
    | None => aw_by_attempt w
    end in
  window_evict (aw_limit w) (aw_order w ++ [we_key entry])
    (<[we_key entry := entry]> (aw_by_key w))
    (<[we_attempt entry := we_key entry]> by_attempt).

Definition window_clear (w : AttemptWindow) : AttemptWindow := mkWindow [] ∅ ∅ (aw_limit w).

Definition window_identities (w : AttemptWindow) : list (Z * Z) := aw_order w.

Definition window_size (w : AttemptWindow) : Z := Z.of_nat (size (aw_by_key w)).

(** ** The invariant *)

Record window_wf (w : AttemptWindow) : Prop := {
  ww_limit : 1 <= aw_limit w;
  ww_bound : Z.of_nat (length (aw_order w)) <= aw_limit w;
  ww_nodup : NoDup (aw_order w);
  ww_order : forall k, k ∈ aw_order w <-> is_Some (aw_by_key w !! k);
  ww_key : forall k e, aw_by_key w !! k = Some e -> we_key e = k;
  (** Every indexed attempt identity names a live entry with that identity. *)
  ww_attempt : forall a k, aw_by_attempt w !! a = Some k ->
    exists e, aw_by_key w !! k = Some e /\ we_attempt e = a;
}.

Lemma window_make_wf limit : 0 <= limit -> window_wf (window_make limit).
Proof.
  intros H. unfold window_make. constructor; simpl; try done.
  - destruct (Z.eqb_spec limit 0); lia.
  - destruct (Z.eqb_spec limit 0); lia.
  - apply NoDup_nil_2.
  - intros k. rewrite lookup_empty. split; [by intros ?%elem_of_nil | by intros [? ?]].
Qed.

Lemma window_clear_wf w : window_wf w -> window_wf (window_clear w).
Proof.
  intros [Hl Hb _ _ _ _]. constructor; simpl; try done; [lia | apply NoDup_nil_2 |].
  intros k. rewrite lookup_empty. split; [by intros ?%elem_of_nil | by intros [? ?]].
Qed.

(** The window after an insertion: the key at the back, the oldest dropped when full. *)
Definition window_full (w : AttemptWindow) : bool := Z.of_nat (length (aw_order w)) >=? aw_limit w.

Lemma window_evict_done limit order bk ba :
  Z.of_nat (length order) <= limit -> window_evict limit order bk ba = mkWindow order bk ba limit.
Proof.
  intros H. destruct order as [|k order]; [done |]. cbn [window_evict].
  by destruct (Z.gtb_spec (Z.of_nat (length (k :: order))) limit); [lia |].
Qed.

Section Insert.
Context (w : AttemptWindow) (e : WindowEntry).
Context (Hwf : window_wf w) (Hfresh : window_find (we_key e) w = None).

Lemma window_insert_room :
  window_full w = false ->
  window_insert e w =
  mkWindow (aw_order w ++ [we_key e]) (<[we_key e := e]> (aw_by_key w))
    (<[we_attempt e := we_key e]> (aw_by_attempt w)) (aw_limit w).
Proof.
  intros Hf. unfold window_insert. unfold window_find in Hfresh. rewrite Hfresh.
  apply window_evict_done. unfold window_full in Hf.
  rewrite length_app, Z.geb_leb, Z.leb_gt in *. simpl. lia.
Qed.

Lemma window_insert_full :
  window_full w = true ->
  exists oldest rest dropped, aw_order w = oldest :: rest /\ oldest <> we_key e /\
  aw_by_key w !! oldest = Some dropped /\
  window_insert e w =
  mkWindow (rest ++ [we_key e]) (delete oldest (<[we_key e := e]> (aw_by_key w)))
    (delete (we_attempt dropped) (<[we_attempt e := we_key e]> (aw_by_attempt w))) (aw_limit w).
Proof.
  intros Hf. destruct Hwf as [Hl Hb Hnd Ho Hk Ha]. unfold window_full in Hf.
  destruct (aw_order w) as [|oldest rest] eqn:E; [apply Z.geb_le in Hf; simpl in *; lia |].
  apply Z.geb_le in Hf.
  assert (is_Some (aw_by_key w !! oldest)) as [d Hd] by (apply Ho; left).
  assert (oldest <> we_key e) as Hne.
  { intros ->. unfold window_find in Hfresh. by rewrite Hfresh in Hd. }
  exists oldest, rest, d. split; [done |]. split; [done |]. split; [done |].
  unfold window_insert. unfold window_find in Hfresh. rewrite Hfresh, E.
  cbn [window_evict app]. rewrite lookup_insert_ne, Hd by done. simpl length in *.
  rewrite length_app in *. simpl length in *.
  destruct (Z.gtb_spec (Z.of_nat (S (length rest + 1))) (aw_limit w)); [| lia].
  apply window_evict_done. rewrite length_app. simpl. lia.
Qed.

(** The inserted entry is found by its key. *)
Lemma window_insert_find : window_find (we_key e) (window_insert e w) = Some e.
Proof.
  destruct (window_full w) eqn:Hf.
  - destruct (window_insert_full Hf) as (o & r & d & _ & Hne & _ & ->).
    unfold window_find. simpl. rewrite lookup_delete_ne by done. by rewrite lookup_insert_eq.
  - rewrite window_insert_room by done. unfold window_find. simpl. by rewrite lookup_insert_eq.
Qed.

(** Only the inserted key is added; nothing else appears or changes. *)
Lemma window_insert_other k x :
  window_find k (window_insert e w) = Some x -> k = we_key e /\ x = e \/ window_find k w = Some x.
Proof.
  unfold window_find. destruct (decide (k = we_key e)) as [->|Hk].
  { pose proof window_insert_find as Hi. unfold window_find in Hi. rewrite Hi.
    intros [= <-]. by left. }
  intros Hx. right. revert Hx. destruct (window_full w) eqn:Hf.
  - destruct (window_insert_full Hf) as (o & r & d & _ & _ & _ & ->). simpl.
    intros [_ Hx]%lookup_delete_Some. by rewrite lookup_insert_ne in Hx.
  - rewrite window_insert_room by done. simpl. by rewrite lookup_insert_ne.
Qed.

Lemma window_insert_limit : aw_limit (window_insert e w) = aw_limit w.
Proof.
  destruct (window_full w) eqn:Hf.
  - by destruct (window_insert_full Hf) as (o & r & d & _ & _ & _ & ->).
  - by rewrite window_insert_room.
Qed.

End Insert.

Lemma window_insert_order w e :
  window_wf w -> window_find (we_key e) w = None ->
  aw_order (window_insert e w) =
  (if window_full w then tail (aw_order w) else aw_order w) ++ [we_key e].
Proof.
  intros Hwf Hfresh. destruct (window_full w) eqn:Hf.
  - by destruct (window_insert_full w e Hwf Hfresh Hf) as (o & r & d & -> & _ & _ & ->).
  - by rewrite window_insert_room.
Qed.

Lemma window_fresh_order w k : window_wf w -> window_find k w = None -> k ∉ aw_order w.
Proof.
  intros Hwf Hf Hin. apply (ww_order _ Hwf) in Hin as [x Hx]. unfold window_find in Hf. congruence.
Qed.

Lemma window_insert_wf w e :
  window_wf w -> window_find (we_key e) w = None -> window_wf (window_insert e w).
Proof.
  intros Hwf Hfresh. pose proof (window_fresh_order w (we_key e) Hwf Hfresh) as Hno.
  assert (Hatt : forall a k, <[we_attempt e := we_key e]> (aw_by_attempt w) !! a = Some k ->
    exists x, <[we_key e := e]> (aw_by_key w) !! k = Some x /\ we_attempt x = a).
  { intros a k [[<- <-]|[Hne Hk]]%lookup_insert_Some.
    - exists e. by rewrite lookup_insert_eq.
    - apply (ww_attempt _ Hwf) in Hk as (x & Hx & Hax). exists x. split; [| done].
      rewrite lookup_insert_ne; [done |]. intros <-. unfold window_find in Hfresh. congruence. }
  destruct (window_full w) eqn:Hf.
  - destruct (window_insert_full w e Hwf Hfresh Hf) as (o & r & d & Ho & Hne & Hd & ->).
    destruct Hwf as [Hl Hb Hnd Hord Hk Ha]. rewrite Ho in *. apply NoDup_cons in Hnd as [Hor Hnd].
    constructor; simpl; [done | | | | |].
    + rewrite length_app. simpl in *. lia.
    + apply NoDup_app. split; [done |]. split; [| apply NoDup_singleton].
      intros k Hkr ->%list_elem_of_singleton. apply Hno. by right.
    + intros k. rewrite elem_of_app, list_elem_of_singleton. destruct (decide (k = o)) as [->|Hko].
      * rewrite lookup_delete_eq. split; [intros [?| ->]; done | by intros [? ?]].
      * rewrite lookup_delete_ne by done. destruct (decide (k = we_key e)) as [->|Hke].
        -- rewrite lookup_insert_eq. split; [eauto | by right].
        -- rewrite lookup_insert_ne, <-Hord, elem_of_cons by done. tauto.
    + intros k x [_ [[<- <-]|[_ Hx]]%lookup_insert_Some]%lookup_delete_Some; [done | by apply Hk].
    + intros a k [Hda Hak]%lookup_delete_Some. destruct (Hatt a k Hak) as (x & Hx & Hax).
      exists x. split; [| done]. rewrite lookup_delete_ne; [done |]. intros <-.
      rewrite lookup_insert_ne in Hx by done. congruence.
  - rewrite window_insert_room by done. destruct Hwf as [Hl Hb Hnd Hord Hk Ha].
    unfold window_full in Hf. rewrite Z.geb_leb, Z.leb_gt in Hf.
    constructor; simpl; [done | | | | | done].
    + rewrite length_app. simpl. lia.
    + apply NoDup_app. split; [done |]. split; [| apply NoDup_singleton].
      by intros k Hkr ->%list_elem_of_singleton.
    + intros k. rewrite elem_of_app, list_elem_of_singleton, Hord.
      destruct (decide (k = we_key e)) as [->|Hke].
      * rewrite lookup_insert_eq. split; [eauto | by right].
      * rewrite lookup_insert_ne by done. tauto.
    + intros k x [[<- <-]|[_ Hx]]%lookup_insert_Some; [done | by apply Hk].
Qed.

(** ** Properties *)

(** The attempt window is a bounded first-in first-out set: inserting a fresh
    key into a well-formed window keeps it well-formed (order, key map and
    attempt index agree, never more than the limit), makes the entry findable,
    appends its key to the identities, evicts exactly the oldest key when full
    and leaves every other decided attempt as it was. *)
Theorem window_insert_bounded_fifo w e :
  window_wf w -> window_find (we_key e) w = None ->
  let w' := window_insert e w in
  window_wf w' /\
  window_identities w' =
    (if window_full w then tail (window_identities w) else window_identities w) ++ [we_key e] /\
  window_find (we_key e) w' = Some e /\
  forall k x, k <> we_key e -> k ∈ window_identities w' ->
    window_find k w' = Some x <-> window_find k w = Some x.
Proof.
  intros Hwf Hfresh w'. pose proof (window_insert_wf w e Hwf Hfresh) as Hwf'. split; [done |].
  split; [by apply window_insert_order |]. split; [by apply window_insert_find |].
  intros k x Hk [y Hy]%(ww_order _ Hwf'). split; intros Hx.
  - apply window_insert_other in Hx as [[? _]|?]; done.
  - assert (window_find k w' = Some y) as Hy' by done.
    apply (window_insert_other w e Hwf Hfresh) in Hy' as [[? _]|Hy']; [done |].
    unfold window_find, w' in *. congruence.
Qed.

Definition sample_entry (k : Key) : WindowEntry :=
  mkWindowEntry k (mkDigest (k.1) (k.2)) digest_zero success true view_zero.

Lemma window_insert_bounded_fifo_witness :
  window_identities
    (window_insert (sample_entry (1, 3)) (window_insert (sample_entry (1, 2))
       (window_insert (sample_entry (1, 1)) (window_make 2)))) = [(1, 2); (1, 3)].
Proof.
  set (w := window_insert (sample_entry (1, 2)) (window_insert (sample_entry (1, 1)) (window_make 2))).
  destruct (window_insert_bounded_fifo w (sample_entry (1, 3))) as (_ & H & _); [| reflexivity |].
  - unfold w. repeat apply window_insert_wf; try reflexivity. apply window_make_wf. lia.
  - rewrite H. vm_compute. reflexivity.
Defined.
