(* ===== verification/Account.v ===== *)
(** * Accounts (struct CreditEngine::AccountState and the account-level helpers
      of src/engine.cpp)

    The state one account keeps, its digest, the constant-size backup that a
    durability failure is undone with, the bookkeeping of decided attempts, and
    the decision each operation makes on the account before anything is made
    durable, as a [Verdict]. *)

From S2P Require Import Prelude Checked Status Digest Ledger Authority Request Window Record.
Local Open Scope word_scope.
Local Open Scope Z_scope.

(** ** State *)

(** The incarnation map is keyed by identity; its iteration order, which the
    source never exposes except sorted, is that of [map_to_list]. *)
Record AccountState := mkAccount {
  ac_config : AccountConfig;
  ac_domain : Z;
  ac_account : Z;
  ac_epoch : Z;
  ac_generation : Z;
  ac_capacity : Z;
  ac_totals : CreditTotals;
  ac_hard_exhausted : bool;
  ac_exhaustion_cause : Reason;
  ac_window : AttemptWindow;
  ac_incarnations : gmap Z IncarnationRecord;
  ac_fences : list FenceRecord;
  ac_ambiguous : list AmbiguousNote;
  ac_refusals : list RefusalNote;
  ac_refusal_cursor : Z;
  ac_committed_attempts : Z;
  ac_refused_attempts : Z;
}.

(** [AccountState(window_limit)] with its default member initialisers. *)
Definition account_make (window_limit : Z) : AccountState :=
  mkAccount config_zero 0 0 1 1 0 totals_zero false ROk (window_make window_limit) ∅ [] [] [] 0 0 0.

(** Field updates. *)
Definition set_totals (v : CreditTotals) (x : AccountState) : AccountState :=
  mkAccount (ac_config x) (ac_domain x) (ac_account x) (ac_epoch x) (ac_generation x)
    (ac_capacity x) v (ac_hard_exhausted x) (ac_exhaustion_cause x) (ac_window x)
    (ac_incarnations x) (ac_fences x) (ac_ambiguous x) (ac_refusals x) (ac_refusal_cursor x)
    (ac_committed_attempts x) (ac_refused_attempts x).
Definition set_capacity (v : Z) (x : AccountState) : AccountState :=
  mkAccount (ac_config x) (ac_domain x) (ac_account x) (ac_epoch x) (ac_generation x) v
    (ac_totals x) (ac_hard_exhausted x) (ac_exhaustion_cause x) (ac_window x)
    (ac_incarnations x) (ac_fences x) (ac_ambiguous x) (ac_refusals x) (ac_refusal_cursor x)
    (ac_committed_attempts x) (ac_refused_attempts x).
Definition set_exhaustion (hard : bool) (cause : Reason) (x : AccountState) : AccountState :=
  mkAccount (ac_config x) (ac_domain x) (ac_account x) (ac_epoch x) (ac_generation x)
    (ac_capacity x) (ac_totals x) hard cause (ac_window x) (ac_incarnations x) (ac_fences x)
    (ac_ambiguous x) (ac_refusals x) (ac_refusal_cursor x) (ac_committed_attempts x)
    (ac_refused_attempts x).
Definition set_era (epoch generation : Z) (x : AccountState) : AccountState :=
  mkAccount (ac_config x) (ac_domain x) (ac_account x) epoch generation (ac_capacity x)
    (ac_totals x) (ac_hard_exhausted x) (ac_exhaustion_cause x) (ac_window x)
    (ac_incarnations x) (ac_fences x) (ac_ambiguous x) (ac_refusals x) (ac_refusal_cursor x)
    (ac_committed_attempts x) (ac_refused_attempts x).
Definition set_window (v : AttemptWindow) (x : AccountState) : AccountState :=
  mkAccount (ac_config x) (ac_domain x) (ac_account x) (ac_epoch x) (ac_generation x)
    (ac_capacity x) (ac_totals x) (ac_hard_exhausted x) (ac_exhaustion_cause x) v
    (ac_incarnations x) (ac_fences x) (ac_ambiguous x) (ac_refusals x) (ac_refusal_cursor x)
    (ac_committed_attempts x) (ac_refused_attempts x).
Definition set_incarnations (v : gmap Z IncarnationRecord) (x : AccountState) : AccountState :=
  mkAccount (ac_config x) (ac_domain x) (ac_account x) (ac_epoch x) (ac_generation x)
    (ac_capacity x) (ac_totals x) (ac_hard_exhausted x) (ac_exhaustion_cause x) (ac_window
    x) v (ac_fences x) (ac_ambiguous x) (ac_refusals x) (ac_refusal_cursor x)
    (ac_committed_attempts x) (ac_refused_attempts x).
Definition set_fences (v : list FenceRecord) (x : AccountState) : AccountState :=
  mkAccount (ac_config x) (ac_domain x) (ac_account x) (ac_epoch x) (ac_generation x)
    (ac_capacity x) (ac_totals x) (ac_hard_exhausted x) (ac_exhaustion_cause x) (ac_window
    x) (ac_incarnations x) v (ac_ambiguous x) (ac_refusals x) (ac_refusal_cursor x)
    (ac_committed_attempts x) (ac_refused_attempts x).
Definition set_ambiguous (v : list AmbiguousNote) (x : AccountState) : AccountState :=
  mkAccount (ac_config x) (ac_domain x) (ac_account x) (ac_epoch x) (ac_generation x)
    (ac_capacity x) (ac_totals x) (ac_hard_exhausted x) (ac_exhaustion_cause x) (ac_window
    x) (ac_incarnations x) (ac_fences x) v (ac_refusals x) (ac_refusal_cursor x)
    (ac_committed_attempts x) (ac_refused_attempts x).
Definition set_refusals (v : list RefusalNote) (cursor : Z) (x : AccountState) : AccountState :=
  mkAccount (ac_config x) (ac_domain x) (ac_account x) (ac_epoch x) (ac_generation x)
    (ac_capacity x) (ac_totals x) (ac_hard_exhausted x) (ac_exhaustion_cause x) (ac_window
    x) (ac_incarnations x) (ac_fences x) (ac_ambiguous x) v cursor (ac_committed_attempts x)
    (ac_refused_attempts x).
Definition set_committed (v : Z) (x : AccountState) : AccountState :=
  mkAccount (ac_config x) (ac_domain x) (ac_account x) (ac_epoch x) (ac_generation x)
    (ac_capacity x) (ac_totals x) (ac_hard_exhausted x) (ac_exhaustion_cause x) (ac_window
    x) (ac_incarnations x) (ac_fences x) (ac_ambiguous x) (ac_refusals x) (ac_refusal_cursor
    x) v (ac_refused_attempts x).
Definition set_refused (v : Z) (x : AccountState) : AccountState :=
  mkAccount (ac_config x) (ac_domain x) (ac_account x) (ac_epoch x) (ac_generation x)
    (ac_capacity x) (ac_totals x) (ac_hard_exhausted x) (ac_exhaustion_cause x) (ac_window
    x) (ac_incarnations x) (ac_fences x) (ac_ambiguous x) (ac_refusals x) (ac_refusal_cursor
    x) (ac_committed_attempts x) v.

Definition account_view (a : AccountState) : CreditView := compute_view (ac_capacity a) (ac_totals a).

Definition find_incarnation (id : Z) (a : AccountState) : option IncarnationRecord :=
  ac_incarnations a !! id.

(** [incarnations[id] = record]. *)
Definition put_incarnation (id : Z) (r : IncarnationRecord) (a : AccountState) : AccountState :=
  set_incarnations (<[id := r]> (ac_incarnations a)) a.

(** Update through the pointer [find_incarnation] returned, if it was not null. *)
Definition update_incarnation (f : IncarnationRecord -> IncarnationRecord) (id : Z)
    (a : AccountState) : AccountState :=
  set_incarnations (alter f id (ac_incarnations a)) a.

Definition is_fenced (id : Z) (a : AccountState) : bool :=
  existsb (fun f => f_incarnation f =? id) (ac_fences a).

(** Every reconciled incarnation becomes unknown again. *)
Definition demote (r : IncarnationRecord) : IncarnationRecord :=
  if state_eqb (ir_state r) Reconciled then set_ir_state Unknown r else r.

Definition demote_all (a : AccountState) : AccountState :=
  set_incarnations (demote <$> ac_incarnations a) a.

(** ** Digest *)

Definition sorted_ids (m : gmap Z IncarnationRecord) : list Z :=
  merge_sort Z.le (map_to_list m).*1.

Definition db_fence (b : DigestBuilder) (f : FenceRecord) : DigestBuilder :=
  b |> db_u64 (f_incarnation f) |> db_u64 (f_epoch f) |> db_u64 (f_generation f)
    |> db_u64 (reason_code (f_cause f)) |> db_u64 (f_sequence f) |> db_u64 (f_credit f).

(** The proof and the fencing position of a record are not part of the digest. *)
Definition db_incarnation (b : DigestBuilder) (r : IncarnationRecord) : DigestBuilder :=
  b |> db_u64 (ir_id r) |> db_u64 (ir_publisher r) |> db_u64 (ir_boot r)
    |> db_u64 (authority_state_code (ir_state r)) |> db_u64 (ir_epoch r)
    |> db_u64 (ir_generation r) |> db_u64 (ir_producer r) |> db_u64 (ir_consumer r)
    |> db_u64 (ir_grant r) |> db_u64 (ir_last_sequence r) |> db_u64 (ir_committed_ops r)
    |> db_u64 (ir_refused_ops r).

(** [spent] is not part of the digest. *)
Definition account_digest (a : AccountState) : Digest128 :=
  let b := db_keyed (mkDigest 0x51ED270B5A3D8F11 0x118F3D5A0B27ED51)
    |> db_digest (config_digest (ac_config a)) |> db_u64 (ac_epoch a)
    |> db_u64 (ac_generation a) |> db_u64 (ac_capacity a)
    |> db_u64 (issued (ac_totals a)) |> db_u64 (consumed (ac_totals a))
    |> db_u64 (returned (ac_totals a)) |> db_u64 (stale (ac_totals a))
    |> db_u64 (protected_credits (ac_totals a)) |> db_boolean (ac_hard_exhausted a)
    |> db_u64 (reason_code (ac_exhaustion_cause a)) |> db_u64 (ac_committed_attempts a)
    |> db_u64 (ac_refused_attempts a) |> db_u64 (Z.of_nat (length (ac_fences a))) in
  let b := fold_left db_fence (ac_fences a) b in
  let ids := sorted_ids (ac_incarnations a) in
  let b := b |> db_u64 (Z.of_nat (length ids)) in
  let b := fold_left (fun b id => db_incarnation b (default record_zero (ac_incarnations a !! id)))
             ids b in
  db_finish b.

(** ** Backup *)

Record AccountBackup := mkBackup {
  bk_totals : CreditTotals;
  bk_capacity : Z;
  bk_hard_exhausted : bool;
  bk_exhaustion_cause : Reason;
  bk_epoch : Z;
  bk_generation : Z;
  bk_committed_attempts : Z;
  bk_refused_attempts : Z;
  bk_fence_count : nat;
  bk_caller : option IncarnationRecord;
  bk_target : option IncarnationRecord;
}.

(** [None] stands for [caller_existed == false] and [target_existed == false]. *)
Definition capture_backup (a : AccountState) (caller subject : Z) : AccountBackup :=
  let caller_record := ac_incarnations a !! caller in
  mkBackup (ac_totals a) (ac_capacity a) (ac_hard_exhausted a) (ac_exhaustion_cause a)
    (ac_epoch a) (ac_generation a) (ac_committed_attempts a) (ac_refused_attempts a)
    (length (ac_fences a)) caller_record
    (if is_set subject && negb (subject =? caller) then ac_incarnations a !! subject
     else caller_record).

(** [incarnations[id] = saved] or [incarnations.erase(id)]. *)
Definition restore_incarnation (id : Z) (saved : option IncarnationRecord) (a : AccountState)
    : AccountState :=
  set_incarnations (partial_alter (fun _ => saved) id (ac_incarnations a)) a.

(** [fences.resize(n)] value-initialises new elements when it grows. *)
Definition fence_zero : FenceRecord := mkFence 0 0 0 ROk 0 0.

Definition restore_backup (b : AccountBackup) (caller subject : Z) (a : AccountState) : AccountState :=
  let a := set_totals (bk_totals b) a in
  let a := set_capacity (bk_capacity b) a in
  let a := set_exhaustion (bk_hard_exhausted b) (bk_exhaustion_cause b) a in
  let a := set_era (bk_epoch b) (bk_generation b) a in
  let a := set_committed (bk_committed_attempts b) a in
  let a := set_refused (bk_refused_attempts b) a in
  let a := set_fences (resize (bk_fence_count b) fence_zero (ac_fences a)) a in
  let a := restore_incarnation caller (bk_caller b) a in
  if is_set subject && negb (subject =? caller)
  then restore_incarnation subject (bk_target b) a else a.

(** ** Bookkeeping of decided attempts *)

Definition note_matches (incarnation sequence : Z) (n : AmbiguousNote) : bool :=
  (an_incarnation n =? incarnation) && (an_sequence n =? sequence).

Definition resolve_ambiguous (incarnation sequence : Z) (a : AccountState) : AccountState :=
  set_ambiguous
    (List.filter (fun n => negb (note_matches incarnation sequence n)) (ac_ambiguous a)) a.

Definition window_entry (rq : CreditRequest) (o : CreditOutcome) : WindowEntry :=
  mkWindowEntry (a_incarnation (rq_authority rq), rq_sequence rq) (rq_attempt rq)
    (request_digest rq) (o_status o) (o_applied o) (o_view o).

Definition publish_window_locked (rq : CreditRequest) (o : CreditOutcome) (a : AccountState)
    : AccountState :=
  let a := set_window (window_insert (window_entry rq o) (ac_window a)) a in
  let a := update_incarnation (set_ir_last_sequence (rq_sequence rq))
             (a_incarnation (rq_authority rq)) a in
  resolve_ambiguous (a_incarnation (rq_authority rq)) (rq_sequence rq) a.

Definition refusal_note (rq : CreditRequest) (o : CreditOutcome) (a : AccountState) : RefusalNote :=
  mkRefusal (rq_attempt rq) (rq_op rq) (rq_sequence rq) (a_incarnation (rq_authority rq))
    (reason (o_status o)) (detail (o_status o)) (ac_epoch a) (ac_generation a).

Definition record_refusal_locked (limits : EngineLimits) (rq : CreditRequest) (o : CreditOutcome)
    (a : AccountState) : AccountState :=
  let note := refusal_note rq o a in
  if Z.of_nat (length (ac_refusals a)) <? max_refusal_log limits
  then set_refusals (ac_refusals a ++ [note]) (ac_refusal_cursor a) a
  else
    set_refusals
      (<[Z.to_nat (ac_refusal_cursor a mod max_refusal_log limits) := note]> (ac_refusals a))
      ((ac_refusal_cursor a +% 1) mod max_refusal_log limits) a.

(** [incarnations] in iteration order; the other collections as they are. *)
Definition build_durable_account (a : AccountState) (whole : bool) : DurableAccount :=
  if whole
  then mkDurableAccount (ac_config a) (ac_epoch a) (ac_generation a) (ac_capacity a) (ac_totals a)
         (ac_hard_exhausted a) (ac_exhaustion_cause a) (account_digest a)
         (map_to_list (ac_incarnations a)).*2 (ac_fences a) (ac_ambiguous a)
         (ac_committed_attempts a) (ac_refused_attempts a) (window_identities (ac_window a))
  else mkDurableAccount (ac_config a) (ac_epoch a) (ac_generation a) (ac_capacity a) (ac_totals a)
         (ac_hard_exhausted a) (ac_exhaustion_cause a) (account_digest a)
         [] [] [] (ac_committed_attempts a) (ac_refused_attempts a) [].

(** ** Decisions on an account *)

(** What an operation decides: [VRefused] is [return refused(...)] (no sequence
    consumed), [VDecided] is [return finish_decided(..., decided_refusal(...))],
    [VApplied] reaches the common commit code.  Each carries the account as the
    code has left it. *)
Inductive Verdict : Type :=
| VRefused (r : Reason) (d : Z) (a : AccountState)
| VDecided (r : Reason) (d : Z) (a : AccountState)
| VApplied (a : AccountState).

Definition plan_verdict (res : LedgerPlan * bool) : Status * LedgerPlan :=
  if res.2 then (success, res.1) else (lp_status res.1, res.1).

Definition ledger_apply (plan : LedgerPlan) (a : AccountState) (rq : CreditRequest)
    : Status * LedgerPlan :=
  let rules := c_rules (ac_config a) in
  match rq_op rq with
  | Issue => plan_verdict (plan_issue (rq_count rq) (min_issue rules) (max_issue_per_attempt rules) plan)
  | Consume => plan_verdict (plan_consume (rq_count rq) plan)
  | Return =>
      if negb (allow_return rules) then (refused_status RPolicyRefused 2, plan)
      else plan_verdict (plan_give_back (rq_count rq) plan)
  | Protect => plan_verdict (plan_protect (rq_count rq) (allow_protect rules) plan)
  | Unprotect => plan_verdict (plan_unprotect (rq_count rq) plan)
  | _ => (refused_status RInvalidState 10, plan)
  end.

Definition account_plan (a : AccountState) : LedgerPlan := plan_make (ac_capacity a) (ac_totals a).

(** The [Reconcile] branch: the record is created on first contact, then proved. *)
Definition fresh_incarnation (rq : CreditRequest) : IncarnationRecord :=
  mkRecord (a_incarnation (rq_authority rq)) (i_publisher (rq_presenter rq))
    (i_boot (rq_presenter rq)) Unknown 0 0 digest_zero 0 0 0 0 0 0 0.

Definition reconcile_account (rq : CreditRequest) (a : AccountState) : AccountState :=
  let id := a_incarnation (rq_authority rq) in
  let a := match find_incarnation id a with
           | None => put_incarnation id (fresh_incarnation rq) a
           | Some _ => a
           end in
  update_incarnation (set_ir_reconciled (ac_epoch a) (ac_generation a) (rq_proof rq)) id a.

(** Binding one identity of an [Issue] to the incarnation: [inl] is the identity
    it contradicts. *)
Definition bind_identity (current requested : Z) (set : Z -> IncarnationRecord -> IncarnationRecord)
    (r : IncarnationRecord) : Z + IncarnationRecord :=
  if is_set requested
  then if is_set current && negb (current =? requested) then inl current else inr (set requested r)
  else inr r.

(** Producer, consumer and grant are bound in this order; a contradiction stops
    with the identities bound so far. *)
Definition bind_issue (rq : CreditRequest) (r : IncarnationRecord)
    : (Reason * Z * IncarnationRecord) + IncarnationRecord :=
  match bind_identity (ir_producer r) (rq_producer rq) set_ir_producer r with
  | inl p => inl (RProducerMismatch, p, r)
  | inr r =>
      match bind_identity (ir_consumer r) (rq_consumer rq) set_ir_consumer r with
      | inl c => inl (RConsumerMismatch, c, r)
      | inr r =>
          match bind_identity (ir_grant r) (rq_grant rq) set_ir_grant r with
          | inl g => inl (RGrantMismatch, g, r)
          | inr r => inr r
          end
      end
  end.

(** The ledger part of [decide_data_locked], up to its commit code. *)
Definition ledger_verdict (rq : CreditRequest) (a : AccountState) : Verdict :=
  let '(verdict, plan) := ledger_apply (account_plan a) a rq in
  if status_ok verdict then VApplied (set_totals (lp_totals plan) a)
  else VDecided (reason verdict) (detail verdict) a.

Definition data_verdict (rq : CreditRequest) (a : AccountState) : Verdict :=
  if negb (op_is_ledger (rq_op rq)) then VRefused RUnsupported (op_code (rq_op rq)) a else
  if ac_hard_exhausted a && op_eqb (rq_op rq) Issue
  then VDecided RExhaustedHard (reason_code (ac_exhaustion_cause a)) a else
  if op_eqb (rq_op rq) Issue then
    let id := a_incarnation (rq_authority rq) in
    match find_incarnation id a with
    | None => VRefused RUnknownIncarnation 3 a
    | Some binding =>
        match bind_issue rq binding with
        | inl (r, d, bound) => VDecided r d (put_incarnation id bound a)
        | inr bound => ledger_verdict rq (put_incarnation id bound a)
        end
    end
  else ledger_verdict rq a.

(** A plan operation that ends in [finish_decided] when refused. *)
Definition plan_step (res : LedgerPlan * bool) (apply : LedgerPlan -> AccountState) (a : AccountState)
    : Verdict :=
  if res.2 then VApplied (apply res.1)
  else VDecided (reason (lp_status res.1)) (detail (lp_status res.1)) a.

(** [account.totals = plan.totals(); account.epoch = ...; generation = ...] and
    the demotion of every live incarnation. *)
Definition enter_era (totals : CreditTotals) (epoch generation : Z) (a : AccountState) : AccountState :=
  demote_all (set_era epoch generation (set_totals totals a)).

(** The epoch [AdvanceEpoch] or [Rotate] moves to. *)
Definition era_verdict (rq : CreditRequest) (a : AccountState) : Verdict :=
  let next :=
    if op_eqb (rq_op rq) Rotate then
      if rq_count rq <=? ac_epoch a then inl (RInvalidState, ac_epoch a) else inr (rq_count rq)
    else
      let '(over, next) := add_overflow (ac_epoch a) 1 in
      if over then inl (RCountOverflow, ac_epoch a) else inr next in
  match next with
  | inl (r, d) => VRefused r d a
  | inr next_epoch =>
      let '(over, next_generation) := add_overflow (ac_generation a) 1 in
      if over then VRefused RCountOverflow (ac_generation a) a else
      let '(plan, ok) := plan_quarantine_in_flight (account_plan a) in
      if negb ok then VRefused (reason (lp_status plan)) (detail (lp_status plan)) a
      else VApplied (enter_era (lp_totals plan) next_epoch next_generation a)
  end.

Definition fence_record (rq : CreditRequest) (a : AccountState) : FenceRecord :=
  let before := account_view a in
  mkFence (rq_target rq) (ac_epoch a) (ac_generation a) (rq_fence_cause rq) (rq_sequence rq)
    (v_in_flight before -% v_stale before).

(** An incarnation fenced before it was ever seen: only its identity is known. *)
Definition bare_incarnation (id : Z) : IncarnationRecord :=
  mkRecord id 0 0 Unknown 0 0 digest_zero 0 0 0 0 0 0 0.

Definition fence_account (rq : CreditRequest) (a : AccountState) : AccountState :=
  let fence := fence_record rq a in
  let a := update_incarnation (set_ir_fenced (rq_sequence rq)) (rq_target rq) a in
  set_fences (ac_fences a ++ [fence]) a.

Definition fence_verdict (limits : EngineLimits) (rq : CreditRequest) (a : AccountState) : Verdict :=
  let target := rq_target rq in
  if negb (is_set target) then VRefused RMalformedMessage 5 a else
  if reason_eqb (rq_fence_cause rq) ROk then VRefused RPolicyRefused 5 a else
  if is_fenced target a then VDecided RInvalidState 1 a else
  let budget := Z.of_nat (size (ac_incarnations a)) in
  match find_incarnation target a with
  | None =>
      if budget >=? max_incarnations_per_account limits then VRefused RBudgetExceeded budget a else
      let a := put_incarnation target (bare_incarnation target) a in
      if Z.of_nat (length (ac_fences a)) >=? max_fences_per_account limits
      then VRefused RBudgetExceeded (Z.of_nat (length (ac_fences a))) a
      else VApplied (fence_account rq a)
  | Some _ =>
      if Z.of_nat (length (ac_fences a)) >=? max_fences_per_account limits
      then VRefused RBudgetExceeded (Z.of_nat (length (ac_fences a))) a
      else VApplied (fence_account rq a)
  end.

(** The [switch] of [decide_control_locked]. *)
Definition control_verdict (limits : EngineLimits) (rq : CreditRequest) (a : AccountState) : Verdict :=
  match rq_op rq with
  | Exhaust =>
      if ac_hard_exhausted a then VDecided RExhaustedHard 1 a else
      if reason_eqb (rq_fence_cause rq) ROk then VRefused RPolicyRefused 3 a
      else VApplied (set_exhaustion true (rq_fence_cause rq) a)
  | ClearExhaustion =>
      if negb (ac_hard_exhausted a) then VDecided RNotExhausted 1 a
      else VApplied (set_exhaustion false ROk a)
  | SetCapacity =>
      plan_step (plan_set_capacity (rq_new_capacity rq) (c_max_capacity (ac_config a))
                   (allow_capacity_growth (c_rules (ac_config a))) (account_plan a))
        (fun plan => set_capacity (lp_capacity plan) a) a
  | AdvanceEpoch | Rotate => era_verdict rq a
  | Retire =>
      plan_step (plan_retire_stale (rq_count rq) (account_plan a))
        (fun plan => set_totals (lp_totals plan) a) a
  | Revalidate =>
      match rq_decision rq with
      | DecisionNone => VRefused RPolicyRefused 4 a
      | ToReturned =>
          plan_step (plan_revalidate_to_returned (rq_count rq) (account_plan a))
            (fun plan => set_totals (lp_totals plan) a) a
      | ToConsumed =>
          plan_step (plan_revalidate_to_consumed (rq_count rq) (account_plan a))
            (fun plan => set_totals (lp_totals plan) a) a
      end
  | Fence => fence_verdict limits rq a
  | RetireIncarnation =>
      if negb (is_set (rq_target rq)) then VRefused RMalformedMessage 6 a else
      match find_incarnation (rq_target rq) a with
      | None => VRefused RUnknownIncarnation 2 a
      | Some record =>
          if state_eqb (ir_state record) Fenced then VDecided RFencedIncarnation 1 a
          else VApplied (update_incarnation (set_ir_state Retired) (rq_target rq) a)
      end
  | _ => VRefused RUnsupported (op_code (rq_op rq)) a
  end.

(** The counters of the common commit code. *)
Definition count_commit (caller : Z) (a : AccountState) : AccountState :=
  update_incarnation incr_ir_committed caller (set_committed (ac_committed_attempts a +% 1) a).

(** The counters of [finish_decided]. *)
Definition count_refusal (caller : Z) (a : AccountState) : AccountState :=
  update_incarnation incr_ir_refused caller (set_refused (ac_refused_attempts a +% 1) a).
