(* ===== verification/Engine.v ===== *)
(** * The engine (include/creditfabric/engine.hpp, src/engine.cpp): live decisions
      and durability

    [CreditEngine] over any [Journal].  Every call holds the engine's mutex for
    its whole duration, so calls are sequential: a call is a function from the
    engine state to an outcome and the next state.  Accounts are reached through
    references into the map; the model writes an account back to the map exactly
    where a later step of the same call can read the map. *)

From S2P Require Import Prelude Checked Status Digest Ledger Authority Request Bytes Wire.
From S2P Require Import Record Journal Window Account.
Local Open Scope word_scope.
Local Open Scope Z_scope.

(** ** Statistics updates *)

Definition set_st_attempts (applied refused : Z) (x : EngineStats) : EngineStats :=
  mkStats applied refused (st_duplicates_absorbed x) (st_journal_records x) (st_journal_bytes
    x) (st_snapshots x) (st_replayed_records x) (st_replayed_ambiguous x).
Definition set_st_journal (records bytes : Z) (x : EngineStats) : EngineStats :=
  mkStats (st_attempts_applied x) (st_attempts_refused x) (st_duplicates_absorbed x) records
    bytes (st_snapshots x) (st_replayed_records x) (st_replayed_ambiguous x).
Definition set_st_snapshots (v : Z) (x : EngineStats) : EngineStats :=
  mkStats (st_attempts_applied x) (st_attempts_refused x) (st_duplicates_absorbed x)
    (st_journal_records x) (st_journal_bytes x) v (st_replayed_records x)
    (st_replayed_ambiguous x).
Definition incr_st_applied  (x : EngineStats) : EngineStats :=
  mkStats (st_attempts_applied x +% 1) (st_attempts_refused x) (st_duplicates_absorbed x)
    (st_journal_records x) (st_journal_bytes x) (st_snapshots x) (st_replayed_records x)
    (st_replayed_ambiguous x).
Definition incr_st_refused  (x : EngineStats) : EngineStats :=
  mkStats (st_attempts_applied x) (st_attempts_refused x +% 1) (st_duplicates_absorbed x)
    (st_journal_records x) (st_journal_bytes x) (st_snapshots x) (st_replayed_records x)
    (st_replayed_ambiguous x).
Definition incr_st_duplicates  (x : EngineStats) : EngineStats :=
  mkStats (st_attempts_applied x) (st_attempts_refused x) (st_duplicates_absorbed x +% 1)
    (st_journal_records x) (st_journal_bytes x) (st_snapshots x) (st_replayed_records x)
    (st_replayed_ambiguous x).
Definition incr_st_replayed  (x : EngineStats) : EngineStats :=
  mkStats (st_attempts_applied x) (st_attempts_refused x) (st_duplicates_absorbed x)
    (st_journal_records x) (st_journal_bytes x) (st_snapshots x) (st_replayed_records x +%
    1) (st_replayed_ambiguous x).
Definition incr_st_replayed_ambiguous  (x : EngineStats) : EngineStats :=
  mkStats (st_attempts_applied x) (st_attempts_refused x) (st_duplicates_absorbed x)
    (st_journal_records x) (st_journal_bytes x) (st_snapshots x) (st_replayed_records x)
    (st_replayed_ambiguous x +% 1).

(** ** State *)

Section Engine.
Context {J : Type} `{Journal J}.

(** [e_has_journal] is [journal_ != nullptr]. *)
Record Engine := mkEngine {
  e_limits : EngineLimits;
  e_has_journal : bool;
  e_journal : J;
  e_operator : Incarnation;
  e_challenge : Digest128;
  e_accounts : gmap Z AccountState;
  e_next_sequence : Z;
  e_chain : Digest128;
  e_journal_records : Z;
  e_snapshots : Z;
  e_stats : EngineStats;
  e_recovered : bool;
  e_journal_failed : bool;
}.

(** The constructor clamps the structural bounds. *)
Definition clamp (v fallback : Z) : Z := if v =? 0 then fallback else v.

Definition clamp_limits (l : EngineLimits) : EngineLimits :=
  mkLimits (clamp (max_accounts l) 1) (clamp (max_incarnations_per_account l) 1)
    (clamp (max_fences_per_account l) 1) (clamp (max_attempt_window l) 1)
    (clamp (max_ambiguous_attempts l) 1) (clamp (max_refusal_log l) 1)
    (max_explanation_incarnations l) (max_explanation_fences l) (max_explanation_refusals l)
    (clamp (max_note_bytes l) 1) (clamp (max_journal_record_bytes l) 1024)
    (clamp (max_frame_payload_bytes l) 1024) (max_connections l) (max_journal_bytes l)
    (clamp (journal_records_per_snapshot l) 1024).

(** The nonce of the challenge is drawn by the constructor. *)
Definition engine_make (limits : EngineLimits) (has_journal : bool) (journal : J)
    (operator : Incarnation) (nonce : Digest128) : Engine :=
  mkEngine (clamp_limits limits) has_journal journal operator nonce ∅ 0 digest_zero 0 0
    stats_zero false false.

(** Field updates. *)
Definition set_journal (v : J) (x : Engine) : Engine :=
  mkEngine (e_limits x) (e_has_journal x) v (e_operator x) (e_challenge x) (e_accounts x)
    (e_next_sequence x) (e_chain x) (e_journal_records x) (e_snapshots x) (e_stats x)
    (e_recovered x) (e_journal_failed x).
Definition set_accounts (v : gmap Z AccountState) (x : Engine) : Engine :=
  mkEngine (e_limits x) (e_has_journal x) (e_journal x) (e_operator x) (e_challenge x) v
    (e_next_sequence x) (e_chain x) (e_journal_records x) (e_snapshots x) (e_stats x)
    (e_recovered x) (e_journal_failed x).
Definition set_next_sequence (v : Z) (x : Engine) : Engine :=
  mkEngine (e_limits x) (e_has_journal x) (e_journal x) (e_operator x) (e_challenge x)
    (e_accounts x) v (e_chain x) (e_journal_records x) (e_snapshots x) (e_stats x)
    (e_recovered x) (e_journal_failed x).
Definition set_chain (v : Digest128) (x : Engine) : Engine :=
  mkEngine (e_limits x) (e_has_journal x) (e_journal x) (e_operator x) (e_challenge x)
    (e_accounts x) (e_next_sequence x) v (e_journal_records x) (e_snapshots x) (e_stats x)
    (e_recovered x) (e_journal_failed x).
Definition set_journal_records (v : Z) (x : Engine) : Engine :=
  mkEngine (e_limits x) (e_has_journal x) (e_journal x) (e_operator x) (e_challenge x)
    (e_accounts x) (e_next_sequence x) (e_chain x) v (e_snapshots x) (e_stats x)
    (e_recovered x) (e_journal_failed x).
Definition set_snapshots (v : Z) (x : Engine) : Engine :=
  mkEngine (e_limits x) (e_has_journal x) (e_journal x) (e_operator x) (e_challenge x)
    (e_accounts x) (e_next_sequence x) (e_chain x) (e_journal_records x) v (e_stats x)
    (e_recovered x) (e_journal_failed x).
Definition set_stats (v : EngineStats) (x : Engine) : Engine :=
  mkEngine (e_limits x) (e_has_journal x) (e_journal x) (e_operator x) (e_challenge x)
    (e_accounts x) (e_next_sequence x) (e_chain x) (e_journal_records x) (e_snapshots x) v
    (e_recovered x) (e_journal_failed x).
Definition set_recovered (v : bool) (x : Engine) : Engine :=
  mkEngine (e_limits x) (e_has_journal x) (e_journal x) (e_operator x) (e_challenge x)
    (e_accounts x) (e_next_sequence x) (e_chain x) (e_journal_records x) (e_snapshots x)
    (e_stats x) v (e_journal_failed x).
Definition set_failed (v : bool) (x : Engine) : Engine :=
  mkEngine (e_limits x) (e_has_journal x) (e_journal x) (e_operator x) (e_challenge x)
    (e_accounts x) (e_next_sequence x) (e_chain x) (e_journal_records x) (e_snapshots x)
    (e_stats x) (e_recovered x) v.

Definition put_account (key : Z) (a : AccountState) (e : Engine) : Engine :=
  set_accounts (<[key := a]> (e_accounts e)) e.

Definition erase_account (key : Z) (e : Engine) : Engine :=
  set_accounts (delete key (e_accounts e)) e.

(** [status = journal_->append(...)]. *)
Definition append_record (sequence : Z) (kind : JournalRecordKind) (chain : Digest128)
    (payload : list Z) (e : Engine) : Status * Engine :=
  let '(status, j) := j_append sequence kind chain payload (e_journal e) in
  (status, set_journal j e).

(** ** Snapshots *)

Definition durable_account_le (a b : DurableAccount) : Prop :=
  c_account (da_config a) <= c_account (da_config b).

#[local] Instance durable_account_le_dec : RelDecision durable_account_le.
Proof. intros a b. unfold durable_account_le. exact _. Defined.

Definition durable_accounts (e : Engine) : list DurableAccount :=
  merge_sort durable_account_le
    ((fun a => build_durable_account a true) <$> (map_to_list (e_accounts e)).*2).

Definition aggregate_digest (accounts : list DurableAccount) : Digest128 :=
  db_finish
    (fold_left (fun b a => db_digest (da_state_digest a) b) accounts
       (db_keyed (mkDigest 0x2211AA55BB66CC77 0x77CC66BB55AA1122))).

Definition snapshot_state (e : Engine) : DurableState :=
  let accounts := durable_accounts e in
  mkDurableState (e_next_sequence e) (e_chain e) (e_snapshots e +% 1) accounts
    (aggregate_digest accounts).

Definition snapshot_locked (e : Engine) : Status * Engine :=
  if negb (e_has_journal e) then (refused_status RInvalidState 2, e) else
  let sequence := e_next_sequence e in
  let payload := encode_durable_state (snapshot_state e) in
  let '(status, e) := append_record sequence KSnapshot (e_chain e) payload e in
  if negb (status_ok status) then (status, e) else
  let e := set_next_sequence (e_next_sequence e +% 1) e in
  let e := set_journal_records (e_journal_records e +% 1) e in
  let '(status, j) := j_write_snapshot sequence (e_chain e) payload (e_journal e) in
  let e := set_journal j e in
  if negb (status_ok status) then (status, e) else
  let '(status, j) := j_rotate sequence (e_journal e) in
  let e := set_journal j e in
  if negb (status_ok status) then (status, e) else
  let e := set_journal_records 0 e in
  let e := set_snapshots (e_snapshots e +% 1) e in
  let e := set_stats (set_st_snapshots (e_snapshots e)
                        (set_st_journal 0 (j_bytes (e_journal e)) (e_stats e))) e in
  (success, e).

Definition snapshot (e : Engine) : Status * Engine :=
  if negb (e_recovered e) then (refused_status RReconciliationRequired 2, e) else
  if e_journal_failed e then (refused_status RIoError 3, e) else
  snapshot_locked e.

(** ** Persisting one decided attempt *)

Definition intent_chain (chain : Digest128) (sequence : Z) (rq : CreditRequest) : Digest128 :=
  db_keyed chain |> db_u64 sequence |> db_digest (request_digest rq) |> db_finish.

Definition commit_chain (chain : Digest128) (sequence : Z) (rq : CreditRequest) (o : CreditOutcome)
    : Digest128 :=
  db_keyed chain |> db_u64 sequence |> db_digest (request_digest rq)
    |> db_digest (outcome_digest o) |> db_finish.

Definition durable_attempt (rq : CreditRequest) (o : CreditOutcome) (a : AccountState)
    (created : bool) (stats : EngineStats) : DurableAttempt :=
  mkDurableAttempt rq o true created (build_durable_account a false)
    (st_attempts_applied stats) (st_attempts_refused stats).

Definition snapshot_due (e : Engine) : bool :=
  (journal_records_per_snapshot (e_limits e) <=? e_journal_records e) ||
  (max_journal_bytes (e_limits e) <=? j_bytes (e_journal e)).

Definition persist_locked (rq : CreditRequest) (o : CreditOutcome) (a : AccountState)
    (created : bool) (e : Engine) : Status * Engine :=
  let sequence := e_next_sequence e in
  let '(status, e) := append_record sequence KIntent (intent_chain (e_chain e) sequence rq)
                        (encode_request_message rq) e in
  if negb (status_ok status) then (status, e) else
  let e := set_next_sequence (e_next_sequence e +% 1) e in
  let durable := durable_attempt rq o a created (e_stats e) in
  let sequence := e_next_sequence e in
  let chain := commit_chain (e_chain e) sequence rq o in
  let '(status, e) := append_record sequence KAttempt chain (encode_durable_attempt durable) e in
  if negb (status_ok status) then (status, e) else
  let e := set_chain chain e in
  let e := set_next_sequence (e_next_sequence e +% 1) e in
  let e := set_journal_records (e_journal_records e +% 2) e in
  let e := set_stats (set_st_journal (e_journal_records e) (j_bytes (e_journal e)) (e_stats e)) e in
  if snapshot_due e then snapshot_locked e else (success, e).

(** ** Outcomes *)

Definition initial_outcome (rq : CreditRequest) : CreditOutcome :=
  mkOutcome success (rq_op rq) (rq_sequence rq) false false false (rq_authority rq) view_zero
    digest_zero 0.

Definition refused (r : Reason) (d : Z) (o : CreditOutcome) : CreditOutcome :=
  mkOutcome (refused_status r d) (o_op o) (o_sequence o) false (o_duplicate o) (o_decided o)
    (o_authority o) (o_view o) (o_state_digest o) (o_ambiguous_pending o).

Definition decided_refusal (r : Reason) (d : Z) (o : CreditOutcome) : CreditOutcome :=
  mkOutcome (refused_status r d) (o_op o) (o_sequence o) false (o_duplicate o) true
    (o_authority o) (o_view o) (o_state_digest o) (o_ambiguous_pending o).

(** [failure.applied = false; failure.decided = false; failure.status = persisted]. *)
Definition failed_outcome (s : Status) (o : CreditOutcome) : CreditOutcome :=
  mkOutcome s (o_op o) (o_sequence o) false (o_duplicate o) false (o_authority o) (o_view o)
    (o_state_digest o) (o_ambiguous_pending o).

(** [outcome.view = account.view(); outcome.state_digest = account_digest(account)]. *)
Definition observe (a : AccountState) (o : CreditOutcome) : CreditOutcome :=
  mkOutcome (o_status o) (o_op o) (o_sequence o) (o_applied o) (o_duplicate o) (o_decided o)
    (o_authority o) (account_view a) (account_digest a) (o_ambiguous_pending o).

(** [applied = true; decided = true; status = success; view, digest = ...]. *)
Definition applied_outcome (a : AccountState) (o : CreditOutcome) : CreditOutcome :=
  mkOutcome success (o_op o) (o_sequence o) true (o_duplicate o) true (o_authority o)
    (account_view a) (account_digest a) (o_ambiguous_pending o).

Definition set_outcome_era (a : AccountState) (o : CreditOutcome) : CreditOutcome :=
  mkOutcome (o_status o) (o_op o) (o_sequence o) (o_applied o) (o_duplicate o) (o_decided o)
    (vector_set_era (ac_epoch a) (ac_generation a) (o_authority o)) (o_view o)
    (o_state_digest o) (o_ambiguous_pending o).

Definition duplicate_outcome (entry : WindowEntry) (a : AccountState) (o : CreditOutcome)
    : CreditOutcome :=
  mkOutcome (we_status entry) (o_op o) (o_sequence o) false true true
    (vector_set_era (ac_epoch a) (ac_generation a) (o_authority o))
    (account_view a) (account_digest a) (o_ambiguous_pending o).

Definition describe_outcome (incarnation : Z) (a : AccountState) (o : CreditOutcome)
    : CreditOutcome :=
  mkOutcome success (o_op o)
    (match ac_incarnations a !! incarnation with
     | Some caller => ir_last_sequence caller
     | None => 0
     end)
    (o_applied o) (o_duplicate o) (o_decided o)
    (vector_set_era (ac_epoch a) (ac_generation a) (o_authority o))
    (account_view a) (account_digest a) (Z.of_nat (length (ac_ambiguous a))).

(** ** Committing *)

(** The common tail of [decide_data_locked] (both branches) and of
    [decide_control_locked]: count, observe, persist, then publish or undo. *)
Definition commit_applied (key subject : Z) (backup : AccountBackup) (rq : CreditRequest)
    (a : AccountState) (o : CreditOutcome) (e : Engine) : CreditOutcome * Engine :=
  let caller := a_incarnation (rq_authority rq) in
  let a := count_commit caller a in
  let o := applied_outcome a o in
  let '(persisted, e) := persist_locked rq o a false (put_account key a e) in
  if negb (status_ok persisted) then
    (failed_outcome persisted o,
     set_failed true (put_account key (restore_backup backup caller subject a) e))
  else
    (o, set_stats (incr_st_applied (e_stats e)) (put_account key (publish_window_locked rq o a) e)).

Definition finish_decided (key : Z) (rq : CreditRequest) (a : AccountState) (o : CreditOutcome)
    (e : Engine) : CreditOutcome * Engine :=
  let caller := a_incarnation (rq_authority rq) in
  let backup := capture_backup a caller 0 in
  let a := count_refusal caller a in
  let o := observe a o in
  let '(persisted, e) := persist_locked rq o a false (put_account key a e) in
  if negb (status_ok persisted) then
    (failed_outcome persisted o,
     set_failed true (put_account key (restore_backup backup caller 0 a) e))
  else
    (o, set_stats (incr_st_refused (e_stats e))
          (put_account key
             (record_refusal_locked (e_limits e) rq o (publish_window_locked rq o a)) e)).

(** What is done with an account's decision. *)
Definition settle (key subject : Z) (backup : AccountBackup) (rq : CreditRequest) (v : Verdict)
    (o : CreditOutcome) (e : Engine) : CreditOutcome * Engine :=
  match v with
  | VRefused r d a => (refused r d o, put_account key a e)
  | VDecided r d a => finish_decided key rq a (decided_refusal r d o) e
  | VApplied a => commit_applied key subject backup rq a o e
  end.

Definition decide_data_locked (key : Z) (a : AccountState) (rq : CreditRequest)
    (o : CreditOutcome) (e : Engine) : CreditOutcome * Engine :=
  let caller := a_incarnation (rq_authority rq) in
  if op_eqb (rq_op rq) Reconcile then
    if negb (challenge_verify (e_challenge e) (rq_presenter rq) (rq_authority rq) (rq_proof rq))
    then (refused RReconciliationRequired 5 o, e)
    else commit_applied key 0 (capture_backup a caller 0) rq (reconcile_account rq a) o e
  else settle key 0 (capture_backup a caller 0) rq (data_verdict rq a) o e.

Definition decide_control_locked (key : Z) (a : AccountState) (rq : CreditRequest)
    (o : CreditOutcome) (e : Engine) : CreditOutcome * Engine :=
  if negb (is_zero (rq_expected_state rq)) &&
     negb (digest_eqb (rq_expected_state rq) (account_digest a))
  then (refused RStaleEvidence 1 o, e)
  else
    settle key (rq_target rq)
      (capture_backup a (a_incarnation (rq_authority rq)) (rq_target rq)) rq
      (control_verdict (e_limits e) rq a) o e.

(** ** Opening an account *)

(** The checks of [create_account_locked], in order: the first refusal. *)
Definition open_refusal (rq : CreditRequest) (e : Engine) : option (Reason * Z) :=
  let config := rq_config rq in
  let authority := rq_authority rq in
  match e_accounts e !! a_account authority with
  | Some _ => Some (RAccountExists, a_account authority)
  | None =>
      if negb (c_domain config =? a_domain authority) || negb (c_account config =? a_account authority)
      then Some (RDomainMismatch, 3) else
      if negb (is_set (c_resource config)) then Some (RResourceMismatch, 1) else
      if negb (a_epoch authority =? 1) || negb (a_generation authority =? 1)
      then Some (RStaleAuthority, 1) else
      if (c_capacity config =? 0) || (c_max_capacity config <? c_capacity config)
      then Some (RCapacityOutOfRange, c_capacity config) else
      match c_profile config with
      | PhysicalValidated => Some (RProfileNotSupported, profile_code PhysicalValidated)
      | _ =>
          if (min_issue (c_rules config) =? 0) ||
             (max_issue_per_attempt (c_rules config) <? min_issue (c_rules config))
          then Some (RPolicyRefused, 1) else
          let count := Z.of_nat (size (e_accounts e)) in
          if count >=? max_accounts (e_limits e) then Some (RBudgetExceeded, count) else
          if negb (rq_sequence rq =? 1) then Some (RSequenceGap, 1) else
          if negb (challenge_verify (e_challenge e) (rq_presenter rq) authority (rq_proof rq))
          then Some (RReconciliationRequired, 4) else None
      end
  end.

(** The opener's record, reconciled for the era it opens. *)
Definition opener_record (rq : CreditRequest) (epoch generation : Z) : IncarnationRecord :=
  mkRecord (a_incarnation (rq_authority rq)) (i_publisher (rq_presenter rq))
    (i_boot (rq_presenter rq)) Reconciled epoch generation (rq_proof rq) 0 0 0 0 1 0 0.

Definition opened_account (limits : EngineLimits) (rq : CreditRequest) : AccountState :=
  let config := rq_config rq in
  let authority := rq_authority rq in
  mkAccount config (c_domain config) (c_account config) (a_epoch authority)
    (a_generation authority) (c_capacity config) totals_zero false ROk
    (window_make (max_attempt_window limits))
    {[a_incarnation authority := opener_record rq (a_epoch authority) (a_generation authority)]}
    [] [] [] 0 1 0.

Definition create_account_locked (rq : CreditRequest) (o : CreditOutcome) (e : Engine)
    : CreditOutcome * Engine :=
  match open_refusal rq e with
  | Some (r, d) => (refused r d o, e)
  | None =>
      let a := opened_account (e_limits e) rq in
      let key := ac_account a in
      let o := applied_outcome a o in
      let '(persisted, e) := persist_locked rq o a true (put_account key a e) in
      if negb (status_ok persisted)
      then (failed_outcome persisted o, set_failed true (erase_account key e))
      else
        (o, set_stats (incr_st_applied (e_stats e))
              (put_account key (publish_window_locked rq o a) e))
  end.

(** ** Admission *)

(** Structural validation: the first refusal. *)
Definition malformed (limits : EngineLimits) (rq : CreditRequest) : option (Reason * Z) :=
  let presenter := rq_presenter rq in
  let authority := rq_authority rq in
  if negb (is_set (i_id presenter)) || negb (i_id presenter =? a_incarnation authority) ||
     negb (make_incarnation_id (i_publisher presenter) (i_boot presenter) =? i_id presenter)
  then Some (RMalformedMessage, 2) else
  if negb (is_set (a_domain authority)) || negb (is_set (a_account authority))
  then Some (RMalformedMessage, 3) else
  if rq_sequence rq =? 0 then Some (RMalformedMessage, 4) else
  let size := Z.of_nat (length (rq_note rq)) in
  if size >? max_note_bytes limits then Some (ROversizedFrame, size) else
  if op_requires_count (rq_op rq) && (rq_count rq =? 0) then Some (RCountZero, 1) else
  None.

(** Authority binding, incarnation standing and operator authorization. *)
Definition unauthorized (limits : EngineLimits) (operator : Z) (rq : CreditRequest)
    (a : AccountState) : option (Reason * Z) :=
  let authority := rq_authority rq in
  let id := a_incarnation authority in
  if negb (a_domain authority =? ac_domain a) then Some (RDomainMismatch, 2) else
  if negb (a_epoch authority =? ac_epoch a) || negb (a_generation authority =? ac_generation a)
  then Some (RStaleAuthority, ac_generation a) else
  let standing :=
    if op_eqb (rq_op rq) Reconcile then
      if is_fenced id a then Some (RFencedIncarnation, id) else
      match find_incarnation id a with
      | Some record =>
          if state_eqb (ir_state record) Retired then Some (RIncarnationNotReconciled, id) else None
      | None =>
          let count := Z.of_nat (size (ac_incarnations a)) in
          if count >=? max_incarnations_per_account limits then Some (RBudgetExceeded, count)
          else None
      end
    else
      match find_incarnation id a with
      | None => Some (RUnknownIncarnation, 1)
      | Some record =>
          if state_eqb (ir_state record) Fenced then Some (RFencedIncarnation, id) else
          if state_eqb (ir_state record) Retired then Some (RIncarnationNotReconciled, id) else
          if negb (is_live (ac_epoch a) (ac_generation a) record)
          then Some (RReconciliationRequired, 3) else None
      end in
  match standing with
  | Some refusal => Some refusal
  | None =>
      match classify (rq_op rq) with
      | OpControl => if negb (id =? operator) then Some (RNotOperator, id) else None
      | _ => None
      end
  end.

(** The caller's committed sequence watermark. *)
Definition caller_watermark (id : Z) (a : AccountState) : Z :=
  match find_incarnation id a with
  | Some record => ir_last_sequence record
  | None => 0
  end.

(** Where a fresh attempt is refused its place in the sequence. *)
Definition misplaced (rq : CreditRequest) (a : AccountState) : option (Reason * Z) :=
  let watermark := caller_watermark (a_incarnation (rq_authority rq)) a in
  if rq_sequence rq <=? watermark then Some (RStaleReplay, watermark) else
  let '(over, expected) := add_overflow watermark 1 in
  if over then Some (RBudgetExceeded, watermark) else
  if rq_sequence rq >? expected then Some (RSequenceGap, expected) else None.

(** Attempt identity: an already decided attempt is answered from the window. *)
Definition known_attempt (rq : CreditRequest) (a : AccountState) (o : CreditOutcome)
    : option (CreditOutcome * bool) :=
  match window_find (a_incarnation (rq_authority rq), rq_sequence rq) (ac_window a) with
  | Some existing =>
      if digest_eqb (we_request existing) (request_digest rq)
      then Some (duplicate_outcome existing a o, true)
      else Some (decided_refusal RAttemptConflict (rq_sequence rq) o, false)
  | None =>
      match window_find_by_attempt (rq_attempt rq) (ac_window a) with
      | Some _ => Some (decided_refusal RAttemptConflict (rq_sequence rq) o, false)
      | None => None
      end
  end.

Definition decide_locked (key : Z) (a : AccountState) (rq : CreditRequest) (o : CreditOutcome)
    (e : Engine) : CreditOutcome * Engine :=
  match unauthorized (e_limits e) (i_id (e_operator e)) rq a with
  | Some (r, d) => (refused r d o, e)
  | None =>
      match known_attempt rq a o with
      | Some (o, true) => (o, set_stats (incr_st_duplicates (e_stats e)) e)
      | Some (o, false) => (o, e)
      | None =>
          match misplaced rq a with
          | Some (r, d) => (refused r d o, e)
          | None =>
              let o := set_outcome_era a o in
              match classify (rq_op rq) with
              | OpControl => decide_control_locked key a rq o e
              | _ => decide_data_locked key a rq o e
              end
          end
      end
  end.

Definition apply_locked (rq : CreditRequest) (e : Engine) : CreditOutcome * Engine :=
  let o := initial_outcome rq in
  let key := a_account (rq_authority rq) in
  match malformed (e_limits e) rq with
  | Some (r, d) => (refused r d o, e)
  | None =>
      match rq_op rq with
      | Describe =>
          match e_accounts e !! key with
          | None => (refused RAccountUnknown 1 o, e)
          | Some a =>
              if negb (a_domain (rq_authority rq) =? ac_domain a)
              then (refused RDomainMismatch 1 o, e)
              else (describe_outcome (a_incarnation (rq_authority rq)) a o, e)
          end
      | Open => create_account_locked rq o e
      | _ =>
          match e_accounts e !! key with
          | None => (refused RAccountUnknown 2 o, e)
          | Some a => decide_locked key a rq o e
          end
      end
  end.

Definition apply (rq : CreditRequest) (e : Engine) : CreditOutcome * Engine :=
  let o := initial_outcome rq in
  if negb (e_recovered e) then (refused RReconciliationRequired 1 o, e) else
  if e_journal_failed e then (refused RIoError 2 o, e) else
  apply_locked rq e.

(** ** Read-only projections *)

Definition accounts (e : Engine) : list Z :=
  merge_sort Z.le (ac_account <$> (map_to_list (e_accounts e)).*2).

Definition stats (e : Engine) : EngineStats :=
  let s := set_st_snapshots (e_snapshots e) (e_stats e) in
  set_st_journal (e_journal_records e)
    (if e_has_journal e then j_bytes (e_journal e) else st_journal_bytes s) s.

End Engine.

Arguments Engine : clear implicits.

(** Digests and encodings are computed only by evaluation, never by a proof step. *)
#[global] Opaque make_incarnation_id challenge_compute challenge_verify config_digest
  outcome_digest request_digest account_digest aggregate_digest intent_chain commit_chain
  encode_request_message encode_durable_attempt encode_durable_state.
