(* ===== verification/Recovery.v ===== *)
(** * Recovery (src/engine.cpp: recover, restore_durable_state, replay_attempt,
      apply_replay_transition, mark_ambiguous)

    Rebuilding the engine from the newest snapshot and the records after it.
    The replay loop reads from any journal, so it runs on fuel: [None] is the
    model running out, never an answer of the program; for the in-memory journal
    one more unit than there are entries is always enough. *)

From S2P Require Import Prelude Checked Status Digest Ledger Authority Request Bytes Wire.
From S2P Require Import Record Journal Window Account Engine.
Local Open Scope word_scope.
Local Open Scope Z_scope.

(** ** Replaying one transition on an account *)

(** The plan operations of [apply_replay_transition]: a refusal is a divergence
    from what was journaled. *)
Definition replay_plan (res : LedgerPlan * bool) (code : Z) (apply : LedgerPlan -> AccountState)
    (a : AccountState) : Status * AccountState :=
  if res.2 then (success, apply res.1) else (refused_status RJournalDigestMismatch code, a).

Definition apply_replay_transition (rq : CreditRequest) (a : AccountState) : Status * AccountState :=
  match rq_op rq with
  | Open | Reconcile | Fence | RetireIncarnation | Describe => (success, a)
  | Issue | Consume | Return | Protect | Unprotect =>
      let '(status, plan) := ledger_apply (account_plan a) a rq in
      if negb (status_ok status) then (refused_status RJournalDigestMismatch 140, a)
      else (success, set_totals (lp_totals plan) a)
  | Exhaust => (success, set_exhaustion true (rq_fence_cause rq) a)
  | ClearExhaustion => (success, set_exhaustion false ROk a)
  | SetCapacity =>
      replay_plan (plan_set_capacity (rq_new_capacity rq) (c_max_capacity (ac_config a))
                     (allow_capacity_growth (c_rules (ac_config a))) (account_plan a)) 141
        (fun plan => set_capacity (lp_capacity plan) a) a
  | AdvanceEpoch | Rotate =>
      let next_epoch := if op_eqb (rq_op rq) Rotate then rq_count rq else ac_epoch a +% 1 in
      replay_plan (plan_quarantine_in_flight (account_plan a)) 142
        (fun plan => enter_era (lp_totals plan) next_epoch (ac_generation a +% 1) a) a
  | Retire =>
      replay_plan (plan_retire_stale (rq_count rq) (account_plan a)) 143
        (fun plan => set_totals (lp_totals plan) a) a
  | Revalidate =>
      replay_plan
        (match rq_decision rq with
         | ToReturned => plan_revalidate_to_returned (rq_count rq) (account_plan a)
         | _ => plan_revalidate_to_consumed (rq_count rq) (account_plan a)
         end) 144
        (fun plan => set_totals (lp_totals plan) a) a
  end.

(** The bindings an applied [Issue] leaves on its incarnation. *)
Definition replay_bindings (rq : CreditRequest) (r : IncarnationRecord) : IncarnationRecord :=
  let r := if is_set (rq_producer rq) then set_ir_producer (rq_producer rq) r else r in
  let r := if is_set (rq_consumer rq) then set_ir_consumer (rq_consumer rq) r else r in
  if is_set (rq_grant rq) then set_ir_grant (rq_grant rq) r else r.

(** The incarnation-level effects of an applied attempt. *)
Definition replay_effects (rq : CreditRequest) (a : AccountState) : Status * AccountState :=
  let caller := a_incarnation (rq_authority rq) in
  match rq_op rq with
  | Reconcile => (success, reconcile_account rq a)
  | Fence =>
      let a := match find_incarnation (rq_target rq) a with
               | None => put_incarnation (rq_target rq) (bare_incarnation (rq_target rq)) a
               | Some _ => a
               end in
      (success, fence_account rq a)
  | RetireIncarnation =>
      match find_incarnation (rq_target rq) a with
      | None => (refused_status RJournalCorrupt 134, a)
      | Some _ => (success, update_incarnation (set_ir_state Retired) (rq_target rq) a)
      end
  | Issue =>
      match find_incarnation caller a with
      | None => (refused_status RJournalCorrupt 141, a)
      | Some _ => (success, update_incarnation (replay_bindings rq) caller a)
      end
  | _ => (success, a)
  end.

(** The account part of [replay_attempt] for an account that already exists. *)
Definition replay_existing (t : DurableAttempt) (a : AccountState) : Status * AccountState :=
  let rq := dt_request t in
  let caller := a_incarnation (rq_authority rq) in
  if o_applied (dt_outcome t) then
    let '(status, a) := apply_replay_transition rq a in
    if negb (status_ok status) then (status, a) else
    let '(status, a) := replay_effects rq a in
    if negb (status_ok status) then (status, a) else
    (success, count_commit caller a)
  else if o_decided (dt_outcome t) then (success, count_refusal caller a)
  else (success, a).

(** The account [replay_attempt] builds for an attempt that created one. *)
Definition replay_created (limits : EngineLimits) (t : DurableAttempt) : AccountState :=
  let d := dt_account t in
  let rq := dt_request t in
  mkAccount (da_config d) (c_domain (da_config d)) (c_account (da_config d)) (da_epoch d)
    (da_generation d) (da_capacity d) (da_totals d) (da_hard_exhausted d) (da_exhaustion_cause d)
    (window_make (max_attempt_window limits))
    {[a_incarnation (rq_authority rq) := opener_record rq (da_epoch d) (da_generation d)]}
    [] [] [] 0 1 0.

(** The replayed account is compared with the journaled one: the first difference. *)
Definition replay_mismatch (d : DurableAccount) (a : AccountState) : option Z :=
  if negb (digest_eqb (account_digest a) (da_state_digest d)) then Some 135 else
  if negb (ac_capacity a =? da_capacity d) then Some 136 else
  if negb (totals_eqb (ac_totals a) (da_totals d)) then Some 137 else
  if negb (eqb (ac_hard_exhausted a) (da_hard_exhausted d)) then Some 138 else
  if negb (reason_eqb (ac_exhaustion_cause a) (da_exhaustion_cause d)) then Some 139 else
  None.

(** [recorded]: the journaled outcome rebound to the account's authority and view. *)
Definition recorded_outcome (rq : CreditRequest) (o : CreditOutcome) (a : AccountState)
    : CreditOutcome :=
  mkOutcome (o_status o) (o_op o) (o_sequence o) (o_applied o) (o_duplicate o) (o_decided o)
    (mkVector (ac_domain a) (ac_account a) (ac_epoch a) (ac_generation a)
       (a_incarnation (rq_authority rq)))
    (account_view a) (o_state_digest o) (o_ambiguous_pending o).

(** The checks and the publication that end [replay_attempt]. *)
Definition replay_finish (t : DurableAttempt) (a : AccountState) : Status * AccountState :=
  match replay_mismatch (dt_account t) a with
  | Some code => (refused_status RJournalDigestMismatch code, a)
  | None =>
      (success,
       if o_decided (dt_outcome t)
       then publish_window_locked (dt_request t) (recorded_outcome (dt_request t) (dt_outcome t) a) a
       else a)
  end.

Section Recovery.
Context {J : Type} `{Journal J}.

(** A refused replay leaves the account as the failing step left it. *)
Definition replay_attempt (t : DurableAttempt) (e : Engine J) : Status * Engine J :=
  let rq := dt_request t in
  let key := a_account (rq_authority rq) in
  let start :=
    if dt_created_account t then
      match e_accounts e !! key with
      | Some a => (refused_status RJournalCorrupt 130, None)
      | None => (success, Some (replay_created (e_limits e) t))
      end
    else
      match e_accounts e !! key with
      | None => (refused_status RJournalCorrupt 131, None)
      | Some a => let '(status, a) := replay_existing t a in (status, Some a)
      end in
  match start with
  | (status, None) => (status, e)
  | (status, Some a) =>
      if negb (status_ok status) then (status, put_account key a e) else
      let '(status, a) := replay_finish t a in
      let e := put_account key a e in
      if negb (status_ok status) then (status, e) else
      (success, set_stats (set_st_attempts (dt_engine_applied t) (dt_engine_refused t)
                             (e_stats e)) e)
  end.

Definition ambiguous_note (rq : CreditRequest) (journal_sequence : Z) : AmbiguousNote :=
  mkAmbiguous (rq_attempt rq) (rq_op rq) (rq_sequence rq) (a_incarnation (rq_authority rq))
    journal_sequence.

Definition mark_ambiguous (rq : CreditRequest) (journal_sequence : Z) (e : Engine J) : Engine J :=
  let key := a_account (rq_authority rq) in
  match e_accounts e !! key with
  | None => e
  | Some a =>
      if existsb (note_matches (a_incarnation (rq_authority rq)) (rq_sequence rq)) (ac_ambiguous a)
      then e
      else
        let kept := if Z.of_nat (length (ac_ambiguous a)) >=? max_ambiguous_attempts (e_limits e)
                    then tail (ac_ambiguous a) else ac_ambiguous a in
        let a := set_ambiguous (kept ++ [ambiguous_note rq journal_sequence]) a in
        set_stats (incr_st_replayed_ambiguous (e_stats e)) (put_account key a e)
  end.

(** ** Restoring a snapshot *)

Definition restored_entry (k : Z * Z) : WindowEntry :=
  mkWindowEntry k digest_zero digest_zero (refused_status RAttemptUnknown 0) false view_zero.

Definition restored_account (limits : EngineLimits) (d : DurableAccount) : AccountState :=
  mkAccount (da_config d) (c_domain (da_config d)) (c_account (da_config d)) (da_epoch d)
    (da_generation d) (da_capacity d) (da_totals d) (da_hard_exhausted d) (da_exhaustion_cause d)
    (fold_left (fun w k => window_insert (restored_entry k) w) (da_attempt_window d)
       (window_make (max_attempt_window limits)))
    (fold_left (fun m r => <[ir_id r := r]> m) (da_incarnations d) ∅)
    (da_fences d) (da_ambiguous d) [] 0 (da_committed_attempts d) (da_refused_attempts d).

(** The loop over the accounts stops at the first one that does not verify. *)
Fixpoint restore_accounts (limits : EngineLimits) (ds : list DurableAccount)
    (m : gmap Z AccountState) : Status * gmap Z AccountState :=
  match ds with
  | [] => (success, m)
  | d :: rest =>
      let a := restored_account limits d in
      if negb (status_ok (check_invariants (ac_capacity a) (ac_totals a)))
      then (refused_status RJournalCorrupt 120, m) else
      if negb (digest_eqb (account_digest a) (da_state_digest d))
      then (refused_status RJournalDigestMismatch 121, m) else
      restore_accounts limits rest (<[ac_account a := a]> m)
  end.

Definition restore_durable_state (s : DurableState) (e : Engine J) : Status * Engine J :=
  let '(status, m) := restore_accounts (e_limits e) (ds_accounts s) ∅ in
  (status, set_accounts m e).

(** ** The replay loop *)

Definition replay_intent (record : JournalRecord) (e : Engine J) : Status * Engine J :=
  match decode_request_message (jr_payload record) (max_note_bytes (e_limits e)) with
  | inl _ => (refused_status RJournalCorrupt 102, e)
  | inr pending => (success, mark_ambiguous pending (jr_sequence record) e)
  end.

Definition replay_snapshot (record : JournalRecord) (e : Engine J) : Status * Engine J :=
  match decode_durable_state (jr_payload record) with
  | inl _ => (refused_status RJournalCorrupt 103, e)
  | inr restored =>
      if negb (ds_journal_sequence restored =? jr_sequence record)
      then (refused_status RJournalDigestMismatch 104, e) else
      let '(status, e) := restore_durable_state restored e in
      if negb (status_ok status) then (status, e) else
      let e := set_snapshots (ds_snapshots restored) e in
      let e := set_chain (jr_chain record) e in
      let e := set_next_sequence (jr_sequence record +% 1) e in
      (success, set_stats (incr_st_replayed (e_stats e)) e)
  end.

Definition replay_commit (record : JournalRecord) (e : Engine J) : Status * Engine J :=
  match decode_durable_attempt (jr_payload record) with
  | inl _ => (refused_status RJournalCorrupt 106, e)
  | inr t =>
      let expected := commit_chain (e_chain e) (jr_sequence record) (dt_request t) (dt_outcome t) in
      if negb (digest_eqb expected (jr_chain record))
      then (refused_status RJournalDigestMismatch (jr_sequence record), e) else
      let '(status, e) := replay_attempt t e in
      if negb (status_ok status) then (status, e) else
      let e := set_chain (jr_chain record) e in
      let e := set_next_sequence (jr_sequence record +% 1) e in
      let e := set_journal_records (e_journal_records e +% 1) e in
      (success, set_stats (incr_st_replayed (e_stats e)) e)
  end.

(** One valid record; [success] is [continue]. *)
Definition replay_record (snapshot_sequence : option Z) (record : JournalRecord) (e : Engine J)
    : Status * Engine J :=
  if match snapshot_sequence with Some s => jr_sequence record <=? s | None => false end
  then (success, e) else
  match jr_kind record with
  | KIntent => replay_intent record e
  | KSnapshot => replay_snapshot record e
  | KAttempt => replay_commit record e
  | KUnknown => (refused_status RJournalCorrupt 105, e)
  end.

Fixpoint replay_loop (fuel : nat) (snapshot_sequence : option Z) (e : Engine J)
    : option (Status * Engine J) :=
  match fuel with
  | O => None
  | S fuel =>
      let '((status, record), j) := j_next_record (e_journal e) in
      let e := set_journal j e in
      if negb (status_ok status) then Some (status, e) else
      if negb (jr_valid record) then Some (success, e) else
      let '(status, e) := replay_record snapshot_sequence record e in
      if negb (status_ok status) then Some (status, e) else
      replay_loop fuel snapshot_sequence e
  end.

(** ** Recovery *)

(** Liveness is never restored from durable bytes. *)
Definition forget_liveness (e : Engine J) : Engine J :=
  set_accounts (demote_all <$> e_accounts e) e.

(** The fields reset before replay. *)
Definition recover_reset (e : Engine J) : Engine J :=
  set_snapshots 0 (set_journal_records 0 (set_chain digest_zero
    (set_next_sequence 1 (set_accounts ∅ e)))).

(** Loading the snapshot, when there is one. *)
Definition recover_snapshot (snap : option (Z * Digest128 * list Z)) (e : Engine J)
    : Status * Engine J :=
  match snap with
  | None => (success, e)
  | Some (sequence, chain, payload) =>
      match decode_durable_state payload with
      | inl _ => (refused_status RJournalCorrupt 100, e)
      | inr restored =>
          if negb (ds_journal_sequence restored =? sequence)
          then (refused_status RJournalDigestMismatch 101, e) else
          let '(status, e) := restore_durable_state restored e in
          if negb (status_ok status) then (status, e) else
          let e := set_chain chain e in
          let e := set_next_sequence (sequence +% 1) e in
          (success, set_snapshots (ds_snapshots restored) e)
      end
  end.

Definition recover_finish (e : Engine J) : Status * Engine J :=
  let '(status, j) := j_end_replay (e_journal e) in
  let e := set_journal j e in
  if negb (status_ok status) then (status, e) else
  let e := forget_liveness e in
  let s := set_st_journal (e_journal_records e) (j_bytes (e_journal e)) (e_stats e) in
  let e := set_stats (set_st_snapshots (e_snapshots e) s) e in
  (success, set_recovered true e).

Definition recover (fuel : nat) (e : Engine J) : option (Status * Engine J) :=
  if negb (e_has_journal e) then Some (refused_status RInvalidState 1, e) else
  let '(status, j) := j_open (e_journal e) in
  let e := set_journal j e in
  if negb (status_ok status) then Some (status, e) else
  let '(status, snap) := j_read_snapshot (e_journal e) in
  if negb (status_ok status) then Some (status, e) else
  let '(status, e) := recover_snapshot snap (recover_reset e) in
  if negb (status_ok status) then Some (status, e) else
  let '(status, j) := j_begin_replay (e_journal e) in
  let e := set_journal j e in
  if negb (status_ok status) then Some (status, e) else
  match replay_loop fuel (fst <$> (fst <$> snap)) e with
  | None => None
  | Some (status, e) => if negb (status_ok status) then Some (status, e) else Some (recover_finish e)
  end.

End Recovery.
