(* ===== verification/Steps.v ===== *)
(** * How a call to the engine ends

    Frame lemmas (what persisting can and cannot touch) and the case analysis of
    [apply]: every call is a refusal that leaves the engine alone, an answer
    from the attempt window, a settled decision on one account, or the creation
    of an account.  The theorems about the engine are proved from these cases. *)

From S2P Require Import Prelude Checked Status Digest Ledger Authority Request Bytes Wire.
From S2P Require Import Record Journal Window Account Engine.
Local Open Scope Z_scope.

(** ** One verdict for both decision functions *)

Definition subject_of (rq : CreditRequest) : Z :=
  match classify (rq_op rq) with OpControl => rq_target rq | _ => 0 end.

Definition verdict (nonce : Digest128) (limits : EngineLimits) (rq : CreditRequest)
    (a : AccountState) : Verdict :=
  match classify (rq_op rq) with
  | OpControl =>
      if negb (is_zero (rq_expected_state rq)) &&
         negb (digest_eqb (rq_expected_state rq) (account_digest a))
      then VRefused RStaleEvidence 1 a else control_verdict limits rq a
  | _ =>
      if op_eqb (rq_op rq) Reconcile then
        if negb (challenge_verify nonce (rq_presenter rq) (rq_authority rq) (rq_proof rq))
        then VRefused RReconciliationRequired 5 a else VApplied (reconcile_account rq a)
      else data_verdict rq a
  end.

(** The account a verdict carries. *)
Definition verdict_account (v : Verdict) : AccountState :=
  match v with VRefused _ _ a | VDecided _ _ a | VApplied a => a end.

Section Steps.
Context {J : Type} `{Journal J}.
Implicit Types (e : Engine J) (rq : CreditRequest) (o : CreditOutcome).

(** ** What persisting leaves alone *)

Record same_core e e' : Prop := {
  sc_limits : e_limits e' = e_limits e;
  sc_has : e_has_journal e' = e_has_journal e;
  sc_operator : e_operator e' = e_operator e;
  sc_challenge : e_challenge e' = e_challenge e;
  sc_accounts : e_accounts e' = e_accounts e;
  sc_recovered : e_recovered e' = e_recovered e;
  sc_failed : e_journal_failed e' = e_journal_failed e;
  sc_applied : st_attempts_applied (e_stats e') = st_attempts_applied (e_stats e);
  sc_refused : st_attempts_refused (e_stats e') = st_attempts_refused (e_stats e);
  sc_duplicates : st_duplicates_absorbed (e_stats e') = st_duplicates_absorbed (e_stats e);
}.

#[global] Instance same_core_refl : Reflexive same_core.
Proof. by constructor. Qed.

#[global] Instance same_core_trans : Transitive same_core.
Proof. intros e1 e2 e3 [] []. constructor; by etrans. Qed.

Lemma append_core s k c p e st e' : append_record s k c p e = (st, e') -> same_core e e'.
Proof. unfold append_record. destruct (j_append _ _ _ _ _). intros [= <- <-]. by constructor. Qed.

Lemma snapshot_core e st e' : snapshot_locked e = (st, e') -> same_core e e'.
Proof.
  unfold snapshot_locked. destruct (e_has_journal e); [| by intros [= <- <-]]. simpl negb. cbv iota.
  destruct (append_record _ _ _ _ e) as [s1 e1] eqn:E1. apply append_core in E1.
  destruct (status_ok s1); simpl; [| by intros [= <- <-]].
  destruct (j_write_snapshot _ _ _ _) as [s2 j2]. destruct (status_ok s2); simpl;
    [| intros [= <- <-]; etrans; [exact E1 | by constructor]].
  destruct (j_rotate _ _) as [s3 j3]. destruct (status_ok s3); simpl;
    intros [= <- <-]; (etrans; [exact E1 | by constructor]).
Qed.

Lemma persist_core rq o a c e st e' : persist_locked rq o a c e = (st, e') -> same_core e e'.
Proof.
  unfold persist_locked. destruct (append_record _ KIntent _ _ e) as [s1 e1] eqn:E1.
  apply append_core in E1. destruct (status_ok s1); simpl; [| by intros [= <- <-]].
  destruct (append_record _ KAttempt _ _ _) as [s2 e2] eqn:E2. apply append_core in E2.
  assert (E3 : same_core e e2) by (etrans; [exact E1 | etrans; [| exact E2]; by constructor]).
  destruct (status_ok s2); simpl; [| by intros [= <- <-]].
  destruct (snapshot_due _).
  - intros E4%snapshot_core. etrans; [exact E3 |]. etrans; [| exact E4]. by constructor.
  - intros [= <- <-]. etrans; [exact E3 |]. by constructor.
Qed.

(** ** Settling a decision *)

(** The account that a durable decision leaves behind. *)
Definition committed_account rq o (a : AccountState) : AccountState :=
  let a := count_commit (a_incarnation (rq_authority rq)) a in
  publish_window_locked rq (applied_outcome a o) a.

Definition refused_account (limits : EngineLimits) rq o (a : AccountState) : AccountState :=
  let a := count_refusal (a_incarnation (rq_authority rq)) a in
  record_refusal_locked limits rq (observe a o) (publish_window_locked rq (observe a o) a).

(** The account that a failed commit, or a failed decided refusal, is undone to. *)
Definition undone_commit rq (before after : AccountState) : AccountState :=
  let caller := a_incarnation (rq_authority rq) in
  restore_backup (capture_backup before caller (subject_of rq)) caller (subject_of rq)
    (count_commit caller after).

Definition undone_refusal rq (a : AccountState) : AccountState :=
  let caller := a_incarnation (rq_authority rq) in
  restore_backup (capture_backup a caller 0) caller 0 (count_refusal caller a).

(** What happens to the rest of the engine when one account is settled. *)
Record settled e e' (key : Z) (a' : AccountState) (failed : bool) : Prop := {
  sd_limits : e_limits e' = e_limits e;
  sd_has : e_has_journal e' = e_has_journal e;
  sd_operator : e_operator e' = e_operator e;
  sd_challenge : e_challenge e' = e_challenge e;
  sd_recovered : e_recovered e' = e_recovered e;
  sd_accounts : e_accounts e' = <[key := a']> (e_accounts e);
  sd_failed : e_journal_failed e' = failed;
}.

(** The three verdicts and the two endings of a durable one. *)
Inductive settle_case e rq (before : AccountState) (key : Z) o : Verdict -> CreditOutcome -> Engine J -> Prop :=
| settle_refused r d a e' :
    settled e e' key a (e_journal_failed e) ->
    settle_case e rq before key o (VRefused r d a) (refused r d o) e'
| settle_decided r d a o' e' :
    o' = observe (count_refusal (a_incarnation (rq_authority rq)) a) (decided_refusal r d o) ->
    settled e e' key (refused_account (e_limits e) rq (decided_refusal r d o) a) (e_journal_failed e) ->
    settle_case e rq before key o (VDecided r d a) o' e'
| settle_decided_failed r d a o' st e' :
    o' = failed_outcome st (observe (count_refusal (a_incarnation (rq_authority rq)) a) (decided_refusal r d o)) ->
    status_ok st = false ->
    settled e e' key (undone_refusal rq a) true ->
    settle_case e rq before key o (VDecided r d a) o' e'
| settle_applied a o' e' :
    o' = applied_outcome (count_commit (a_incarnation (rq_authority rq)) a) o ->
    settled e e' key (committed_account rq o a) (e_journal_failed e) ->
    settle_case e rq before key o (VApplied a) o' e'
| settle_applied_failed a o' st e' :
    o' = failed_outcome st (applied_outcome (count_commit (a_incarnation (rq_authority rq)) a) o) ->
    status_ok st = false ->
    settled e e' key (undone_commit rq before a) true ->
    settle_case e rq before key o (VApplied a) o' e'.

Lemma settled_core e e1 e2 key a a' failed :
  same_core (put_account key a e) e1 ->
  e2 = set_failed failed (put_account key a' e1) ->
  settled e e2 key a' failed.
Proof.
  intros [] ->. constructor; simpl in *; try done.
  rewrite sc_accounts0. simpl. by rewrite insert_insert_eq.
Qed.

Lemma settled_stats e e1 key a failed s :
  settled e e1 key a failed -> settled e (set_stats s e1) key a failed.
Proof. intros []. by constructor. Qed.

Lemma set_failed_id e : set_failed (e_journal_failed e) e = e.
Proof. by destruct e. Qed.

Lemma commit_applied_case rq before key o a e o' e' :
  commit_applied key (subject_of rq)
    (capture_backup before (a_incarnation (rq_authority rq)) (subject_of rq)) rq a o e = (o', e') ->
  settle_case e rq before key o (VApplied a) o' e'.
Proof.
  unfold commit_applied.
  destruct (persist_locked _ _ _ _ _) as [st e1] eqn:E. apply persist_core in E.
  destruct (status_ok st) eqn:Hst; simpl; intros [= <- <-].
  - apply settle_applied; [done |]. apply settled_stats.
    eapply (settled_core _ e1); [exact E |]. pose proof (sc_failed _ _ E) as F. simpl in F.
    rewrite <-F. by destruct e1.
  - eapply settle_applied_failed; [done | done |]. by eapply settled_core.
Qed.

Lemma finish_decided_case rq before key r d o a e o' e' :
  finish_decided key rq a (decided_refusal r d o) e = (o', e') ->
  settle_case e rq before key o (VDecided r d a) o' e'.
Proof.
  unfold finish_decided.
  destruct (persist_locked _ _ _ _ _) as [st e1] eqn:E. apply persist_core in E.
  destruct (status_ok st) eqn:Hst; simpl; intros [= <- <-].
  - apply settle_decided; [done |]. apply settled_stats.
    eapply (settled_core _ e1); [exact E |]. pose proof (sc_failed _ _ E) as F.
    pose proof (sc_limits _ _ E) as L. simpl in F, L. rewrite <-F, <-L. by destruct e1.
  - eapply settle_decided_failed; [done | done |]. by eapply settled_core.
Qed.

Lemma settle_verdict rq before key v o e o' e' :
  settle key (subject_of rq)
    (capture_backup before (a_incarnation (rq_authority rq)) (subject_of rq)) rq v o e = (o', e') ->
  settle_case e rq before key o v o' e'.
Proof.
  destruct v as [r d a|r d a|a]; simpl.
  - intros [= <- <-]. apply settle_refused. by constructor.
  - apply finish_decided_case.
  - apply commit_applied_case.
Qed.

Lemma put_account_id key a e : e_accounts e !! key = Some a -> put_account key a e = e.
Proof. intros Ha. unfold put_account. rewrite insert_id by done. by destruct e. Qed.

Lemma decide_settled rq key a o e o' e' :
  e_accounts e !! key = Some a ->
  match classify (rq_op rq) with
  | OpControl => decide_control_locked key a rq o e
  | _ => decide_data_locked key a rq o e
  end = (o', e') ->
  settle_case e rq a key o (verdict (e_challenge e) (e_limits e) rq a) o' e'.
Proof.
  intros Ha. unfold decide_control_locked, decide_data_locked, verdict.
  pose proof (settle_verdict rq a key) as S. unfold subject_of in S.
  assert (Hdata : forall o' e',
    (if op_eqb (rq_op rq) Reconcile then
       if negb (challenge_verify (e_challenge e) (rq_presenter rq) (rq_authority rq) (rq_proof rq))
       then (refused RReconciliationRequired 5 o, e)
       else commit_applied key 0 (capture_backup a (a_incarnation (rq_authority rq)) 0) rq
              (reconcile_account rq a) o e
     else settle key 0 (capture_backup a (a_incarnation (rq_authority rq)) 0) rq
            (data_verdict rq a) o e) = (o', e') ->
    classify (rq_op rq) <> OpControl ->
    settle_case e rq a key o
      (if op_eqb (rq_op rq) Reconcile then
         if negb (challenge_verify (e_challenge e) (rq_presenter rq) (rq_authority rq) (rq_proof rq))
         then VRefused RReconciliationRequired 5 a else VApplied (reconcile_account rq a)
       else data_verdict rq a) o' e').
  { intros o1 e1 Hd C. apply S. destruct (classify (rq_op rq)); try done.
    all: destruct (op_eqb _ Reconcile); [destruct (negb _) |]; simpl in *;
      by rewrite ?put_account_id. }
  destruct (classify (rq_op rq)) eqn:C.
  - intros Hd. by apply Hdata.
  - intros Hd. by apply Hdata.
  - destruct (negb (is_zero (rq_expected_state rq)) && _); [| apply S].
    intros Hd. apply S. simpl. by rewrite put_account_id.
Qed.

(** ** The cases of a call *)

Inductive apply_case e rq : CreditOutcome -> Engine J -> Prop :=
| case_refused o : o_applied o = false -> o_decided o = false -> o_duplicate o = false ->
    apply_case e rq o e
| case_conflict a :
    e_accounts e !! a_account (rq_authority rq) = Some a ->
    apply_case e rq (decided_refusal RAttemptConflict (rq_sequence rq) (initial_outcome rq)) e
| case_duplicate a entry :
    e_accounts e !! a_account (rq_authority rq) = Some a ->
    window_find (a_incarnation (rq_authority rq), rq_sequence rq) (ac_window a) = Some entry ->
    we_request entry = request_digest rq ->
    apply_case e rq (duplicate_outcome entry a (initial_outcome rq))
      (set_stats (incr_st_duplicates (e_stats e)) e)
| case_settled a o' e' :
    rq_op rq <> Open -> rq_op rq <> Describe ->
    e_accounts e !! a_account (rq_authority rq) = Some a ->
    malformed (e_limits e) rq = None ->
    unauthorized (e_limits e) (i_id (e_operator e)) rq a = None ->
    known_attempt rq a (initial_outcome rq) = None ->
    misplaced rq a = None ->
    settle_case e rq a (a_account (rq_authority rq)) (set_outcome_era a (initial_outcome rq))
      (verdict (e_challenge e) (e_limits e) rq a) o' e' ->
    apply_case e rq o' e'
| case_created e' :
    rq_op rq = Open -> malformed (e_limits e) rq = None -> open_refusal rq e = None ->
    let a := opened_account (e_limits e) rq in
    let o := applied_outcome a (initial_outcome rq) in
    settled e e' (a_account (rq_authority rq)) (publish_window_locked rq o a) (e_journal_failed e) ->
    apply_case e rq o e'
| case_create_failed o e' :
    rq_op rq = Open -> e_journal_failed e' = true -> e_accounts e' = e_accounts e ->
    e_limits e' = e_limits e -> e_operator e' = e_operator e -> e_challenge e' = e_challenge e ->
    e_recovered e' = e_recovered e ->
    e_has_journal e' = e_has_journal e -> o_applied o = false -> o_decided o = false ->
    o_duplicate o = false ->
    apply_case e rq o e'.

Lemma open_key rq e :
  open_refusal rq e = None ->
  e_accounts e !! a_account (rq_authority rq) = None /\
  ac_account (opened_account (e_limits e) rq) = a_account (rq_authority rq).
Proof.
  unfold open_refusal. destruct (e_accounts e !! _); [done |].
  destruct (Z.eqb_spec (c_account (rq_config rq)) (a_account (rq_authority rq))) as [E|E];
    [| by rewrite orb_true_r]. done.
Qed.

Lemma create_case rq e o' e' :
  rq_op rq = Open -> malformed (e_limits e) rq = None ->
  create_account_locked rq (initial_outcome rq) e = (o', e') -> apply_case e rq o' e'.
Proof.
  intros Hop Hm. unfold create_account_locked. destruct (open_refusal rq e) as [[r d]|] eqn:Ho.
  { intros [= <- <-]. by apply case_refused. }
  destruct (open_key rq e Ho) as [Hno Hk]. rewrite Hk.
  destruct (persist_locked _ _ _ _ _) as [st e1] eqn:E. apply persist_core in E.
  destruct (status_ok st) eqn:Hst; simpl; intros [= <- <-].
  - apply case_created; [done.. |]. apply settled_stats.
    eapply (settled_core _ e1); [exact E |]. pose proof (sc_failed _ _ E) as F.
    simpl in F. rewrite <-F. by destruct e1.
  - destruct E. apply case_create_failed; simpl in *; try done.
    rewrite sc_accounts0. simpl. by rewrite delete_insert_id.
Qed.

Lemma decide_case rq e a o' e' :
  rq_op rq <> Open -> rq_op rq <> Describe -> malformed (e_limits e) rq = None ->
  e_accounts e !! a_account (rq_authority rq) = Some a ->
  decide_locked (a_account (rq_authority rq)) a rq (initial_outcome rq) e = (o', e') ->
  apply_case e rq o' e'.
Proof.
  intros Hop1 Hop2 Hm Ha. unfold decide_locked.
  destruct (unauthorized _ _ rq a) as [[r d]|] eqn:Hu; [intros [= <- <-]; by apply case_refused |].
  destruct (known_attempt rq a _) as [[o dup]|] eqn:Hk.
  - unfold known_attempt in Hk. destruct (window_find (_, _) _) as [entry|] eqn:Hw.
    + destruct (digest_eqb _ _) eqn:Hd; simplify_eq/=; intros [= <- <-].
      * apply digest_eqb_eq in Hd. by apply case_duplicate.
      * by apply (case_conflict e rq a).
    + destruct (window_find_by_attempt _ _); simplify_eq/=. intros [= <- <-].
      by apply (case_conflict e rq a).
  - destruct (misplaced rq a) as [[r d]|] eqn:Hp; [intros [= <- <-]; by apply case_refused |].
    intros Hd. eapply case_settled; try done. by apply decide_settled.
Qed.

(** Every call of a recovered, healthy engine is one of these cases; otherwise it
    is refused and changes nothing. *)
Lemma apply_cases rq e o' e' : apply rq e = (o', e') -> apply_case e rq o' e'.
Proof.
  unfold apply. destruct (e_recovered e); simpl; [| intros [= <- <-]; by apply case_refused].
  destruct (e_journal_failed e); [intros [= <- <-]; by apply case_refused |].
  unfold apply_locked.
  destruct (malformed (e_limits e) rq) as [[r d]|] eqn:Hm; [intros [= <- <-]; by apply case_refused |].
  destruct (decide (rq_op rq = Open)) as [Hop|Hop]; [rewrite Hop; by apply create_case |].
  destruct (e_accounts e !! a_account (rq_authority rq)) as [a|] eqn:Ha.
  - destruct (decide (rq_op rq = Describe)) as [Hdes|Hdes].
    + rewrite Hdes. destruct (negb _); intros [= <- <-]; by apply case_refused.
    + intros Hd. apply (decide_case rq e a); try done. by destruct (rq_op rq).
  - destruct (rq_op rq); try done; intros [= <- <-]; by apply case_refused.
Qed.

End Steps.
