(* ===== verification/Invariant.v ===== *)
(** * The invariant of an account and what every decision does to it

    The account invariant has three independent parts, the ledger, the standing
    of the incarnations and the attempt window, each a predicate on the fields
    it is about; an operation touches few of them.  [verdict_frame] says what no
    decision can change. *)

From S2P Require Import Prelude Checked Status Digest Ledger Authority Request Bytes Wire.
From S2P Require Import Record Journal Window Account Engine Steps.
Local Open Scope Z_scope.

Create HintDb account discriminated.

(** ** The three parts *)

(** The words of a request, which its C++ types guarantee. *)
Record request_range (rq : CreditRequest) : Prop := {
  rr_sequence : in_u64 (rq_sequence rq);
  rr_count : in_u64 (rq_count rq);
  rr_capacity : in_u64 (rq_new_capacity rq);
  rr_open : in_u64 (c_capacity (rq_config rq));
  rr_epoch : in_u64 (a_epoch (rq_authority rq));
  rr_generation : in_u64 (a_generation (rq_authority rq));
}.

Record ledger_inv (c : AccountConfig) (capacity : Z) (t : CreditTotals) : Prop := {
  li_ok : ledger_ok capacity t;
  li_max : capacity <= c_max_capacity c;
}.

Definition fence_ids (fs : list FenceRecord) : list Z := f_incarnation <$> fs.

(** Every record sits under its own identity; a reconciled record was reconciled
    in the current era; the fenced records are exactly those with a fence. *)
Record standing_inv (limits : EngineLimits) (epoch generation : Z)
    (m : gmap Z IncarnationRecord) (fs : list FenceRecord) : Prop := {
  si_id : forall i r, m !! i = Some r -> ir_id r = i;
  si_live : forall i r, m !! i = Some r -> ir_state r = Reconciled ->
              ir_epoch r = epoch /\ ir_generation r = generation;
  si_fenced : forall i, i ∈ fence_ids fs <-> exists r, m !! i = Some r /\ ir_state r = Fenced;
  si_size : Z.of_nat (size m) <= max_incarnations_per_account limits;
  si_fences : Z.of_nat (length fs) <= max_fences_per_account limits;
}.

Definition watermark_in (m : gmap Z IncarnationRecord) (i : Z) : Z :=
  match m !! i with Some r => ir_last_sequence r | None => 0 end.

(** No decided attempt of the window lies above its incarnation's watermark. *)
Record window_inv (w : AttemptWindow) (m : gmap Z IncarnationRecord) : Prop := {
  wi_wf : window_wf w;
  wi_below : forall i s x, window_find (i, s) w = Some x -> s <= watermark_in m i;
  wi_range : forall i, in_u64 (watermark_in m i);
}.

Record account_ok (limits : EngineLimits) (a : AccountState) : Prop := {
  ao_ledger : ledger_inv (ac_config a) (ac_capacity a) (ac_totals a);
  ao_standing : standing_inv limits (ac_epoch a) (ac_generation a) (ac_incarnations a) (ac_fences a);
  ao_window : window_inv (ac_window a) (ac_incarnations a);
  ao_era : in_u64 (ac_epoch a) /\ in_u64 (ac_generation a);
  ao_refusals : Z.of_nat (length (ac_refusals a)) <= max_refusal_log limits;
}.

#[export] Hint Resolve ao_ledger ao_standing ao_window ao_era ao_refusals li_ok li_max : account.

Lemma state_eqb_eq s t : state_eqb s t = true <-> s = t.
Proof. unfold state_eqb. rewrite Z.eqb_eq. by destruct s, t. Qed.

Lemma state_eqb_neq s t : state_eqb s t = false <-> s <> t.
Proof. rewrite <-not_true_iff_false, state_eqb_eq. done. Qed.

Lemma is_fenced_elem i a : is_fenced i a = true <-> i ∈ fence_ids (ac_fences a).
Proof.
  unfold is_fenced, fence_ids. rewrite existsb_exists, list_elem_of_fmap.
  split; intros (f & Hf & Hi).
  - exists f. apply Z.eqb_eq in Hi. by rewrite list_elem_of_In.
  - exists f. rewrite Hf, Z.eqb_refl. by rewrite <-list_elem_of_In.
Qed.

(** ** Incarnation maps *)

(** Updates that keep identity, standing and era: bindings, counters, watermark. *)
Definition keeps_standing (f : IncarnationRecord -> IncarnationRecord) : Prop :=
  forall r, ir_id (f r) = ir_id r /\ ir_state (f r) = ir_state r /\
            ir_epoch (f r) = ir_epoch r /\ ir_generation (f r) = ir_generation r.

Lemma size_alter (f : IncarnationRecord -> IncarnationRecord) i (m : gmap Z IncarnationRecord) :
  size (alter f i m) = size m.
Proof.
  rewrite <-!(size_dom (D := gset Z)). f_equal. apply set_eq. intros j.
  rewrite !elem_of_dom. destruct (decide (i = j)) as [<-|Hij].
  - by rewrite lookup_alter_eq, fmap_is_Some.
  - by rewrite lookup_alter_ne.
Qed.

(** A pointwise update of the records that keeps what the invariant reads. *)
Lemma standing_pointwise limits ep gen m m' fs :
  standing_inv limits ep gen m fs -> size m' = size m ->
  (forall i r', m' !! i = Some r' -> exists r, m !! i = Some r /\ ir_id r' = ir_id r /\
     (ir_state r' = Fenced <-> ir_state r = Fenced) /\
     (ir_state r' = Reconciled -> ir_epoch r' = ep /\ ir_generation r' = gen)) ->
  (forall i r, m !! i = Some r -> is_Some (m' !! i)) ->
  standing_inv limits ep gen m' fs.
Proof.
  intros [Hid Hlive Hf Hs Hn] Hsz Hb Hfw. constructor; [| | | by rewrite Hsz | done].
  - intros i r' Hr'. destruct (Hb i r' Hr') as (r & Hr & -> & _). by apply Hid.
  - intros i r' Hr' Hst. by destruct (Hb i r' Hr') as (r & _ & _ & _ & Hl); apply Hl.
  - intros i. rewrite Hf. split.
    + intros (r & Hr & Hst). destruct (Hfw i r Hr) as [r' Hr'].
      destruct (Hb i r' Hr') as (r2 & Hr2 & _ & Hiff & _). simplify_eq. exists r'. tauto.
    + intros (r' & Hr' & Hst). destruct (Hb i r' Hr') as (r & Hr & _ & Hiff & _).
      exists r. tauto.
Qed.

(** One record updated, identity kept, not moving in or out of the fenced state. *)
Lemma standing_alter limits ep gen m fs f i :
  standing_inv limits ep gen m fs ->
  (forall r, m !! i = Some r -> ir_id (f r) = ir_id r /\
     (ir_state (f r) = Fenced <-> ir_state r = Fenced) /\
     (ir_state (f r) = Reconciled -> ir_epoch (f r) = ep /\ ir_generation (f r) = gen)) ->
  standing_inv limits ep gen (alter f i m) fs.
Proof.
  intros Hs Hf. eapply standing_pointwise; [exact Hs | apply size_alter | |].
  - intros j r' Hr'. destruct (decide (i = j)) as [<-|Hij].
    + rewrite lookup_alter_eq in Hr'. destruct (m !! i) as [r|] eqn:Hr; [| done]. simplify_eq/=.
      exists r. split; [done |]. by apply Hf.
    + rewrite lookup_alter_ne in Hr' by done. exists r'. split_and!; try done. by apply (si_live _ _ _ _ _ Hs j).
  - intros j r Hr. destruct (decide (i = j)) as [<-|Hij].
    + rewrite lookup_alter_eq, Hr. eauto.
    + rewrite lookup_alter_ne by done. eauto.
Qed.

Lemma standing_keeps limits ep gen m fs f i :
  keeps_standing f -> standing_inv limits ep gen m fs -> standing_inv limits ep gen (alter f i m) fs.
Proof.
  intros Hk Hs. apply standing_alter; [done |]. intros r Hr. destruct (Hk r) as (-> & -> & -> & ->).
  split_and!; try done. by apply (si_live _ _ _ _ _ Hs i).
Qed.

Lemma demote_cases r :
  (ir_state r = Reconciled /\ demote r = set_ir_state Unknown r) \/
  (ir_state r <> Reconciled /\ demote r = r).
Proof.
  unfold demote. destruct (state_eqb (ir_state r) Reconciled) eqn:E.
  - apply state_eqb_eq in E. by left.
  - apply state_eqb_neq in E. by right.
Qed.

(** Records that are kept or demoted. *)
Lemma standing_demoted limits ep gen ep' gen' m m' fs :
  standing_inv limits ep gen m fs ->
  (forall i, m' !! i = demote <$> (m !! i) \/ m' !! i = m !! i /\ ep' = ep /\ gen' = gen) ->
  standing_inv limits ep' gen' m' fs.
Proof.
  intros Hs Hm.
  assert (Hs' : standing_inv limits ep' gen' (demote <$> m) fs).
  { destruct Hs as [Hid Hlive Hf Hsz Hn].
    assert (E : forall i r', (demote <$> m) !! i = Some r' -> exists r, m !! i = Some r /\ r' = demote r).
    { intros i r'. rewrite lookup_fmap. destruct (m !! i) eqn:Hr; simpl; [| done].
      intros [= <-]. eauto. }
    constructor; [| | | by rewrite map_size_fmap | done].
    - intros i r' (r & Hr & ->)%E. rewrite <-(Hid i r Hr).
      by destruct (demote_cases r) as [[_ ->]|[_ ->]].
    - intros i r' (r & Hr & ->)%E. by destruct (demote_cases r) as [[? ->]|[? ->]].
    - intros i. rewrite Hf. split.
      + intros (r & Hr & Hst). exists (demote r). rewrite lookup_fmap, Hr. split; [done |].
        destruct (demote_cases r) as [[? ->]|[? ->]]; congruence.
      + intros (r' & (r & Hr & ->)%E & Hst). exists r. split; [done |].
        destruct (demote_cases r) as [[? E']|[? E']]; rewrite E' in Hst; [done | congruence]. }
  eapply standing_pointwise; [exact Hs' | | |].
  - rewrite <-!(size_dom (D := gset Z)). f_equal. apply set_eq. intros j.
    rewrite dom_fmap, !elem_of_dom. destruct (Hm j) as [->|[-> _]]; [by rewrite fmap_is_Some | done].
  - intros i r' Hr'. rewrite lookup_fmap. destruct (Hm i) as [Hi|(Hi & -> & ->)]; rewrite Hi in Hr'.
    + exists r'. split; [done |]. split; [done |]. split; [done |].
      apply (si_live _ _ _ _ _ Hs' i). by rewrite lookup_fmap.
    + exists (demote r'). rewrite Hr'. split; [done |].
      pose proof (si_live _ _ _ _ _ Hs i r' Hr').
      destruct (demote_cases r') as [[? ->]|[? ->]]; simpl; split_and!; try done. split; congruence.
  - intros i r. rewrite lookup_fmap. destruct (Hm i) as [->|[-> _]]; [eauto |].
    destruct (m !! i); simpl; [eauto | done].
Qed.

(** A record not seen before, in the unknown state. *)
Lemma standing_fresh limits ep gen m fs i r :
  standing_inv limits ep gen m fs -> m !! i = None ->
  Z.of_nat (size m) < max_incarnations_per_account limits ->
  ir_id r = i -> ir_state r = Unknown ->
  standing_inv limits ep gen (<[i := r]> m) fs.
Proof.
  intros [Hid Hlive Hf Hsz Hn] Hi Hlt Hri Hst. constructor; [| | | | done].
  - intros j x [[<- <-]|[_ Hx]]%lookup_insert_Some; [done | by apply Hid].
  - intros j x [[<- <-]|[_ Hx]]%lookup_insert_Some; [congruence | by apply (Hlive j x)].
  - intros j. rewrite Hf. split; intros (x & Hx & Hxs).
    + exists x. rewrite lookup_insert_ne by congruence. done.
    + apply lookup_insert_Some in Hx as [[<- <-]|[_ Hx]]; [congruence | eauto].
  - rewrite map_size_insert_None by done. lia.
Qed.

(** Fencing a known incarnation. *)
Lemma standing_fence limits ep gen m fs f s :
  standing_inv limits ep gen m fs -> is_Some (m !! f_incarnation f) ->
  Z.of_nat (length fs) < max_fences_per_account limits ->
  standing_inv limits ep gen (alter (set_ir_fenced s) (f_incarnation f) m) (fs ++ [f]).
Proof.
  intros [Hid Hlive Hf Hsz Hn] [r Hr] Hlt. set (i := f_incarnation f) in *.
  assert (E : forall j x, alter (set_ir_fenced s) i m !! j = Some x ->
    (j = i /\ x = set_ir_fenced s r) \/ (j <> i /\ m !! j = Some x)).
  { intros j x. destruct (decide (i = j)) as [<-|Hij].
    - rewrite lookup_alter_eq, Hr. simpl. intros [= <-]. by left.
    - rewrite lookup_alter_ne by done. intros. right. auto. }
  constructor; [| | | by rewrite size_alter | rewrite length_app; simpl; lia].
  - intros j x [[-> ->]|[_ Hx]]%E; [simpl | ]; by apply Hid.
  - intros j x [[-> ->]|[_ Hx]]%E; [done | by apply (Hlive j x)].
  - intros j. unfold fence_ids. rewrite fmap_app, elem_of_app. fold (fence_ids fs). rewrite Hf.
    simpl. rewrite list_elem_of_singleton. split.
    + intros [(x & Hx & Hxs)| ->].
      * destruct (decide (i = j)) as [<-|Hij].
        -- exists (set_ir_fenced s r). by rewrite lookup_alter_eq, Hr.
        -- exists x. by rewrite lookup_alter_ne.
      * exists (set_ir_fenced s r). fold i. by rewrite lookup_alter_eq, Hr.
    + intros (x & [[-> ->]|[Hne Hx]]%E & Hxs); [by right | left; eauto].
Qed.

(** ** The window part *)

Lemma window_inv_mono w m m' :
  window_inv w m -> (forall i, watermark_in m i <= watermark_in m' i) ->
  (forall i, in_u64 (watermark_in m' i)) -> window_inv w m'.
Proof.
  intros [Hwf Hb _] Hm Hr. constructor; [done | | done].
  intros i s x Hx. etrans; [by eapply Hb | apply Hm].
Qed.

Lemma window_inv_same w m m' :
  window_inv w m -> (forall i, watermark_in m' i = watermark_in m i) -> window_inv w m'.
Proof.
  intros Hw Hm. eapply window_inv_mono; [exact Hw | |].
  - intros i. by rewrite Hm.
  - intros i. rewrite Hm. apply Hw.
Qed.

Lemma watermark_alter f i m j :
  (forall r, ir_last_sequence (f r) = ir_last_sequence r) ->
  watermark_in (alter f i m) j = watermark_in m j.
Proof.
  intros Hf. unfold watermark_in. destruct (decide (i = j)) as [<-|Hij].
  - rewrite lookup_alter_eq. destruct (m !! i); simpl; [apply Hf | done].
  - by rewrite lookup_alter_ne.
Qed.

Lemma watermark_insert_fresh i r m j :
  m !! i = None -> ir_last_sequence r = 0 -> watermark_in (<[i := r]> m) j = watermark_in m j.
Proof.
  intros Hi Hr. unfold watermark_in. destruct (decide (i = j)) as [<-|Hij].
  - by rewrite lookup_insert_eq, Hi.
  - by rewrite lookup_insert_ne.
Qed.

Lemma watermark_demote m j : watermark_in (demote <$> m) j = watermark_in m j.
Proof.
  unfold watermark_in. rewrite lookup_fmap. destruct (m !! j) as [r|]; simpl; [| done].
  by destruct (demote_cases r) as [[_ ->]|[_ ->]].
Qed.

(** Publishing a fresh attempt above the watermark of a known incarnation. *)
Lemma window_inv_publish w m x i s :
  window_inv w m -> window_find (we_key x) w = None -> we_key x = (i, s) ->
  watermark_in m i <= s -> in_u64 s -> is_Some (m !! i) ->
  window_inv (window_insert x w) (alter (set_ir_last_sequence s) i m).
Proof.
  intros Hw Hfresh Hk Hle Hs [r Hr].
  assert (E : forall j, watermark_in (alter (set_ir_last_sequence s) i m) j =
                        if decide (i = j) then s else watermark_in m j).
  { intros j. unfold watermark_in. destruct (decide (i = j)) as [<-|Hij].
    - by rewrite lookup_alter_eq, Hr.
    - by rewrite lookup_alter_ne. }
  constructor.
  - apply window_insert_wf; [apply Hw | done].
  - intros j q y Hy. rewrite E. apply (window_insert_other w x) in Hy; [| apply Hw | done].
    destruct Hy as [[Hjq _]|Hy].
    + rewrite Hk in Hjq. simplify_eq. by rewrite decide_True.
    + apply (wi_below _ _ Hw) in Hy. case_decide; [subst; lia | done].
  - intros j. rewrite E. case_decide; [done | apply Hw].
Qed.

(** ** What admission guarantees *)

Lemma unauthorized_none limits operator rq a :
  unauthorized limits operator rq a = None ->
  a_domain (rq_authority rq) = ac_domain a /\
  a_epoch (rq_authority rq) = ac_epoch a /\ a_generation (rq_authority rq) = ac_generation a /\
  (classify (rq_op rq) = OpControl -> a_incarnation (rq_authority rq) = operator) /\
  let found := find_incarnation (a_incarnation (rq_authority rq)) a in
  if op_eqb (rq_op rq) Reconcile
  then is_fenced (a_incarnation (rq_authority rq)) a = false /\
       match found with
       | Some r => ir_state r <> Retired
       | None => Z.of_nat (size (ac_incarnations a)) < max_incarnations_per_account limits
       end
  else exists r, found = Some r /\ is_live (ac_epoch a) (ac_generation a) r = true.
Proof.
  unfold unauthorized.
  destruct (Z.eqb_spec (a_domain (rq_authority rq)) (ac_domain a)) as [Hd|]; simpl; [| done].
  destruct (Z.eqb_spec (a_epoch (rq_authority rq)) (ac_epoch a)) as [He|]; simpl; [| done].
  destruct (Z.eqb_spec (a_generation (rq_authority rq)) (ac_generation a)) as [Hg|]; simpl; [| done].
  match goal with |- match ?s with _ => _ end = None -> _ => destruct s eqn:Hs; [done |] end.
  intros Hc. split_and!; try done.
  - intros C. rewrite C in Hc.
    by destruct (Z.eqb_spec (a_incarnation (rq_authority rq)) operator).
  - destruct (op_eqb (rq_op rq) Reconcile).
    + destruct (is_fenced _ a); [done |]. split; [done |].
      destruct (find_incarnation _ a) as [r|].
      * destruct (state_eqb (ir_state r) Retired) eqn:E; [done |]. by apply state_eqb_neq.
      * destruct (Z.geb_spec (Z.of_nat (size (ac_incarnations a))) (max_incarnations_per_account limits)); [done | lia].
    + destruct (find_incarnation _ a) as [r|]; [| done]. exists r. split; [done |].
      destruct (state_eqb _ Fenced); [done |]. destruct (state_eqb _ Retired); [done |].
      by destruct (is_live _ _ r).
Qed.

Lemma misplaced_none rq a :
  in_u64 (caller_watermark (a_incarnation (rq_authority rq)) a) -> misplaced rq a = None ->
  rq_sequence rq = caller_watermark (a_incarnation (rq_authority rq)) a + 1.
Proof.
  intros Hr. unfold misplaced. set (w := caller_watermark _ a) in *.
  destruct (Z.leb_spec (rq_sequence rq) w); [done |].
  destruct (add_overflow_cases w 1) as [[_ ->]|[_ ->]]; [done | word_lia | | done].
  destruct (Z.gtb_spec (rq_sequence rq) (w + 1)); [done | lia].
Qed.

Lemma known_attempt_none rq a o :
  known_attempt rq a o = None ->
  window_find (a_incarnation (rq_authority rq), rq_sequence rq) (ac_window a) = None /\
  window_find_by_attempt (rq_attempt rq) (ac_window a) = None.
Proof.
  unfold known_attempt. destruct (window_find _ _); [by destruct (digest_eqb _ _) |].
  by destruct (window_find_by_attempt _ _).
Qed.

(** ** Ledger decisions are plan operations *)

Lemma account_plan_ok a : ledger_ok (ac_capacity a) (ac_totals a) -> plan_ok (account_plan a).
Proof. apply plan_make_plan_ok. Qed.

(** The plan operation of a ledger request. *)
Definition ledger_op (rules : CreditPolicy) (rq : CreditRequest) : option LedgerOp :=
  let n := rq_count rq in
  match rq_op rq with
  | Issue => Some (LIssue n (min_issue rules) (max_issue_per_attempt rules))
  | Consume => Some (LConsume n)
  | Return => if allow_return rules then Some (LGiveBack n) else None
  | Protect => Some (LProtect n (allow_protect rules))
  | Unprotect => Some (LUnprotect n)
  | _ => None
  end.

Lemma ledger_apply_op plan a rq :
  ledger_apply plan a rq =
  match ledger_op (c_rules (ac_config a)) rq with
  | Some op => plan_verdict (run_op op plan)
  | None => (match rq_op rq with Return => refused_status RPolicyRefused 2
             | _ => refused_status RInvalidState 10 end, plan)
  end.
Proof.
  unfold ledger_apply, ledger_op. destruct (rq_op rq); try done. by destruct (allow_return _).
Qed.

Lemma ledger_op_range rules rq op : in_u64 (rq_count rq) -> ledger_op rules rq = Some op -> op_range op.
Proof.
  unfold ledger_op. intros Hn. destruct (rq_op rq); try done;
    try destruct (allow_return rules); by intros [= <-].
Qed.

Lemma ledger_op_capacity rules rq op c : ledger_op rules rq = Some op -> exact_capacity op c = c.
Proof.
  unfold ledger_op. destruct (rq_op rq); try done;
    try destruct (allow_return rules); by intros [= <-].
Qed.

(** What the ledger part of a data operation decides. *)
Lemma ledger_verdict_cases rq a :
  ledger_ok (ac_capacity a) (ac_totals a) -> in_u64 (rq_count rq) ->
  (exists op t, ledger_op (c_rules (ac_config a)) rq = Some op /\
     run_op op (account_plan a) = (mkPlan (ac_capacity a) t (lp_status (account_plan a)), true) /\
     t = exact_totals op (ac_totals a) /\ ledger_ok (ac_capacity a) t /\
     ledger_verdict rq a = VApplied (set_totals t a)) \/
  (exists r d, r <> ROk /\ ledger_verdict rq a = VDecided r d a).
Proof.
  intros Hok Hn. unfold ledger_verdict. rewrite ledger_apply_op.
  destruct (ledger_op _ rq) as [op|] eqn:Hop.
  - pose proof (ledger_op_range _ _ _ Hn Hop) as Hr. apply account_plan_ok in Hok.
    destruct (run_op op (account_plan a)) as [p ok] eqn:E. destruct ok.
    + left. destruct (run_op_exact _ _ _ Hok Hr E) as (-> & [Hst Hp] & _).
      unfold exact_plan in *. simpl in *. erewrite ledger_op_capacity in * by done.
      exists op, (exact_totals op (ac_totals a)). by split_and!.
    + right. destruct (run_op_refused _ _ _ Hok Hr E) as (_ & _ & Hst & _).
      unfold plan_verdict. simpl. rewrite Hst. eexists _, _. split; [| done].
      intros Hr'. assert (status_ok (lp_status p) = true) by (by apply status_ok_iff). congruence.
  - right. destruct (rq_op rq); eexists _, _; (split; [| reflexivity]; done).
Qed.
