(* ===== verification/Verdicts.v ===== *)
(** * Every decision preserves the account invariant

    [verdict_spec] is the account-level heart of the engine's correctness: from
    a well-formed account and an admitted request, whatever is decided leaves a
    well-formed account that differs from the old one only where the operation
    may touch it. *)

From S2P Require Import Prelude Checked Status Digest Ledger Authority Request Bytes Wire.
From S2P Require Import Record Journal Window Account Engine Steps Invariant.
Local Open Scope Z_scope.

Definition is_era_op (rq : CreditRequest) : bool :=
  op_eqb (rq_op rq) AdvanceEpoch || op_eqb (rq_op rq) Rotate.

(** The incarnations a decision may touch: its caller and its subject. *)
Definition touched (rq : CreditRequest) (i : Z) : Prop :=
  i = a_incarnation (rq_authority rq) \/ is_set (subject_of rq) = true /\ i = subject_of rq.

Record verdict_frame (rq : CreditRequest) (a a' : AccountState) : Prop := {
  vf_config : ac_config a' = ac_config a;
  vf_domain : ac_domain a' = ac_domain a;
  vf_account : ac_account a' = ac_account a;
  vf_window : ac_window a' = ac_window a;
  vf_ambiguous : ac_ambiguous a' = ac_ambiguous a;
  vf_refusals : ac_refusals a' = ac_refusals a;
  vf_cursor : ac_refusal_cursor a' = ac_refusal_cursor a;
  vf_committed : ac_committed_attempts a' = ac_committed_attempts a;
  vf_refused : ac_refused_attempts a' = ac_refused_attempts a;
  vf_fences : exists ext, ac_fences a' = ac_fences a ++ ext;
  vf_others : forall i, ~ touched rq i ->
    ac_incarnations a' !! i = ac_incarnations a !! i \/
    is_era_op rq = true /\ ac_incarnations a' !! i = demote <$> (ac_incarnations a !! i);
  vf_watermark : forall i, watermark_in (ac_incarnations a') i = watermark_in (ac_incarnations a) i;
  vf_epoch : ac_epoch a <= ac_epoch a';
  vf_generation : ac_generation a <= ac_generation a';
}.

(** Decisions that are not a change of era keep the era. *)
Definition same_era (a a' : AccountState) : Prop :=
  ac_epoch a' = ac_epoch a /\ ac_generation a' = ac_generation a.

(** An operation that leaves the incarnation map alone. *)
Lemma frame_same_map rq a a' :
  ac_config a' = ac_config a -> ac_domain a' = ac_domain a -> ac_account a' = ac_account a ->
  ac_window a' = ac_window a -> ac_ambiguous a' = ac_ambiguous a ->
  ac_refusals a' = ac_refusals a -> ac_refusal_cursor a' = ac_refusal_cursor a ->
  ac_committed_attempts a' = ac_committed_attempts a ->
  ac_refused_attempts a' = ac_refused_attempts a -> ac_fences a' = ac_fences a ->
  ac_incarnations a' = ac_incarnations a -> same_era a a' -> verdict_frame rq a a'.
Proof.
  intros ????????? Hf Hm [Hep Hg]. constructor; try done.
  - exists []. by rewrite app_nil_r.
  - intros. left. by rewrite Hm.
  - intros. by rewrite Hm.
  - lia.
  - lia.
Qed.

(** An operation that updates the record of one touched incarnation. *)
Lemma frame_alter rq a a' f i :
  touched rq i ->
  (forall r, ir_last_sequence (f r) = ir_last_sequence r) ->
  ac_config a' = ac_config a -> ac_domain a' = ac_domain a -> ac_account a' = ac_account a ->
  ac_window a' = ac_window a -> ac_ambiguous a' = ac_ambiguous a ->
  ac_refusals a' = ac_refusals a -> ac_refusal_cursor a' = ac_refusal_cursor a ->
  ac_committed_attempts a' = ac_committed_attempts a ->
  ac_refused_attempts a' = ac_refused_attempts a ->
  (exists ext, ac_fences a' = ac_fences a ++ ext) ->
  ac_incarnations a' = alter f i (ac_incarnations a) -> same_era a a' -> verdict_frame rq a a'.
Proof.
  intros Ht Hl ?????????? Hm [Hep Hg]. constructor; try done.
  - intros j Hj. left. rewrite Hm, lookup_alter_ne; [done |]. by intros <-.
  - intros j. rewrite Hm. by apply watermark_alter.
  - lia.
  - lia.
Qed.

(** A new record for a touched incarnation. *)
Lemma frame_fresh rq a i r :
  touched rq i -> ac_incarnations a !! i = None -> ir_last_sequence r = 0 ->
  verdict_frame rq a (put_incarnation i r a).
Proof.
  intros Ht Hi Hr. constructor; try done.
  - exists []. by rewrite app_nil_r.
  - intros j Hj. left. simpl. rewrite lookup_insert_ne; [done |]. by intros <-.
  - intros j. simpl. by apply watermark_insert_fresh.
Qed.

Lemma frame_trans rq a b c :
  is_era_op rq = false -> verdict_frame rq a b -> verdict_frame rq b c -> verdict_frame rq a c.
Proof.
  intros He [] []. constructor; try congruence; try lia.
  - destruct vf_fences0 as [x Hx], vf_fences1 as [y Hy]. exists (x ++ y).
    by rewrite Hy, Hx, app_assoc.
  - intros i Hi. left. destruct (vf_others1 i Hi) as [->|[? _]]; [| congruence].
    destruct (vf_others0 i Hi) as [->|[? _]]; [done | congruence].
Qed.

(** Changing a single part of an account. *)

Lemma account_ok_ledger limits a t c :
  account_ok limits a -> ledger_ok c t -> c <= c_max_capacity (ac_config a) ->
  account_ok limits (set_capacity c (set_totals t a)).
Proof. intros [] Hl Hc. by constructor. Qed.

Lemma account_ok_totals limits a t :
  account_ok limits a -> ledger_ok (ac_capacity a) t -> account_ok limits (set_totals t a).
Proof. intros [[]] Hl. by constructor. Qed.

Lemma account_ok_capacity limits a c :
  account_ok limits a -> ledger_ok c (ac_totals a) -> c <= c_max_capacity (ac_config a) ->
  account_ok limits (set_capacity c a).
Proof. intros [] Hl Hc. by constructor. Qed.

Lemma account_ok_exhaustion limits a b r :
  account_ok limits a -> account_ok limits (set_exhaustion b r a).
Proof. intros []. by constructor. Qed.

Lemma account_ok_map limits a m :
  account_ok limits a ->
  standing_inv limits (ac_epoch a) (ac_generation a) m (ac_fences a) ->
  (forall i, watermark_in m i = watermark_in (ac_incarnations a) i) ->
  account_ok limits (set_incarnations m a).
Proof.
  intros [] Hs Hw. constructor; try done. simpl. by eapply window_inv_same.
Qed.

Lemma account_ok_keeps limits a f i :
  keeps_standing f -> (forall r, ir_last_sequence (f r) = ir_last_sequence r) ->
  account_ok limits a -> account_ok limits (update_incarnation f i a).
Proof.
  intros Hk Hl Ha. apply account_ok_map; [done | | intros; by apply watermark_alter].
  apply standing_keeps; [done | apply Ha].
Qed.

Lemma account_ok_fresh limits a i r :
  account_ok limits a -> ac_incarnations a !! i = None ->
  Z.of_nat (size (ac_incarnations a)) < max_incarnations_per_account limits ->
  ir_id r = i -> ir_state r = Unknown -> ir_last_sequence r = 0 ->
  account_ok limits (put_incarnation i r a).
Proof.
  intros Ha Hi Hsz Hid Hst Hl. apply account_ok_map; [done | | intros; by apply watermark_insert_fresh].
  apply standing_fresh; try done. apply Ha.
Qed.

(** ** Data operations *)

Lemma bind_identity_keeps cur req set r r' :
  bind_identity cur req set r = inr r' -> r' = r \/ r' = set req r.
Proof.
  unfold bind_identity. destruct (is_set req); [| intros [= <-]; by left].
  destruct (_ && _); [done |]. intros [= <-]. by right.
Qed.

(** The bindings an [Issue] reaches, whether or not it is contradicted. *)
Definition bound_record (rq : CreditRequest) (r : IncarnationRecord) : IncarnationRecord :=
  match bind_issue rq r with inl (_, _, r') => r' | inr r' => r' end.

Definition binding_only (r r' : IncarnationRecord) : Prop :=
  ir_id r' = ir_id r /\ ir_publisher r' = ir_publisher r /\ ir_boot r' = ir_boot r /\
  ir_state r' = ir_state r /\ ir_epoch r' = ir_epoch r /\ ir_generation r' = ir_generation r /\
  ir_proof r' = ir_proof r /\ ir_last_sequence r' = ir_last_sequence r /\
  ir_committed_ops r' = ir_committed_ops r /\ ir_refused_ops r' = ir_refused_ops r /\
  ir_fenced_at r' = ir_fenced_at r.

Lemma binding_only_bind cur req set r r' r0 :
  (forall v x, binding_only x (set v x)) -> binding_only r0 r ->
  bind_identity cur req set r = inr r' -> binding_only r0 r'.
Proof.
  intros Hset H0 [->| ->]%bind_identity_keeps; [done |].
  specialize (Hset req r). unfold binding_only in *. destruct_and?. repeat split; congruence.
Qed.

Lemma bound_record_only rq r : binding_only r (bound_record rq r).
Proof.
  unfold bound_record, bind_issue.
  assert (B0 : binding_only r r) by (by repeat split).
  destruct (bind_identity (ir_producer r) _ _ r) as [p|r1] eqn:E1; [done |].
  apply (binding_only_bind _ _ _ _ _ r) in E1; [| by repeat split | done].
  destruct (bind_identity (ir_consumer r1) _ _ r1) as [p|r2] eqn:E2; [done |].
  apply (binding_only_bind _ _ _ _ _ r) in E2; [| by repeat split | done].
  destruct (bind_identity (ir_grant r2) _ _ r2) as [p|r3] eqn:E3; [done |].
  apply (binding_only_bind _ _ _ _ _ r) in E3; [done | by repeat split | done].
Qed.

Lemma put_as_update i r r' a :
  ac_incarnations a !! i = Some r -> put_incarnation i r' a = update_incarnation (fun _ => r') i a.
Proof.
  intros Hr. unfold put_incarnation, update_incarnation. f_equal.
  apply map_eq. intros j. destruct (decide (i = j)) as [<-|Hij].
  - by rewrite lookup_insert_eq, lookup_alter_eq, Hr.
  - by rewrite lookup_insert_ne, lookup_alter_ne.
Qed.

Lemma put_bound limits rq a r :
  account_ok limits a -> is_era_op rq = false ->
  ac_incarnations a !! a_incarnation (rq_authority rq) = Some r ->
  let a' := put_incarnation (a_incarnation (rq_authority rq)) (bound_record rq r) a in
  account_ok limits a' /\ verdict_frame rq a a' /\ same_era a a'.
Proof.
  intros Ha He Hr. destruct (bound_record_only rq r) as (Hi & _ & _ & Hs & Hep & Hg & _ & Hl & _).
  set (b := bound_record rq r) in *. simpl. set (caller := a_incarnation (rq_authority rq)) in *.
  assert (Hup : forall j x, <[caller := b]> (ac_incarnations a) !! j = Some x ->
    exists y, ac_incarnations a !! j = Some y /\ ir_id x = ir_id y /\ ir_state x = ir_state y /\
      ir_epoch x = ir_epoch y /\ ir_generation x = ir_generation y /\
      ir_last_sequence x = ir_last_sequence y).
  { intros j x [[<- <-]|[_ Hx]]%lookup_insert_Some; [exists r | exists x]; by split_and!. }
  assert (Hw : forall i, watermark_in (<[caller := b]> (ac_incarnations a)) i =
                         watermark_in (ac_incarnations a) i).
  { intros i. unfold watermark_in. destruct (decide (caller = i)) as [<-|Hne].
    - by rewrite lookup_insert_eq, Hr, Hl.
    - by rewrite lookup_insert_ne. }
  split_and!; [| | done].
  - apply account_ok_map; [done | | done]. eapply standing_pointwise; [apply Ha | | |].
    + rewrite map_size_insert_Some; [done | by eauto].
    + intros j x (y & Hy & E1 & E2 & E3 & E4 & E5)%Hup. exists y. rewrite E1, E2, E3, E4.
      split_and!; try done. by apply (si_live _ _ _ _ _ (ao_standing _ _ Ha) j).
    + intros j y Hy. apply lookup_insert_is_Some'. right. eauto.
  - constructor; try done.
    + exists []. by rewrite app_nil_r.
    + intros i Hi'. left. simpl. rewrite lookup_insert_ne; [done |].
      intros <-. apply Hi'. by left.
Qed.

Lemma ledger_op_not_era rq : op_is_ledger (rq_op rq) = true -> is_era_op rq = false.
Proof. unfold is_era_op. by destruct (rq_op rq). Qed.

(** The result shape shared by every decision. *)
Record verdict_good (limits : EngineLimits) (rq : CreditRequest) (a : AccountState) (v : Verdict)
    : Prop := {
  vg_ok : account_ok limits (verdict_account v);
  vg_frame : verdict_frame rq a (verdict_account v);
  vg_era : is_era_op rq = false -> same_era a (verdict_account v);
}.

Lemma verdict_good_same limits rq a v :
  account_ok limits a -> verdict_account v = a -> verdict_good limits rq a v.
Proof. intros Ha Hv. constructor; rewrite Hv; [done | by apply frame_same_map | done]. Qed.

Lemma ledger_verdict_good limits rq a :
  account_ok limits a -> request_range rq -> op_is_ledger (rq_op rq) = true ->
  verdict_good limits rq a (ledger_verdict rq a).
Proof.
  intros Ha Hr Hop%ledger_op_not_era.
  destruct (ledger_verdict_cases rq a) as [(op & t & _ & _ & _ & Ht & ->)|(r & d & _ & ->)];
    [apply Ha | apply Hr | | by apply verdict_good_same].
  constructor; simpl; [by apply account_ok_totals | by apply frame_same_map | done].
Qed.

Lemma verdict_good_trans limits rq a b v :
  is_era_op rq = false -> verdict_frame rq a b -> same_era a b -> verdict_good limits rq b v ->
  verdict_good limits rq a v.
Proof.
  intros He Hf [E1 E2] [Hok Hf' Hs]. constructor; [done | by eapply frame_trans |].
  intros _. destruct (Hs He) as [E3 E4]. split; congruence.
Qed.

Lemma bind_issue_bound rq r r' :
  bind_issue rq r = inr r' -> bound_record rq r = r'.
Proof. unfold bound_record. by intros ->. Qed.

Lemma data_verdict_good limits rq a :
  account_ok limits a -> request_range rq -> op_is_ledger (rq_op rq) = true ->
  verdict_good limits rq a (data_verdict rq a).
Proof.
  intros Ha Hr Hop. pose proof (ledger_op_not_era rq Hop) as He. unfold data_verdict.
  rewrite Hop. simpl negb. cbv iota.
  destruct (ac_hard_exhausted a && _); [by apply verdict_good_same |].
  destruct (op_eqb (rq_op rq) Issue); [| by apply ledger_verdict_good].
  unfold find_incarnation.
  destruct (ac_incarnations a !! a_incarnation (rq_authority rq)) as [r|] eqn:Hf;
    [| by apply verdict_good_same].
  destruct (put_bound limits rq a r Ha He Hf) as (Hok & Hfr & Hse).
  destruct (bind_issue rq r) as [[[rs d] b]|b] eqn:Hb.
  - assert (bound_record rq r = b) as E by (unfold bound_record; by rewrite Hb).
    rewrite E in *. by constructor.
  - rewrite (bind_issue_bound _ _ _ Hb) in *.
    eapply verdict_good_trans; try done. by apply ledger_verdict_good.
Qed.

(** ** Control operations *)

Lemma plan_step_good limits rq a op (apply : LedgerPlan -> AccountState) :
  account_ok limits a -> op_range op -> is_era_op rq = false ->
  (forall p, run_op op (account_plan a) = (p, true) -> plan_ok p -> p = exact_plan op (account_plan a) ->
     account_ok limits (apply p) /\ verdict_frame rq a (apply p) /\ same_era a (apply p)) ->
  verdict_good limits rq a (plan_step (run_op op (account_plan a)) apply a).
Proof.
  intros Ha Hr He Hap. unfold plan_step.
  destruct (run_op op (account_plan a)) as [p []] eqn:E; simpl; [| by apply verdict_good_same].
  assert (Hpl : plan_ok (account_plan a)) by (apply account_plan_ok, Ha).
  destruct (run_op_exact _ _ _ Hpl Hr E) as (Hp & Hok & _).
  destruct (Hap p eq_refl Hok Hp) as (? & ? & ?). by constructor.
Qed.

(** The plan operations that only move totals. *)
Lemma totals_step_good limits rq a op :
  account_ok limits a -> op_range op -> is_era_op rq = false ->
  (forall c, exact_capacity op c = c) ->
  verdict_good limits rq a
    (plan_step (run_op op (account_plan a)) (fun plan => set_totals (lp_totals plan) a) a).
Proof.
  intros Ha Hr He Hc. apply plan_step_good; try done.
  intros p _ [_ Hok] ->. unfold exact_plan in *. simpl in *. rewrite Hc in Hok.
  split_and!; [by apply account_ok_totals | by apply frame_same_map | done].
Qed.

(** What an accepted change of era establishes. *)
Record era_entered (a a' : AccountState) : Prop := {
  ee_epoch : ac_epoch a < ac_epoch a';
  ee_epoch_range : in_u64 (ac_epoch a');
  ee_generation : ac_generation a' = ac_generation a + 1;
  ee_generation_range : in_u64 (ac_generation a');
  ee_map : ac_incarnations a' = demote <$> ac_incarnations a;
  ee_totals : ac_totals a' = exact_totals LQuarantine (ac_totals a);
}.

(** The two ways an era change ends. *)
Lemma era_verdict_cases limits rq a :
  account_ok limits a -> in_u64 (rq_count rq) ->
  (exists r d, era_verdict rq a = VRefused r d a) \/
  (exists epoch generation,
     let t := exact_totals LQuarantine (ac_totals a) in
     era_verdict rq a = VApplied (enter_era t epoch generation a) /\
     epoch = (if op_eqb (rq_op rq) Rotate then rq_count rq else ac_epoch a + 1) /\
     generation = ac_generation a + 1 /\ ac_epoch a < epoch /\
     in_u64 epoch /\ in_u64 generation /\ ledger_ok (ac_capacity a) t /\
     run_op LQuarantine (account_plan a) =
       (mkPlan (ac_capacity a) t (lp_status (account_plan a)), true)).
Proof.
  intros Ha Hn. destruct (ao_era _ _ Ha) as [Hep Hgen].
  assert (Hpl : plan_ok (account_plan a)) by (apply account_plan_ok, Ha).
  unfold era_verdict.
  assert (Hnext : exists next, (if op_eqb (rq_op rq) Rotate then
      if rq_count rq <=? ac_epoch a then inl (RInvalidState, ac_epoch a) else inr (rq_count rq)
    else let '(over, next) := add_overflow (ac_epoch a) 1 in
      if over then inl (RCountOverflow, ac_epoch a) else inr next) = next /\
    match next with
    | inl _ => True
    | inr n => n = (if op_eqb (rq_op rq) Rotate then rq_count rq else ac_epoch a + 1) /\
               ac_epoch a < n /\ in_u64 n
    end).
  { eexists. split; [reflexivity |]. destruct (op_eqb _ Rotate).
    - destruct (Z.leb_spec (rq_count rq) (ac_epoch a)); [done |]. by split_and!.
    - destruct (add_overflow_cases (ac_epoch a) 1) as [[? ->]|[? ->]]; [done | word_lia | | done].
      split_and!; [done | lia | word_lia]. }
  destruct Hnext as (next & -> & Hnext). destruct next as [[r d]|epoch]; [left; eauto |].
  destruct (add_overflow_cases (ac_generation a) 1) as [[Hg ->]|[? ->]]; [done | word_lia | | left; eauto].
  change (plan_quarantine_in_flight (account_plan a)) with (run_op LQuarantine (account_plan a)).
  destruct (run_op LQuarantine (account_plan a)) as [p []] eqn:E; simpl; [| left; eauto].
  destruct (run_op_exact LQuarantine _ _ Hpl I E) as (-> & [_ Hok] & _). right.
  exists epoch, (ac_generation a + 1). destruct Hnext as (? & ? & ?).
  split_and!; try done; word_lia.
Qed.

Lemma enter_era_good limits rq a t epoch generation :
  account_ok limits a -> is_era_op rq = true -> ledger_ok (ac_capacity a) t ->
  ac_epoch a < epoch -> ac_generation a <= generation -> in_u64 epoch -> in_u64 generation ->
  account_ok limits (enter_era t epoch generation a) /\
  verdict_frame rq a (enter_era t epoch generation a).
Proof.
  intros Ha He Ht Hlt Hg Hep Hgen. split.
  - constructor; simpl; try done; try apply Ha.
    + constructor; [done | apply Ha].
    + eapply standing_demoted; [apply Ha |]. intros i. left. by rewrite lookup_fmap.
    + eapply window_inv_same; [apply Ha |]. apply watermark_demote.
  - constructor; simpl; try done; try lia.
    + exists []. by rewrite app_nil_r.
    + intros i _. right. split; [done |]. by rewrite lookup_fmap.
    + intros i. apply watermark_demote.
Qed.

Lemma era_verdict_good limits rq a :
  account_ok limits a -> in_u64 (rq_count rq) -> is_era_op rq = true ->
  verdict_good limits rq a (era_verdict rq a).
Proof.
  intros Ha Hn He. destruct (era_verdict_cases limits rq a Ha Hn)
    as [(r & d & ->)|(ep & g & -> & _ & Hg & Hlt & Hep & Hgr & Hok & _)].
  - by apply verdict_good_same.
  - destruct (enter_era_good limits rq a _ ep g Ha He Hok Hlt) as [H1 H2]; try done; [lia |].
    constructor; [done | done |]. simpl. congruence.
Qed.

(** ** Fencing *)

Lemma subject_control rq : classify (rq_op rq) = OpControl -> subject_of rq = rq_target rq.
Proof. unfold subject_of. by intros ->. Qed.

Lemma fence_account_good limits rq a :
  account_ok limits a -> rq_op rq = Fence -> is_set (rq_target rq) = true ->
  is_Some (ac_incarnations a !! rq_target rq) ->
  Z.of_nat (length (ac_fences a)) < max_fences_per_account limits ->
  account_ok limits (fence_account rq a) /\ verdict_frame rq a (fence_account rq a) /\
  same_era a (fence_account rq a).
Proof.
  intros Ha Hop Hset Hin Hlt. split_and!; [| | done].
  - constructor; simpl; try apply Ha.
    + by apply (standing_fence limits (ac_epoch a) (ac_generation a) _ _ (fence_record rq a)); [apply Ha | |].
    + eapply window_inv_same; [apply Ha |]. intros. by apply watermark_alter.
  - eapply (frame_alter rq a _ (set_ir_fenced (rq_sequence rq)) (rq_target rq)); try done.
    + right. rewrite subject_control by (by rewrite Hop). done.
    + eexists. simpl. done.
Qed.

Lemma fence_verdict_good limits rq a :
  account_ok limits a -> rq_op rq = Fence -> verdict_good limits rq a (fence_verdict limits rq a).
Proof.
  intros Ha Hop. unfold fence_verdict.
  destruct (is_set (rq_target rq)) eqn:Hset; simpl; [| by apply verdict_good_same].
  destruct (reason_eqb _ _); [by apply verdict_good_same |].
  destruct (is_fenced _ _); [by apply verdict_good_same |].
  assert (He : is_era_op rq = false) by (unfold is_era_op; by rewrite Hop).
  assert (Ht : touched rq (rq_target rq)).
  { right. rewrite subject_control by (by rewrite Hop). done. }
  unfold find_incarnation. destruct (ac_incarnations a !! rq_target rq) as [r|] eqn:Hr.
  - destruct (Z.geb_spec (Z.of_nat (length (ac_fences a))) (max_fences_per_account limits));
      [by apply verdict_good_same |].
    destruct (fence_account_good limits rq a) as (? & ? & ?); eauto. by constructor.
  - destruct (Z.geb_spec (Z.of_nat (size (ac_incarnations a))) (max_incarnations_per_account limits));
      [by apply verdict_good_same |].
    set (b := put_incarnation (rq_target rq) (bare_incarnation (rq_target rq)) a).
    assert (Hb : account_ok limits b) by (by apply account_ok_fresh).
    assert (Hfb : verdict_frame rq a b) by (by apply frame_fresh).
    destruct (Z.geb_spec (Z.of_nat (length (ac_fences a))) (max_fences_per_account limits)).
    + by constructor.
    + destruct (fence_account_good limits rq b) as (? & ? & ?); try done.
      { simpl. rewrite lookup_insert_eq. eauto. }
      by eapply (verdict_good_trans _ _ _ b).
Qed.

Lemma retire_verdict_good limits rq a r :
  account_ok limits a -> rq_op rq = RetireIncarnation -> is_set (rq_target rq) = true ->
  ac_incarnations a !! rq_target rq = Some r -> ir_state r <> Fenced ->
  verdict_good limits rq a (VApplied (update_incarnation (set_ir_state Retired) (rq_target rq) a)).
Proof.
  intros Ha Hop Hset Hr Hf. constructor; simpl; [| | done].
  - apply account_ok_map; [done | | intros; by apply watermark_alter].
    apply standing_alter; [apply Ha |]. intros x Hx. simplify_eq. simpl. by split_and!.
  - apply (frame_alter rq a _ (set_ir_state Retired) (rq_target rq)); try done.
    + right. rewrite subject_control by (by rewrite Hop). done.
    + exists []. simpl. by rewrite app_nil_r.
Qed.

Lemma control_verdict_good limits rq a :
  account_ok limits a -> request_range rq -> verdict_good limits rq a (control_verdict limits rq a).
Proof.
  intros Ha Hr. unfold control_verdict.
  assert (Hne : is_era_op rq = op_eqb (rq_op rq) AdvanceEpoch || op_eqb (rq_op rq) Rotate) by done.
  destruct (rq_op rq) eqn:Hop; try (by apply verdict_good_same).
  - destruct (ac_hard_exhausted a); [by apply verdict_good_same |].
    destruct (reason_eqb _ _); [by apply verdict_good_same |].
    constructor; simpl; [by apply account_ok_exhaustion | by apply frame_same_map | done].
  - destruct (ac_hard_exhausted a); [| by apply verdict_good_same].
    constructor; simpl; [by apply account_ok_exhaustion | by apply frame_same_map | done].
  - apply (plan_step_good _ _ _ (LSetCapacity (rq_new_capacity rq) (c_max_capacity (ac_config a))
      (allow_capacity_growth (c_rules (ac_config a))))); [done | apply Hr | done |].
    intros p Hrun [_ Hok] ->. simpl in *. split_and!; [| by apply frame_same_map | done].
    apply account_ok_capacity; [done | done |]. unfold plan_set_capacity in Hrun.
    repeat step_in Hrun; simplify_eq/=; lia.
  - apply era_verdict_good; [done | apply Hr | done].
  - by apply fence_verdict_good.
  - apply era_verdict_good; [done | apply Hr | done].
  - apply (totals_step_good _ _ _ (LRetireStale (rq_count rq))); [done | apply Hr | done | done].
  - destruct (rq_decision rq); [by apply verdict_good_same | |].
    + apply (totals_step_good _ _ _ (LToReturned (rq_count rq))); [done | apply Hr | done | done].
    + apply (totals_step_good _ _ _ (LToConsumed (rq_count rq))); [done | apply Hr | done | done].
  - destruct (is_set (rq_target rq)) eqn:Hset; simpl; [| by apply verdict_good_same].
    unfold find_incarnation. destruct (ac_incarnations a !! rq_target rq) as [r|] eqn:Hf;
      [| by apply verdict_good_same].
    destruct (state_eqb (ir_state r) Fenced) eqn:Hs; [by apply verdict_good_same |].
    apply (retire_verdict_good limits rq a r); try done. by apply state_eqb_neq.
Qed.

(** ** Reconciliation *)

Lemma reconcile_good limits operator rq a :
  account_ok limits a -> rq_op rq = Reconcile ->
  unauthorized limits operator rq a = None ->
  verdict_good limits rq a (VApplied (reconcile_account rq a)) /\
  is_Some (ac_incarnations (reconcile_account rq a) !! a_incarnation (rq_authority rq)).
Proof.
  intros Ha Hop Hu. apply unauthorized_none in Hu as (_ & _ & _ & _ & Hu).
  rewrite Hop in Hu. simpl in Hu. destruct Hu as [Hnf Hu].
  set (caller := a_incarnation (rq_authority rq)) in *.
  assert (Ht : touched rq caller) by by left.
  assert (He : is_era_op rq = false) by (unfold is_era_op; by rewrite Hop).
  assert (Hstep : forall b r, account_ok limits b -> ac_incarnations b !! caller = Some r ->
    ir_state r <> Fenced ->
    let b' := update_incarnation (set_ir_reconciled (ac_epoch b) (ac_generation b) (rq_proof rq)) caller b in
    account_ok limits b' /\ verdict_frame rq b b' /\ is_Some (ac_incarnations b' !! caller)).
  { intros b r Hb Hr Hs b'. split_and!.
    - apply account_ok_map; [done | | intros; by apply watermark_alter].
      apply standing_alter; [apply Hb |]. intros x Hx. simplify_eq. simpl. by split_and!.
    - apply (frame_alter rq b b' (set_ir_reconciled (ac_epoch b) (ac_generation b) (rq_proof rq))
        caller); try done. exists []. simpl. by rewrite app_nil_r.
    - simpl. rewrite lookup_alter_eq, Hr. eauto. }
  unfold reconcile_account. fold caller. unfold find_incarnation in *.
  destruct (ac_incarnations a !! caller) as [r|] eqn:Hr.
  - destruct (Hstep a r Ha Hr) as (H1 & H2 & H3).
    { intros Hs. assert (is_fenced caller a = true); [| congruence].
      apply is_fenced_elem, (si_fenced _ _ _ _ _ (ao_standing _ _ Ha)). eauto. }
    split; [by constructor | done].
  - set (b := put_incarnation caller (fresh_incarnation rq) a).
    destruct (Hstep b (fresh_incarnation rq)) as (H1 & H2 & H3); [by apply account_ok_fresh | | done |].
    { simpl. by rewrite lookup_insert_eq. }
    split; [| done]. constructor; simpl; [done | | done].
    eapply (frame_trans _ _ b); [done | by apply frame_fresh | done].
Qed.

(** ** The main lemma on decisions *)

Lemma alter_is_Some f i j (m : gmap Z IncarnationRecord) :
  is_Some (m !! j) -> is_Some (alter f i m !! j).
Proof.
  intros [r Hr]. destruct (decide (i = j)) as [<-|Hij].
  - rewrite lookup_alter_eq, Hr. eauto.
  - rewrite lookup_alter_ne by done. eauto.
Qed.

(** Every record survives a decision. *)
Lemma data_verdict_records rq a i :
  is_Some (ac_incarnations a !! i) -> is_Some (ac_incarnations (verdict_account (data_verdict rq a)) !! i).
Proof.
  intros Hi. assert (HL : forall b, ac_incarnations (verdict_account (ledger_verdict rq b)) = ac_incarnations b).
  { intros b. unfold ledger_verdict. destruct (ledger_apply _ _ _). by destruct (status_ok _). }
  unfold data_verdict. destruct (negb _); [done |]. destruct (_ && _); [done |].
  destruct (op_eqb _ Issue); [| by rewrite HL].
  destruct (find_incarnation _ a); [| done].
  destruct (bind_issue rq i0) as [[[r d] b]|b]; simpl; rewrite ?HL; simpl;
    apply lookup_insert_is_Some'; by right.
Qed.

Lemma plan_step_records res apply a i :
  (forall p, ac_incarnations (apply p) = ac_incarnations a) ->
  ac_incarnations (verdict_account (plan_step res apply a)) !! i = ac_incarnations a !! i.
Proof. intros Hap. unfold plan_step. destruct (snd res); simpl; by rewrite ?Hap. Qed.

Lemma control_verdict_records limits rq a i :
  is_Some (ac_incarnations a !! i) ->
  is_Some (ac_incarnations (verdict_account (control_verdict limits rq a)) !! i).
Proof.
  intros Hi.
  assert (Hera : is_Some (ac_incarnations (verdict_account (era_verdict rq a)) !! i)).
  { unfold era_verdict.
    match goal with |- context [match ?n with inl _ => _ | inr _ => _ end] => destruct n as [[]|] end;
      [done |].
    destruct (add_overflow _ _) as [[] g]; [done |].
    destruct (plan_quarantine_in_flight _) as [p []]; simpl; [| done].
    rewrite lookup_fmap. by apply fmap_is_Some. }
  unfold control_verdict. destruct (rq_op rq); try done.
  - destruct (ac_hard_exhausted a); [done |]. by destruct (reason_eqb _ _).
  - by destruct (ac_hard_exhausted a).
  - by rewrite plan_step_records.
  - unfold fence_verdict.
    destruct (negb _); [done |]. destruct (reason_eqb _ _); [done |].
    destruct (is_fenced _ _); [done |]. destruct (find_incarnation _ _).
    + destruct (_ >=? _); [done |]. simpl. by apply alter_is_Some.
    + destruct (_ >=? _); [done |].
      destruct (_ >=? _); simpl; [| apply alter_is_Some]; apply lookup_insert_is_Some'; by right.
  - by rewrite plan_step_records.
  - destruct (rq_decision rq); [done | |]; by rewrite plan_step_records.
  - destruct (negb _); [done |]. destruct (find_incarnation _ _); [| done].
    destruct (state_eqb _ _); [done |]. simpl. by apply alter_is_Some.
Qed.

Lemma verdict_spec nonce limits operator rq a :
  account_ok limits a -> request_range rq -> unauthorized limits operator rq a = None ->
  rq_op rq <> Describe ->
  verdict_good limits rq a (verdict nonce limits rq a) /\
  match verdict nonce limits rq a with
  | VRefused _ _ _ => True
  | v => is_Some (ac_incarnations (verdict_account v) !! a_incarnation (rq_authority rq))
  end.
Proof.
  intros Ha Hr Hu Hdes. pose proof (unauthorized_none _ _ _ _ Hu) as (_ & _ & _ & _ & Hstand).
  unfold verdict. destruct (op_eqb (rq_op rq) Reconcile) eqn:Hrec.
  { apply op_eqb_eq in Hrec. rewrite Hrec. simpl classify. cbv iota.
    destruct (challenge_verify _ _ _ _); simpl negb; cbv iota.
    - by eapply reconcile_good.
    - split; [by apply verdict_good_same | done]. }
  destruct Hstand as (r & Hf & _). unfold find_incarnation in Hf.
  assert (Hin : is_Some (ac_incarnations a !! a_incarnation (rq_authority rq))) by eauto.
  destruct (classify (rq_op rq)) eqn:C.
  - by destruct (rq_op rq).
  - split.
    + apply data_verdict_good; try done. by destruct (rq_op rq).
    + apply (data_verdict_records rq) in Hin. by destruct (data_verdict rq a).
  - destruct (_ && _); [split; [by apply verdict_good_same | done] |]. split.
    + by apply control_verdict_good.
    + apply (control_verdict_records limits rq) in Hin. by destruct (control_verdict limits rq a).
Qed.

(** ** Counting, publishing and logging keep the invariant *)

Lemma count_commit_ok limits i a : account_ok limits a -> account_ok limits (count_commit i a).
Proof.
  intros Ha. unfold count_commit. apply account_ok_keeps; [done | done |].
  destruct Ha. by constructor.
Qed.

Lemma count_refusal_ok limits i a : account_ok limits a -> account_ok limits (count_refusal i a).
Proof.
  intros Ha. unfold count_refusal. apply account_ok_keeps; [done | done |].
  destruct Ha. by constructor.
Qed.

Lemma publish_ok limits rq o a :
  account_ok limits a ->
  window_find (a_incarnation (rq_authority rq), rq_sequence rq) (ac_window a) = None ->
  watermark_in (ac_incarnations a) (a_incarnation (rq_authority rq)) <= rq_sequence rq ->
  in_u64 (rq_sequence rq) ->
  is_Some (ac_incarnations a !! a_incarnation (rq_authority rq)) ->
  account_ok limits (publish_window_locked rq o a).
Proof.
  intros Ha Hw Hle Hs Hin. constructor; simpl; try apply Ha.
  - apply standing_keeps; [done | apply Ha].
  - by apply window_inv_publish; [apply Ha | | | | |].
Qed.

Lemma record_refusal_ok limits rq o a :
  account_ok limits a -> account_ok limits (record_refusal_locked limits rq o a).
Proof.
  intros Ha. unfold record_refusal_locked.
  destruct (Z.ltb_spec (Z.of_nat (length (ac_refusals a))) (max_refusal_log limits)).
  - destruct Ha. constructor; try done. simpl. rewrite length_app. simpl. lia.
  - destruct Ha. constructor; try done. simpl. by rewrite length_insert.
Qed.

(** ** Undoing a decision that could not be made durable *)

Lemma restore_lookup (m m' : gmap Z IncarnationRecord) c s i :
  (let m1 := partial_alter (fun _ => m !! c) c m' in
   if is_set s && negb (s =? c) then partial_alter (fun _ => m !! s) s m1 else m1) !! i =
  (if decide (i = c \/ is_set s = true /\ i = s) then m !! i else m' !! i).
Proof.
  cbv zeta. destruct (is_set s) eqn:Hs; simpl.
  - destruct (Z.eqb_spec s c) as [->|Hsc]; simpl.
    + destruct (decide (i = c)) as [->|Hic].
      * rewrite lookup_partial_alter_eq. by rewrite decide_True by tauto.
      * rewrite lookup_partial_alter_ne by done. by rewrite decide_False by tauto.
    + destruct (decide (i = s)) as [->|His].
      * rewrite lookup_partial_alter_eq. by rewrite decide_True by tauto.
      * rewrite lookup_partial_alter_ne by done. destruct (decide (i = c)) as [->|Hic].
        -- rewrite lookup_partial_alter_eq. by rewrite decide_True by tauto.
        -- rewrite lookup_partial_alter_ne by done. by rewrite decide_False by tauto.
  - destruct (decide (i = c)) as [->|Hic].
    + rewrite lookup_partial_alter_eq. by rewrite decide_True by tauto.
    + rewrite lookup_partial_alter_ne by done. rewrite decide_False; [done |]. intros [?|[? _]]; done.
Qed.

(** Restoring puts every field back except records outside caller and subject. *)
Lemma restore_shape a a' c s ext :
  ac_config a' = ac_config a -> ac_domain a' = ac_domain a -> ac_account a' = ac_account a ->
  ac_window a' = ac_window a -> ac_ambiguous a' = ac_ambiguous a ->
  ac_refusals a' = ac_refusals a -> ac_refusal_cursor a' = ac_refusal_cursor a ->
  ac_fences a' = ac_fences a ++ ext ->
  exists m, restore_backup (capture_backup a c s) c s a' = set_incarnations m a /\
  forall i, m !! i = if decide (i = c \/ is_set s = true /\ i = s)
                     then ac_incarnations a !! i else ac_incarnations a' !! i.
Proof.
  intros E1 E2 E3 E4 E5 E6 E7 E8.
  eexists. split; [| intros i; apply (restore_lookup (ac_incarnations a) (ac_incarnations a') c s i)].
  unfold restore_backup, capture_backup, restore_incarnation. simpl.
  destruct (is_set s) eqn:Hs; simpl; [destruct (s =? c); simpl |];
    unfold set_incarnations; simpl;
    rewrite E1, E2, E3, E4, E5, E6, E7, E8, resize_app_le, resize_all by done; by destruct a.
Qed.

Lemma restore_same a m : m = ac_incarnations a -> set_incarnations m a = a.
Proof. intros ->. by destruct a. Qed.

(** A decided refusal that could not be journaled is undone exactly. *)
Lemma undone_refusal_same rq a : undone_refusal rq a = a.
Proof.
  unfold undone_refusal. set (c := a_incarnation (rq_authority rq)).
  destruct (restore_shape a (count_refusal c a) c 0 []) as (m & -> & Hm);
    try done; [by rewrite app_nil_r |].
  apply restore_same, map_eq. intros i. rewrite Hm.
  destruct (decide (i = c \/ is_set 0 = true /\ i = 0)) as [Hd|Hd]; [done |].
  simpl. rewrite lookup_alter_ne; [done |]. intros <-. tauto.
Qed.

(** A commit that could not be journaled is undone exactly, except that a change
    of era leaves the other incarnations demoted. *)
Lemma undone_commit_shape rq a a' :
  verdict_frame rq a a' ->
  exists m, undone_commit rq a a' = set_incarnations m a /\
  forall i, m !! i = ac_incarnations a !! i \/
            is_era_op rq = true /\ m !! i = demote <$> (ac_incarnations a !! i).
Proof.
  intros [????????? [ext Hext] Hoth _]. unfold undone_commit.
  set (c := a_incarnation (rq_authority rq)) in *.
  destruct (restore_shape a (count_commit c a') c (subject_of rq) ext) as (m & -> & Hm); try done.
  exists m. split; [done |]. intros i. rewrite Hm.
  destruct (decide (i = c \/ is_set (subject_of rq) = true /\ i = subject_of rq)) as [Hd|Hd];
    [by left |].
  simpl. rewrite lookup_alter_ne by (intros <-; tauto). by apply Hoth.
Qed.

Lemma undone_commit_exact rq a a' :
  verdict_frame rq a a' -> is_era_op rq = false -> undone_commit rq a a' = a.
Proof.
  intros Hf He. destruct (undone_commit_shape rq a a' Hf) as (m & -> & Hm).
  apply restore_same, map_eq. intros i. destruct (Hm i) as [->|[? _]]; [done | congruence].
Qed.

Lemma undone_commit_ok limits rq a a' :
  account_ok limits a -> verdict_frame rq a a' -> account_ok limits (undone_commit rq a a').
Proof.
  intros Ha Hf. destruct (undone_commit_shape rq a a' Hf) as (m & -> & Hm).
  apply account_ok_map; [done | |].
  - eapply standing_demoted; [apply Ha |]. intros i. destruct (Hm i) as [->|[_ ->]]; auto.
  - intros i. unfold watermark_in. destruct (Hm i) as [->|[_ ->]]; [done |].
    destruct (ac_incarnations a !! i) as [r|]; simpl; [| done].
    by destruct (demote_cases r) as [[_ ->]|[_ ->]].
Qed.
