(* ===== verification/Safety.v ===== *)
(** * Safety of the live engine

    The engine invariant and the guarantees the engine gives its clients:
    closed ledgers, exactly-once decisions, permanent fences, authority that
    only moves forward, operator-only control, and a durability failure that
    stops the engine without acknowledging anything. *)

From S2P Require Import Prelude Checked Status Digest Ledger Authority Request Bytes Wire.
From S2P Require Import Record Journal Window Account Engine Steps Invariant Verdicts.
Local Open Scope Z_scope.

(** ** The engine invariant *)

Record limits_ok (l : EngineLimits) : Prop := {
  lo_accounts : 1 <= max_accounts l;
  lo_incarnations : 1 <= max_incarnations_per_account l;
  lo_fences : 1 <= max_fences_per_account l;
  lo_window : 1 <= max_attempt_window l;
  lo_ambiguous : 1 <= max_ambiguous_attempts l;
  lo_refusals : 1 <= max_refusal_log l;
}.

Section Safety.
Context {J : Type} `{Journal J}.
Implicit Types (e : Engine J) (rq : CreditRequest) (o : CreditOutcome).

Record engine_ok e : Prop := {
  eo_limits : limits_ok (e_limits e);
  eo_accounts : forall k a, e_accounts e !! k = Some a ->
                  account_ok (e_limits e) a /\ ac_account a = k;
  eo_count : Z.of_nat (size (e_accounts e)) <= max_accounts (e_limits e);
}.

(** ** Opening *)

Lemma open_refusal_none rq e :
  open_refusal rq e = None ->
  e_accounts e !! a_account (rq_authority rq) = None /\
  c_account (rq_config rq) = a_account (rq_authority rq) /\
  c_domain (rq_config rq) = a_domain (rq_authority rq) /\
  a_epoch (rq_authority rq) = 1 /\ a_generation (rq_authority rq) = 1 /\
  c_capacity (rq_config rq) <> 0 /\ c_capacity (rq_config rq) <= c_max_capacity (rq_config rq) /\
  Z.of_nat (size (e_accounts e)) < max_accounts (e_limits e) /\ rq_sequence rq = 1 /\
  challenge_verify (e_challenge e) (rq_presenter rq) (rq_authority rq) (rq_proof rq) = true.
Proof.
  unfold open_refusal. destruct (e_accounts e !! _); [done |].
  destruct (Z.eqb_spec (c_domain (rq_config rq)) (a_domain (rq_authority rq))); [| done].
  destruct (Z.eqb_spec (c_account (rq_config rq)) (a_account (rq_authority rq))); [| done].
  simpl. destruct (is_set (c_resource (rq_config rq))); [| done]. simpl.
  destruct (Z.eqb_spec (a_epoch (rq_authority rq)) 1); [| done].
  destruct (Z.eqb_spec (a_generation (rq_authority rq)) 1); [| done]. simpl.
  destruct (Z.eqb_spec (c_capacity (rq_config rq)) 0); [done |]. simpl.
  destruct (Z.ltb_spec (c_max_capacity (rq_config rq)) (c_capacity (rq_config rq))); [done |].
  assert (Hrest : forall k : option (Reason * Z),
    (if (min_issue (c_rules (rq_config rq)) =? 0) ||
        (max_issue_per_attempt (c_rules (rq_config rq)) <? min_issue (c_rules (rq_config rq)))
     then Some (RPolicyRefused, 1) else
     if Z.of_nat (size (e_accounts e)) >=? max_accounts (e_limits e)
     then Some (RBudgetExceeded, Z.of_nat (size (e_accounts e))) else
     if negb (rq_sequence rq =? 1) then Some (RSequenceGap, 1) else
     if negb (challenge_verify (e_challenge e) (rq_presenter rq) (rq_authority rq) (rq_proof rq))
     then Some (RReconciliationRequired, 4) else None) = None ->
    Z.of_nat (size (e_accounts e)) < max_accounts (e_limits e) /\ rq_sequence rq = 1 /\
    challenge_verify (e_challenge e) (rq_presenter rq) (rq_authority rq) (rq_proof rq) = true).
  { intros _. destruct (_ || _); [done |].
    destruct (Z.geb_spec (Z.of_nat (size (e_accounts e))) (max_accounts (e_limits e))); [done |].
    destruct (Z.eqb_spec (rq_sequence rq) 1); [| done]. simpl.
    by destruct (challenge_verify _ _ _ _). }
  destruct (c_profile (rq_config rq)); try done; intros (? & ? & ?)%(fun E => Hrest None E);
    by split_and!.
Qed.

Lemma opened_account_ok rq e :
  limits_ok (e_limits e) -> request_range rq -> open_refusal rq e = None ->
  account_ok (e_limits e) (opened_account (e_limits e) rq).
Proof.
  intros Hl Hr (_ & _ & _ & He & Hg & _ & Hc & _)%open_refusal_none.
  constructor; simpl.
  - constructor; [apply ledger_ok_fresh, Hr | done].
  - constructor.
    + intros i r [<- <-]%lookup_singleton_Some. done.
    + intros i r [<- <-]%lookup_singleton_Some. done.
    + intros i. split; [by intros ?%elem_of_nil |].
      by intros (r & [<- <-]%lookup_singleton_Some & ?).
    + rewrite map_size_singleton. apply Hl.
    + simpl. pose proof (lo_fences _ Hl). lia.
  - constructor.
    + apply window_make_wf. pose proof (lo_window _ Hl). lia.
    + intros i s x. unfold window_find, window_make. simpl. by rewrite lookup_empty.
    + intros i. unfold watermark_in. destruct (_ !! i) as [r|] eqn:E; [| word_lia].
      apply lookup_singleton_Some in E as [_ <-]. simpl. word_lia.
  - split; apply Hr.
  - pose proof (lo_refusals _ Hl). simpl. lia.
Qed.

(** ** Preservation *)

Lemma settled_ok e e' key a a' failed :
  engine_ok e -> e_accounts e !! key = Some a -> settled e e' key a' failed ->
  account_ok (e_limits e) a' -> ac_account a' = ac_account a -> engine_ok e'.
Proof.
  intros [Hl Ha Hc] Hk [Sl _ _ _ _ Sa _] Hok Hacc. constructor; rewrite ?Sl; [done | |].
  - intros k b. rewrite Sa. intros [[<- <-]|[_ Hb]]%lookup_insert_Some; [| by apply Ha].
    split; [done |]. rewrite Hacc. by apply Ha.
  - rewrite Sa, map_size_insert_Some; [done | by eauto].
Qed.

(** What the admission tests give about the account of an admitted request. *)
Record admitted e rq (a : AccountState) : Prop := {
  ad_account : e_accounts e !! a_account (rq_authority rq) = Some a;
  ad_op : rq_op rq <> Open /\ rq_op rq <> Describe;
  ad_auth : unauthorized (e_limits e) (i_id (e_operator e)) rq a = None;
  ad_fresh : window_find (a_incarnation (rq_authority rq), rq_sequence rq) (ac_window a) = None;
  ad_sequence : rq_sequence rq =
                watermark_in (ac_incarnations a) (a_incarnation (rq_authority rq)) + 1;
}.

Lemma admitted_intro e rq a :
  engine_ok e -> rq_op rq <> Open -> rq_op rq <> Describe ->
  e_accounts e !! a_account (rq_authority rq) = Some a ->
  unauthorized (e_limits e) (i_id (e_operator e)) rq a = None ->
  known_attempt rq a (initial_outcome rq) = None -> misplaced rq a = None -> admitted e rq a.
Proof.
  intros He Ho Hd Ha Hu [Hk _]%known_attempt_none Hm. constructor; try done.
  apply misplaced_none in Hm; [done |]. apply (eo_accounts _ He) in Ha as [Ha _].
  apply (wi_range _ _ (ao_window _ _ Ha)).
Qed.

Lemma count_map_watermark f i m j :
  f = incr_ir_committed \/ f = incr_ir_refused ->
  watermark_in (alter f i m) j = watermark_in m j.
Proof. intros [->| ->]; by apply watermark_alter. Qed.

(** The account after a durable decision is well formed. *)
Lemma committed_ok limits rq o a b :
  account_ok limits b -> verdict_frame rq a b -> in_u64 (rq_sequence rq) ->
  window_find (a_incarnation (rq_authority rq), rq_sequence rq) (ac_window a) = None ->
  watermark_in (ac_incarnations a) (a_incarnation (rq_authority rq)) <= rq_sequence rq ->
  is_Some (ac_incarnations b !! a_incarnation (rq_authority rq)) ->
  account_ok limits (committed_account rq o b).
Proof.
  intros Hb Hf Hs Hw Hle Hin. unfold committed_account. apply publish_ok; simpl; try done.
  - by apply count_commit_ok.
  - by rewrite (vf_window _ _ _ Hf).
  - rewrite count_map_watermark, (vf_watermark _ _ _ Hf) by auto. done.
  - by apply alter_is_Some.
Qed.

Lemma refused_ok limits rq o a b :
  account_ok limits b -> verdict_frame rq a b -> in_u64 (rq_sequence rq) ->
  window_find (a_incarnation (rq_authority rq), rq_sequence rq) (ac_window a) = None ->
  watermark_in (ac_incarnations a) (a_incarnation (rq_authority rq)) <= rq_sequence rq ->
  is_Some (ac_incarnations b !! a_incarnation (rq_authority rq)) ->
  account_ok limits (refused_account limits rq o b).
Proof.
  intros Hb Hf Hs Hw Hle Hin. unfold refused_account. apply record_refusal_ok, publish_ok; simpl; try done.
  - by apply count_refusal_ok.
  - by rewrite (vf_window _ _ _ Hf).
  - rewrite count_map_watermark, (vf_watermark _ _ _ Hf) by auto. done.
  - by apply alter_is_Some.
Qed.

(** The account that a settled decision leaves, with what is known about it. *)
Inductive settled_account e rq (a : AccountState) o : CreditOutcome -> AccountState -> bool -> Prop :=
| sa_refused r d b :
    verdict (e_challenge e) (e_limits e) rq a = VRefused r d b ->
    settled_account e rq a o (refused r d o) b (e_journal_failed e)
| sa_decided r d b :
    verdict (e_challenge e) (e_limits e) rq a = VDecided r d b ->
    settled_account e rq a o
      (observe (count_refusal (a_incarnation (rq_authority rq)) b) (decided_refusal r d o))
      (refused_account (e_limits e) rq (decided_refusal r d o) b) (e_journal_failed e)
| sa_decided_failed r d b o' :
    verdict (e_challenge e) (e_limits e) rq a = VDecided r d b ->
    o_applied o' = false -> o_decided o' = false -> o_duplicate o' = o_duplicate o ->
    settled_account e rq a o o' b true
| sa_applied b :
    verdict (e_challenge e) (e_limits e) rq a = VApplied b ->
    settled_account e rq a o
      (applied_outcome (count_commit (a_incarnation (rq_authority rq)) b) o)
      (committed_account rq o b) (e_journal_failed e)
| sa_applied_failed b o' :
    verdict (e_challenge e) (e_limits e) rq a = VApplied b ->
    o_applied o' = false -> o_decided o' = false -> o_duplicate o' = o_duplicate o ->
    settled_account e rq a o o' (undone_commit rq a b) true.

Lemma settle_case_account e rq a key o o' e' :
  settle_case e rq a key o (verdict (e_challenge e) (e_limits e) rq a) o' e' ->
  exists a' failed, settled_account e rq a o o' a' failed /\ settled e e' key a' failed.
Proof.
  intros Hs. remember (verdict (e_challenge e) (e_limits e) rq a) as v eqn:Hv. symmetry in Hv.
  inversion Hs; subst; simpl; eexists _, _; (split; [| eassumption]).
  - by eapply sa_refused.
  - by eapply sa_decided.
  - rewrite undone_refusal_same. by eapply sa_decided_failed.
  - by eapply sa_applied.
  - by eapply sa_applied_failed.
Qed.

Lemma settled_account_ok e rq a o o' a' failed :
  engine_ok e -> request_range rq -> admitted e rq a -> settled_account e rq a o o' a' failed ->
  account_ok (e_limits e) a' /\ ac_account a' = ac_account a.
Proof.
  intros He Hr [Hacc [Hop Hdes] Hu Hw Hseq] Hs.
  destruct (eo_accounts _ He _ _ Hacc) as [Ha _].
  destruct (verdict_spec (e_challenge e) (e_limits e) (i_id (e_operator e)) rq a)
    as [[Hok Hf _] Hin]; try done.
  pose proof (rr_sequence _ Hr) as Hrs.
  assert (Hle : watermark_in (ac_incarnations a) (a_incarnation (rq_authority rq)) <= rq_sequence rq)
    by lia.
  destruct Hs as [r d b Hv|r d b Hv|r d b o' Hv _ _ _|b Hv|b o' Hv _ _ _]; rewrite Hv in *; simpl in *.
  - by destruct Hf.
  - split; [by eapply refused_ok |]. unfold refused_account, record_refusal_locked.
    destruct (_ <? _); simpl; by destruct Hf.
  - by destruct Hf.
  - split; [by eapply committed_ok | by destruct Hf].
  - split; [by apply undone_commit_ok |].
    by destruct (undone_commit_shape rq a b Hf) as (m & -> & _).
Qed.

Lemma opened_published_ok rq o e :
  engine_ok e -> request_range rq -> open_refusal rq e = None ->
  account_ok (e_limits e) (publish_window_locked rq o (opened_account (e_limits e) rq)).
Proof.
  intros He Hr Ho. apply publish_ok; simpl; [| | | apply Hr |].
  - apply opened_account_ok; try done. apply He.
  - apply lookup_empty.
  - apply open_refusal_none in Ho as (_ & _ & _ & _ & _ & _ & _ & _ & Hs & _).
    unfold watermark_in. rewrite lookup_singleton_eq. simpl. lia.
  - rewrite lookup_singleton_eq. eauto.
Qed.

Lemma created_ok e rq e' :
  engine_ok e -> request_range rq -> open_refusal rq e = None ->
  settled e e' (a_account (rq_authority rq))
    (publish_window_locked rq (applied_outcome (opened_account (e_limits e) rq) (initial_outcome rq))
       (opened_account (e_limits e) rq)) (e_journal_failed e) ->
  engine_ok e'.
Proof.
  intros He Hr Ho [Sl _ _ _ _ Sa _]. pose proof (open_refusal_none _ _ Ho) as (Hn & Hk & _ & _ & _ & _ & _ & Hsz & _).
  constructor; rewrite ?Sl; [apply He | |].
  - intros k a. rewrite Sa. intros [[<- <-]|[_ Hb]]%lookup_insert_Some.
    + split; [by apply opened_published_ok | done].
    + by apply (eo_accounts _ He).
  - rewrite Sa, map_size_insert_None by done. lia.
Qed.

Lemma apply_ok_aux e rq o' e' :
  engine_ok e -> request_range rq -> apply rq e = (o', e') -> engine_ok e'.
Proof.
  intros He Hr Hap. apply apply_cases in Hap.
  destruct Hap as [o|a|a x|a o e' Ho Hd Ha Hm Hu Hk Hp Hs|e' Ho Hm Hop a o Hs|o e' _ _ Hacc Hl _ _ _ _].
  - done.
  - done.
  - destruct He. by constructor.
  - apply settle_case_account in Hs as (a' & failed & Hs & Hst).
    pose proof (admitted_intro _ _ _ He Ho Hd Ha Hu Hk Hp) as Had.
    destruct (settled_account_ok _ _ _ _ _ _ _ He Hr Had Hs). by eapply settled_ok.
  - by eapply created_ok.
  - destruct He. constructor; rewrite ?Hl, ?Hacc; done.
Qed.

Lemma snapshot_ok_aux e st e' : engine_ok e -> snapshot e = (st, e') -> engine_ok e'.
Proof.
  intros He. unfold snapshot. destruct (e_recovered e); [| by intros [= <- <-]].
  destruct (e_journal_failed e); [by intros [= <- <-] |]. simpl.
  intros [Hl _ _ _ Ha _ _ _ _ _]%snapshot_core. destruct He. constructor; rewrite ?Hl, ?Ha; done.
Qed.

(** ** Runs *)

Inductive Command := CApply (rq : CreditRequest) | CSnapshot.

Definition command_range (c : Command) : Prop :=
  match c with CApply rq => request_range rq | CSnapshot => True end.

(** One command; an attempt leaves its outcome. *)
Definition exec (c : Command) e : list (CreditRequest * CreditOutcome) * Engine J :=
  match c with
  | CApply rq => let '(o, e) := apply rq e in ([(rq, o)], e)
  | CSnapshot => let '(_, e) := snapshot e in ([], e)
  end.

Fixpoint run (cs : list Command) e : list (CreditRequest * CreditOutcome) * Engine J :=
  match cs with
  | [] => ([], e)
  | c :: cs =>
      let '(os1, e) := exec c e in
      let '(os2, e) := run cs e in
      (os1 ++ os2, e)
  end.

Lemma run_cons c cs e :
  run (c :: cs) e = ((exec c e).1 ++ (run cs (exec c e).2).1, (run cs (exec c e).2).2).
Proof. simpl. destruct (exec c e) as [os1 e1]. simpl. by destruct (run cs e1). Qed.

Lemma run_apply_cons rq rqs e :
  run (CApply <$> (rq :: rqs)) e =
  ((rq, (apply rq e).1) :: (run (CApply <$> rqs) (apply rq e).2).1,
   (run (CApply <$> rqs) (apply rq e).2).2).
Proof.
  rewrite fmap_cons, run_cons. unfold exec. by rewrite (surjective_pairing (apply rq e)).
Qed.

Lemma run_apply_app rqs1 rqs2 e :
  run (CApply <$> (rqs1 ++ rqs2)) e =
  ((run (CApply <$> rqs1) e).1 ++ (run (CApply <$> rqs2) (run (CApply <$> rqs1) e).2).1,
   (run (CApply <$> rqs2) (run (CApply <$> rqs1) e).2).2).
Proof.
  revert e. induction rqs1 as [|rq rqs1 IH]; intros e; [by rewrite (surjective_pairing (run _ e)) |].
  rewrite <-app_comm_cons, !run_apply_cons. cbn [fst snd]. by rewrite IH.
Qed.

Lemma exec_ok c e : engine_ok e -> command_range c -> engine_ok (exec c e).2.
Proof.
  intros He Hc. destruct c as [rq|]; simpl.
  - destruct (apply rq e) as [o e'] eqn:E. by eapply apply_ok_aux.
  - destruct (snapshot e) as [st e'] eqn:E. by eapply snapshot_ok_aux.
Qed.

Lemma run_ok cs e : engine_ok e -> Forall command_range cs -> engine_ok (run cs e).2.
Proof.
  revert e. induction cs as [|c cs IH]; [done |]. intros e He [Hc Hcs]%Forall_cons.
  rewrite run_cons. simpl. apply IH; [by apply exec_ok | done].
Qed.

(** A snapshot changes no account. *)
Lemma snapshot_accounts e : e_accounts (snapshot e).2 = e_accounts e.
Proof.
  unfold snapshot. destruct (e_recovered e); [| done]. destruct (e_journal_failed e); [done |].
  simpl. destruct (snapshot_locked e) as [st e'] eqn:E. by apply snapshot_core in E as [].
Qed.

(** ** Watermarks *)

Definition watermark e (k i : Z) : Z :=
  match e_accounts e !! k with Some a => watermark_in (ac_incarnations a) i | None => 0 end.

Lemma publish_watermark rq o a i :
  is_Some (ac_incarnations a !! a_incarnation (rq_authority rq)) ->
  watermark_in (ac_incarnations (publish_window_locked rq o a)) i =
  if decide (i = a_incarnation (rq_authority rq)) then rq_sequence rq
  else watermark_in (ac_incarnations a) i.
Proof.
  intros [r Hr]. unfold watermark_in. simpl. case_decide as Hi.
  - subst i. by rewrite lookup_alter_eq, Hr.
  - by rewrite lookup_alter_ne.
Qed.

Lemma record_refusal_map limits rq o a :
  ac_incarnations (record_refusal_locked limits rq o a) = ac_incarnations a.
Proof. unfold record_refusal_locked. by destruct (_ <? _). Qed.

(** A durable decision moves exactly the caller's watermark to its sequence;
    nothing else moves any watermark. *)
Lemma settled_watermark e rq a o o' a' failed i :
  engine_ok e -> request_range rq -> admitted e rq a -> o_applied o = false -> o_decided o = false ->
  settled_account e rq a o o' a' failed ->
  watermark_in (ac_incarnations a') i =
  if decide (i = a_incarnation (rq_authority rq) /\ o_decided o' = true) then rq_sequence rq
  else watermark_in (ac_incarnations a) i.
Proof.
  intros He Hr [Hacc [Hop Hdes] Hu Hw Hseq] Hoa Hod Hs.
  destruct (eo_accounts _ He _ _ Hacc) as [Ha _].
  destruct (verdict_spec (e_challenge e) (e_limits e) (i_id (e_operator e)) rq a)
    as [[Hok Hf _] Hin]; try done.
  destruct Hs as [r d b Hv|r d b Hv|r d b o' Hv _ Hd _|b Hv|b o' Hv _ Hd _]; rewrite Hv in *;
    cbn [verdict_account] in *.
  - simpl o_decided. rewrite decide_False by (rewrite Hod; by intros [_ ?]). apply Hf.
  - unfold refused_account. rewrite record_refusal_map, publish_watermark by (by apply alter_is_Some).
    destruct (decide (i = _)) as [->|Hi].
    + by rewrite decide_True.
    + rewrite decide_False by tauto. simpl. rewrite count_map_watermark by auto. apply Hf.
  - rewrite decide_False by (rewrite Hd; by intros [_ ?]). apply Hf.
  - unfold committed_account. cbv zeta. rewrite publish_watermark by (by apply alter_is_Some).
    destruct (decide (i = _)) as [->|Hi].
    + by rewrite decide_True.
    + rewrite decide_False by tauto. simpl. rewrite count_map_watermark by auto. apply Hf.
  - rewrite decide_False by (rewrite Hd; by intros [_ ?]).
    destruct (undone_commit_shape rq a b Hf) as (m & -> & Hm). simpl. unfold watermark_in.
    destruct (Hm i) as [->|[_ ->]]; [done |]. destruct (ac_incarnations a !! i) as [r|]; simpl; [| done].
    by destruct (demote_cases r) as [[_ ->]|[_ ->]].
Qed.

(** Whether a call consumed its sequence number. *)
Definition consumes_sequence o : bool :=
  o_decided o && negb (o_duplicate o) && negb (reason_eqb (reason (o_status o)) RAttemptConflict).

(** The watermarks after a call. *)
Lemma apply_watermark e rq o e' k i :
  engine_ok e -> request_range rq -> apply rq e = (o, e') ->
  (watermark e' k i = watermark e k i \/
   k = a_account (rq_authority rq) /\ i = a_incarnation (rq_authority rq) /\
   watermark e' k i = rq_sequence rq /\ rq_sequence rq = watermark e k i + 1) /\
  (o_applied o = true \/ consumes_sequence o = true ->
   rq_sequence rq = watermark e (a_account (rq_authority rq)) (a_incarnation (rq_authority rq)) + 1 /\
   watermark e' (a_account (rq_authority rq)) (a_incarnation (rq_authority rq)) = rq_sequence rq).
Proof.
  intros He Hr Hap. apply apply_cases in Hap.
  destruct Hap as [o Hoa Hod _|a|a x|a o e' Ho Hd Ha Hm Hu Hk Hp Hs|e' Ho Hm Hop a o Hs
    |o e' _ _ Hacc Hl _ _ _ _ Hoa Hod _].
  - split; [by left |]. unfold consumes_sequence. rewrite Hoa, Hod. by intros [].
  - split; [by left |]. intros []; done.
  - split; [by left |]. by intros [].
  - apply settle_case_account in Hs as (a' & failed & Hs & [_ _ _ _ _ Sa _]).
    pose proof (admitted_intro _ _ _ He Ho Hd Ha Hu Hk Hp) as Had.
    assert (Hi : forall i, watermark_in (ac_incarnations a') i =
      if decide (i = a_incarnation (rq_authority rq) /\ o_decided o = true) then rq_sequence rq
      else watermark_in (ac_incarnations a) i) by (intros j; eapply (settled_watermark e rq a); [done | done | done | | | exact Hs]; done).
    pose proof (ad_sequence _ _ _ Had) as Hseq. unfold watermark. rewrite Sa. split.
    + destruct (decide (k = a_account (rq_authority rq))) as [->|Hne].
      * rewrite lookup_insert_eq, Ha, Hi.
        destruct (decide (i = a_incarnation (rq_authority rq) /\ o_decided o = true)) as [Hc|];
          [| by left]. destruct Hc as [-> _]. by right.
      * rewrite lookup_insert_ne by done. by left.
    + intros Hx. rewrite lookup_insert_eq, Ha, Hi. rewrite decide_True; [done |]. split; [done |].
      destruct Hx as [Hx|Hx]; [| unfold consumes_sequence in Hx; by destruct (o_decided o)].
      destruct Hs; simpl in *; congruence.
  - destruct Hs as [_ _ _ _ _ Sa _].
    apply open_refusal_none in Hop as (Hn & _ & _ & _ & _ & _ & _ & _ & Hs & _).
    assert (Hw : forall i, watermark_in (ac_incarnations (publish_window_locked rq o a)) i =
      if decide (i = a_incarnation (rq_authority rq)) then rq_sequence rq else 0).
    { intros j. rewrite publish_watermark by (simpl; rewrite lookup_singleton_eq; eauto).
      case_decide; [done |]. unfold watermark_in. simpl. by rewrite lookup_singleton_ne. }
    unfold watermark. rewrite Sa. split.
    + destruct (decide (k = a_account (rq_authority rq))) as [->|Hne].
      * rewrite lookup_insert_eq, Hn, Hw. case_decide; [right; split_and!; done | by left].
      * rewrite lookup_insert_ne by done. by left.
    + intros _. rewrite lookup_insert_eq, Hn, Hw, decide_True by done. done.
  - split; [left; unfold watermark; by rewrite Hacc |]. unfold consumes_sequence. rewrite Hoa, Hod. by intros [].
Qed.

End Safety.
