(* ===== verification/Sample.v ===== *)
(** * A concrete engine

    One account of capacity 100 with 20 credits outstanding, on an in-memory
    journal, with the operator's live incarnation, another live incarnation and
    a fenced one.  It satisfies the engine invariant and is what the theorems
    are evaluated on. *)

From S2P Require Import Prelude Checked Status Digest Ledger Authority Request Bytes Wire.
From S2P Require Import Record Journal Window Account Engine Steps Invariant Verdicts Safety.
Local Open Scope Z_scope.

Definition operator_id : Z := Eval vm_compute in make_incarnation_id 7 8.

Definition operator : Incarnation := mkIncarnation 7 8 operator_id.

Lemma operator_id_eq : make_incarnation_id 7 8 = operator_id.
Proof. vm_compute. reflexivity. Qed.

Definition sample_nonce : Digest128 := mkDigest 3 4.

Definition sample_config : AccountConfig := mkConfig 1 2 5 0 100 200 Abstract policy_default.

Definition live_record (id publisher boot : Z) : IncarnationRecord :=
  mkRecord id publisher boot Reconciled 1 1 digest_zero 0 0 0 0 1 0 0.

Definition fenced_record : IncarnationRecord :=
  mkRecord 66 0 0 Fenced 0 0 digest_zero 0 0 0 0 0 0 1.

Definition sample_map : gmap Z IncarnationRecord :=
  <[operator_id := live_record operator_id 7 8]> (<[55 := live_record 55 9 9]>
    {[66 := fenced_record]}).

Definition sample_account : AccountState :=
  mkAccount sample_config 1 2 1 1 100 (mkTotals 20 0 0 0 0 0) false ROk (window_make 8192)
    sample_map [mkFence 66 1 1 RUnknownState 1 0] [] [] 0 1 0.

Definition sample_engine_on (max_bytes : Z) : Engine InMemoryJournal :=
  mkEngine default_limits true (memory_make max_bytes) operator sample_nonce
    {[2 := sample_account]} 1 digest_zero 0 0 stats_zero true false.

Definition sample_engine : Engine InMemoryJournal := sample_engine_on 1000000.

(** An engine whose journal refuses every append. *)
Definition failing_engine : Engine InMemoryJournal := sample_engine_on 0.

(** A recovered engine with no accounts. *)
Definition empty_engine : Engine InMemoryJournal :=
  mkEngine default_limits true (memory_make 1000000) operator sample_nonce ∅ 1 digest_zero 0 0
    stats_zero true false.

(** ** Requests *)

Definition sample_vector : AuthorityVector := mkVector 1 2 1 1 operator_id.

Definition base_request (op : OpKind) (sequence count producer target : Z) (a : AuthorityVector)
    : CreditRequest :=
  mkRequest (mkDigest 100 sequence) op sequence a operator 0 producer 0 0 target count 0
    digest_zero digest_zero sample_config DecisionNone RUnknownState [].

Definition issue_request (sequence count : Z) : CreditRequest :=
  base_request Issue sequence count 0 0 sample_vector.

(** An [Issue] of more than is available that names a producer for the first time. *)
Definition binding_request : CreditRequest := base_request Issue 1 500 9 0 sample_vector.

Definition advance_request : CreditRequest := base_request AdvanceEpoch 1 0 0 0 sample_vector.

(** A request presented for the fenced incarnation. *)
Definition fenced_request : CreditRequest := base_request Issue 1 1 0 0 (mkVector 1 2 1 1 66).

(** A request of an era before the first. *)
Definition stale_request : CreditRequest := base_request Issue 1 1 0 0 (mkVector 1 2 0 0 operator_id).

Definition open_request : CreditRequest :=
  mkRequest (mkDigest 100 1) Open 1 sample_vector operator 0 0 0 0 0 0 0
    (challenge_compute sample_nonce operator sample_vector) digest_zero sample_config DecisionNone
    RUnknownState [].

Lemma base_request_range op sequence count producer target a :
  in_u64 sequence -> in_u64 count -> in_u64 (a_epoch a) -> in_u64 (a_generation a) ->
  request_range (base_request op sequence count producer target a).
Proof. intros. constructor; simpl; done || word_lia. Qed.

Lemma operator_id_range : in_u64 operator_id.
Proof. unfold operator_id. word_lia. Qed.

Lemma operator_request_wf max q :
  rq_presenter q = operator -> rq_authority q = sample_vector -> rq_config q = sample_config ->
  rq_note q = [] -> 0 <= max -> digest_range (rq_attempt q) -> in_u64 (rq_sequence q) ->
  in_u64 (rq_resource q) -> in_u64 (rq_producer q) -> in_u64 (rq_consumer q) ->
  in_u64 (rq_grant q) -> in_u64 (rq_target q) -> in_u64 (rq_count q) -> in_u64 (rq_new_capacity q) ->
  digest_range (rq_proof q) -> digest_range (rq_expected_state q) -> request_wf max q.
Proof.
  intros Hp Ha Hc Hn Hm. pose proof operator_id_range. constructor; try assumption.
  - rewrite Ha. constructor; simpl; word_lia.
  - rewrite Hp. constructor; simpl; word_lia.
  - rewrite Hc. constructor; simpl; word_lia.
  - rewrite Hn. simpl. lia.
Qed.

Lemma issue_request_wf max sequence count :
  0 <= max -> in_u64 sequence -> in_u64 count -> request_wf max (issue_request sequence count).
Proof.
  intros. apply operator_request_wf; try reflexivity; try assumption; unfold digest_range; simpl; word_lia.
Qed.

Lemma open_request_range : request_range open_request.
Proof. constructor; simpl; word_lia. Qed.

(** ** The invariant *)

Lemma default_limits_ok : limits_ok default_limits.
Proof. constructor; simpl; lia. Qed.

Lemma sample_map_cases i r :
  sample_map !! i = Some r ->
  (i = operator_id /\ r = live_record operator_id 7 8) \/ (i = 55 /\ r = live_record 55 9 9) \/
  (i = 66 /\ r = fenced_record).
Proof.
  unfold sample_map. intros [[<- <-]|[_ Hr]]%lookup_insert_Some; [by left |].
  apply lookup_insert_Some in Hr as [[<- <-]|[_ Hr]]; [by right; left |].
  apply lookup_singleton_Some in Hr as [<- <-]. by right; right.
Qed.

Lemma sample_account_ok : account_ok default_limits sample_account.
Proof.
  constructor; simpl.
  - constructor; [| simpl; lia]. constructor; simpl; unfold totals_range; simpl; split_and?; word_lia.
  - constructor.
    + intros i r [[-> ->]|[[-> ->]|[-> ->]]]%sample_map_cases; done.
    + intros i r [[-> ->]|[[-> ->]|[-> ->]]]%sample_map_cases; done.
    + intros i. unfold fence_ids. simpl. rewrite list_elem_of_singleton. split.
      * intros ->. by exists fenced_record.
      * by intros (r & [[-> ->]|[[-> ->]|[-> ->]]]%sample_map_cases & Hs).
    + by vm_compute.
    + simpl. lia.
  - constructor.
    + apply window_make_wf. lia.
    + intros i s x. unfold window_find, window_make. simpl. by rewrite lookup_empty.
    + intros i. unfold watermark_in. destruct (sample_map !! i) as [r|] eqn:E; [| word_lia].
      apply sample_map_cases in E as [[-> ->]|[[-> ->]|[-> ->]]]; simpl; word_lia.
  - split; word_lia.
  - simpl. lia.
Qed.

Lemma sample_engine_ok max_bytes : engine_ok (sample_engine_on max_bytes).
Proof.
  constructor; [apply default_limits_ok | |].
  - intros k a Ha. simpl in Ha. apply lookup_singleton_Some in Ha as [<- <-]. split; [apply sample_account_ok | done].
  - simpl. rewrite map_size_singleton. simpl. lia.
Qed.

(** ** Evaluations *)

Lemma issue_applied : o_applied (apply (issue_request 1 5) sample_engine).1 = true.
Proof. vm_compute. reflexivity. Qed.

Lemma issue_consumed : consumes_sequence (apply (issue_request 1 5) sample_engine).1 = true.
Proof. vm_compute. reflexivity. Qed.
