(* ===== verification/Guarantees.v ===== *)
(** * What the engine guarantees its clients

    Theorems about every run of the live engine, over any journal: calls and
    snapshots in any order, from any state satisfying the invariant. *)

From S2P Require Import Prelude Checked Status Digest Ledger Authority Request Bytes Wire.
From S2P Require Import Record Journal Window Account Engine Steps Invariant Verdicts Safety.
From S2P Require Import Sample.
Local Open Scope Z_scope.

(** ** Starting points *)

Lemma clamp_limits_ok l :
  0 <= max_accounts l -> 0 <= max_incarnations_per_account l -> 0 <= max_fences_per_account l ->
  0 <= max_attempt_window l -> 0 <= max_ambiguous_attempts l -> 0 <= max_refusal_log l ->
  limits_ok (clamp_limits l).
Proof.
  intros. constructor; simpl; unfold clamp;
    match goal with |- context [?x =? 0] => destruct (Z.eqb_spec x 0) end; lia.
Qed.

Section Guarantees.
Context {J : Type} `{Journal J}.
Implicit Types (e : Engine J) (rq : CreditRequest) (o : CreditOutcome).

Lemma empty_engine_ok e : e_accounts e = ∅ -> limits_ok (e_limits e) -> engine_ok e.
Proof.
  intros He Hl. constructor; [done | |]; rewrite He; [done |].
  rewrite map_size_empty. pose proof (lo_accounts _ Hl). lia.
Qed.

(** ** Closed ledgers *)

Lemma exact_view_partition c t :
  ledger_ok c t ->
  let v := exact_view c t in
  v_closed v = true /\
  v_available v + v_protected v + v_outstanding v + v_spent v + v_stale v = v_capacity v /\
  0 <= v_available v /\ 0 <= v_outstanding v.
Proof. intros Ht. unfold exact_view. simpl. ledger_lia. Qed.

(** C1: In every state the engine can reach, every account's ledger is closed:
    available, protected, outstanding, spent and quarantined credit partition
    the capacity exactly, no bucket is negative, and the capacity never exceeds
    the configured maximum.  Commands may be refused, fail in the journal, or be
    interleaved with snapshots. *)
Theorem engine_ledgers_always_closed e cs k a :
  e_accounts e = ∅ -> limits_ok (e_limits e) -> Forall command_range cs ->
  e_accounts (run cs e).2 !! k = Some a ->
  let v := account_view a in
  v_closed v = true /\
  v_available v + v_protected v + v_outstanding v + v_spent v + v_stale v = ac_capacity a /\
  0 <= v_available v /\ 0 <= v_protected v /\ 0 <= v_outstanding v /\ 0 <= v_spent v /\
  0 <= v_stale v /\ ac_capacity a <= c_max_capacity (ac_config a).
Proof.
  intros He Hl Hcs Ha. pose proof (run_ok cs e (empty_engine_ok e He Hl) Hcs) as Hok.
  apply (eo_accounts _ Hok) in Ha as [[[Hled Hmax] _ _ _ _] _].
  unfold account_view. rewrite compute_view_ok by done.
  destruct (exact_view_partition _ _ Hled) as (H1 & H2 & H3 & H4). simpl in *.
  split_and!; try done; ledger_lia.
Qed.

(** ** Bounded memory *)

(** The window of an account has the configured size. *)
Definition windows_configured e : Prop :=
  forall k a, e_accounts e !! k = Some a -> aw_limit (ac_window a) = max_attempt_window (e_limits e).

Lemma publish_limit limits rq o a :
  account_ok limits a ->
  window_find (a_incarnation (rq_authority rq), rq_sequence rq) (ac_window a) = None ->
  aw_limit (ac_window (publish_window_locked rq o a)) = aw_limit (ac_window a).
Proof. intros Ha Hw. apply window_insert_limit; [apply (ao_window _ _ Ha) | exact Hw]. Qed.

Lemma settled_limit e rq a o o' a' failed :
  engine_ok e -> request_range rq -> admitted e rq a -> settled_account e rq a o o' a' failed ->
  aw_limit (ac_window a') = aw_limit (ac_window a).
Proof.
  intros He Hr [Hacc [Hop Hdes] Hu Hw Hseq] Hs.
  destruct (eo_accounts _ He _ _ Hacc) as [Ha _].
  destruct (verdict_spec (e_challenge e) (e_limits e) (i_id (e_operator e)) rq a)
    as [[Hok Hf _] _]; try done.
  destruct Hs as [r d b Hv|r d b Hv|r d b o' Hv|b Hv|b o' Hv]; rewrite Hv in *; simpl in *;
    rewrite <-(vf_window _ _ _ Hf) in Hw |- *; try done.
  - assert (Hp : forall o1, aw_limit (ac_window (publish_window_locked rq o1
        (count_refusal (a_incarnation (rq_authority rq)) b))) = aw_limit (ac_window b)).
    { intros o1.
      by apply (publish_limit (e_limits e) rq o1 (count_refusal (a_incarnation (rq_authority rq)) b));
        [apply count_refusal_ok |]. }
    unfold refused_account, record_refusal_locked. destruct (_ <? _); apply Hp.
  - unfold committed_account.
    by apply (publish_limit (e_limits e) rq _ (count_commit (a_incarnation (rq_authority rq)) b)); [apply count_commit_ok |].
  - rewrite (vf_window _ _ _ Hf). by destruct (undone_commit_shape rq a b Hf) as (m & -> & _).
Qed.

Lemma exec_windows c e :
  engine_ok e -> command_range c -> windows_configured e ->
  windows_configured (exec c e).2 /\ e_limits (exec c e).2 = e_limits e.
Proof.
  intros He Hc Hw. destruct c as [rq|]; simpl.
  2: { pose proof (snapshot_accounts e) as Ha.
       assert (El : e_limits (snapshot e).2 = e_limits e).
       { unfold snapshot. destruct (e_recovered e); [| done]. destruct (e_journal_failed e); [done |].
         simpl. destruct (snapshot_locked e) as [st e'] eqn:E. by apply snapshot_core in E as []. }
       destruct (snapshot e). simpl in *. split; [| done]. intros k a. rewrite Ha, El. apply Hw. }
  destruct (apply rq e) as [o e'] eqn:E. apply apply_cases in E. simpl.
  destruct E as [o|a|a x|a o e' Ho Hd Ha Hm Hu Hk Hp Hs|e' Ho Hm Hop a o [Sl _ _ _ _ Sa _]
    |o e' _ _ Hacc Hl]; try done.
  - apply settle_case_account in Hs as (b & failed & Hs & [Sl _ _ _ _ Sa _]).
    pose proof (admitted_intro _ _ _ He Ho Hd Ha Hu Hk Hp) as Had. split; [| done].
    intros k x. rewrite Sa, Sl. intros [[<- <-]|[_ Hx]]%lookup_insert_Some; [| by eapply Hw].
    rewrite (settled_limit _ _ _ _ _ _ _ He Hc Had Hs). by eapply Hw.
  - split; [| done]. intros k x. rewrite Sa, Sl.
    intros [[<- <-]|[_ Hx]]%lookup_insert_Some; [| by eapply Hw].
    subst a. rewrite (publish_limit (e_limits e)); [| apply opened_account_ok; try done; apply He | apply lookup_empty].
    simpl. pose proof (lo_window _ (eo_limits _ He)).
    by destruct (Z.eqb_spec (max_attempt_window (e_limits e)) 0); [lia |].
  - split; [| done]. intros k x. rewrite Hacc, Hl. apply Hw.
Qed.

Lemma run_windows cs e :
  engine_ok e -> Forall command_range cs -> windows_configured e ->
  windows_configured (run cs e).2 /\ e_limits (run cs e).2 = e_limits e.
Proof.
  revert e. induction cs as [|c cs IH]; [done |]. intros e He [Hc Hcs]%Forall_cons Hw.
  rewrite run_cons. simpl. destruct (exec_windows c e He Hc Hw) as [Hw1 El].
  destruct (IH (exec c e).2) as [? El2]; [by apply exec_ok | done | done |]. split; [done | congruence].
Qed.

(** Both indexes of a well-formed window are as small as its order. *)
Lemma window_sizes w :
  window_wf w -> Z.of_nat (size (aw_by_key w)) <= aw_limit w /\ Z.of_nat (size (aw_by_attempt w)) <= aw_limit w.
Proof.
  intros Hw. pose proof (ww_bound _ Hw) as Hb.
  assert (Hk : (size (aw_by_key w) <= length (aw_order w))%nat).
  { rewrite <-size_dom, <-(size_list_to_set (C:=gset Key) (aw_order w)) by apply (ww_nodup _ Hw).
    apply subseteq_size. intros k Hk. apply elem_of_list_to_set, (ww_order _ Hw). by apply elem_of_dom. }
  split; [lia |]. etrans; [| exact Hb]. apply Nat2Z.inj_le. etrans; [| exact Hk].
  rewrite <-!size_dom.
  set (f := fun k => if aw_by_key w !! k is Some x then we_attempt x else digest_zero).
  assert (Hsub : dom (aw_by_attempt w) ⊆ list_to_set (f <$> elements (dom (aw_by_key w)))).
  { intros d [k Hk2]%elem_of_dom. destruct (ww_attempt _ Hw _ _ Hk2) as (x & Hx & <-).
    apply elem_of_list_to_set, list_elem_of_fmap. exists k. unfold f. rewrite Hx. split; [done |].
    by apply elem_of_elements, elem_of_dom. }
  apply subseteq_size in Hsub. etrans; [exact Hsub |].
  etrans; [apply size_list_to_set_le |]. by rewrite length_fmap.
Qed.

(** C20: In every state an engine that starts empty can reach, everything it keeps
    in memory is within the limits it was configured with: accounts, and per
    account incarnations, fences, the refusal log, and the attempt window with
    both its indexes; no attempt is kept twice in a window; and each account sits
    under its own identity. *)
Theorem engine_memory_bounded e cs k a :
  e_accounts e = ∅ -> limits_ok (e_limits e) -> Forall command_range cs ->
  e_accounts (run cs e).2 !! k = Some a ->
  let limits := e_limits e in
  Z.of_nat (size (e_accounts (run cs e).2)) <= max_accounts limits /\ ac_account a = k /\
  Z.of_nat (size (ac_incarnations a)) <= max_incarnations_per_account limits /\
  Z.of_nat (length (ac_fences a)) <= max_fences_per_account limits /\
  Z.of_nat (length (ac_refusals a)) <= max_refusal_log limits /\
  Z.of_nat (length (window_identities (ac_window a))) <= max_attempt_window limits /\
  Z.of_nat (size (aw_by_key (ac_window a))) <= max_attempt_window limits /\
  Z.of_nat (size (aw_by_attempt (ac_window a))) <= max_attempt_window limits /\
  NoDup (window_identities (ac_window a)).
Proof.
  intros He Hl Hcs Ha. pose proof (empty_engine_ok e He Hl) as Hok0.
  destruct (run_windows cs e Hok0 Hcs) as [Hw El]; [intros j b; by rewrite He |].
  pose proof (run_ok cs e Hok0 Hcs) as Hok. pose proof (Hw _ _ Ha) as Hlim.
  pose proof (eo_count _ Hok) as Hc. apply (eo_accounts _ Hok) in Ha as [[_ Hs [Hwin _ _] _ Hr] Hk].
  destruct (window_sizes _ Hwin). rewrite El in *. destruct Hs, Hwin. unfold window_identities. split_and!; done || lia.
Qed.

(** ** Exactly once *)

(** Every attempt of a run lies at or above the watermark the run started with. *)
Lemma run_above cs e rq o :
  engine_ok e -> Forall command_range cs -> (rq, o) ∈ (run cs e).1 ->
  o_applied o = true \/ consumes_sequence o = true ->
  watermark e (a_account (rq_authority rq)) (a_incarnation (rq_authority rq)) < rq_sequence rq.
Proof.
  revert e. induction cs as [|c cs IH]; intros e He Hcs Hin Hx; [by apply elem_of_nil in Hin |].
  apply Forall_cons in Hcs as [Hc Hcs]. rewrite run_cons in Hin. simpl in Hin.
  apply elem_of_app in Hin as [Hin|Hin].
  - destruct c as [rq'|]; simpl in Hin.
    + destruct (apply rq' e) as [o' e'] eqn:E. apply list_elem_of_singleton in Hin as [= -> ->].
      destruct (apply_watermark e rq' o' e' 0 0 He Hc E) as [_ Hw]. apply Hw in Hx. lia.
    + destruct (snapshot e). by apply elem_of_nil in Hin.
  - apply IH in Hin; [| by apply exec_ok | done | done].
    eapply Z.le_lt_trans; [| exact Hin].
    destruct c as [rq'|]; simpl.
    + destruct (apply rq' e) as [o' e'] eqn:E.
      destruct (apply_watermark e rq' o' e' (a_account (rq_authority rq))
                  (a_incarnation (rq_authority rq)) He Hc E) as [[Hw|Hw] _]; simpl; lia.
    + unfold watermark. pose proof (snapshot_accounts e) as Hs. destruct (snapshot e). simpl in *.
      by rewrite Hs.
Qed.

(** C2: Exactly once: in any run, two different attempts that were applied (or
    decided against the ledger) for the same account and incarnation have
    strictly increasing sequence numbers, so no (incarnation, sequence) pair is
    ever decided twice, whatever is retried, refused or snapshotted between. *)
Theorem decided_sequences_increase e cs pre mid post rq1 o1 rq2 o2 :
  engine_ok e -> Forall command_range cs ->
  (run cs e).1 = pre ++ (rq1, o1) :: mid ++ (rq2, o2) :: post ->
  o_applied o1 = true \/ consumes_sequence o1 = true -> o_applied o2 = true \/ consumes_sequence o2 = true ->
  a_account (rq_authority rq1) = a_account (rq_authority rq2) ->
  a_incarnation (rq_authority rq1) = a_incarnation (rq_authority rq2) ->
  rq_sequence rq1 < rq_sequence rq2.
Proof.
  revert e pre. induction cs as [|c cs IH]; intros e pre He Hcs Hrun H1 H2 Hk Hi.
  { simpl in Hrun. by destruct pre. }
  apply Forall_cons in Hcs as [Hc Hcs]. rewrite run_cons in Hrun. simpl in Hrun.
  pose proof (exec_ok c e He Hc) as He1.
  destruct c as [rq|]; simpl in *.
  - destruct (apply rq e) as [o e1] eqn:E. simpl in *. destruct pre as [|x pre].
    + injection Hrun. clear Hrun. intros Hrest -> ->.
      destruct (apply_watermark e rq1 o1 e1 0 0 He Hc E) as [_ Hw]. destruct (Hw H1) as [_ Hw1].
      rewrite <-Hw1, Hk, Hi. apply (run_above cs e1 rq2 o2); try done.
      rewrite Hrest. apply elem_of_app. right. left.
    + injection Hrun as _ Hrest. by eapply (IH e1 pre).
  - destruct (snapshot e) as [st e1]. simpl in *. by eapply (IH e1 pre).
Qed.

(** ** Fences *)

Definition fenced e (k i : Z) : Prop :=
  exists a, e_accounts e !! k = Some a /\ is_fenced i a = true.

Lemma settled_fences e rq a o o' a' failed i :
  engine_ok e -> request_range rq -> admitted e rq a -> settled_account e rq a o o' a' failed ->
  is_fenced i a = true -> is_fenced i a' = true.
Proof.
  intros He Hr [Hacc [Hop Hdes] Hu Hw Hseq] Hs. rewrite !is_fenced_elem. intros Hi.
  destruct (eo_accounts _ He _ _ Hacc) as [Ha _].
  destruct (verdict_spec (e_challenge e) (e_limits e) (i_id (e_operator e)) rq a)
    as [[Hok Hf _] _]; try done.
  assert (Hext : i ∈ fence_ids (ac_fences (verdict_account (verdict (e_challenge e) (e_limits e) rq a)))).
  { destruct (vf_fences _ _ _ Hf) as [ext ->]. unfold fence_ids. rewrite fmap_app.
    apply elem_of_app. by left. }
  destruct Hs as [r d b Hv|r d b Hv|r d b o' Hv|b Hv|b o' Hv]; rewrite Hv in *; simpl in *; try done.
  - unfold refused_account, record_refusal_locked. by destruct (_ <? _).
  - by destruct (undone_commit_shape rq a b Hf) as (m & -> & _).
Qed.

(** An account, once there, stays through every command. *)
Lemma exec_account c e k a :
  engine_ok e -> command_range c -> e_accounts e !! k = Some a ->
  exists a', e_accounts (exec c e).2 !! k = Some a' /\
  (forall i, is_fenced i a = true -> is_fenced i a' = true) /\
  ac_epoch a <= ac_epoch a' /\ ac_generation a <= ac_generation a'.
Proof.
  intros He Hc Ha. destruct c as [rq|]; simpl.
  2: { pose proof (snapshot_accounts e) as Hs. destruct (snapshot e). simpl in *. rewrite Hs. eauto with lia. }
  destruct (apply rq e) as [o e'] eqn:E. apply apply_cases in E. simpl.
  destruct E as [o|b|b x|b o e' Ho Hd Hb Hm Hu Hk Hp Hs|e' Ho Hm Hop b o [_ _ _ _ _ Sa _]
    |o e' _ _ Hacc]; try (exists a; by eauto with lia).
  - apply settle_case_account in Hs as (b' & failed & Hs & [_ _ _ _ _ Sa _]).
    pose proof (admitted_intro _ _ _ He Ho Hd Hb Hu Hk Hp) as Had. rewrite Sa.
    destruct (decide (k = a_account (rq_authority rq))) as [->|Hne].
    + simplify_eq. exists b'. rewrite lookup_insert_eq. split; [done |].
      split; [intros; by eapply settled_fences |].
      destruct (eo_accounts _ He _ _ Ha) as [Hok _].
      destruct (verdict_spec (e_challenge e) (e_limits e) (i_id (e_operator e)) rq a)
        as [[_ Hf _] _]; try done.
      destruct Hs as [r d b Hv|r d b Hv|r d b o' Hv|b Hv|b o' Hv]; rewrite Hv in *; simpl in *;
        try by destruct Hf.
      * unfold refused_account, record_refusal_locked. destruct (_ <? _); by destruct Hf.
      * destruct (undone_commit_shape rq a b Hf) as (m & -> & _). simpl. lia.
    + rewrite lookup_insert_ne by done. eauto with lia.
  - apply open_refusal_none in Hop as (Hn & _). rewrite Sa.
    rewrite lookup_insert_ne; [eauto with lia |]. intros <-. congruence.
  - rewrite Hacc. eauto with lia.
Qed.

Lemma run_account cs e k a :
  engine_ok e -> Forall command_range cs -> e_accounts e !! k = Some a ->
  exists a', e_accounts (run cs e).2 !! k = Some a' /\
  (forall i, is_fenced i a = true -> is_fenced i a' = true) /\
  ac_epoch a <= ac_epoch a' /\ ac_generation a <= ac_generation a'.
Proof.
  revert e a. induction cs as [|c cs IH]; intros e a He Hcs Ha; [eauto with lia |].
  apply Forall_cons in Hcs as [Hc Hcs]. rewrite run_cons. simpl.
  destruct (exec_account c e k a He Hc Ha) as (a1 & Ha1 & Hf1 & Hep1 & Hg1).
  destruct (IH (exec c e).2 a1) as (a2 & Ha2 & Hf2 & Hep2 & Hg2); try done; [by apply exec_ok |].
  exists a2. split_and!; [done | auto | lia | lia].
Qed.

(** An admission refusal ends the call with nothing changed. *)
Lemma apply_unauthorized e rq a refusal :
  e_accounts e !! a_account (rq_authority rq) = Some a ->
  unauthorized (e_limits e) (i_id (e_operator e)) rq a = Some refusal ->
  (apply rq e).2 = e /\ o_applied (apply rq e).1 = false /\ o_decided (apply rq e).1 = false /\
  (e_recovered e = true -> e_journal_failed e = false -> malformed (e_limits e) rq = None ->
   rq_op rq <> Open -> rq_op rq <> Describe ->
   o_status (apply rq e).1 = refused_status refusal.1 refusal.2).
Proof.
  intros Ha Hu. unfold apply.
  destruct (e_recovered e); simpl; [| by split_and!].
  destruct (e_journal_failed e); simpl; [by split_and! |]. unfold apply_locked.
  destruct (malformed (e_limits e) rq) as [[r d]|]; simpl; [by split_and! |].
  assert (Hop : (create_account_locked rq (initial_outcome rq) e) =
                (refused RAccountExists (a_account (rq_authority rq)) (initial_outcome rq), e)).
  { unfold create_account_locked, open_refusal. by rewrite Ha. }
  assert (Hdec : decide_locked (a_account (rq_authority rq)) a rq (initial_outcome rq) e =
                 (refused refusal.1 refusal.2 (initial_outcome rq), e)).
  { unfold decide_locked. rewrite Hu. by destruct refusal. }
  rewrite Ha. destruct (rq_op rq); rewrite ?Hdec; try by split_and!.
  - destruct (negb _); by split_and!.
  - rewrite Hop. by split_and!.
Qed.

Lemma unauthorized_fenced limits operator rq a :
  account_ok limits a -> is_fenced (a_incarnation (rq_authority rq)) a = true ->
  exists refusal, unauthorized limits operator rq a = Some refusal /\
  (a_domain (rq_authority rq) = ac_domain a -> a_epoch (rq_authority rq) = ac_epoch a ->
   a_generation (rq_authority rq) = ac_generation a ->
   refusal = (RFencedIncarnation, a_incarnation (rq_authority rq))).
Proof.
  intros Ha Hf. pose proof Hf as Hf'.
  apply is_fenced_elem, (si_fenced _ _ _ _ _ (ao_standing _ _ Ha)) in Hf' as (r & Hr & Hst).
  unfold unauthorized, find_incarnation.
  destruct (Z.eqb_spec (a_domain (rq_authority rq)) (ac_domain a)); simpl; [| by eexists].
  destruct (Z.eqb_spec (a_epoch (rq_authority rq)) (ac_epoch a)); simpl; [| by eexists].
  destruct (Z.eqb_spec (a_generation (rq_authority rq)) (ac_generation a)); simpl; [| by eexists].
  eexists. rewrite Hf, Hr, Hst. destruct (op_eqb (rq_op rq) Reconcile); by split.
Qed.

(** C14: A fence is permanent: once an incarnation is fenced on an account it stays
    fenced through every later command, and no request it presents on that
    account is ever applied, decided or even changes the engine; a well-formed
    request of the current era is refused as [FencedIncarnation]. *)
Theorem fence_is_permanent e cs k i rq :
  engine_ok e -> Forall command_range cs -> fenced e k i ->
  a_account (rq_authority rq) = k -> a_incarnation (rq_authority rq) = i ->
  let e' := (run cs e).2 in
  fenced e' k i /\
  (apply rq e').2 = e' /\ o_applied (apply rq e').1 = false /\ o_decided (apply rq e').1 = false /\
  (forall a, e_accounts e' !! k = Some a -> e_recovered e' = true -> e_journal_failed e' = false ->
   malformed (e_limits e') rq = None -> rq_op rq <> Open -> rq_op rq <> Describe ->
   a_domain (rq_authority rq) = ac_domain a -> a_epoch (rq_authority rq) = ac_epoch a ->
   a_generation (rq_authority rq) = ac_generation a ->
   o_status (apply rq e').1 = refused_status RFencedIncarnation i).
Proof.
  intros He Hcs (a & Ha & Hf) Hk Hi e'. pose proof (run_ok cs e He Hcs) as He'. fold e' in He'.
  destruct (run_account cs e k a He Hcs Ha) as (a' & Ha' & Hf' & _). fold e' in Ha'.
  specialize (Hf' i Hf). split; [by exists a' |]. subst k i.
  destruct (eo_accounts _ He' _ _ Ha') as [Hok _].
  destruct (unauthorized_fenced (e_limits e') (i_id (e_operator e')) rq a' Hok Hf')
    as (refusal & Hu & Hr).
  destruct (apply_unauthorized e' rq a' refusal Ha' Hu) as (H1 & H2 & H3 & H4).
  split_and!; [done.. |]. intros b Hb ????????. simplify_eq. rewrite H4, Hr by done. done.
Qed.

Lemma unauthorized_stale limits operator rq a :
  a_epoch (rq_authority rq) <> ac_epoch a \/ a_generation (rq_authority rq) <> ac_generation a ->
  exists refusal, unauthorized limits operator rq a = Some refusal /\
  (a_domain (rq_authority rq) = ac_domain a -> refusal = (RStaleAuthority, ac_generation a)).
Proof.
  intros Hne. unfold unauthorized.
  destruct (Z.eqb_spec (a_domain (rq_authority rq)) (ac_domain a)); simpl; [| by eexists].
  destruct (Z.eqb_spec (a_epoch (rq_authority rq)) (ac_epoch a)); simpl; [| by eexists].
  destruct (Z.eqb_spec (a_generation (rq_authority rq)) (ac_generation a)); simpl; [| by eexists].
  tauto.
Qed.

(** C15: Authority never goes back: the epoch and generation of an account never
    decrease, and for the rest of the run a request that carries an epoch or a
    generation below the one the account has reached is never applied or decided
    and changes nothing.  On a recovered and healthy engine, when it is well
    formed, in the domain of the account and neither an [Open] nor a [Describe],
    it is refused as [StaleAuthority]. *)
Theorem stale_authority_never_applies e cs k a rq :
  engine_ok e -> Forall command_range cs -> e_accounts e !! k = Some a ->
  a_account (rq_authority rq) = k ->
  a_epoch (rq_authority rq) < ac_epoch a \/ a_generation (rq_authority rq) < ac_generation a ->
  let e' := (run cs e).2 in
  exists a', e_accounts e' !! k = Some a' /\
  ac_epoch a <= ac_epoch a' /\ ac_generation a <= ac_generation a' /\
  (apply rq e').2 = e' /\ o_applied (apply rq e').1 = false /\ o_decided (apply rq e').1 = false /\
  (e_recovered e' = true -> e_journal_failed e' = false -> malformed (e_limits e') rq = None ->
   rq_op rq <> Open -> rq_op rq <> Describe -> a_domain (rq_authority rq) = ac_domain a' ->
   o_status (apply rq e').1 = refused_status RStaleAuthority (ac_generation a')).
Proof.
  intros He Hcs Ha Hk Hst e'.
  destruct (run_account cs e k a He Hcs Ha) as (a' & Ha' & _ & Hep & Hg). fold e' in Ha'.
  subst k. destruct (unauthorized_stale (e_limits e') (i_id (e_operator e')) rq a')
    as (refusal & Hu & Hr); [lia |].
  destruct (apply_unauthorized e' rq a' refusal Ha' Hu) as (H1 & H2 & H3 & H4).
  exists a'. split_and!; [done.. |]. intros ??????. by rewrite H4, Hr by done.
Qed.

(** ** Authorization *)

Lemma malformed_none limits rq :
  malformed limits rq = None ->
  i_id (rq_presenter rq) = a_incarnation (rq_authority rq) /\
  make_incarnation_id (i_publisher (rq_presenter rq)) (i_boot (rq_presenter rq)) =
    a_incarnation (rq_authority rq) /\
  rq_sequence rq <> 0 /\ Z.of_nat (length (rq_note rq)) <= max_note_bytes limits /\
  (op_requires_count (rq_op rq) = true -> rq_count rq <> 0).
Proof.
  unfold malformed. destruct (is_set (i_id (rq_presenter rq))); simpl; [| done].
  destruct (Z.eqb_spec (i_id (rq_presenter rq)) (a_incarnation (rq_authority rq))) as [E|]; simpl; [| done].
  destruct (Z.eqb_spec (make_incarnation_id (i_publisher (rq_presenter rq)) (i_boot (rq_presenter rq)))
    (i_id (rq_presenter rq))) as [E2|]; simpl; [| done].
  destruct (negb _ || negb _); [done |].
  destruct (Z.eqb_spec (rq_sequence rq) 0); [done |].
  destruct (Z.gtb_spec (Z.of_nat (length (rq_note rq))) (max_note_bytes limits)); [done |].
  destruct (op_requires_count (rq_op rq)); simpl;
    [destruct (Z.eqb_spec (rq_count rq) 0); [done |] |]; intros _; split_and!; try done; congruence.
Qed.

(** The standing a request needs on an account to be applied. *)
Definition entitled e rq (a : AccountState) : Prop :=
  a_domain (rq_authority rq) = ac_domain a /\ a_epoch (rq_authority rq) = ac_epoch a /\
  a_generation (rq_authority rq) = ac_generation a /\
  (classify (rq_op rq) = OpControl -> a_incarnation (rq_authority rq) = i_id (e_operator e)) /\
  is_fenced (a_incarnation (rq_authority rq)) a = false /\
  if op_eqb (rq_op rq) Reconcile
  then challenge_verify (e_challenge e) (rq_presenter rq) (rq_authority rq) (rq_proof rq) = true
  else exists r, ac_incarnations a !! a_incarnation (rq_authority rq) = Some r /\
         is_live (ac_epoch a) (ac_generation a) r = true.

Lemma live_state epoch generation r : is_live epoch generation r = true -> ir_state r = Reconciled.
Proof. unfold is_live. rewrite !andb_true_iff. intros [[Hs _] _]. by apply state_eqb_eq. Qed.

(** C3: Nothing is applied without authority.  If a call is applied, the engine
    was recovered and healthy, the presenter's publisher and boot hash to the
    incarnation it acts for, and either it opened an account that did not exist
    with a valid proof for this boot's challenge, or the account existed, domain,
    epoch and generation matched exactly, the caller was not fenced, was the
    operator for a control operation, and: for a reconciliation, its proof answers
    this boot's challenge; for any other operation, it was live, reconciled in the
    current era. *)
Theorem applied_requires_live_authority e rq o e' :
  engine_ok e -> apply rq e = (o, e') -> o_applied o = true ->
  e_recovered e = true /\ e_journal_failed e = false /\
  i_id (rq_presenter rq) = a_incarnation (rq_authority rq) /\
  make_incarnation_id (i_publisher (rq_presenter rq)) (i_boot (rq_presenter rq)) =
    a_incarnation (rq_authority rq) /\
  match e_accounts e !! a_account (rq_authority rq) with
  | None => rq_op rq = Open /\
      challenge_verify (e_challenge e) (rq_presenter rq) (rq_authority rq) (rq_proof rq) = true
  | Some a => rq_op rq <> Open /\ entitled e rq a
  end.
Proof.
  intros He Hap Ho. apply apply_cases in Hap as Hc.
  assert (Hh : e_recovered e = true /\ e_journal_failed e = false).
  { unfold apply in Hap. destruct (e_recovered e); [| by simplify_eq/=].
    destruct (e_journal_failed e); [by simplify_eq/= | done]. }
  destruct Hh as [Hh1 Hh2]. split; [done |]. split; [done |].
  destruct Hc as [o|a|a x|a o e' Hop Hd Ha Hm Hu Hk Hp Hs|e' Hop Hm Hor a o Hs|o e']; try done;
    try congruence.
  - apply malformed_none in Hm as (Hm1 & Hm2 & _). split; [done |]. split; [done |].
    rewrite Ha. split; [done |]. destruct (unauthorized_none _ _ _ _ Hu) as (U1 & U2 & U3 & U4 & U5).
    destruct (eo_accounts _ He _ _ Ha) as [Hok _].
    unfold entitled. split_and!; try done.
    + destruct (op_eqb (rq_op rq) Reconcile); [by destruct U5 |].
      destruct U5 as (r & Hr & Hl%live_state). destruct (is_fenced _ a) eqn:Hf; [| done].
      apply is_fenced_elem, (si_fenced _ _ _ _ _ (ao_standing _ _ Hok)) in Hf as (r' & Hr' & Hs').
      unfold find_incarnation in Hr. congruence.
    + destruct (op_eqb (rq_op rq) Reconcile) eqn:Hrec; [| done].
      apply settle_case_account in Hs as (a' & failed & Hs & _).
      destruct Hs as [r d b Hv|r d b Hv|r d b o' Hv|b Hv|b o' Hv]; simpl in *; try congruence.
      unfold verdict in Hv. apply op_eqb_eq in Hrec. rewrite Hrec in Hv. simpl in Hv.
      by destruct (challenge_verify _ _ _ _).
  - apply malformed_none in Hm as (Hm1 & Hm2 & _). split; [done |]. split; [done |].
    apply open_refusal_none in Hor as (Hn & _ & _ & _ & _ & _ & _ & _ & _ & Hv). by rewrite Hn.
Qed.

End Guarantees.

(** ** The theorems on concrete runs *)

Definition opening : list Command := [CApply open_request].

Lemma opening_range : Forall command_range opening.
Proof. constructor; [apply open_request_range | constructor]. Qed.

(** The account an opening creates on the empty engine. *)
Definition opened : option AccountState := e_accounts (run opening empty_engine).2 !! 2.

Lemma opened_present : is_Some opened.
Proof. apply not_eq_None_Some. vm_compute. done. Qed.

Lemma engine_ledgers_always_closed_witness :
  exists a, opened = Some a /\ v_closed (account_view a) = true.
Proof.
  destruct opened_present as [a Ha]. exists a. split; [done |].
  by apply (engine_ledgers_always_closed empty_engine opening 2 a eq_refl default_limits_ok opening_range).
Defined.

Lemma engine_memory_bounded_witness :
  exists a, opened = Some a /\ ac_account a = 2.
Proof.
  destruct opened_present as [a Ha]. exists a. split; [done |].
  by apply (engine_memory_bounded empty_engine opening 2 a eq_refl default_limits_ok opening_range).
Defined.

Definition two_issues : list Command := [CApply (issue_request 1 5); CApply (issue_request 2 7)].

Lemma issue_request_range s c : in_u64 s -> in_u64 c -> request_range (issue_request s c).
Proof. intros. apply base_request_range; simpl; done || word_lia. Qed.

Lemma two_issues_range : Forall command_range two_issues.
Proof. repeat constructor; simpl; word_lia. Qed.

(** The outcomes of two calls in a row. *)
Lemma run_two rq1 rq2 (e : Engine InMemoryJournal) :
  (run [CApply rq1; CApply rq2] e).1 =
  [(rq1, (apply rq1 e).1); (rq2, (apply rq2 (apply rq1 e).2).1)].
Proof.
  rewrite run_cons. unfold exec at 1 2. rewrite (surjective_pairing (apply rq1 e)). cbn [fst snd].
  rewrite run_cons. unfold exec. by rewrite (surjective_pairing (apply rq2 _)).
Qed.

Lemma second_issue_applied :
  o_applied (apply (issue_request 2 7) (apply (issue_request 1 5) sample_engine).2).1 = true.
Proof. vm_compute. reflexivity. Qed.

Lemma decided_sequences_increase_witness : 1 < 2.
Proof.
  apply (decided_sequences_increase sample_engine two_issues [] [] []
    (issue_request 1 5) (apply (issue_request 1 5) sample_engine).1
    (issue_request 2 7) (apply (issue_request 2 7) (apply (issue_request 1 5) sample_engine).2).1
    (sample_engine_ok _) two_issues_range (run_two _ _ _)
    (or_introl issue_applied) (or_introl second_issue_applied) eq_refl eq_refl).
Defined.

Lemma sample_fenced : fenced sample_engine 2 66.
Proof. by exists sample_account. Qed.

Lemma fence_is_permanent_witness :
  o_applied (apply fenced_request (run two_issues sample_engine).2).1 = false.
Proof.
  pose proof (fence_is_permanent sample_engine two_issues 2 66 fenced_request (sample_engine_ok _)
    two_issues_range sample_fenced eq_refl eq_refl) as Hf. cbv zeta in Hf.
  destruct Hf as (_ & _ & Ho & _). exact Ho.
Defined.

Lemma stale_authority_never_applies_witness :
  o_applied (apply stale_request (run two_issues sample_engine).2).1 = false.
Proof.
  pose proof (stale_authority_never_applies sample_engine two_issues 2 sample_account stale_request
    (sample_engine_ok _) two_issues_range eq_refl eq_refl (or_introl eq_refl)) as Hs. cbv zeta in Hs.
  destruct Hs as (a & _ & _ & _ & _ & Ho & _). exact Ho.
Defined.

Lemma applied_requires_live_authority_witness :
  o_applied (apply (issue_request 1 5) sample_engine).1 = true /\
  entitled sample_engine (issue_request 1 5) sample_account.
Proof.
  split; [apply issue_applied |].
  by apply (applied_requires_live_authority sample_engine (issue_request 1 5)
    (apply (issue_request 1 5) sample_engine).1 (apply (issue_request 1 5) sample_engine).2
    (sample_engine_ok _) (surjective_pairing _) issue_applied).
Defined.
