(* ===== verification/Durability.v ===== *)
(** * Durability of the live engine

    Write-ahead: a decision is acknowledged only after its intent and its
    outcome are in the journal.  A journal failure acknowledges nothing, undoes
    the decision and stops the engine.  A retried attempt is answered from the
    window. *)

From S2P Require Import Prelude Checked Status Digest Ledger Authority Request Bytes Wire.
From S2P Require Import Record Journal Window Account Engine Steps Invariant Verdicts Safety.
From S2P Require Import Sample.
Local Open Scope Z_scope.

Section Durability.
Context {J : Type} `{Journal J}.
Implicit Types (e : Engine J) (rq : CreditRequest) (o : CreditOutcome).

(** ** Failure *)

Lemma latched_apply e rq :
  e_recovered e = true -> e_journal_failed e = true ->
  apply rq e = (refused RIoError 2 (initial_outcome rq), e).
Proof. intros Hr Hf. unfold apply. by rewrite Hr, Hf. Qed.

Lemma latched_snapshot e :
  e_recovered e = true -> e_journal_failed e = true ->
  snapshot e = (refused_status RIoError 3, e).
Proof. intros Hr Hf. unfold snapshot. by rewrite Hr, Hf. Qed.

(** An [Issue] that names no producer, consumer or grant. *)
Definition binds_nothing rq : Prop := rq_producer rq = 0 /\ rq_consumer rq = 0 /\ rq_grant rq = 0.

Lemma bind_nothing rq r : binds_nothing rq -> bind_issue rq r = inr r.
Proof. intros (H1 & H2 & H3). unfold bind_issue, bind_identity. by rewrite H1, H2, H3. Qed.

(** A decided refusal leaves the account as it was, bindings of an [Issue] apart. *)
Lemma verdict_decided_same nonce limits rq a r d b :
  rq_op rq <> Issue \/ binds_nothing rq ->
  verdict nonce limits rq a = VDecided r d b -> b = a.
Proof.
  intros Hb. unfold verdict.
  assert (HL : forall x r d y, ledger_verdict rq x = VDecided r d y -> y = x).
  { intros x r0 d0 y. unfold ledger_verdict. destruct (ledger_apply _ _ _). by case_match; intros [= <-]. }
  assert (HP : forall res f x r d y, plan_step res f x = VDecided r d y -> y = x).
  { intros res f x r0 d0 y. unfold plan_step. by case_match; intros [= <-]. }
  assert (HD : data_verdict rq a = VDecided r d b -> b = a).
  { unfold data_verdict. destruct (negb _); [done |].
    destruct (_ && _); [by intros [= <-] |].
    destruct (op_eqb (rq_op rq) Issue) eqn:Hi; [| by apply HL].
    destruct (find_incarnation _ a) as [x|] eqn:Hx; [| done].
    destruct Hb as [Hb|Hb]; [by apply op_eqb_eq in Hi |]. rewrite bind_nothing by done.
    intros ->%HL. unfold put_incarnation. apply restore_same. by apply insert_id. }
  assert (HE : era_verdict rq a = VDecided r d b -> b = a).
  { unfold era_verdict. repeat case_match; try done; by intros [= <-]. }
  assert (HF : fence_verdict limits rq a = VDecided r d b -> b = a).
  { unfold fence_verdict. repeat case_match; try done; by intros [= <-]. }
  destruct (classify (rq_op rq)).
  - repeat case_match; done.
  - repeat case_match; done.
  - destruct (_ && _); [done |]. unfold control_verdict.
    destruct (rq_op rq); try done; try by apply HP.
    all: repeat case_match; try done; try (by intros [= <-]); by apply HP.
Qed.

(** The call is an [Issue] that names identities and that the ledger refuses: its
    identities are bound before the refusal and before the backup is taken. *)
Definition refused_binding e rq : Prop :=
  rq_op rq = Issue /\ ~ binds_nothing rq /\
  exists a r d b, e_accounts e !! a_account (rq_authority rq) = Some a /\
    verdict (e_challenge e) (e_limits e) rq a = VDecided r d b.

Lemma decided_elsewhere_same e rq a r d b :
  e_accounts e !! a_account (rq_authority rq) = Some a -> ~ refused_binding e rq ->
  verdict (e_challenge e) (e_limits e) rq a = VDecided r d b -> b = a.
Proof.
  intros Ha Hn Hv. eapply verdict_decided_same; [| exact Hv].
  destruct (decide (rq_op rq = Issue)) as [Hop|]; [right | by left].
  destruct (decide (rq_producer rq = 0 /\ rq_consumer rq = 0 /\ rq_grant rq = 0)) as [|Hb]; [done |].
  destruct Hn. split; [done |]. split; [done |]. by eexists _, _, _, _.
Qed.

(** C13: A journal failure is fail-stop: if a call trips the failure latch, its
    outcome is neither applied nor decided; from then on every call is refused
    with [RIoError] 2 and every snapshot with [RIoError] 3, with nothing changed;
    and, except for a change of era and for an [Issue] that the ledger refuses
    after identities were bound for it, every account is exactly what it was
    before the call, identities bound by the failed call included. *)
Theorem journal_failure_is_fail_stop e rq o e' :
  engine_ok e -> request_range rq -> apply rq e = (o, e') ->
  e_journal_failed e = false -> e_journal_failed e' = true ->
  o_applied o = false /\ o_decided o = false /\
  (forall rq2, apply rq2 e' = (refused RIoError 2 (initial_outcome rq2), e')) /\
  snapshot e' = (refused_status RIoError 3, e') /\
  (is_era_op rq = false -> ~ refused_binding e rq -> e_accounts e' = e_accounts e).
Proof.
  intros He Hr Hap Hf Hf'.
  assert (Hrec : e_recovered e = true).
  { unfold apply in Hap. destruct (e_recovered e); [done |]. simplify_eq/=. congruence. }
  assert (Hlatch : forall (o : CreditOutcome), e_recovered e' = e_recovered e ->
    o_applied o = false -> o_decided o = false ->
    (is_era_op rq = false -> ~ refused_binding e rq -> e_accounts e' = e_accounts e) ->
    o_applied o = false /\ o_decided o = false /\
    (forall rq2, apply rq2 e' = (refused RIoError 2 (initial_outcome rq2), e')) /\
    snapshot e' = (refused_status RIoError 3, e') /\
    (is_era_op rq = false -> ~ refused_binding e rq -> e_accounts e' = e_accounts e)).
  { intros o0 Hr' H1 H2 H3. rewrite Hrec in Hr'.
    split_and!; auto using latched_apply, latched_snapshot. }
  apply apply_cases in Hap.
  destruct Hap as [o|a|a x|a o e' Ho Hd Ha Hm Hu Hk Hp Hs|e' Ho Hm Hop a o [_ _ _ _ _ _ Sf]|o e'];
    simpl in *; try congruence.
  - apply settle_case_account in Hs as (b & failed & Hs & [_ _ _ _ Sr Sa Sf]).
    rewrite Sf in Hf'. subst failed. destruct (eo_accounts _ He _ _ Ha) as [Hok _].
    destruct (verdict_spec (e_challenge e) (e_limits e) (i_id (e_operator e)) rq a)
      as [[_ Hfr _] _]; try done.
    apply Hlatch; [done | | |].
    + destruct Hs; simpl in *; congruence.
    + destruct Hs; simpl in *; congruence.
    + intros Hera Hb. rewrite Sa. apply insert_id. rewrite Ha. f_equal.
      inversion Hs as [r d b0 Hv|r d b0 Hv|r d b0 o1 Hv|b0 Hv|b0 o1 Hv]; subst; try congruence.
      * symmetry. by eapply decided_elsewhere_same.
      * rewrite Hv in Hfr. symmetry. by apply undone_commit_exact.
  - by apply Hlatch.
Qed.

(** ** A change of era that fails is not undone completely *)

(** A change of era whose commit cannot be journaled restores the totals, the
    epoch, the generation and the caller's record, but leaves every other
    reconciled incarnation demoted to unknown, although the era it was
    reconciled in is current again. *)
Theorem failed_era_change_demotes_others e rq o e' a i r :
  engine_ok e -> request_range rq -> apply rq e = (o, e') ->
  e_journal_failed e = false -> e_journal_failed e' = true -> is_era_op rq = true ->
  e_accounts e !! a_account (rq_authority rq) = Some a ->
  ac_incarnations a !! i = Some r -> ir_state r = Reconciled ->
  i <> a_incarnation (rq_authority rq) -> i <> rq_target rq ->
  exists a' r', e_accounts e' !! a_account (rq_authority rq) = Some a' /\
  ac_epoch a' = ac_epoch a /\ ac_generation a' = ac_generation a /\ ac_totals a' = ac_totals a /\
  ac_incarnations a' !! i = Some r' /\ ir_state r' = Unknown.
Proof.
  intros He Hr Hap Hf Hf' Hera Ha0 Hi Hst Hne Hnt. apply apply_cases in Hap.
  assert (Hop0 : rq_op rq = AdvanceEpoch \/ rq_op rq = Rotate).
  { unfold is_era_op in Hera. by apply orb_true_iff in Hera as [?%op_eqb_eq|?%op_eqb_eq]; auto. }
  destruct Hap as [o|b|b x|b o e' Ho Hd Ha Hm Hu Hk Hp Hs|e' Ho|o e' Ho];
    simpl in *; try congruence; try (destruct Hop0; congruence).
  assert (b = a) as -> by congruence. clear Ha0. destruct (eo_accounts _ He _ _ Ha) as [Hok _].
  assert (Hct : classify (rq_op rq) = OpControl) by (by destruct Hop0 as [-> | ->]).
  assert (Hv : verdict (e_challenge e) (e_limits e) rq a = VRefused RStaleEvidence 1 a \/
               verdict (e_challenge e) (e_limits e) rq a = era_verdict rq a).
  { unfold verdict, control_verdict. rewrite Hct. destruct (_ && _); [by left | right].
    by destruct Hop0 as [-> | ->]. }
  apply settle_case_account in Hs as (b & failed & Hs & [_ _ _ _ _ Sa Sf]).
  rewrite Sf in Hf'. subst failed.
  destruct (era_verdict_cases (e_limits e) rq a Hok (rr_count _ Hr))
    as [(r0 & d0 & E)|(ep & g & E & _)].
  { rewrite E in Hv. inversion Hs; subst; destruct Hv; congruence. }
  assert (Hb : b = undone_commit rq a
                 (enter_era (exact_totals LQuarantine (ac_totals a)) ep g a)).
  { rewrite E in Hv. inversion Hs; subst; destruct Hv; simplify_eq; congruence. }
  clear Hs Hv. exists b. rewrite Sa, lookup_insert_eq.
  unfold undone_commit in Hb. rewrite subject_control in Hb by done.
  destruct (restore_shape a (count_commit (a_incarnation (rq_authority rq))
    (enter_era (exact_totals LQuarantine (ac_totals a)) ep g a))
    (a_incarnation (rq_authority rq)) (rq_target rq) []) as (m & Hm1 & Hm2); try done.
  { simpl. by rewrite app_nil_r. }
  rewrite Hm1 in Hb. subst b. exists (set_ir_state Unknown r). split_and!; try done. simpl.
  rewrite Hm2. destruct (decide (i = a_incarnation (rq_authority rq) \/
    is_set (rq_target rq) = true /\ i = rq_target rq)) as [[?|[_ ?]]|_]; try done.
  simpl. rewrite lookup_alter_ne, lookup_fmap, Hi by done. simpl. f_equal.
  by destruct (demote_cases r) as [[_ ->]|[? _]].
Qed.

(** ** Replays *)

(** The window entry a durable decision publishes. *)
Lemma settled_window e rq a o o' a' failed :
  engine_ok e -> request_range rq -> admitted e rq a -> o_decided o = false ->
  settled_account e rq a o o' a' failed -> o_decided o' = true ->
  exists x, window_find (a_incarnation (rq_authority rq), rq_sequence rq) (ac_window a') = Some x /\
  we_request x = request_digest rq /\ we_status x = o_status o' /\ failed = e_journal_failed e.
Proof.
  intros He Hr [Hacc [Hop Hdes] Hu Hw Hseq] Hod Hs Hd.
  destruct (eo_accounts _ He _ _ Hacc) as [Ha _].
  destruct (verdict_spec (e_challenge e) (e_limits e) (i_id (e_operator e)) rq a)
    as [[_ Hf _] _]; try done.
  assert (Hins : forall b p, ac_window b = ac_window a ->
    window_find (a_incarnation (rq_authority rq), rq_sequence rq)
      (ac_window (publish_window_locked rq p b)) = Some (window_entry rq p)).
  { intros b p Hb. simpl. rewrite Hb. apply (window_insert_find _ (window_entry rq p)); [apply Ha | done]. }
  destruct Hs as [r d b Hv|r d b Hv|r d b o' Hv|b Hv|b o' Hv]; rewrite Hv in Hf; simpl in Hd;
    try congruence; destruct Hf as [??? Hwin].
  - unfold refused_account, record_refusal_locked. eexists.
    destruct (_ <? _); (split; [by apply Hins | done]).
  - eexists. split; [by apply Hins | done].
Qed.

(** C16: Duplicates are absorbed: if an attempt other than an [Open] consumed its
    sequence number and its authority still stands after it, presenting the same
    request again right away returns the recorded status, marked as a duplicate
    and not as applied, and changes nothing but the counter of absorbed
    duplicates. *)
Theorem duplicate_is_absorbed e rq o e' a' :
  engine_ok e -> request_range rq -> apply rq e = (o, e') -> consumes_sequence o = true ->
  rq_op rq <> Open -> e_accounts e' !! a_account (rq_authority rq) = Some a' ->
  unauthorized (e_limits e') (i_id (e_operator e')) rq a' = None ->
  exists o2, apply rq e' = (o2, set_stats (incr_st_duplicates (e_stats e')) e') /\
  o_status o2 = o_status o /\ o_duplicate o2 = true /\ o_applied o2 = false /\ o_decided o2 = true.
Proof.
  intros He Hr Hap Hc Hno Ha' Hu'. apply apply_cases in Hap as Hcase.
  assert (Hh : e_recovered e = true /\ e_journal_failed e = false).
  { unfold apply in Hap. destruct (e_recovered e); [| by simplify_eq/=].
    destruct (e_journal_failed e); [by simplify_eq/= | done]. }
  unfold consumes_sequence in Hc.
  destruct Hcase as [o _ Hod|a|a x|a o e' Ho Hd Ha Hm Hu Hk Hp Hs|e' Ho|o e' Ho]; simpl in Hc;
    try done; [by rewrite Hod in Hc |].
  pose proof (admitted_intro _ _ _ He Ho Hd Ha Hu Hk Hp) as Had.
  apply settle_case_account in Hs as (b & failed & Hs & [Sl _ Sop _ Sr Sa Sf]).
  rewrite Sa, lookup_insert_eq in Ha'. simplify_eq.
  assert (Hod : o_decided o = true) by (by destruct (o_decided o)).
  destruct (settled_window e rq a (set_outcome_era a (initial_outcome rq)) o a' _
    He Hr Had eq_refl Hs Hod) as (x & Hx & Hq & Hst & Hf).
  eexists. unfold apply, apply_locked, decide_locked, known_attempt.
  rewrite Sr, Hf, Sl, Hm. destruct Hh as [-> ->]. simpl negb. cbv iota.
  rewrite Sa, lookup_insert_eq. rewrite Sl in Hu'. rewrite Hu', Hx, Hq, digest_eqb_refl.
  split; [by destruct (rq_op rq) |]. by split_and!.
Qed.

(** ** Write-ahead *)

Context `{!JournalLaws J}.

(** The two records of one decided attempt. *)
Definition commit_entries e rq o (a : AccountState) (created : bool) : list LogEntry :=
  let s1 := e_next_sequence e in
  let s2 := wrap64 (s1 + 1) in
  [mkLog s1 KIntent (intent_chain (e_chain e) s1 rq) (encode_request_message rq);
   mkLog s2 KAttempt (commit_chain (e_chain e) s2 rq o)
     (encode_durable_attempt (durable_attempt rq o a created (e_stats e)))].

(** The snapshot that may follow them: written, then the log rotated past it. *)
Definition snapshotted (log : list LogEntry) (j : J) (accounts : gmap Z AccountState) : Prop :=
  exists (e1 : Engine J) (s : Z),
    e_accounts e1 = accounts /\ e_next_sequence e1 = s /\
    let payload := encode_durable_state (snapshot_state e1) in
    j_snap j = Some (s, e_chain e1, payload) /\
    j_log j = filter (fun x => s < lg_sequence x)
                (log ++ [mkLog s KSnapshot (e_chain e1) payload]).

Lemma append_log s k c p e st e' :
  append_record s k c p e = (st, e') -> status_ok st = true ->
  j_log (e_journal e') = j_log (e_journal e) ++ [mkLog s k c p] /\
  j_snap (e_journal e') = j_snap (e_journal e) /\ e' = set_journal (e_journal e') e.
Proof.
  unfold append_record. destruct (j_append s k c p (e_journal e)) as [st1 j1] eqn:E.
  intros [= -> <-] Hst. simpl. apply append_ok in E as [-> ->]; [| done]. by split_and!.
Qed.

Lemma snapshot_log e st e' :
  snapshot_locked e = (st, e') -> status_ok st = true ->
  snapshotted (j_log (e_journal e)) (e_journal e') (e_accounts e).
Proof.
  unfold snapshot_locked. destruct (e_has_journal e); [| by intros [= <- <-]]. simpl negb. cbv iota.
  destruct (append_record _ _ _ _ e) as [s1 e1] eqn:E1.
  destruct (status_ok s1) eqn:H1; simpl; [| intros [= <- <-]; congruence].
  apply append_log in E1 as (L1 & N1 & E1); [| done].
  destruct (j_write_snapshot _ _ _ _) as [s2 j2] eqn:E2.
  destruct (status_ok s2) eqn:H2; simpl; [| intros [= <- <-]; congruence].
  destruct (j_rotate _ _) as [s3 j3] eqn:E3.
  destruct (status_ok s3) eqn:H3; simpl; [| intros [= <- <-]; congruence].
  intros [= <- <-] _. apply write_snapshot_ok in E2 as [L2 N2]; [| done].
  apply rotate_ok in E3 as [L3 N3]; [| done].
  exists e, (e_next_sequence e). split; [done |]. split; [done |]. cbv zeta.
  rewrite E1 in N2. simpl in *. rewrite N3, N2, L3, L2, L1. done.
Qed.

Lemma persist_log rq o a c e st e' :
  persist_locked rq o a c e = (st, e') -> status_ok st = true ->
  let log := j_log (e_journal e) ++ commit_entries e rq o a c in
  j_log (e_journal e') = log /\ j_snap (e_journal e') = j_snap (e_journal e) \/
  snapshotted log (e_journal e') (e_accounts e).
Proof.
  unfold persist_locked. destruct (append_record _ KIntent _ _ e) as [s1 e1] eqn:E1.
  destruct (status_ok s1) eqn:H1; simpl; [| intros [= <- <-]; congruence].
  apply append_log in E1 as (L1 & N1 & E1); [| done].
  destruct (append_record _ KAttempt _ _ _) as [s2 e2] eqn:E2.
  destruct (status_ok s2) eqn:H2; simpl; [| intros [= <- <-]; congruence].
  apply append_log in E2 as (L2 & N2 & E2); [| done]. simpl in *. rewrite E1 in E2, L2. simpl in *.
  assert (L : j_log (e_journal e2) = j_log (e_journal e) ++ commit_entries e rq o a c).
  { rewrite L2, L1, <-app_assoc. done. }
  destruct (snapshot_due _); intros E3 Hst.
  - right. apply snapshot_log in E3; [| done]. simpl in E3. rewrite L in E3. rewrite E2 in E3.
    exact E3.
  - injection E3 as <- <-. left. simpl. split; [done |]. congruence.
Qed.

(** A decision that was acknowledged was persisted, with the account it left. *)
Definition persisted e rq o e' : Prop :=
  exists key a created st e1,
    persist_locked rq o a created (put_account key a e) = (st, e1) /\ status_ok st = true /\
    e_journal e' = e_journal e1 /\ account_digest a = o_state_digest o /\ account_view a = o_view o.

Lemma commit_applied_persisted key subject backup rq a o e o' e' :
  commit_applied key subject backup rq a o e = (o', e') -> o_decided o' = true -> persisted e rq o' e'.
Proof.
  unfold commit_applied. destruct (persist_locked _ _ _ _ _) as [st e1] eqn:E.
  destruct (status_ok st) eqn:Hst; simpl; intros [= <- <-]; [| done]. intros _.
  by eexists _, _, _, _, _.
Qed.

Lemma finish_decided_persisted key rq a o e o' e' :
  finish_decided key rq a o e = (o', e') -> o_decided o' = true -> persisted e rq o' e'.
Proof.
  unfold finish_decided. destruct (persist_locked _ _ _ _ _) as [st e1] eqn:E.
  destruct (status_ok st) eqn:Hst; simpl; intros [= <- <-]; [| done]. intros _.
  by eexists _, _, _, _, _.
Qed.

Lemma settle_persisted key subject backup rq v o e o' e' :
  settle key subject backup rq v o e = (o', e') -> o_decided o = false -> o_decided o' = true ->
  persisted e rq o' e'.
Proof.
  destruct v; simpl.
  - intros [= <- <-] Ho. simpl. congruence.
  - intros. by eapply finish_decided_persisted.
  - intros. by eapply commit_applied_persisted.
Qed.

Lemma decide_persisted key a rq o e o' e' :
  match classify (rq_op rq) with
  | OpControl => decide_control_locked key a rq o e
  | _ => decide_data_locked key a rq o e
  end = (o', e') -> o_decided o = false -> o_decided o' = true -> persisted e rq o' e'.
Proof.
  assert (Hdata : decide_data_locked key a rq o e = (o', e') -> o_decided o = false ->
                  o_decided o' = true -> persisted e rq o' e').
  { unfold decide_data_locked. destruct (op_eqb _ _); [| by apply settle_persisted].
    destruct (negb _); [intros [= <- <-] Ho; simpl; congruence |].
    intros. by eapply commit_applied_persisted. }
  destruct (classify (rq_op rq)); [done | done |].
  unfold decide_control_locked. destruct (_ && _); [intros [= <- <-] Ho; simpl; congruence |].
  apply settle_persisted.
Qed.

Lemma apply_persisted e rq o e' : apply rq e = (o, e') -> consumes_sequence o = true -> persisted e rq o e'.
Proof.
  unfold consumes_sequence, apply. intros Hap Hc.
  destruct (e_recovered e); [| by simplify_eq/=]. destruct (e_journal_failed e); [by simplify_eq/= |].
  simpl in Hap. unfold apply_locked in Hap.
  destruct (malformed (e_limits e) rq) as [[r d]|]; [by simplify_eq/= |].
  assert (Hod : o_decided o = true) by (by destruct (o_decided o)).
  destruct (decide (rq_op rq = Open)) as [Hop|Hop].
  - rewrite Hop in Hap. unfold create_account_locked in Hap.
    destruct (open_refusal rq e) as [[r d]|]; [by simplify_eq/= |].
    destruct (persist_locked _ _ _ _ _) as [st e1] eqn:E.
    destruct (status_ok st) eqn:Hst; simplify_eq/=. by eexists _, _, _, _, _.
  - destruct (e_accounts e !! a_account (rq_authority rq)) as [a|].
    + destruct (decide (rq_op rq = Describe)) as [Hd|Hd].
      { rewrite Hd in Hap. destruct (negb _); by simplify_eq/=. }
      assert (Hdl : decide_locked (a_account (rq_authority rq)) a rq (initial_outcome rq) e = (o, e'))
        by (by destruct (rq_op rq)).
      unfold decide_locked in Hdl. destruct (unauthorized _ _ rq a) as [[r d]|]; [by simplify_eq/= |].
      destruct (known_attempt rq a _) as [[o1 dup]|] eqn:Hk.
      { unfold known_attempt in Hk. repeat case_match; simplify_eq/=. }
      destruct (misplaced rq a) as [[r d]|]; [by simplify_eq/= |].
      by eapply decide_persisted.
    + destruct (rq_op rq); by simplify_eq/=.
Qed.

(** C12: Write-ahead: whenever a call returns a decision that consumed its
    sequence number, applied or refused, the journal already holds its intent
    record followed by its commit record, consecutively numbered and chained to
    the previous commit, where the commit record carries exactly the returned
    outcome and the state of the account that the outcome's digest and view
    describe; or a snapshot of the accounts including that state has been made
    durable and the log rotated past it. *)
Theorem decisions_are_write_ahead e rq o e' :
  apply rq e = (o, e') -> consumes_sequence o = true ->
  exists key a created,
    account_digest a = o_state_digest o /\ account_view a = o_view o /\
    let log := j_log (e_journal e) ++ commit_entries e rq o a created in
    j_log (e_journal e') = log /\ j_snap (e_journal e') = j_snap (e_journal e) \/
    snapshotted log (e_journal e') (<[key := a]> (e_accounts e)).
Proof.
  intros Hap Hc. destruct (apply_persisted _ _ _ _ Hap Hc)
    as (key & a & created & st & e1 & Hp & Hst & Hj & Hd & Hv).
  exists key, a, created. split; [done |]. split; [done |]. rewrite Hj.
  by apply (persist_log _ _ _ _ _ _ _ Hp).
Qed.

End Durability.

(** ** The theorems on concrete calls *)

(** An [Issue] of what is available that names a producer for the first time. *)
Definition first_issue : CreditRequest := base_request Issue 1 5 9 0 sample_vector.

Lemma failing_issue_latches : e_journal_failed (apply first_issue failing_engine).2 = true.
Proof. vm_compute. reflexivity. Qed.

Lemma first_issue_range : request_range first_issue.
Proof. apply base_request_range; simpl; word_lia. Qed.

Lemma issue_range : request_range (issue_request 1 5).
Proof. apply base_request_range; simpl; word_lia. Qed.

Lemma advance_range : request_range advance_request.
Proof. apply base_request_range; simpl; word_lia. Qed.

(** It would be applied, so nothing is bound and refused. *)
Definition would_apply (v : Verdict) : bool := match v with VApplied _ => true | _ => false end.

Lemma first_issue_would_apply :
  would_apply (verdict sample_nonce default_limits first_issue sample_account) = true.
Proof. vm_compute. reflexivity. Qed.

Lemma first_issue_not_refused : ~ refused_binding failing_engine first_issue.
Proof.
  intros (_ & _ & a & r & d & b & Ha & Hv). change (Some sample_account = Some a) in Ha.
  injection Ha as <-. pose proof first_issue_would_apply as Hw.
  change (verdict sample_nonce default_limits first_issue sample_account = VDecided r d b) in Hv.
  by rewrite Hv in Hw.
Qed.

Lemma journal_failure_is_fail_stop_witness :
  e_accounts (apply first_issue failing_engine).2 = e_accounts failing_engine.
Proof.
  destruct (journal_failure_is_fail_stop failing_engine first_issue
    (apply first_issue failing_engine).1 (apply first_issue failing_engine).2
    (sample_engine_ok _) first_issue_range (surjective_pairing _) eq_refl failing_issue_latches)
    as (_ & _ & _ & _ & Hacc).
  apply Hacc; [reflexivity | exact first_issue_not_refused].
Defined.

Lemma failing_advance_latches : e_journal_failed (apply advance_request failing_engine).2 = true.
Proof. vm_compute. reflexivity. Qed.

Lemma failed_era_change_demotes_others_witness :
  exists a' r', e_accounts (apply advance_request failing_engine).2 !! 2 = Some a' /\
  ac_incarnations a' !! 55 = Some r' /\ ir_state r' = Unknown.
Proof.
  destruct (failed_era_change_demotes_others failing_engine advance_request
    (apply advance_request failing_engine).1 (apply advance_request failing_engine).2
    sample_account 55 (live_record 55 9 9)
    (sample_engine_ok _) advance_range (surjective_pairing _) eq_refl failing_advance_latches
    eq_refl eq_refl eq_refl eq_refl) as (a' & r' & Ha & _ & _ & _ & Hr & Hs); [done | done |].
  exists a', r'. split; [exact Ha |]. split; [exact Hr | exact Hs].
Defined.

(** The issue's authority still stands after it was applied. *)
Definition still_authorized : bool :=
  let e := (apply (issue_request 1 5) sample_engine).2 in
  match e_accounts e !! 2 with
  | Some a => bool_decide (unauthorized (e_limits e) (i_id (e_operator e)) (issue_request 1 5) a = None)
  | None => false
  end.

Lemma still_authorized_eq : still_authorized = true.
Proof. vm_compute. reflexivity. Qed.

Lemma duplicate_is_absorbed_witness :
  exists o2 e2, apply (issue_request 1 5) (apply (issue_request 1 5) sample_engine).2 = (o2, e2) /\
  o_status o2 = o_status (apply (issue_request 1 5) sample_engine).1 /\ o_applied o2 = false.
Proof.
  pose proof still_authorized_eq as Hs. unfold still_authorized in Hs. cbv zeta in Hs.
  destruct (e_accounts (apply (issue_request 1 5) sample_engine).2 !! 2) as [a'|] eqn:Ha;
    [| discriminate Hs].
  apply bool_decide_eq_true in Hs.
  destruct (duplicate_is_absorbed sample_engine (issue_request 1 5)
    (apply (issue_request 1 5) sample_engine).1 (apply (issue_request 1 5) sample_engine).2 a'
    (sample_engine_ok _) issue_range (surjective_pairing _) issue_consumed) as (o2 & H1 & H2 & _ & H3 & _);
    [discriminate | exact Ha | exact Hs |].
  eexists o2, _. split; [exact H1 |]. split; [exact H2 | exact H3].
Defined.

Lemma decisions_are_write_ahead_witness :
  exists a, account_digest a = o_state_digest (apply (issue_request 1 5) sample_engine).1.
Proof.
  destruct (decisions_are_write_ahead sample_engine (issue_request 1 5)
    (apply (issue_request 1 5) sample_engine).1 (apply (issue_request 1 5) sample_engine).2
    (surjective_pairing _) issue_consumed) as (key & a & created & Hd & _).
  exists a. exact Hd.
Defined.
