(* ===== verification/Replay.v ===== *)
(** * Replaying a journaled decision reproduces it

    The account-level refinement between the live decision functions and
    [replay_attempt]: what was applied live, replayed on the same account, gives
    the same account. *)

From S2P Require Import Prelude Checked Status Digest Ledger Authority Request Bytes Wire.
From S2P Require Import Record Journal Window Account Engine Recovery Steps Invariant Verdicts Safety.
From S2P Require Import Sample Durability.
Local Open Scope Z_scope.

(** ** Applied operations *)

Lemma run_plan_applied (res : LedgerPlan * bool) f a b :
  plan_step res f a = VApplied b -> res.2 = true /\ b = f res.1.
Proof. unfold plan_step. destruct res.2; [by intros [= <-] | done]. Qed.

Lemma replay_plan_applied res code f a b :
  plan_step res f a = VApplied b -> replay_plan res code f a = (success, b).
Proof. intros [E ->]%run_plan_applied. unfold replay_plan. by rewrite E. Qed.

Lemma ledger_verdict_replay rq a b :
  ledger_verdict rq a = VApplied b -> op_is_ledger (rq_op rq) = true ->
  apply_replay_transition rq a = (success, b).
Proof.
  unfold ledger_verdict, apply_replay_transition. destruct (ledger_apply _ a rq) as [st p].
  destruct (status_ok st) eqn:Hst; [| done]. intros [= <-] Hop.
  by destruct (rq_op rq).
Qed.

(** The bindings of an accepted [Issue] are those replay writes. *)
Lemma bind_identity_inr cur req set r r' :
  bind_identity cur req set r = inr r' -> r' = (if is_set req then set req r else r).
Proof.
  unfold bind_identity. destruct (is_set req); [| by intros [= <-]].
  destruct (_ && _); [done | by intros [= <-]].
Qed.

Lemma bind_issue_replay rq r r' : bind_issue rq r = inr r' -> r' = replay_bindings rq r.
Proof.
  unfold bind_issue, replay_bindings.
  destruct (bind_identity _ _ set_ir_producer r) as [|r1] eqn:E1; [done |].
  destruct (bind_identity _ _ set_ir_consumer r1) as [|r2] eqn:E2; [done |].
  destruct (bind_identity _ _ set_ir_grant r2) as [|r3] eqn:E3; [done |].
  apply bind_identity_inr in E1 as ->, E2 as ->, E3 as ->. by intros [= <-].
Qed.

Lemma ledger_verdict_put rq a b i r :
  ledger_verdict rq (put_incarnation i r a) = VApplied b ->
  exists t, ledger_verdict rq a = VApplied (set_totals t a) /\
            b = put_incarnation i r (set_totals t a).
Proof.
  unfold ledger_verdict.
  change (ledger_apply (account_plan (put_incarnation i r a)) (put_incarnation i r a) rq)
    with (ledger_apply (account_plan a) a rq).
  destruct (ledger_apply (account_plan a) a rq) as [st p].
  destruct (status_ok st); [| done]. intros [= <-]. by eexists.
Qed.

Lemma alter_as_insert f i r (m : gmap Z IncarnationRecord) :
  m !! i = Some r -> alter f i m = <[i := f r]> m.
Proof.
  intros Hr. apply map_eq. intros j. destruct (decide (i = j)) as [<-|Hij].
  - by rewrite lookup_alter_eq, lookup_insert_eq, Hr.
  - by rewrite lookup_alter_ne, lookup_insert_ne.
Qed.

Lemma data_verdict_replay rq a b :
  data_verdict rq a = VApplied b ->
  exists c, apply_replay_transition rq a = (success, c) /\ replay_effects rq c = (success, b).
Proof.
  unfold data_verdict. destruct (op_is_ledger (rq_op rq)) eqn:Hop; [| done]. simpl.
  destruct (_ && _); [done |]. destruct (op_eqb (rq_op rq) Issue) eqn:Hi.
  - apply op_eqb_eq in Hi. unfold find_incarnation.
    destruct (ac_incarnations a !! a_incarnation (rq_authority rq)) as [r|] eqn:Hr; [| done].
    destruct (bind_issue rq r) as [[[??]?]|r'] eqn:Hb; [done |].
    intros (t & Hl & ->)%ledger_verdict_put. exists (set_totals t a).
    split; [by apply ledger_verdict_replay |].
    unfold replay_effects, find_incarnation. rewrite Hi. simpl. rewrite Hr.
    apply bind_issue_replay in Hb as ->. unfold update_incarnation. simpl.
    by rewrite (alter_as_insert _ _ _ _ Hr).
  - intros Hl. exists b. split; [by apply ledger_verdict_replay |].
    unfold replay_effects. by destruct (rq_op rq).
Qed.

Lemma wrap64_succ z : in_u64 (z + 1) -> 0 <= z -> wrap64 (z + 1) = z + 1.
Proof. intros. by apply wrap64_small. Qed.

Lemma era_verdict_replay limits rq a b :
  account_ok limits a -> in_u64 (rq_count rq) -> is_era_op rq = true ->
  era_verdict rq a = VApplied b -> apply_replay_transition rq a = (success, b).
Proof.
  intros Ha Hn He Hv. destruct (ao_era _ _ Ha) as [Hep Hg].
  destruct (era_verdict_cases limits rq a Ha Hn)
    as [(r & d & E)|(ep & g & E & -> & -> & Hlt & Hepr & Hgr & _ & Hrun)]; [congruence |].
  rewrite E in Hv. injection Hv as <-. clear E.
  assert (Hop : rq_op rq = AdvanceEpoch \/ rq_op rq = Rotate).
  { unfold is_era_op in He. by apply orb_true_iff in He as [?%op_eqb_eq|?%op_eqb_eq]; auto. }
  unfold apply_replay_transition, replay_plan.
  change (plan_quarantine_in_flight (account_plan a)) with (run_op LQuarantine (account_plan a)).
  rewrite Hrun. rewrite (wrap64_small (ac_generation a + 1)) by done.
  destruct Hop as [Hop|Hop]; rewrite Hop in *; simpl in *; [| done].
  by rewrite (wrap64_small (ac_epoch a + 1)).
Qed.

Lemma control_verdict_replay limits rq a b :
  account_ok limits a -> in_u64 (rq_count rq) -> control_verdict limits rq a = VApplied b ->
  exists c, apply_replay_transition rq a = (success, c) /\ replay_effects rq c = (success, b).
Proof.
  intros Ha Hn. unfold control_verdict.
  assert (Hplan : forall res code f, plan_step res f a = VApplied b ->
    replay_plan res code f a = (success, b)) by (intros; by apply replay_plan_applied).
  unfold replay_effects.
  destruct (rq_op rq) eqn:Hop; try done.
  - destruct (ac_hard_exhausted a); [done |]. destruct (reason_eqb _ _); [done |]. intros [= <-].
    eexists. split; [| reflexivity]. unfold apply_replay_transition. by rewrite Hop.
  - destruct (ac_hard_exhausted a); [| done]. intros [= <-].
    eexists. split; [| reflexivity]. unfold apply_replay_transition. by rewrite Hop.
  - intros Hp. exists b. split; [| done]. unfold apply_replay_transition. rewrite Hop. by apply Hplan.
  - intros Hv. exists b. split; [| done]. eapply era_verdict_replay; try done.
    unfold is_era_op. by rewrite Hop.
  - unfold fence_verdict, apply_replay_transition. rewrite Hop.
    destruct (negb _); [done |]. destruct (reason_eqb _ _); [done |].
    destruct (is_fenced _ _); [done |]. intros Hv. exists a. split; [done |].
    destruct (find_incarnation (rq_target rq) a); repeat case_match; simplify_eq; done.
  - intros Hv. exists b. split; [| done]. eapply era_verdict_replay; try done.
    unfold is_era_op. by rewrite Hop.
  - intros Hp. exists b. split; [| done]. unfold apply_replay_transition. rewrite Hop. by apply Hplan.
  - destruct (rq_decision rq) eqn:Hd; [done | |]; intros Hp; exists b; (split; [| done]);
      unfold apply_replay_transition; rewrite Hop, Hd; by apply Hplan.
  - unfold apply_replay_transition. rewrite Hop. destruct (negb _); [done |]. intros Hv.
    exists a. split; [done |]. destruct (find_incarnation (rq_target rq) a); [| done].
    destruct (state_eqb _ _); [done |]. by injection Hv as <-.
Qed.

(** What was applied replays to the same account, counters included. *)
Lemma verdict_replay nonce limits rq a b :
  account_ok limits a -> in_u64 (rq_count rq) -> verdict nonce limits rq a = VApplied b ->
  exists c, apply_replay_transition rq a = (success, c) /\ replay_effects rq c = (success, b).
Proof.
  intros Ha Hn. unfold verdict.
  assert (Hdata : (if op_eqb (rq_op rq) Reconcile then
      if negb (challenge_verify nonce (rq_presenter rq) (rq_authority rq) (rq_proof rq))
      then VRefused RReconciliationRequired 5 a else VApplied (reconcile_account rq a)
    else data_verdict rq a) = VApplied b ->
    exists c, apply_replay_transition rq a = (success, c) /\ replay_effects rq c = (success, b)).
  { destruct (op_eqb (rq_op rq) Reconcile) eqn:Hr; [| by apply data_verdict_replay].
    apply op_eqb_eq in Hr. destruct (negb _); [done |]. intros [= <-]. exists a.
    unfold apply_replay_transition, replay_effects. by rewrite Hr. }
  destruct (classify (rq_op rq)); [done | done |].
  destruct (_ && _); [done |]. by apply control_verdict_replay.
Qed.

(** ** The checks at the end of a replay *)

Lemma totals_eqb_refl t : totals_eqb t t = true.
Proof. unfold totals_eqb. by rewrite !Z.eqb_refl. Qed.

Lemma replay_mismatch_same a : replay_mismatch (build_durable_account a false) a = None.
Proof.
  unfold replay_mismatch, build_durable_account. simpl.
  by rewrite digest_eqb_refl, Z.eqb_refl, totals_eqb_refl, eqb_reflx, reason_eqb_refl.
Qed.

Lemma replay_finish_same rq o a created stats :
  o_decided o = true -> o_view o = account_view a ->
  replay_finish (durable_attempt rq o a created stats) a = (success, publish_window_locked rq o a).
Proof.
  intros Hd Hv. unfold replay_finish, durable_attempt.
  cbn [dt_account dt_outcome dt_request]. rewrite replay_mismatch_same, Hd.
  unfold publish_window_locked, window_entry, recorded_outcome. simpl. by rewrite Hv.
Qed.

Section Replay.
Context {J : Type} `{Journal J}.
Implicit Types (e : Engine J) (rq : CreditRequest) (o : CreditOutcome).

Lemma replay_put e key a t b status :
  e_accounts e !! key = Some a -> dt_created_account t = false ->
  a_account (rq_authority (dt_request t)) = key -> replay_existing t a = (success, b) ->
  replay_finish t b = (success, status) ->
  exists e', replay_attempt t e = (success, e') /\
             e_accounts e' = <[key := status]> (e_accounts e).
Proof.
  intros Ha Hc Hk Hr Hf. unfold replay_attempt. rewrite Hc, Hk, Ha, Hr. simpl. rewrite Hf. simpl.
  by eexists.
Qed.

(** The attempt that [persist_locked] writes for a decision. *)
Definition journaled_attempt rq o (a : AccountState) stats : DurableAttempt :=
  durable_attempt rq o a (op_eqb (rq_op rq) Open) stats.

Lemma replay_applied limits nonce rq a b o stats :
  account_ok limits a -> in_u64 (rq_count rq) -> rq_op rq <> Open ->
  verdict nonce limits rq a = VApplied b ->
  let c := count_commit (a_incarnation (rq_authority rq)) b in
  let t := journaled_attempt rq (applied_outcome c o) c stats in
  replay_existing t a = (success, c) /\
  replay_finish t c = (success, committed_account rq o b).
Proof.
  intros Ha Hn Hop Hv c t. destruct (verdict_replay _ _ _ _ _ Ha Hn Hv) as (x & H1 & H2).
  split; [| by apply replay_finish_same].
  unfold replay_existing. simpl. rewrite H1. simpl. by rewrite H2.
Qed.

Lemma replay_refused rq a o stats :
  o_applied o = false -> o_decided o = true -> rq_op rq <> Open ->
  let c := count_refusal (a_incarnation (rq_authority rq)) a in
  let t := journaled_attempt rq (observe c o) c stats in
  replay_existing t a = (success, c) /\
  replay_finish t c = (success, publish_window_locked rq (observe c o) c).
Proof.
  intros Ha Hd Hop c t. split; [| by apply replay_finish_same].
  unfold replay_existing. simpl. by rewrite Ha, Hd.
Qed.

(** The audit log of refusals is not durable. *)
Definition forget_refusals (a : AccountState) : AccountState := set_refusals [] 0 a.

Lemma refused_account_durable limits rq o a :
  forget_refusals (refused_account limits rq o a) =
  let c := count_refusal (a_incarnation (rq_authority rq)) a in
  forget_refusals (publish_window_locked rq (observe c o) c).
Proof. unfold refused_account, record_refusal_locked. by destruct (_ <? _). Qed.

(** A decided refusal that changed nothing but its counters: anything but an
    [Issue] refused after it bound an identity. *)
Definition plain_refusal e rq (a : AccountState) : Prop :=
  forall r d b, verdict (e_challenge e) (e_limits e) rq a = VDecided r d b -> b = a.

(** Replaying the record of a decision on an existing account. *)
Lemma replayed_existing rq o e e' (er : Engine J) a b c x :
  let key := a_account (rq_authority rq) in
  let t := journaled_attempt rq o c (e_stats e) in
  e_accounts er = e_accounts e -> e_accounts e !! key = Some a -> rq_op rq <> Open ->
  e_accounts e' = <[key := b]> (e_accounts e) -> account_digest c = o_state_digest o ->
  replay_existing t a = (success, c) -> replay_finish t c = (success, x) ->
  forget_refusals x = forget_refusals b ->
  exists a t (er' : Engine J), t = journaled_attempt rq o a (e_stats e) /\ account_digest a = o_state_digest o /\
    replay_attempt t er = (success, er') /\
    forget_refusals <$> e_accounts er' !! key = forget_refusals <$> e_accounts e' !! key /\
    forall k, k <> key -> e_accounts er' !! k = e_accounts e' !! k.
Proof.
  intros key t Hea Ha Ho Sa Hdig H1 H2 Hx. destruct (replay_put er key a t c x) as (er' & Hre & Hacc); try done.
  - by rewrite Hea.
  - simpl. destruct (op_eqb (rq_op rq) Open) eqn:E; [| done]. by apply op_eqb_eq in E.
  - exists c, t, er'. rewrite Hacc, Sa, Hea, !lookup_insert_eq. split_and!; try done.
    + simpl. by rewrite Hx.
    + intros k Hne. by rewrite !lookup_insert_ne.
Qed.

(** C4: Replay reproduces decisions.  Take any decision the live engine made
    durable, applied or refused, except an [Issue] refused after it bound an
    identity, and any engine that has the same accounts and limits, such as one being
    recovered up to that point.  Replaying the journaled attempt there succeeds,
    every check of the replay passes, and it produces the same account the live
    engine has, up to the refusal log, which is not durable; no other account
    differs between the two. *)
Theorem replay_reproduces_decision e rq o e' (er : Engine J) :
  engine_ok e -> request_range rq -> apply rq e = (o, e') -> consumes_sequence o = true ->
  e_accounts er = e_accounts e -> e_limits er = e_limits e ->
  (forall a, e_accounts e !! a_account (rq_authority rq) = Some a -> plain_refusal e rq a) ->
  let key := a_account (rq_authority rq) in
  exists a t (er' : Engine J),
    t = journaled_attempt rq o a (e_stats e) /\ account_digest a = o_state_digest o /\
    replay_attempt t er = (success, er') /\
    forget_refusals <$> e_accounts er' !! key = forget_refusals <$> e_accounts e' !! key /\
    forall k, k <> key -> e_accounts er' !! k = e_accounts e' !! k.
Proof.
  intros He Hr Hap Hc Hea Hel Hpl key. unfold consumes_sequence in Hc. apply apply_cases in Hap.
  destruct Hap as [o _ Hod _|a|a x|a o e' Ho Hd Ha Hm Hu Hk Hp Hs|e' Ho Hm Hop a o Hs
    |o e' _ _ _ _ _ _ _ _ _ Hod _]; simpl in Hc; try done; try by rewrite Hod in Hc.
  - pose proof (admitted_intro _ _ _ He Ho Hd Ha Hu Hk Hp) as Had.
    destruct (eo_accounts _ He _ _ Ha) as [Hok _]. specialize (Hpl a Ha).
    apply settle_case_account in Hs as (b & failed & Hs & [_ _ _ _ _ Sa _]).
    inversion Hs as [r d b0 Hv|r d b0 Hv|r d b0 o1 Hv _ Hod|b0 Hv|b0 o1 Hv _ Hod]; subst; simpl in Hc;
      try done; try by rewrite Hod in Hc.
    + rewrite (Hpl r d b0 Hv) in *.
      destruct (replay_refused rq a (decided_refusal r d (set_outcome_era a (initial_outcome rq)))
        (e_stats e)) as [H1 H2]; try done.
      eapply replayed_existing; [exact Hea | exact Ha | exact Ho | exact Sa | done | exact H1 | exact H2 |].
      by rewrite refused_account_durable.
    + destruct (replay_applied (e_limits e) (e_challenge e) rq a b0
        (set_outcome_era a (initial_outcome rq)) (e_stats e)) as [H1 H2]; try done; [apply Hr |].
      eapply replayed_existing; [exact Hea | exact Ha | exact Ho | exact Sa | done | exact H1 | exact H2 | done].
  - pose proof (open_refusal_none _ _ Hop) as (Hn & _). destruct Hs as [_ _ _ _ _ Sa _].
    assert (Ht : journaled_attempt rq o a (e_stats e) = durable_attempt rq o a true (e_stats e)).
    { unfold journaled_attempt. by rewrite Ho. }
    exists a, (journaled_attempt rq o a (e_stats e)). rewrite Ht. set (t := durable_attempt _ _ _ _ _).
    assert (Hrc : replay_created (e_limits er) t = a) by (rewrite Hel; done).
    unfold replay_attempt. change (dt_created_account t) with true. change (dt_request t) with rq.
    fold key. fold key in Hn, Sa. rewrite Hea, Hn, Hrc. simpl status_ok. unfold t.
    rewrite replay_finish_same by done. simpl. eexists. split_and!; try done.
    + simpl. by rewrite Hea, Sa, !lookup_insert_eq.
    + intros k Hne. simpl. rewrite Sa, Hea. by rewrite !lookup_insert_ne.
Qed.

End Replay.

(** ** The theorem on a concrete call *)

Lemma issue_plain a : plain_refusal sample_engine (issue_request 1 5) a.
Proof. intros r d b. apply verdict_decided_same. right. by split_and!. Qed.

Lemma replay_reproduces_decision_witness :
  exists t (er : Engine InMemoryJournal), replay_attempt t sample_engine = (success, er) /\
  forget_refusals <$> e_accounts er !! 2 =
  forget_refusals <$> e_accounts (apply (issue_request 1 5) sample_engine).2 !! 2.
Proof.
  destruct (replay_reproduces_decision sample_engine (issue_request 1 5)
    (apply (issue_request 1 5) sample_engine).1 (apply (issue_request 1 5) sample_engine).2 sample_engine
    (sample_engine_ok _) issue_range (surjective_pairing _) issue_consumed eq_refl eq_refl
    (fun a _ => issue_plain a)) as (a & t & er & _ & _ & H1 & H2 & _).
  exists t, er. split; [exact H1 | exact H2].
Defined.
