(* ===== verification/AccountDigest.v ===== *)
(** * Sensitivity of the account digest

    [account_digest] absorbs a list of words; two accounts whose lists differ in
    exactly one word have different digests.  This is what the replay check
    relies on, and what makes some journaled decisions impossible to replay. *)

From S2P Require Import Prelude Checked Status Digest Ledger Authority Request Bytes Wire.
From S2P Require Import Record Journal Window Account Engine Recovery Steps Invariant Verdicts.
From S2P Require Import Safety Sample Durability Replay.
Local Open Scope Z_scope.

(** ** The digested words *)

Definition fence_words (f : FenceRecord) : list Z :=
  [f_incarnation f; f_epoch f; f_generation f; reason_code (f_cause f); f_sequence f; f_credit f].

Definition incarnation_words (r : IncarnationRecord) : list Z :=
  [ir_id r; ir_publisher r; ir_boot r; authority_state_code (ir_state r); ir_epoch r;
   ir_generation r; ir_producer r; ir_consumer r; ir_grant r; ir_last_sequence r;
   ir_committed_ops r; ir_refused_ops r].

Definition header_words (a : AccountState) : list Z :=
  [lo (config_digest (ac_config a)); hi (config_digest (ac_config a)); ac_epoch a;
   ac_generation a; ac_capacity a; issued (ac_totals a); consumed (ac_totals a);
   returned (ac_totals a); stale (ac_totals a); protected_credits (ac_totals a);
   bool_word (ac_hard_exhausted a); reason_code (ac_exhaustion_cause a);
   ac_committed_attempts a; ac_refused_attempts a; Z.of_nat (length (ac_fences a))].

Definition map_words (m : gmap Z IncarnationRecord) : list Z :=
  Z.of_nat (length (sorted_ids m)) ::
  concat ((fun i => incarnation_words (default record_zero (m !! i))) <$> sorted_ids m).

Definition account_words (a : AccountState) : list Z :=
  header_words a ++ concat (fence_words <$> ac_fences a) ++ map_words (ac_incarnations a).

Definition account_key : Digest128 := mkDigest 0x51ED270B5A3D8F11 0x118F3D5A0B27ED51.

Lemma account_key_range : digest_range account_key.
Proof. split; simpl; word_lia. Qed.

Lemma fold_words {A} (step : DigestBuilder -> A -> DigestBuilder) (ws : A -> list Z) l b :
  (forall b x, step b x = db_words (ws x) b) ->
  fold_left step l b = db_words (concat (ws <$> l)) b.
Proof.
  intros Hs. revert b. induction l as [|x l IH]; intros b; [done |].
  simpl. by rewrite IH, Hs, db_words_app.
Qed.

Local Transparent account_digest.

Lemma account_digest_words a : account_digest a = words_digest account_key (account_words a).
Proof.
  unfold account_digest, words_digest, account_words, map_words. cbv zeta.
  rewrite (fold_words _ (fun i => incarnation_words (default record_zero (ac_incarnations a !! i))))
    by done.
  rewrite (fold_words _ fence_words) by done.
  rewrite !db_words_app. done.
Qed.

Local Opaque account_digest.

(** ** Sorted identities *)

Lemma sorted_ids_perm m : sorted_ids m ≡ₚ (map_to_list m).*1.
Proof. apply merge_sort_Permutation. Qed.

Lemma sorted_ids_sorted m : Sorted Z.le (sorted_ids m).
Proof. apply Sorted_merge_sort. exact _. Qed.

Lemma elem_of_sorted_ids m i : i ∈ sorted_ids m <-> is_Some (m !! i).
Proof.
  rewrite sorted_ids_perm, list_elem_of_fmap. split.
  - intros ([j r] & -> & Hr). exists r. by apply elem_of_map_to_list.
  - intros [r Hr]. exists (i, r). split; [done |]. by apply elem_of_map_to_list.
Qed.

Lemma sorted_ids_nodup m : NoDup (sorted_ids m).
Proof. rewrite sorted_ids_perm. apply NoDup_fst_map_to_list. Qed.

(** The identities depend only on which records exist. *)
Lemma sorted_ids_same m m' :
  (forall i, is_Some (m !! i) <-> is_Some (m' !! i)) -> sorted_ids m = sorted_ids m'.
Proof.
  intros Hm. apply (Sorted_unique Z.le); [apply sorted_ids_sorted.. |].
  apply NoDup_Permutation; [apply sorted_ids_nodup.. |].
  intros i. by rewrite !elem_of_sorted_ids.
Qed.

(** Records that differ in exactly one digested word. *)
Definition one_word_apart (r r' : IncarnationRecord) : Prop :=
  exists pre v w post, incarnation_words r = pre ++ v :: post /\
    incarnation_words r' = pre ++ w :: post /\ in_u64 v /\ in_u64 w /\ v <> w.

Lemma map_words_one m i r r' :
  m !! i = Some r -> one_word_apart r r' ->
  exists pre v w post, map_words m = pre ++ v :: post /\
    map_words (<[i := r']> m) = pre ++ w :: post /\ in_u64 v /\ in_u64 w /\ v <> w.
Proof.
  intros Hi (p & v & w & q & E1 & E2 & Hv & Hw & Hne).
  assert (Hids : sorted_ids (<[i := r']> m) = sorted_ids m).
  { apply sorted_ids_same. intros j. rewrite lookup_insert_is_Some'. split; [| by right].
    intros [<-|?]; [eauto | done]. }
  unfold map_words. rewrite Hids.
  assert (Hin : i ∈ sorted_ids m) by (apply elem_of_sorted_ids; eauto).
  pose proof (sorted_ids_nodup m) as Hnd.
  apply list_elem_of_split in Hin as (l1 & l2 & Hl). rewrite Hl in *.
  apply NoDup_app in Hnd as (_ & Hd & Hnd). apply NoDup_cons in Hnd as [Hn2 _].
  assert (Hn1 : i ∉ l1) by (intros Hin; apply (Hd i Hin); left).
  set (f := fun j => incarnation_words (default record_zero (m !! j))).
  set (f' := fun j => incarnation_words (default record_zero (<[i := r']> m !! j))).
  assert (Hsame : forall l : list Z, i ∉ l -> f' <$> l = f <$> l).
  { intros l Hl'. apply list_fmap_ext. intros k j Hk. unfold f, f'. rewrite lookup_insert_ne; [done |].
    intros <-. apply Hl'. by eapply list_elem_of_lookup_2. }
  rewrite !fmap_app, !fmap_cons, (Hsame l1), (Hsame l2) by done. rewrite !concat_app. cbn [concat].
  assert (f i = p ++ v :: q) as -> by (unfold f; by rewrite Hi).
  assert (f' i = p ++ w :: q) as -> by (unfold f'; by rewrite lookup_insert_eq).
  exists (Z.of_nat (length (l1 ++ i :: l2)) :: concat (f <$> l1) ++ p), v, w, (q ++ concat (f <$> l2)).
  split_and!; try done; simpl; by rewrite <-!app_assoc.
Qed.

(** Two accounts that differ in one word of one record. *)
Lemma account_digest_record a i r r' :
  ac_incarnations a !! i = Some r -> one_word_apart r r' ->
  account_digest (put_incarnation i r' a) <> account_digest a.
Proof.
  intros Hi Hw. rewrite !account_digest_words.
  destruct (map_words_one _ _ _ _ Hi Hw) as (pre & v & w & post & E1 & E2 & Hv & Hw' & Hne).
  unfold account_words. simpl ac_incarnations. simpl ac_fences. rewrite E1, E2, !app_assoc.
  apply words_digest_neq; auto using account_key_range.
Qed.

(** ** A refused binding cannot be replayed *)

(** An [Issue] that binds exactly one identity its incarnation had not bound. *)
Definition binds_one_new (rq : CreditRequest) (r : IncarnationRecord) : Prop :=
  (rq_producer rq <> 0 /\ rq_consumer rq = 0 /\ rq_grant rq = 0 /\ ir_producer r = 0 /\
   in_u64 (rq_producer rq)) \/
  (rq_producer rq = 0 /\ rq_consumer rq <> 0 /\ rq_grant rq = 0 /\ ir_consumer r = 0 /\
   in_u64 (rq_consumer rq)) \/
  (rq_producer rq = 0 /\ rq_consumer rq = 0 /\ rq_grant rq <> 0 /\ ir_grant r = 0 /\
   in_u64 (rq_grant rq)).

Lemma is_set_true z : z <> 0 -> is_set z = true.
Proof. intros Hz. unfold is_set. by destruct (Z.eqb_spec z 0). Qed.

Lemma binds_one_new_bound rq r :
  binds_one_new rq r ->
  exists b, bind_issue rq r = inr b /\ one_word_apart (incr_ir_refused r) (incr_ir_refused b).
Proof.
  unfold bind_issue, bind_identity.
  intros [(H1 & H2 & H3 & H4 & H5)|[(H1 & H2 & H3 & H4 & H5)|(H1 & H2 & H3 & H4 & H5)]].
  - rewrite H2, H3, (is_set_true _ H1), H4. simpl. eexists. split; [done |].
    exists (take 6 (incarnation_words (incr_ir_refused r))), 0, (rq_producer rq),
      (drop 7 (incarnation_words (incr_ir_refused r))).
    unfold incarnation_words. simpl. rewrite H4. split_and!; try done; word_lia.
  - rewrite H1, H3, (is_set_true _ H2). simpl. rewrite H4. simpl. eexists. split; [done |].
    exists (take 7 (incarnation_words (incr_ir_refused r))), 0, (rq_consumer rq),
      (drop 8 (incarnation_words (incr_ir_refused r))).
    unfold incarnation_words. simpl. rewrite H4. split_and!; try done; word_lia.
  - rewrite H1, H2, (is_set_true _ H3). simpl. rewrite H4. simpl. eexists. split; [done |].
    exists (take 8 (incarnation_words (incr_ir_refused r))), 0, (rq_grant rq),
      (drop 9 (incarnation_words (incr_ir_refused r))).
    unfold incarnation_words. simpl. rewrite H4. split_and!; try done; word_lia.
Qed.

Lemma count_refusal_put i r a :
  ac_incarnations a !! i = Some r ->
  count_refusal i a =
  put_incarnation i (incr_ir_refused r) (set_refused (wrap64 (ac_refused_attempts a + 1)) a).
Proof.
  intros Hr. unfold count_refusal, update_incarnation, put_incarnation. simpl.
  by rewrite (alter_as_insert _ _ _ _ Hr).
Qed.

Lemma refused_binding_digest i r b a :
  ac_incarnations a !! i = Some r -> one_word_apart (incr_ir_refused r) (incr_ir_refused b) ->
  account_digest (count_refusal i (put_incarnation i b a)) <> account_digest (count_refusal i a).
Proof.
  intros Hr Hw. rewrite (count_refusal_put i r a) by done.
  rewrite (count_refusal_put i b) by (simpl; by rewrite lookup_insert_eq).
  set (d := put_incarnation i (incr_ir_refused r) _).
  assert (Hd : ac_incarnations d !! i = Some (incr_ir_refused r)) by (simpl; by rewrite lookup_insert_eq).
  pose proof (account_digest_record d i _ _ Hd Hw) as Hne.
  assert (E : put_incarnation i (incr_ir_refused b)
      (set_refused (wrap64 (ac_refused_attempts (put_incarnation i b a) + 1)) (put_incarnation i b a)) =
    put_incarnation i (incr_ir_refused b) d); [| by rewrite E].
  unfold d, put_incarnation, set_incarnations. simpl. f_equal. by rewrite !insert_insert_eq.
Qed.

Section Divergence.
Context {J : Type} `{Journal J}.
Implicit Types (e : Engine J) (rq : CreditRequest) (o : CreditOutcome).

(** C40: A decided refusal of an [Issue] that names exactly one of a producer, a
    consumer and a grant, one its incarnation had not bound yet, on an account that
    is not hard-exhausted, is journaled with the new binding in its account digest,
    but replay does not bind on a refusal: replaying the record on the very state it
    was decided on fails with [JournalDigestMismatch] 135, so recovery of a journal
    that holds it refuses to start. *)
Theorem refused_binding_is_not_replayable e rq o e' a r (er : Engine J) t :
  engine_ok e -> request_range rq -> apply rq e = (o, e') -> consumes_sequence o = true ->
  o_applied o = false -> rq_op rq = Issue -> ac_hard_exhausted a = false ->
  e_accounts e !! a_account (rq_authority rq) = Some a ->
  ac_incarnations a !! a_incarnation (rq_authority rq) = Some r -> binds_one_new rq r ->
  e_accounts er = e_accounts e -> dt_request t = rq -> dt_outcome t = o ->
  dt_created_account t = false -> da_state_digest (dt_account t) = o_state_digest o ->
  (replay_attempt t er).1 = refused_status RJournalDigestMismatch 135.
Proof.
  intros He Hr Hap Hc Hna Hop Hex Ha0 Hrec Hb Hea Htr Hto Htc Htd.
  unfold consumes_sequence in Hc. apply apply_cases in Hap.
  destruct Hap as [o _ Hod _|b|b x|b o e' Ho Hd Ha Hm Hu Hk Hp Hs|e' Ho|o e' Ho]; simpl in Hc;
    try done; try congruence; try by rewrite Hod in Hc.
  assert (b = a) as -> by congruence.
  destruct (binds_one_new_bound rq r Hb) as (bound & Hbound & Hw).
  set (caller := a_incarnation (rq_authority rq)) in *.
  assert (Hv : forall rs d c, verdict (e_challenge e) (e_limits e) rq a = VDecided rs d c ->
    c = put_incarnation caller bound a).
  { intros rs d c. unfold verdict, data_verdict, find_incarnation. rewrite Hop, Hex. simpl.
    fold caller. rewrite Hrec, Hbound. unfold ledger_verdict. destruct (ledger_apply _ _ _).
    destruct (status_ok _); [done |]. by intros [= _ _ <-]. }
  apply settle_case_account in Hs as (b & failed & Hs & _).
  assert (Hod : o_decided o = true) by (by destruct (o_decided o)).
  destruct Hs as [rs d c Hvv|rs d c Hvv|rs d c o1 Hvv _ Hod'|c Hvv|c o1 Hvv _ Hod']; simpl in Hod, Hna;
    try congruence.
  apply Hv in Hvv as ->.
  unfold replay_attempt. rewrite Htc, Htr, Hea, Ha0. unfold replay_existing. rewrite Hto, Htr. simpl.
  unfold replay_finish, replay_mismatch. rewrite Htd.
  rewrite digest_eqb_neq; [done |].
  intros E. by apply (refused_binding_digest caller r bound a Hrec Hw).
Qed.

End Divergence.

(** ** The theorem on a concrete call *)

Lemma binding_range : request_range binding_request.
Proof. apply base_request_range; simpl; word_lia. Qed.

Lemma binding_new : binds_one_new binding_request (live_record operator_id 7 8).
Proof. left. simpl. split_and!; try done; word_lia. Qed.

Lemma binding_refused :
  let o := (apply binding_request sample_engine).1 in
  consumes_sequence o && negb (o_applied o) = true.
Proof. vm_compute. reflexivity. Qed.

Definition binding_attempt (o : CreditOutcome) : DurableAttempt :=
  mkDurableAttempt binding_request o true false
    (mkDurableAccount sample_config 1 1 100 (mkTotals 20 0 0 0 0 0) false ROk (o_state_digest o)
       [] [] [] 1 1 []) 0 1.

Lemma binding_attempt_outcome o : dt_outcome (binding_attempt o) = o.
Proof. done. Qed.

Lemma binding_attempt_digest o : da_state_digest (dt_account (binding_attempt o)) = o_state_digest o.
Proof. done. Qed.

Lemma refused_binding_is_not_replayable_witness :
  (replay_attempt (binding_attempt (apply binding_request sample_engine).1) sample_engine).1 =
  refused_status RJournalDigestMismatch 135.
Proof.
  destruct (andb_prop _ _ binding_refused) as [Hc Ha%negb_true_iff].
  refine (refused_binding_is_not_replayable sample_engine binding_request
    (apply binding_request sample_engine).1 (apply binding_request sample_engine).2
    sample_account (live_record operator_id 7 8) sample_engine
    (binding_attempt (apply binding_request sample_engine).1)
    (sample_engine_ok _) binding_range (surjective_pairing _) Hc Ha eq_refl eq_refl eq_refl eq_refl
    binding_new eq_refl eq_refl (binding_attempt_outcome _) eq_refl (binding_attempt_digest _)).
Defined.
