(* ===== verification/RecoveryProps.v ===== *)
(** * Properties of recovery

    Recovery from the in-memory journal always ends, within one more unit of
    fuel than there are entries, and a recovered engine trusts no incarnation:
    liveness is never taken from durable bytes, and only a reconciliation has an
    effect on an account that is there. *)

From S2P Require Import Prelude Checked Status Digest Ledger Authority Request Bytes Wire.
From S2P Require Import Record Journal Window Account Engine Recovery Steps Invariant Verdicts.
From S2P Require Import Safety Sample Guarantees.
Local Open Scope Z_scope.

Section Recovered.
Context {J : Type} `{Journal J}.
Implicit Types (e : Engine J).

(** ** The journal during replay *)

Lemma replay_attempt_journal t e : e_journal (replay_attempt t e).2 = e_journal e.
Proof.
  unfold replay_attempt.
  match goal with |- context [match ?s with (_, _) => _ end] => destruct s as [st [a|]] end; [| done].
  destruct (status_ok st); simpl; [| done]. destruct (replay_finish t a) as [st2 b].
  by destruct (status_ok st2).
Qed.

Lemma restore_journal s e : e_journal (restore_durable_state s e).2 = e_journal e.
Proof. unfold restore_durable_state. by destruct (restore_accounts _ _ _). Qed.

Lemma recover_snapshot_journal snap e : e_journal (recover_snapshot snap e).2 = e_journal e.
Proof.
  unfold recover_snapshot. destruct snap as [[[q c] p]|]; [| done].
  destruct (decode_durable_state p) as [|d]; [done |]. destruct (negb (_ =? _)); [done |].
  pose proof (restore_journal d e) as Hj. destruct (restore_durable_state d e) as [st e1].
  by destruct (status_ok st).
Qed.

Lemma replay_record_journal ss r e : e_journal (replay_record ss r e).2 = e_journal e.
Proof.
  unfold replay_record. destruct (match ss with Some s => _ | None => false end); [done |].
  destruct (jr_kind r); [done | | |].
  - unfold replay_commit. destruct (decode_durable_attempt _) as [|t]; [done |].
    destruct (negb (digest_eqb _ _)); [done |].
    pose proof (replay_attempt_journal t e) as Hj. destruct (replay_attempt t e) as [st e1].
    by destruct (status_ok st).
  - unfold replay_snapshot. destruct (decode_durable_state _) as [|s]; [done |].
    destruct (negb (_ =? _)); [done |].
    pose proof (restore_journal s e) as Hj. destruct (restore_durable_state s e) as [st e1].
    by destruct (status_ok st).
  - unfold replay_intent. destruct (decode_request_message _ _) as [|rq]; [done |]. simpl.
    unfold mark_ambiguous. destruct (e_accounts e !! _); [| done]. by destruct (existsb _ _).
Qed.

(** ** Liveness *)

Lemma demote_all_unreconciled a i r :
  ac_incarnations (demote_all a) !! i = Some r -> ir_state r <> Reconciled.
Proof.
  simpl. rewrite lookup_fmap. destruct (ac_incarnations a !! i) as [x|]; simpl; [| done].
  intros [= <-]. by destruct (demote_cases x) as [[_ ->]|[? ->]].
Qed.

(** A recovery that succeeds ends by demoting every incarnation of every account. *)
Lemma recover_demotes fuel e st e' :
  recover fuel e = Some (st, e') -> status_ok st = true ->
  e_recovered e' = true /\
  forall k a, e_accounts e' !! k = Some a -> exists b, a = demote_all b.
Proof.
  intros Hrec Hst. unfold recover in Hrec.
  destruct (e_has_journal e); [| by simplify_eq/=]. simpl in Hrec.
  destruct (j_open _) as [s1 j1]. destruct (status_ok s1) eqn:H1; [| simplify_eq/=; congruence].
  simpl in Hrec. destruct (j_read_snapshot _) as [s2 snap].
  destruct (status_ok s2) eqn:H2; [| simplify_eq/=; congruence].
  simpl in Hrec. destruct (recover_snapshot _ _) as [s3 e3].
  destruct (status_ok s3) eqn:H3; [| simplify_eq/=; congruence].
  simpl in Hrec. destruct (j_begin_replay _) as [s4 j4].
  destruct (status_ok s4) eqn:H4; [| simplify_eq/=; congruence].
  simpl in Hrec. destruct (replay_loop _ _ _) as [[s5 e5]|]; [| done].
  destruct (status_ok s5) eqn:H5; [| simplify_eq/=; congruence].
  simpl in Hrec. injection Hrec as Hrec. unfold recover_finish in Hrec.
  destruct (j_end_replay _) as [s6 j6]. destruct (status_ok s6) eqn:H6; [| simplify_eq/=; congruence].
  simpl in Hrec. injection Hrec as <- <-. split; [done |]. simpl. intros k a.
  rewrite lookup_fmap. destruct (e_accounts e5 !! k) as [b|]; [| done]. intros [= <-]. by exists b.
Qed.

(** Where nobody is reconciled, only a reconciliation is admitted. *)
Lemma unreconciled_unauthorized limits operator rq a :
  (forall i r, ac_incarnations a !! i = Some r -> ir_state r <> Reconciled) ->
  rq_op rq <> Reconcile -> exists refusal, unauthorized limits operator rq a = Some refusal.
Proof.
  intros Hn Hop. destruct (unauthorized _ _ rq a) as [refusal|] eqn:Hu; [by eexists |].
  apply unauthorized_none in Hu as (_ & _ & _ & _ & Hu).
  destruct (op_eqb (rq_op rq) Reconcile) eqn:E; [by apply op_eqb_eq in E |].
  destruct Hu as (x & Hx & Hl). by apply live_state, (Hn _ _ Hx) in Hl.
Qed.

(** C18: Recovery never restores liveness: after a successful recovery, whatever
    the journal and the snapshot held, no incarnation of any account is
    reconciled, and a call that presents any request other than a reconciliation
    on an account that is there, by whatever incarnation, is neither applied nor
    decided and changes nothing; well formed, on a healthy engine, it is refused
    as stale, unknown, fenced, retired or in need of a reconciliation, unless it
    only describes the account or tries to open it again. *)
Theorem recovery_forgets_liveness fuel e st e' k a :
  recover fuel e = Some (st, e') -> status_ok st = true -> e_accounts e' !! k = Some a ->
  e_recovered e' = true /\
  (forall i r, ac_incarnations a !! i = Some r -> ir_state r <> Reconciled) /\
  forall rq, a_account (rq_authority rq) = k -> rq_op rq <> Reconcile ->
    (apply rq e').2 = e' /\ o_applied (apply rq e').1 = false /\ o_decided (apply rq e').1 = false /\
    (e_journal_failed e' = false -> malformed (e_limits e') rq = None ->
     rq_op rq <> Open -> rq_op rq <> Describe ->
     exists r d, o_status (apply rq e').1 = refused_status r d /\
       r ∈ [RDomainMismatch; RStaleAuthority; RUnknownIncarnation; RFencedIncarnation;
            RIncarnationNotReconciled; RReconciliationRequired]).
Proof.
  intros Hrec Hst Ha. destruct (recover_demotes _ _ _ _ Hrec Hst) as [Hr Hd].
  destruct (Hd _ _ Ha) as [b Hb].
  assert (Hn : forall i r, ac_incarnations a !! i = Some r -> ir_state r <> Reconciled).
  { intros i r. rewrite Hb. apply demote_all_unreconciled. }
  split; [done |]. split; [done |]. intros rq <- Hop.
  destruct (unreconciled_unauthorized (e_limits e') (i_id (e_operator e')) rq a Hn Hop) as [[r d] Hu].
  destruct (apply_unauthorized e' rq a (r, d) Ha Hu) as (H1 & H2 & H3 & H4).
  split_and!; [done | done | done |]. intros Hf Hm Ho Hde. exists r, d. split; [by apply H4 |].
  revert Hu. unfold unauthorized.
  destruct (negb _); [intros [= <- _]; by repeat constructor |].
  destruct (_ || _); [intros [= <- _]; by repeat constructor |].
  destruct (op_eqb (rq_op rq) Reconcile) eqn:E; [by apply op_eqb_eq in E |].
  destruct (find_incarnation _ a) as [x|] eqn:Hx; [| intros [= <- _]; by repeat constructor].
  destruct (state_eqb (ir_state x) Fenced); [intros [= <- _]; by repeat constructor |].
  destruct (state_eqb (ir_state x) Retired); [intros [= <- _]; by repeat constructor |].
  destruct (is_live _ _ x) eqn:Hl; [by apply live_state, (Hn _ _ Hx) in Hl |].
  intros [= <- _]; by repeat constructor.
Qed.

End Recovered.

(** ** Termination on the in-memory journal *)

Definition unread (j : InMemoryJournal) : nat := length (mj_entries j) - mj_cursor j.

Lemma next_record_unread j st r j' :
  memory_next_record j = ((st, r), j') ->
  st = success /\ (jr_valid r = true -> (unread j' < unread j)%nat).
Proof.
  unfold memory_next_record, unread. destruct (mj_entries j !! mj_cursor j) as [x|] eqn:Hx.
  - apply lookup_lt_Some in Hx. destruct (en_corrupted x); intros [= <- <- <-]; simpl; [done |].
    split; [done |]. intros _. lia.
  - by intros [= <- <- <-].
Qed.

Lemma replay_loop_ends fuel ss (e : Engine InMemoryJournal) :
  (unread (e_journal e) < fuel)%nat -> exists res, replay_loop fuel ss e = Some res.
Proof.
  revert e. induction fuel as [|fuel IH]; intros e Hf; [lia |]. simpl.
  destruct (memory_next_record (e_journal e)) as [[st r] j] eqn:E.
  apply next_record_unread in E as [-> Hu]. simpl.
  destruct (jr_valid r) eqn:Hv; simpl; [| by eexists].
  pose proof (replay_record_journal ss r (set_journal j e)) as Hj.
  destruct (replay_record ss r (set_journal j e)) as [st2 e2]. simpl in Hj.
  destruct (status_ok st2); simpl; [| by eexists]. apply IH. rewrite Hj. specialize (Hu eq_refl). lia.
Qed.

(** C19: Recovery from an in-memory journal always returns: one more unit of fuel
    than the journal has entries is enough for the replay loop, whatever the
    entries and the snapshot contain, so "out of fuel" is never the answer. *)
Theorem recovery_terminates (e : Engine InMemoryJournal) fuel :
  (length (mj_entries (e_journal e)) < fuel)%nat -> exists res, recover fuel e = Some res.
Proof.
  intros Hf. unfold recover. destruct (e_has_journal e); simpl; [| by eexists].
  destruct (recover_snapshot _ _) as [st e1] eqn:E1.
  assert (Hj : e_journal e1 = (memory_open (e_journal e)).2).
  { pose proof (recover_snapshot_journal (mj_snapshot (e_journal e))
      (recover_reset (set_journal (memory_open (e_journal e)).2 e))) as Hj.
    simpl in Hj, E1. by rewrite E1 in Hj. }
  destruct (status_ok st); simpl; [| by eexists].
  match goal with |- context [replay_loop fuel ?ss ?x] =>
    destruct (replay_loop_ends fuel ss x) as [[st2 e2] E2] end.
  { rewrite Hj. unfold unread. simpl. lia. }
  rewrite E2. destruct (status_ok st2); simpl; by eexists.
Qed.

(** ** The theorems on a concrete journal *)

(** A journal that holds nothing but a snapshot of the concrete engine. *)
Definition stored_snapshot : list Z :=
  Eval vm_compute in encode_durable_state (snapshot_state sample_engine).

Definition rebooted_engine : Engine InMemoryJournal :=
  set_journal (mkMemory [] 0 1000000 0 false false (Some (1, digest_zero, stored_snapshot)))
    (engine_make default_limits true (memory_make 1000000) operator (mkDigest 8 9)).

Definition reboot_succeeds : bool :=
  match recover 1 rebooted_engine with
  | Some (st, e) =>
      status_ok st &&
      match e_accounts e !! 2 with
      | Some a => match ac_incarnations a !! operator_id with Some _ => true | None => false end
      | None => false
      end
  | None => false
  end.

Lemma reboot_succeeds_eq : reboot_succeeds = true.
Proof. vm_compute. reflexivity. Qed.

Lemma recovery_forgets_liveness_witness :
  exists st e, recover 1 rebooted_engine = Some (st, e) /\
  o_applied (apply (issue_request 1 5) e).1 = false /\ (apply (issue_request 1 5) e).2 = e.
Proof.
  pose proof reboot_succeeds_eq as Hs. unfold reboot_succeeds in Hs.
  destruct (recover 1 rebooted_engine) as [[st e]|] eqn:E; [| discriminate Hs].
  apply andb_prop in Hs as [Hst Hs].
  destruct (e_accounts e !! 2) as [a|] eqn:Ha; [| discriminate Hs].
  destruct (recovery_forgets_liveness 1 rebooted_engine st e 2 a E Hst Ha) as (_ & _ & H).
  destruct (H (issue_request 1 5)) as (H1 & H2 & _); [reflexivity | discriminate |].
  exists st, e. split; [reflexivity |]. split; [exact H2 | exact H1].
Defined.

Lemma recovery_terminates_witness : exists res, recover 1 rebooted_engine = Some res.
Proof. apply (recovery_terminates rebooted_engine 1). exact (le_n 1). Defined.
