(* ===== verification/Explain.v ===== *)
(** * Explanations

    [CreditEngine::explain] reports one account, bounded by the engine's limits,
    and [render] prints the report.  The report is shown to agree with the
    account it describes. *)

From Stdlib Require Import Ascii String.
From stdpp Require Import pretty.
From S2P Require Import Prelude Checked Status Digest Ledger Authority Request Bytes Wire.
From S2P Require Import Record Journal Window Account Engine Steps Invariant Verdicts Safety.
From S2P Require Import Sample Replay AccountDigest.
Local Open Scope Z_scope.

Record IncarnationSummary := mkSummary {
  sm_id : Z;
  sm_publisher : Z;
  sm_boot : Z;
  sm_state : AuthorityState;
  sm_epoch : Z;
  sm_generation : Z;
  sm_producer : Z;
  sm_consumer : Z;
  sm_grant : Z;
  sm_last_sequence : Z;
  sm_committed_ops : Z;
  sm_refused_ops : Z;
}.

Record Explanation := mkExplanation {
  ex_found : bool;
  ex_config : AccountConfig;
  ex_authority : AuthorityVector;
  ex_view : CreditView;
  ex_hard_exhausted : bool;
  ex_exhaustion_cause : Reason;
  ex_operator_incarnation : Z;
  ex_committed_attempts : Z;
  ex_refused_attempts : Z;
  ex_ambiguous_total : Z;
  ex_fences_total : Z;
  ex_incarnations_total : Z;
  ex_refusals_total : Z;
  ex_incarnations : list IncarnationSummary;
  ex_fences : list FenceRecord;
  ex_ambiguous : list AmbiguousNote;
  ex_refusals : list RefusalNote;
  ex_state_digest : Digest128;
  ex_note : string;
}.

Definition summarize (r : IncarnationRecord) : IncarnationSummary :=
  mkSummary (ir_id r) (ir_publisher r) (ir_boot r) (ir_state r) (ir_epoch r) (ir_generation r)
    (ir_producer r) (ir_consumer r) (ir_grant r) (ir_last_sequence r) (ir_committed_ops r)
    (ir_refused_ops r).

(** The report for an account that does not exist. *)
Definition unknown_explanation (operator : Z) : Explanation :=
  mkExplanation false config_zero vector_zero view_zero false ROk operator 0 0 0 0 0 0 [] [] [] []
    digest_zero "account unknown".

Definition count_of {A} (l : list A) : Z := Z.of_nat (length l).

Definition explain_account (limits : EngineLimits) (operator : Z) (a : AccountState) : Explanation :=
  mkExplanation true (ac_config a)
    (mkVector (ac_domain a) (ac_account a) (ac_epoch a) (ac_generation a) 0)
    (account_view a) (ac_hard_exhausted a) (ac_exhaustion_cause a) operator
    (ac_committed_attempts a) (ac_refused_attempts a)
    (count_of (ac_ambiguous a)) (count_of (ac_fences a))
    (Z.of_nat (size (ac_incarnations a))) (count_of (ac_refusals a))
    ((fun i => summarize (default record_zero (ac_incarnations a !! i))) <$>
       take (Z.to_nat (max_explanation_incarnations limits)) (sorted_ids (ac_incarnations a)))
    (take (Z.to_nat (max_explanation_fences limits)) (ac_fences a))
    (take (Z.to_nat (max_ambiguous_attempts limits)) (ac_ambiguous a))
    (take (Z.to_nat (max_explanation_refusals limits)) (ac_refusals a))
    (account_digest a) "".

Section Explain.
Context {J : Type}.

Definition explain (account : Z) (e : Engine J) : Explanation :=
  match e_accounts e !! account with
  | None => unknown_explanation (i_id (e_operator e))
  | Some a => explain_account (e_limits e) (i_id (e_operator e)) a
  end.

End Explain.

(** ** Rendering *)

Definition newline : string := String "010"%char EmptyString.

Definition hex (z : Z) : string := string_of_list_ascii (to_hex z).

(** [CreditView::to_string]. *)
Definition view_to_string (v : CreditView) : string :=
  "capacity=" +:+ dec_string (v_capacity v) +:+ " available=" +:+ dec_string (v_available v)
    +:+ " issued=" +:+ dec_string (v_issued v) +:+ " in_flight=" +:+ dec_string (v_in_flight v)
    +:+ " spendable=" +:+ dec_string (v_outstanding v) +:+ " spent=" +:+ dec_string (v_spent v)
    +:+ " consumed=" +:+ dec_string (v_consumed v) +:+ " returned=" +:+ dec_string (v_returned v)
    +:+ " protected=" +:+ dec_string (v_protected v)
    +:+ " quarantined=" +:+ dec_string (v_quarantined v)
    +:+ " closed=" +:+ (if v_closed v then "yes" else "no").

Definition render_incarnation (s : IncarnationSummary) : string :=
  "  incarnation " +:+ hex (sm_id s) +:+ " publisher=" +:+ hex (sm_publisher s)
    +:+ " boot=" +:+ hex (sm_boot s) +:+ " state=" +:+ authority_state_to_string (sm_state s)
    +:+ " era=" +:+ dec_string (sm_epoch s) +:+ "/" +:+ dec_string (sm_generation s)
    +:+ " producer=" +:+ hex (sm_producer s) +:+ " consumer=" +:+ hex (sm_consumer s)
    +:+ " last_seq=" +:+ dec_string (sm_last_sequence s) +:+ newline.

Definition render_fence (f : FenceRecord) : string :=
  "  fence " +:+ hex (f_incarnation f) +:+ " at epoch=" +:+ dec_string (f_epoch f)
    +:+ " cause=" +:+ reason_to_string (f_cause f)
    +:+ " fenced_credit=" +:+ dec_string (f_credit f) +:+ newline.

Definition render_ambiguous (n : AmbiguousNote) : string :=
  "  ambiguous " +:+ op_to_string (an_op n) +:+ " seq=" +:+ dec_string (an_sequence n)
    +:+ " incarnation=" +:+ hex (an_incarnation n) +:+ newline.

Definition render_refusal (n : RefusalNote) : string :=
  "  refusal " +:+ op_to_string (rn_op n) +:+ " seq=" +:+ dec_string (rn_sequence n)
    +:+ " reason=" +:+ reason_to_string (rn_reason n) +:+ newline.

Definition join_lines {A} (line : A -> string) (items : list A) : string :=
  foldr (fun x text => line x +:+ text) "" items.

Definition render (x : Explanation) : string :=
  "account=" +:+ hex (c_account (ex_config x)) +:+
  if negb (ex_found x) then " UNKNOWN" +:+ newline else
  " domain=" +:+ hex (c_domain (ex_config x)) +:+ " resource=" +:+ hex (c_resource (ex_config x))
    +:+ " profile=" +:+ profile_to_string (c_profile (ex_config x)) +:+ newline
  +:+ "authority: epoch=" +:+ dec_string (a_epoch (ex_authority x))
    +:+ " generation=" +:+ dec_string (a_generation (ex_authority x))
    +:+ " operator=" +:+ hex (ex_operator_incarnation x) +:+ newline
  +:+ "view: " +:+ view_to_string (ex_view x) +:+ newline
  +:+ "exhaustion: " +:+ (if ex_hard_exhausted x then "HARD" else "open")
    +:+ " cause=" +:+ reason_to_string (ex_exhaustion_cause x)
    +:+ (if view_exhausted (ex_view x) then " available=0" else " available>0") +:+ newline
  +:+ "state_digest=" +:+ string_of_list_ascii (digest_to_hex (ex_state_digest x))
    +:+ " committed=" +:+ dec_string (ex_committed_attempts x)
    +:+ " refused=" +:+ dec_string (ex_refused_attempts x) +:+ newline
  +:+ "incarnations=" +:+ dec_string (ex_incarnations_total x)
    +:+ " fences=" +:+ dec_string (ex_fences_total x)
    +:+ " ambiguous=" +:+ dec_string (ex_ambiguous_total x) +:+ newline
  +:+ join_lines render_incarnation (ex_incarnations x) +:+ join_lines render_fence (ex_fences x)
  +:+ join_lines render_ambiguous (ex_ambiguous x) +:+ join_lines render_refusal (ex_refusals x).

(** ** The report agrees with the account *)

Lemma sorted_ids_length m : length (sorted_ids m) = size m.
Proof. rewrite sorted_ids_perm, length_fmap. apply length_map_to_list. Qed.

Lemma sorted_ids_strict m : StronglySorted Z.lt (sorted_ids m).
Proof.
  pose proof (sorted_ids_sorted m) as Hs. apply Sorted_StronglySorted in Hs; [| intros x y z; lia].
  pose proof (sorted_ids_nodup m) as Hn.
  induction Hs as [|x l Hs IH Hx]; [constructor |]. apply NoDup_cons in Hn as [Hx' Hn].
  constructor; [by apply IH |]. rewrite Forall_forall in *. intros y Hy. specialize (Hx y Hy).
  assert (x <> y) by (by intros ->). lia.
Qed.

Lemma strongly_sorted_take {A} (R : A -> A -> Prop) n l :
  StronglySorted R l -> StronglySorted R (take n l).
Proof.
  intros Hs. revert n. induction Hs as [|x l Hs IH Hx]; intros [|n]; simpl; try constructor; [done |].
  by apply Forall_take.
Qed.

(** Each summary carries the identity it is listed under. *)
Lemma summaries_ids limits a n :
  account_ok limits a ->
  sm_id <$> ((fun i => summarize (default record_zero (ac_incarnations a !! i))) <$>
    take n (sorted_ids (ac_incarnations a))) = take n (sorted_ids (ac_incarnations a)).
Proof.
  intros Ha. rewrite <-list_fmap_compose. rewrite <-(list_fmap_id (take n _)) at 2.
  apply list_fmap_ext. intros k i Hk. simpl.
  apply list_elem_of_lookup_2, subseteq_take, elem_of_sorted_ids in Hk as [r Hr]. rewrite Hr. simpl.
  by apply (si_id _ _ _ _ _ (ao_standing _ _ Ha)).
Qed.

(** An explanation tells the truth about the account and stays within its
    budgets: an unknown account is reported as such; otherwise the view, era,
    exhaustion and digest are the account's own, the totals count everything the
    account holds even when the lists are cut, and the lists hold the first
    records the budgets allow, incarnations in strictly increasing identity,
    each agreeing with the account's record of that identity. *)
Theorem explanation_is_faithful {J : Type} (e : Engine J) k :
  engine_ok e ->
  let x := explain k e in
  match e_accounts e !! k with
  | None => x = unknown_explanation (i_id (e_operator e))
  | Some a =>
      ex_found x = true /\ ex_view x = account_view a /\ v_closed (ex_view x) = true /\
      ex_state_digest x = account_digest a /\
      ex_authority x = mkVector (ac_domain a) k (ac_epoch a) (ac_generation a) 0 /\
      ex_incarnations_total x = Z.of_nat (size (ac_incarnations a)) /\
      ex_fences_total x = Z.of_nat (length (ac_fences a)) /\
      length (ex_incarnations x) =
        (Z.to_nat (max_explanation_incarnations (e_limits e)) `min` size (ac_incarnations a))%nat /\
      StronglySorted Z.lt (sm_id <$> ex_incarnations x) /\
      (forall s, s ∈ ex_incarnations x ->
        exists r, ac_incarnations a !! sm_id s = Some r /\ s = summarize r) /\
      ex_fences x = take (Z.to_nat (max_explanation_fences (e_limits e))) (ac_fences a) /\
      ex_refusals x = take (Z.to_nat (max_explanation_refusals (e_limits e))) (ac_refusals a) /\
      ex_ambiguous x = take (Z.to_nat (max_ambiguous_attempts (e_limits e))) (ac_ambiguous a)
  end.
Proof.
  intros He. unfold explain. destruct (e_accounts e !! k) as [a|] eqn:Ha; [| done].
  destruct (eo_accounts _ He _ _ Ha) as [Hok Hk].
  pose proof (summaries_ids _ a (Z.to_nat (max_explanation_incarnations (e_limits e))) Hok) as Hids.
  simpl. rewrite Hids, Hk. split_and!; try done.
  - unfold account_view. by rewrite compute_view_ok by apply Hok.
  - by rewrite length_fmap, length_take, sorted_ids_length.
  - apply strongly_sorted_take, sorted_ids_strict.
  - intros s (i & -> & Hi)%list_elem_of_fmap.
    apply subseteq_take, elem_of_sorted_ids in Hi as [r Hr].
    exists r. rewrite Hr. simpl. by rewrite (si_id _ _ _ _ _ (ao_standing _ _ Hok) _ _ Hr).
Qed.

Lemma explanation_is_faithful_witness :
  v_closed (ex_view (explain 2 sample_engine)) = true.
Proof. by apply (explanation_is_faithful sample_engine 2 (sample_engine_ok _)). Defined.

(** ** Line structure of the rendering *)

(** The number of line breaks in a text. *)
Fixpoint breaks (s : string) : nat :=
  match s with
  | EmptyString => 0
  | String c rest => (if Ascii.eqb c "010"%char then 1 else 0) + breaks rest
  end.

Lemma breaks_app s t : breaks (s +:+ t) = (breaks s + breaks t)%nat.
Proof. induction s as [|c s IH]; simpl; [done |]. rewrite IH. lia. Qed.

Lemma breaks_newline : breaks newline = 1%nat.
Proof. done. Qed.

Lemma pretty_char_not_break n : Ascii.eqb (pretty_N_char n) "010"%char = false.
Proof. unfold pretty_N_char. by repeat case_match. Qed.

Lemma breaks_pretty_go n : forall s, breaks (pretty_N_go n s) = breaks s.
Proof.
  induction (N.lt_wf_0 n) as [n _ IH]. intros s. destruct (decide (n = 0)%N) as [->|Hn].
  { by rewrite pretty_N_go_0. }
  rewrite pretty_N_go_step by lia. rewrite IH by (apply N.div_lt; lia). simpl.
  by rewrite pretty_char_not_break.
Qed.

Lemma breaks_dec z : breaks (dec_string z) = 0%nat.
Proof.
  unfold dec_string, pretty, pretty_N. case_decide; [done |]. by rewrite breaks_pretty_go.
Qed.

Lemma breaks_list l :
  Forall (fun c => Ascii.eqb c "010"%char = false) l -> breaks (string_of_list_ascii l) = 0%nat.
Proof. induction 1 as [|c l Hc _ IH]; [done |]. simpl. by rewrite Hc, IH. Qed.

Lemma hex_digit_not_break n : Ascii.eqb (hex_digit n) "010"%char = false.
Proof.
  unfold hex_digit. destruct (kHexDigits !! Z.to_nat n) as [c|] eqn:E; [| done].
  apply list_elem_of_lookup_2 in E. revert E. unfold kHexDigits. simpl.
  rewrite !elem_of_cons, elem_of_nil. intros E. by repeat destruct E as [->|E].
Qed.

Lemma breaks_hex z : breaks (hex z) = 0%nat.
Proof.
  apply breaks_list, Forall_forall. intros c (i & -> & _)%list_elem_of_fmap. apply hex_digit_not_break.
Qed.

Lemma breaks_digest d : breaks (string_of_list_ascii (digest_to_hex d)) = 0%nat.
Proof.
  apply breaks_list, Forall_forall. intros c (l & Hc & (i & -> & _)%list_elem_of_fmap)%list_elem_of_join.
  unfold digest_hex_pair in Hc. rewrite !elem_of_cons, elem_of_nil in Hc.
  destruct Hc as [->|[->|[]]]; apply hex_digit_not_break.
Qed.

Lemma breaks_reason r : breaks (reason_to_string r) = 0%nat.
Proof. by destruct r. Qed.

Lemma breaks_op o : breaks (op_to_string o) = 0%nat.
Proof. by destruct o. Qed.

Lemma breaks_state s : breaks (authority_state_to_string s) = 0%nat.
Proof. by destruct s. Qed.

Lemma breaks_profile p : breaks (profile_to_string p) = 0%nat.
Proof. by destruct p. Qed.

Lemma breaks_if (b : bool) s t : breaks (if b then s else t) = if b then breaks s else breaks t.
Proof. by destruct b. Qed.

Create Rewrite HintDb breaks.
#[local] Hint Rewrite breaks_app breaks_newline breaks_dec breaks_hex breaks_digest breaks_reason
  breaks_op breaks_state breaks_profile breaks_if : breaks.

Lemma breaks_view v : breaks (view_to_string v) = 0%nat.
Proof. unfold view_to_string. autorewrite with breaks. by destruct (v_closed v). Qed.

Lemma breaks_lines {A} (line : A -> string) items :
  (forall x, breaks (line x) = 1%nat) -> breaks (join_lines line items) = length items.
Proof.
  intros Hl. induction items as [|x items IH]; [done |]. simpl. by rewrite breaks_app, Hl, IH.
Qed.

Lemma breaks_incarnation s : breaks (render_incarnation s) = 1%nat.
Proof. unfold render_incarnation. by autorewrite with breaks. Qed.

Lemma breaks_fence f : breaks (render_fence f) = 1%nat.
Proof. unfold render_fence. by autorewrite with breaks. Qed.

Lemma breaks_ambiguous n : breaks (render_ambiguous n) = 1%nat.
Proof. unfold render_ambiguous. by autorewrite with breaks. Qed.

Lemma breaks_refusal n : breaks (render_refusal n) = 1%nat.
Proof. unfold render_refusal. by autorewrite with breaks. Qed.

(** The printed report has one line per fact: one line when the account is
    unknown, and otherwise six header lines and exactly one line for each listed
    incarnation, fence, ambiguous attempt and refusal, so its length is bounded
    by the explanation budgets whatever the account holds. *)
Theorem render_is_line_structured x :
  breaks (render x) =
  if ex_found x
  then (6 + length (ex_incarnations x) + length (ex_fences x) + length (ex_ambiguous x) +
        length (ex_refusals x))%nat
  else 1%nat.
Proof.
  unfold render. destruct (ex_found x); simpl negb; cbv iota; autorewrite with breaks; [| done].
  rewrite breaks_view, (breaks_lines render_incarnation), (breaks_lines render_fence),
    (breaks_lines render_ambiguous), (breaks_lines render_refusal)
    by auto using breaks_incarnation, breaks_fence, breaks_ambiguous, breaks_refusal.
  destruct (ex_hard_exhausted x), (view_exhausted (ex_view x)); simpl; lia.
Qed.
