(* ===== verification/Restart.v ===== *)
(** * Restarting the engine

    The end-to-end durability theorem: run an engine on a fresh journal, restart,
    recover from that journal, and the accounts are back, except for what is
    deliberately not durable (who is live, and the audit log of refusals).

    The proof replays the log two records at a time, along the live run. *)

From S2P Require Import Prelude Checked Status Digest Ledger Authority Request Bytes Wire.
From S2P Require Import Record Journal Window Account Engine Recovery Steps Invariant Verdicts.
From S2P Require Import Safety Sample Guarantees Durability Replay AccountDigest RecoveryProps.
Local Open Scope Z_scope.

(** ** Replay does not look at notes, refusals and decided attempts *)

(** An account with other decided attempts, other pending notes and no audit log. *)
Definition reframe (W : AttemptWindow -> AttemptWindow) (N : list AmbiguousNote -> list AmbiguousNote)
    (a : AccountState) : AccountState :=
  set_window (W (ac_window a)) (set_ambiguous (N (ac_ambiguous a)) (forget_refusals a)).

Lemma reframe_digest W N a : account_digest (reframe W N a) = account_digest a.
Proof. by rewrite !account_digest_words. Qed.

Lemma reframe_transition W N rq a :
  apply_replay_transition rq (reframe W N a) =
  let '(st, b) := apply_replay_transition rq a in (st, reframe W N b).
Proof.
  destruct a. unfold apply_replay_transition, replay_plan, reframe, forget_refusals. simpl.
  destruct (rq_op rq); try done; unfold ledger_apply, account_plan; simpl.
  all: repeat case_match; simplify_eq/=; done.
Qed.

Lemma reframe_effects W N rq a :
  replay_effects rq (reframe W N a) = let '(st, b) := replay_effects rq a in (st, reframe W N b).
Proof.
  destruct a. unfold replay_effects, reframe, forget_refusals, reconcile_account, find_incarnation. simpl.
  destruct (rq_op rq); try done; by repeat case_match.
Qed.

Lemma reframe_existing W N t a :
  replay_existing t (reframe W N a) = let '(st, b) := replay_existing t a in (st, reframe W N b).
Proof.
  unfold replay_existing. destruct (o_applied (dt_outcome t)); [| by destruct (o_decided (dt_outcome t))].
  rewrite reframe_transition. destruct (apply_replay_transition _ a) as [st x].
  destruct (status_ok st); simpl; [| done].
  rewrite reframe_effects. destruct (replay_effects _ x) as [st' y]. by destruct (status_ok st').
Qed.

(** An account with other pending notes and another audit log. *)
Definition dress (notes : list AmbiguousNote) : AccountState -> AccountState := reframe id (fun _ => notes).

Lemma dress_digest notes a : account_digest (dress notes a) = account_digest a.
Proof. apply reframe_digest. Qed.

Lemma dress_existing notes t a b :
  replay_existing t a = (success, b) -> replay_existing t (dress notes a) = (success, dress notes b).
Proof. intros H. unfold dress. by rewrite reframe_existing, H. Qed.

(** Publishing a decision resolves the note its intent left. *)
Lemma dress_finish t b x j :
  ac_ambiguous b = [] -> o_decided (dt_outcome t) = true -> replay_finish t b = (success, x) ->
  replay_finish t (dress [ambiguous_note (dt_request t) j] b) = (success, forget_refusals x).
Proof.
  intros Hb Hd. unfold replay_finish, replay_mismatch. rewrite dress_digest, Hd. simpl.
  repeat (case_match; [done |]). intros [= <-]. f_equal.
  unfold publish_window_locked, resolve_ambiguous. simpl.
  unfold note_matches. simpl. rewrite !Z.eqb_refl. simpl. unfold forget_refusals. simpl. by rewrite Hb.
Qed.

(** ** Replaying a log *)

Definition log_record (x : LogEntry) : JournalRecord :=
  mkJRecord true (lg_sequence x) (lg_kind x) (lg_chain x) (lg_payload x) 0.

Section Log.
Context {J : Type} `{Journal J}.
Implicit Types (e er : Engine J) (rq : CreditRequest) (o : CreditOutcome).

Fixpoint replay_list (l : list LogEntry) er : Status * Engine J :=
  match l with
  | [] => (success, er)
  | x :: rest =>
      let '(st, er) := replay_record None (log_record x) er in
      if status_ok st then replay_list rest er else (st, er)
  end.

Lemma replay_list_app l1 l2 er er1 :
  replay_list l1 er = (success, er1) -> replay_list (l1 ++ l2) er = replay_list l2 er1.
Proof.
  revert er. induction l1 as [|x l1 IH]; intros er; simpl; [by intros [= ->] |].
  destruct (replay_record None (log_record x) er) as [st er2]. destruct (status_ok st) eqn:E; [apply IH |].
  intros [= -> ->]. done.
Qed.

(** A replayed engine that agrees with accounts [A], chain [c] and next sequence [n]. *)
Record mirrors er (limits : EngineLimits) (A : gmap Z AccountState) (c : Digest128) (n : Z) : Prop := {
  mr_accounts : e_accounts er = forget_refusals <$> A;
  mr_chain : e_chain er = c;
  mr_limits : e_limits er = limits;
  mr_next : e_next_sequence er = n;
}.

(** The two records of a decision, as [persist_locked] numbers and chains them. *)
Definition decision_records (c : Digest128) (s : Z) rq o (t : DurableAttempt) : list LogEntry :=
  let s2 := wrap64 (s + 1) in
  [mkLog s KIntent (intent_chain c s rq) (encode_request_message rq);
   mkLog s2 KAttempt (commit_chain c s2 rq o) (encode_durable_attempt t)].

Lemma replay_commit_ok er c s rq o t er' :
  e_chain er = c -> dt_request t = rq -> dt_outcome t = o -> durable_attempt_wf t ->
  replay_attempt t er = (success, er') ->
  exists er2, replay_record None (log_record (mkLog s KAttempt (commit_chain c s rq o)
    (encode_durable_attempt t))) er = (success, er2) /\
  e_accounts er2 = e_accounts er' /\ e_chain er2 = commit_chain c s rq o /\
  e_limits er2 = e_limits er' /\ e_next_sequence er2 = wrap64 (s + 1).
Proof.
  intros Hc Hq Ho Hwf Hr. unfold replay_record. simpl. unfold replay_commit. simpl.
  rewrite durable_attempt_decodes, Hc, Hq, Ho, digest_eqb_refl by done. simpl. rewrite Hr. simpl.
  by eexists.
Qed.

Lemma replay_limits t er : e_limits (replay_attempt t er).2 = e_limits er.
Proof.
  unfold replay_attempt.
  match goal with |- context [match ?s with (_, _) => _ end] => destruct s as [st [a|]] end; [| done].
  destruct (status_ok st); simpl; [| done]. destruct (replay_finish t a) as [st2 b].
  by destruct (status_ok st2).
Qed.

(** A decision on an account that exists. *)
Lemma replay_existing_pair er limits A c n s rq o t a b x :
  mirrors er limits A c n -> request_wf (max_note_bytes limits) rq -> durable_attempt_wf t ->
  dt_request t = rq -> dt_outcome t = o -> dt_created_account t = false -> o_decided o = true ->
  A !! a_account (rq_authority rq) = Some a -> ac_ambiguous a = [] -> ac_ambiguous b = [] ->
  replay_existing t a = (success, b) -> replay_finish t b = (success, x) ->
  exists er', replay_list (decision_records c s rq o t) er = (success, er') /\
    mirrors er' limits (<[a_account (rq_authority rq) := x]> A)
      (commit_chain c (wrap64 (s + 1)) rq o) (wrap64 (wrap64 (s + 1) + 1)).
Proof.
  intros [MA MC ML MN] Hq Hwf Htq Hto Htc Hd Ha Haa Hab He Hf. set (key := a_account (rq_authority rq)) in *.
  set (note := ambiguous_note rq s).
  set (er1 := set_stats (incr_st_replayed_ambiguous (e_stats er)) (put_account key (dress [note] a) er)).
  assert (H1 : replay_record None (log_record (mkLog s KIntent (intent_chain c s rq)
    (encode_request_message rq))) er = (success, er1)).
  { unfold replay_record. simpl. unfold replay_intent. simpl. rewrite ML, request_message_decodes by done.
    unfold mark_ambiguous. fold key. rewrite MA, lookup_fmap, Ha. simpl. rewrite Haa. simpl.
    by destruct (_ >=? _). }
  assert (Hr : exists er', replay_attempt t er1 = (success, er') /\
    e_accounts er' = <[key := forget_refusals x]> (e_accounts er1)).
  { apply (replay_put er1 key (dress [note] a) t (dress [note] b)); try done.
    - apply lookup_insert_eq.
    - by rewrite Htq.
    - by apply dress_existing.
    - unfold note. rewrite <-Htq. apply dress_finish; [done | by rewrite Hto | done]. }
  destruct Hr as (er2 & Hr & Hacc).
  pose proof (replay_limits t er1) as Hl. rewrite Hr in Hl. simpl in Hl.
  destruct (replay_commit_ok er1 c (wrap64 (s + 1)) rq o t er2) as (er3 & H3 & Ha3 & Hc3 & Hl3 & Hn3); try done.
  exists er3. simpl replay_list. rewrite H1. simpl status_ok. cbv iota. rewrite H3. split; [done |].
  constructor; try done; [| congruence]. rewrite Ha3, Hacc. unfold er1. simpl.
  by rewrite insert_insert_eq, MA, fmap_insert.
Qed.

(** The decision that opened an account. *)
Lemma replay_created_pair er limits A c n s rq o t x :
  mirrors er limits A c n -> request_wf (max_note_bytes limits) rq -> durable_attempt_wf t ->
  dt_request t = rq -> dt_outcome t = o -> dt_created_account t = true ->
  A !! a_account (rq_authority rq) = None ->
  replay_finish t (replay_created limits t) = (success, x) -> forget_refusals x = x ->
  exists er', replay_list (decision_records c s rq o t) er = (success, er') /\
    mirrors er' limits (<[a_account (rq_authority rq) := x]> A)
      (commit_chain c (wrap64 (s + 1)) rq o) (wrap64 (wrap64 (s + 1) + 1)).
Proof.
  intros [MA MC ML MN] Hq Hwf Htq Hto Htc Ha Hf Hx. set (key := a_account (rq_authority rq)) in *.
  assert (H1 : replay_record None (log_record (mkLog s KIntent (intent_chain c s rq)
    (encode_request_message rq))) er = (success, er)).
  { unfold replay_record. simpl. unfold replay_intent. simpl. rewrite ML, request_message_decodes by done.
    unfold mark_ambiguous. fold key. by rewrite MA, lookup_fmap, Ha. }
  assert (Hr : exists er', replay_attempt t er = (success, er') /\
    e_accounts er' = <[key := x]> (e_accounts er)).
  { unfold replay_attempt. rewrite Htc, Htq. fold key. rewrite MA, lookup_fmap, Ha. simpl.
    rewrite ML, Hf. simpl. eexists. split; [done |]. simpl. by rewrite MA. }
  destruct Hr as (er2 & Hr & Hacc).
  pose proof (replay_limits t er) as Hl. rewrite Hr in Hl. simpl in Hl.
  destruct (replay_commit_ok er c (wrap64 (s + 1)) rq o t er2) as (er3 & H3 & Ha3 & Hc3 & Hl3 & Hn3); try done.
  exists er3. simpl replay_list. rewrite H1. simpl status_ok. cbv iota. rewrite H3. split; [done |].
  constructor; try done; [| congruence]. by rewrite Ha3, Hacc, MA, fmap_insert, Hx.
Qed.

(** An intent without its commit record leaves a note on its account. *)
Lemma replay_intent_marks er limits A c n s ch rq :
  mirrors er limits A c n -> request_wf (max_note_bytes limits) rq ->
  (forall a, A !! a_account (rq_authority rq) = Some a -> ac_ambiguous a = []) ->
  exists er1, replay_record None (log_record (mkLog s KIntent ch (encode_request_message rq))) er = (success, er1) /\
    e_accounts er1 = forget_refusals <$> alter (set_ambiguous [ambiguous_note rq s]) (a_account (rq_authority rq)) A /\
    e_chain er1 = c /\ e_next_sequence er1 = n.
Proof.
  intros [MA MC ML MN] Hq Hnone. set (key := a_account (rq_authority rq)) in *. unfold replay_record. simpl.
  unfold replay_intent. simpl. rewrite ML, request_message_decodes by done. unfold mark_ambiguous. fold key.
  rewrite MA, lookup_fmap. destruct (A !! key) as [a|] eqn:Ha; simpl.
  - specialize (Hnone a eq_refl). rewrite Hnone. simpl. eexists. split; [done |]. simpl. split_and!; [| done | done].
    assert (Hal : alter (set_ambiguous [ambiguous_note rq s]) key A =
      <[key := set_ambiguous [ambiguous_note rq s] a]> A).
    { apply map_eq. intros i. destruct (decide (i = key)) as [->|Hi].
      - by rewrite lookup_alter_eq, Ha, lookup_insert_eq.
      - by rewrite lookup_alter_ne, lookup_insert_ne. }
    rewrite Hal, fmap_insert, MA. by destruct (_ >=? _).
  - eexists. split; [done |]. split_and!; [| done | done]. rewrite MA. f_equal. apply map_eq. intros i.
    destruct (decide (i = key)) as [->|Hi]; [by rewrite lookup_alter_eq, Ha | by rewrite lookup_alter_ne].
Qed.

End Log.

(** ** What a live call writes *)

Definition attempts_range (s : EngineStats) : Prop :=
  in_u64 (st_attempts_applied s) /\ in_u64 (st_attempts_refused s).

Section Live.
Context {J : Type} `{Journal J, !JournalLaws J}.
Implicit Types (e : Engine J) (rq : CreditRequest) (o : CreditOutcome).

(** What the bookkeeping around a persisted decision leaves alone. *)
Record carried e e' : Prop := {
  cr_journal : e_journal e' = e_journal e;
  cr_chain : e_chain e' = e_chain e;
  cr_next : e_next_sequence e' = e_next_sequence e;
  cr_limits : e_limits e' = e_limits e;
  cr_records : e_journal_records e' = e_journal_records e;
  cr_failed : e_journal_failed e' = e_journal_failed e;
  cr_stats : attempts_range (e_stats e) -> attempts_range (e_stats e');
}.

#[local] Instance carried_refl : Reflexive carried.
Proof. by constructor. Qed.

(** The checks an attempt passes before it is decided. *)
Record admission e rq (a : AccountState) : Prop := {
  am_account : e_accounts e !! a_account (rq_authority rq) = Some a;
  am_open : rq_op rq <> Open;
  am_describe : rq_op rq <> Describe;
  am_authorized : unauthorized (e_limits e) (i_id (e_operator e)) rq a = None;
  am_unknown : known_attempt rq a (initial_outcome rq) = None;
  am_placed : misplaced rq a = None;
}.

(** The decision a durable call made: its outcome, the account it journaled and
    the account it published. *)
Inductive decision e rq : CreditOutcome -> AccountState -> bool -> AccountState -> Prop :=
| dc_applied a b :
    admission e rq a -> verdict (e_challenge e) (e_limits e) rq a = VApplied b ->
    let o := set_outcome_era a (initial_outcome rq) in
    let c := count_commit (a_incarnation (rq_authority rq)) b in
    decision e rq (applied_outcome c o) c false (committed_account rq o b)
| dc_refused r d a b :
    admission e rq a -> verdict (e_challenge e) (e_limits e) rq a = VDecided r d b ->
    let o := decided_refusal r d (set_outcome_era a (initial_outcome rq)) in
    let c := count_refusal (a_incarnation (rq_authority rq)) b in
    decision e rq (observe c o) c false (refused_account (e_limits e) rq o b)
| dc_opened :
    rq_op rq = Open -> open_refusal rq e = None ->
    let c := opened_account (e_limits e) rq in
    let o := applied_outcome c (initial_outcome rq) in
    decision e rq o c true (publish_window_locked rq o c).

Inductive logged e rq : CreditOutcome -> Engine J -> Prop :=
| lg_failed o e' d c created x st e1 :
    malformed (e_limits e) rq = None ->
    persist_locked rq d c created (put_account (a_account (rq_authority rq)) c e) = (st, e1) ->
    status_ok st = false -> e_journal e' = e_journal e1 -> e_journal_failed e' = true ->
    decision e rq d c created x -> logged e rq o e'
| lg_quiet o e' :
    o_applied o = false -> e_accounts e' = e_accounts e -> carried e e' -> logged e rq o e'
| lg_leak o e' :
    o_applied o = false -> rq_op rq = Fence -> reason (o_status o) = RBudgetExceeded -> carried e e' ->
    logged e rq o e'
| lg_durable o e' c created x st e1 :
    malformed (e_limits e) rq = None ->
    persist_locked rq o c created (put_account (a_account (rq_authority rq)) c e) = (st, e1) ->
    status_ok st = true -> carried e1 e' ->
    e_accounts e' = <[a_account (rq_authority rq) := x]> (e_accounts e) ->
    decision e rq o c created x -> logged e rq o e'.

(** A refusal that consumes no sequence changes nothing, a fence over budget apart. *)
Lemma verdict_refused_same nonce limits rq a r d b :
  verdict nonce limits rq a = VRefused r d b -> b = a \/ rq_op rq = Fence /\ r = RBudgetExceeded.
Proof.
  unfold verdict.
  assert (HP : forall res f x, plan_step res f x = VRefused r d b -> b = x).
  { intros res f x. unfold plan_step. by case_match. }
  assert (HD : data_verdict rq a = VRefused r d b -> b = a).
  { unfold data_verdict, ledger_verdict. repeat case_match; try done; by intros [= _ _ <-]. }
  assert (HE : era_verdict rq a = VRefused r d b -> b = a).
  { unfold era_verdict. repeat case_match; try done; by intros [= _ _ <-]. }
  assert (HF : fence_verdict limits rq a = VRefused r d b -> b = a \/ r = RBudgetExceeded).
  { unfold fence_verdict. repeat case_match; try done; intros [= <- _ <-]; auto. }
  destruct (classify (rq_op rq)).
  1, 2: repeat case_match; try (intros [= _ _ <-]; auto); auto.
  destruct (_ && _); [intros [= _ _ <-]; auto |]. unfold control_verdict.
  destruct (rq_op rq); intros Hv; auto; try (left; by eapply HP).
  all: try (destruct (HF Hv); auto; fail).
  all: left; revert Hv; repeat case_match; try done; try (by intros [= _ _ <-]); by apply HP.
Qed.

Lemma settle_logged key rq a v o subject backup e o' e' :
  key = a_account (rq_authority rq) -> o = set_outcome_era a (initial_outcome rq) ->
  malformed (e_limits e) rq = None -> admission e rq a -> v = verdict (e_challenge e) (e_limits e) rq a ->
  settle key subject backup rq v o e = (o', e') -> logged e rq o' e'.
Proof.
  intros -> -> Hm Had Hv. pose proof (am_account _ _ _ Had) as Ha. destruct v as [r d b|r d b|b]; simpl.
  - intros [= <- <-]. destruct (verdict_refused_same _ _ _ _ _ _ _ (eq_sym Hv)) as [->|[Hf ->]].
    + rewrite put_account_id by done. by apply lg_quiet.
    + by apply lg_leak.
  - unfold finish_decided. destruct (persist_locked _ _ _ _ _) as [st e1] eqn:E.
    pose proof (persist_core _ _ _ _ _ _ _ E) as Hc.
    destruct (status_ok st) eqn:Hst; simpl; intros [= <- <-].
    2: { eapply lg_failed; [done | exact E | done | done | done | by eapply dc_refused]. }
    eapply lg_durable; [done | exact E | done | | | by eapply dc_refused].
    + constructor; try done. intros [? ?]. split; simpl; auto with word.
    + simpl. rewrite (sc_accounts _ _ Hc), (sc_limits _ _ Hc). simpl. by rewrite insert_insert_eq.
  - unfold commit_applied. destruct (persist_locked _ _ _ _ _) as [st e1] eqn:E.
    pose proof (persist_core _ _ _ _ _ _ _ E) as Hc.
    destruct (status_ok st) eqn:Hst; simpl; intros [= <- <-].
    2: { eapply lg_failed; [done | exact E | done | done | done | by eapply dc_applied]. }
    eapply lg_durable; [done | exact E | done | | | by eapply dc_applied].
    + constructor; try done. intros [? ?]. split; simpl; auto with word.
    + simpl. rewrite (sc_accounts _ _ Hc). simpl. by rewrite insert_insert_eq.
Qed.

Lemma decide_logged key a rq o e o' e' :
  key = a_account (rq_authority rq) -> o = set_outcome_era a (initial_outcome rq) ->
  malformed (e_limits e) rq = None -> admission e rq a ->
  match classify (rq_op rq) with
  | OpControl => decide_control_locked key a rq o e
  | _ => decide_data_locked key a rq o e
  end = (o', e') -> logged e rq o' e'.
Proof.
  intros Hk Ho Hm Had.
  assert (Hq : forall r d, logged e rq (refused r d o) e) by (intros; subst o; by apply lg_quiet).
  pose proof (fun v subject backup => settle_logged key rq a v o subject backup e o' e' Hk Ho Hm Had) as S.
  unfold decide_control_locked, decide_data_locked, verdict in *.
  destruct (classify (rq_op rq)).
  1, 2: destruct (op_eqb _ _); [destruct (negb _); [by intros [= <- <-] |] |]; intros Hs;
    [by apply (S (VApplied (reconcile_account rq a)) _ _ eq_refl Hs) | by eapply S].
  destruct (_ && _); [by intros [= <- <-] |]. intros Hs. by eapply S.
Qed.

Lemma create_logged rq e o' e' :
  rq_op rq = Open -> malformed (e_limits e) rq = None ->
  create_account_locked rq (initial_outcome rq) e = (o', e') -> logged e rq o' e'.
Proof.
  intros Hop Hm. unfold create_account_locked. destruct (open_refusal rq e) as [[r d]|] eqn:Ho.
  { intros [= <- <-]. by apply lg_quiet. }
  destruct (open_key rq e Ho) as [Hno Hk]. rewrite Hk.
  destruct (persist_locked _ _ _ _ _) as [st e1] eqn:E. pose proof (persist_core _ _ _ _ _ _ _ E) as Hc.
  destruct (status_ok st) eqn:Hst; simpl; intros [= <- <-].
  2: { eapply lg_failed; [done | exact E | done | done | done | by apply dc_opened]. }
  eapply lg_durable; [done | exact E | done | | | by apply dc_opened].
  - constructor; try done. intros [? ?]. split; simpl; auto with word.
  - simpl. rewrite (sc_accounts _ _ Hc). simpl. by rewrite insert_insert_eq.
Qed.

Lemma known_not_applied rq a o o' duplicate :
  known_attempt rq a o = Some (o', duplicate) -> o_applied o = false -> o_applied o' = false.
Proof. unfold known_attempt. repeat case_match; by intros [= <- _]. Qed.

Lemma apply_logged rq e o' e' : apply rq e = (o', e') -> logged e rq o' e'.
Proof.
  assert (Hq : forall o, o_applied o = false -> logged e rq o e) by (intros; by apply lg_quiet).
  unfold apply. destruct (e_recovered e); simpl; [| intros [= <- <-]; by apply Hq].
  destruct (e_journal_failed e); [intros [= <- <-]; by apply Hq |]. unfold apply_locked.
  destruct (malformed (e_limits e) rq) as [[r d]|] eqn:Hm; [intros [= <- <-]; by apply Hq |].
  destruct (decide (rq_op rq = Open)) as [Hop|Hop]; [rewrite Hop; by apply create_logged |].
  destruct (e_accounts e !! a_account (rq_authority rq)) as [a|] eqn:Ha.
  2: { destruct (rq_op rq); try done; intros [= <- <-]; by apply Hq. }
  assert (Hd : rq_op rq <> Describe ->
    decide_locked (a_account (rq_authority rq)) a rq (initial_outcome rq) e = (o', e') ->
    logged e rq o' e').
  { intros Hdes. unfold decide_locked. destruct (unauthorized _ _ rq a) as [[r d]|] eqn:Hu; [intros [= <- <-]; by apply Hq |].
    destruct (known_attempt rq a _) as [[o [|]]|] eqn:Hk.
    { intros [= <- <-]. apply lg_quiet; [by eapply known_not_applied | done |]. by constructor. }
    { intros [= <- <-]. apply Hq. by eapply known_not_applied. }
    destruct (misplaced rq a) as [[r d]|] eqn:Hp; [intros [= <- <-]; by apply Hq |].
    apply decide_logged; [done.. | by constructor]. }
  destruct (decide (rq_op rq = Describe)) as [Hdes|Hdes].
  - rewrite Hdes. destruct (negb _); intros [= <- <-]; by apply Hq.
  - specialize (Hd Hdes). by destruct (rq_op rq).
Qed.

(** ** What persisting appends *)

Lemma persist_records rq o c created e st e1 :
  persist_locked rq o c created e = (st, e1) -> status_ok st = true -> j_snap (e_journal e1) = None ->
  j_log (e_journal e1) = j_log (e_journal e) ++
    decision_records (e_chain e) (e_next_sequence e) rq o (durable_attempt rq o c created (e_stats e)) /\
  e_chain e1 = commit_chain (e_chain e) (wrap64 (e_next_sequence e + 1)) rq o /\
  e_next_sequence e1 = wrap64 (wrap64 (e_next_sequence e + 1) + 1).
Proof.
  intros Hp Hst Hs. pose proof (persist_log _ _ _ _ _ _ _ Hp Hst) as [[HL _]|Hsn].
  2: { destruct Hsn as (e2 & s & _ & _ & Hsn & _). congruence. }
  split; [exact HL |]. revert Hp. unfold persist_locked.
  destruct (append_record _ KIntent _ _ e) as [s1 e2] eqn:E1.
  destruct (status_ok s1) eqn:H1; simpl; [| intros [= <- <-]; congruence].
  apply append_log in E1 as (_ & _ & ->); [| done].
  destruct (append_record _ KAttempt _ _ _) as [s2 e3] eqn:E2.
  destruct (status_ok s2) eqn:H2; simpl; [| intros [= <- <-]; congruence].
  apply append_log in E2 as (_ & _ & ->); [| done]. simpl.
  destruct (snapshot_due _); [| by intros [= <- <-]].
  intros (e2' & s & _ & _ & Hsn & _)%snapshot_log; [congruence | done].
Qed.

(** A snapshot, once written, stays. *)
Lemma persist_snap rq o c created e st e1 :
  persist_locked rq o c created e = (st, e1) -> status_ok st = true ->
  j_snap (e_journal e1) = None -> j_snap (e_journal e) = None.
Proof.
  intros Hp Hst Hs. destruct (persist_log _ _ _ _ _ _ _ Hp Hst) as [[_ <-]|(e2 & s & _ & _ & Hsn & _)];
    [done | congruence].
Qed.

End Live.

(** ** The journaled attempt can be decoded *)

(** Details of ledger refusals are words. *)
Lemma add_overflow_word a b over x : add_overflow a b = (over, x) -> in_u64 x.
Proof. Local Transparent add_overflow. unfold add_overflow. intros [= _ <-]. auto with word. Qed.

Lemma exact_view_words c t :
  ledger_ok c t -> in_u64 (v_available (exact_view c t)) /\ in_u64 (v_outstanding (exact_view c t)) /\
  in_u64 (v_in_flight (exact_view c t)).
Proof. intros Ht. unfold exact_view. simpl. split_and!; ledger_lia. Qed.

Lemma commit_detail t p p' :
  status_ok (lp_status p) = true -> plan_commit t p = (p', false) -> in_u64 (detail (lp_status p')).
Proof.
  unfold plan_commit, check_invariants. intros ->. simpl.
  repeat (case_match; simpl); intros [= <-]; simpl; word_lia.
Qed.

Lemma run_op_detail op p p' :
  plan_ok p -> op_range op -> match op with LSetCapacity _ mx _ => in_u64 mx | _ => True end ->
  run_op op p = (p', false) -> in_u64 (detail (lp_status p')).
Proof.
  intros Hp Hr Hm. pose proof Hp as [Hst Hl]. pose proof (exact_view_words _ _ Hl) as (Hv1 & Hv2 & Hv3).
  pose proof (plan_view_ok _ Hp) as Hv.
  destruct op; simpl in *; unfold plan_issue, plan_consume, plan_give_back, plan_protect, plan_unprotect,
    plan_retire_stale, plan_quarantine_in_flight, plan_revalidate_to_returned,
    plan_revalidate_to_consumed, plan_set_capacity, plan_refuse; rewrite Hst; simpl; rewrite ?Hv.
  all: repeat case_match; simplify_eq/=.
  all: try (intros [= <-]; simpl; first [word_lia | by eapply add_overflow_word | auto with word]).
  all: try by apply commit_detail.
  all: destruct Hl as [Hc (? & ? & ? & ? & ? & ?) _ _ _]; try done.
  unfold obligation_floor. apply saturating_add_range; [done |]. case_match; auto with word.
Qed.

Lemma account_view_wf a : ledger_ok (ac_capacity a) (ac_totals a) -> view_wf (account_view a).
Proof.
  intros Ha. unfold account_view. rewrite compute_view_ok by done.
  destruct (exact_view_words _ _ Ha) as (? & ? & ?). destruct Ha as [? (? & ? & ? & ? & ? & ?) _ _ _].
  by constructor.
Qed.

(** What is typed in an account beyond the invariant of [account_ok]. *)
Record typed (a : AccountState) : Prop := {
  ty_config : config_wf (ac_config a);
  ty_committed : in_u64 (ac_committed_attempts a);
  ty_refused : in_u64 (ac_refused_attempts a);
  ty_ambiguous : ac_ambiguous a = [];
}.

Lemma account_digest_range a : digest_range (account_digest a).
Proof.
  rewrite account_digest_words. unfold words_digest. apply db_finish_range.
Qed.

(** The durable form of a journaled account. *)
Lemma durable_account_typed limits a :
  account_ok limits a -> typed a -> durable_account_wf (build_durable_account a false).
Proof.
  intros Ha [Hc H1 H2 _]. pose proof (ao_era _ _ Ha) as [? ?].
  destruct (li_ok _ _ _ (ao_ledger _ _ Ha)) as [? (? & ? & ? & ? & ? & ?) _ _ _].
  constructor; simpl; try done; try apply account_digest_range; try by (split; [constructor |]).
Qed.

Lemma durable_attempt_typed limits rq o a created s :
  account_ok limits a -> typed a -> request_wf 4096 rq -> outcome_wf o -> attempts_range s ->
  (created = true -> o_applied o = true) ->
  durable_attempt_wf (durable_attempt rq o a created s).
Proof.
  intros Ha Ht Hq Ho [? ?] Hc. constructor; simpl; try done; [by auto |].
  by eapply durable_account_typed.
Qed.

(** Details of refused ledger operations are words. *)
Lemma ledger_verdict_detail rq a r d b :
  plan_ok (account_plan a) -> in_u64 (rq_count rq) -> ledger_verdict rq a = VDecided r d b -> in_u64 d.
Proof.
  intros Hp Hn. unfold ledger_verdict. rewrite ledger_apply_op.
  destruct (ledger_op _ rq) as [op|] eqn:Hop.
  - unfold plan_verdict. destruct (run_op op (account_plan a)) as [p' ok] eqn:E. destruct ok; simpl; [done |].
    destruct (status_ok _); [done |]. intros [= _ <- _].
    eapply run_op_detail; [done | by eapply ledger_op_range | | done].
    unfold ledger_op in Hop. by repeat case_match; simplify_eq.
  - destruct (rq_op rq); intros [= _ <- _]; word_lia.
Qed.

Lemma plan_step_detail op f x a r d y :
  plan_ok (account_plan a) -> op_range op ->
  match op with LSetCapacity _ mx _ => in_u64 mx | _ => True end ->
  plan_step (run_op op (account_plan a)) f x = VDecided r d y -> in_u64 d.
Proof.
  intros Hp Hr Hm. unfold plan_step. destruct (run_op op (account_plan a)) as [p' ok] eqn:E.
  destruct ok; simpl; [done |]. intros [= _ <- _]. by eapply run_op_detail.
Qed.

(** The detail of a decided refusal is a word when nothing was bound. *)
Lemma verdict_detail nonce limits rq a r d b :
  account_ok limits a -> typed a -> request_wf 4096 rq -> rq_op rq <> Issue \/ binds_nothing rq ->
  verdict nonce limits rq a = VDecided r d b -> in_u64 d.
Proof.
  intros Ha Ht Hq Hb. pose proof (account_plan_ok a (li_ok _ _ _ (ao_ledger _ _ Ha))) as Hp.
  pose proof (rwf_count _ _ Hq) as Hn. pose proof (cwf_max_capacity _ (ty_config _ Ht)) as Hmx.
  assert (HD : data_verdict rq a = VDecided r d b -> in_u64 d).
  { unfold data_verdict. destruct (negb _); [done |].
    destruct (_ && _); [intros [= _ <- _]; pose proof (reason_code_u16 (ac_exhaustion_cause a)); word_lia |].
    destruct (op_eqb (rq_op rq) Issue) eqn:Hi; [| by apply ledger_verdict_detail].
    destruct (find_incarnation _ a) as [x|] eqn:Hx; [| done].
    destruct Hb as [Hb|Hb]; [by apply op_eqb_eq in Hi |]. rewrite bind_nothing by done.
    by apply ledger_verdict_detail. }
  unfold verdict. destruct (classify (rq_op rq)).
  1, 2: repeat case_match; try done.
  destruct (_ && _); [done |]. unfold control_verdict. destruct (rq_op rq); try done.
  all: try (unfold era_verdict; repeat case_match; try done; intros [= _ <- _]; word_lia).
  all: try (unfold fence_verdict; repeat case_match; try done; intros [= _ <- _]; word_lia).
  all: try (repeat case_match; try done; try (intros [= _ <- _]; word_lia)).
  - apply (plan_step_detail (LSetCapacity _ _ _)); [done | apply Hq | done].
  - by apply (plan_step_detail (LRetireStale _)).
  - by apply (plan_step_detail (LToReturned _)).
  - by apply (plan_step_detail (LToConsumed _)).
Qed.

(** ** A live decision is reproduced *)

Lemma request_wf_range max rq : request_wf max rq -> request_range rq.
Proof. intros [? ? [] ? ? ? ? ? ? ? ? ? ? [] ?]. by constructor. Qed.

Lemma outcome_typed rq a c s applied decided :
  request_wf 4096 rq -> in_u64 (ac_epoch a) -> in_u64 (ac_generation a) -> in_u64 (detail s) ->
  ledger_ok (ac_capacity c) (ac_totals c) ->
  outcome_wf (mkOutcome s (rq_op rq) (rq_sequence rq) applied false decided
    (vector_set_era (ac_epoch a) (ac_generation a) (rq_authority rq)) (account_view c)
    (account_digest c) 0).
Proof.
  intros Hq He Hg Hd Hc. destruct (rwf_authority _ _ Hq).
  constructor; simpl; [done | apply Hq | by constructor | by apply account_view_wf |
    apply account_digest_range | word_lia].
Qed.

Lemma typed_publish rq o a : typed a -> typed (publish_window_locked rq o a).
Proof.
  intros [H1 H2 H3 H4]. constructor; try done. unfold publish_window_locked, resolve_ambiguous.
  simpl. by rewrite H4.
Qed.

Lemma typed_commit i a : typed a -> typed (count_commit i a).
Proof. intros []. constructor; simpl; auto with word. Qed.

Lemma typed_refusal i a : typed a -> typed (count_refusal i a).
Proof. intros []. constructor; simpl; auto with word. Qed.

Lemma typed_record limits rq o a : typed a -> typed (record_refusal_locked limits rq o a).
Proof. intros []. unfold record_refusal_locked. by destruct (_ <? _). Qed.

Lemma typed_frame rq a b : verdict_frame rq a b -> typed a -> typed b.
Proof. intros [] []. constructor; congruence. Qed.

(** Replaying the attempt [t] turns [a] into [x], up to the audit log. *)
Definition reproduced (limits : EngineLimits) (t : DurableAttempt) (a : option AccountState)
    (x : AccountState) : Prop :=
  match a with
  | Some a =>
      dt_created_account t = false /\
      exists b y, replay_existing t a = (success, b) /\ replay_finish t b = (success, y) /\
        ac_ambiguous b = [] /\ forget_refusals y = forget_refusals x
  | None =>
      dt_created_account t = true /\
      replay_finish t (replay_created limits t) = (success, x) /\ forget_refusals x = x
  end.

Section Decision.
Context {J : Type} `{Journal J}.
Implicit Types (e : Engine J) (rq : CreditRequest) (o : CreditOutcome).

Lemma decision_sound e rq o c created x :
  engine_ok e -> (forall k a, e_accounts e !! k = Some a -> typed a) -> request_wf 4096 rq ->
  attempts_range (e_stats e) ->
  (rq_op rq = Issue -> o_applied o = false -> binds_nothing rq) -> decision e rq o c created x ->
  let t := durable_attempt rq o c created (e_stats e) in
  durable_attempt_wf t /\ o_decided o = true /\ typed x /\
  reproduced (e_limits e) t (e_accounts e !! a_account (rq_authority rq)) x.
Proof.
  intros He Hty Hq Hs Hpl Hd. pose proof (request_wf_range _ _ Hq) as Hr.
  destruct Hd as [a b Had Hv o c|r d a b Had Hv o c|Hop Hor c o].
  - pose proof (am_account _ _ _ Had) as Ha. destruct (eo_accounts _ He _ _ Ha) as [Hok _].
    destruct (verdict_spec (e_challenge e) (e_limits e) (i_id (e_operator e)) rq a)
      as [[Hbok Hbf _] _]; [done | done | apply Had | apply Had |]. rewrite Hv in Hbok, Hbf. simpl in *.
    assert (Hc : account_ok (e_limits e) c) by (by apply count_commit_ok).
    assert (Htc : typed c) by (eapply typed_commit, typed_frame; eauto).
    pose proof (ao_era _ _ Hok) as [Hep Hge].
    assert (Hof : op_eqb (rq_op rq) Open = false).
    { destruct (op_eqb (rq_op rq) Open) eqn:E; [| done]. apply op_eqb_eq in E. by destruct (am_open _ _ _ Had). }
    destruct (replay_applied (e_limits e) (e_challenge e) rq a b o (e_stats e)) as [H1 H2];
      [done | apply Hr | apply Had | done |]. unfold journaled_attempt in H1, H2. rewrite Hof in H1, H2.
    split; [| split; [done | split; [by apply typed_publish |]]].
    + eapply durable_attempt_typed; try done. apply outcome_typed; try done. apply Hc.
    + rewrite Ha. split; [done |]. eexists _, _. split; [exact H1 |]. split; [exact H2 |].
      split; [by apply Htc | done].
  - pose proof (am_account _ _ _ Had) as Ha. destruct (eo_accounts _ He _ _ Ha) as [Hok _].
    assert (Hpb : rq_op rq <> Issue \/ binds_nothing rq).
    { destruct (decide (rq_op rq = Issue)) as [Hi|Hi]; [right; by apply Hpl | by left]. }
    pose proof (verdict_decided_same _ _ _ _ _ _ _ Hpb Hv) as ->.
    pose proof (verdict_detail _ _ _ _ _ _ _ Hok (Hty _ _ Ha) Hq Hpb Hv) as Hdet.
    assert (Hc : account_ok (e_limits e) c) by (by apply count_refusal_ok).
    assert (Htc : typed c) by (eapply typed_refusal, Hty; eauto).
    pose proof (ao_era _ _ Hok) as [Hep Hge].
    assert (Hof : op_eqb (rq_op rq) Open = false).
    { destruct (op_eqb (rq_op rq) Open) eqn:E; [| done]. apply op_eqb_eq in E. by destruct (am_open _ _ _ Had). }
    destruct (replay_refused rq a o (e_stats e)) as [H1 H2]; [done | done | apply Had |].
    unfold journaled_attempt in H1, H2. rewrite Hof in H1, H2.
    split; [| split; [done | split; [by apply typed_record, typed_publish |]]].
    + eapply durable_attempt_typed; try done. apply outcome_typed; try done. apply Hc.
    + rewrite Ha. split; [done |]. eexists _, _. split; [exact H1 |]. split; [exact H2 |].
      split; [by apply Htc |]. by rewrite refused_account_durable.
  - pose proof (open_refusal_none _ _ Hor) as (Hn & _).
    assert (Hc : account_ok (e_limits e) c) by (apply opened_account_ok; [apply He | done | done]).
    assert (Htc : typed c).
    { constructor; simpl; [apply Hq | word_lia | word_lia | done]. }
    split; [| split; [done | split; [by apply typed_publish |]]].
    + eapply durable_attempt_typed; try done. destruct (rwf_authority _ _ Hq) as [? ? ? ? ?].
      constructor; simpl; [word_lia | apply Hq | by constructor | apply account_view_wf, Hc |
        apply account_digest_range | word_lia].
    + rewrite Hn. split; [done |]. split; [| done].
      change (replay_created (e_limits e) (durable_attempt rq o c true (e_stats e))) with c.
      by apply replay_finish_same.
Qed.

End Decision.

(** ** Along a run *)

(** Calls after which the durable record still describes the account: neither an
    [Issue] refused while naming identities, nor a [Fence] refused for budget. *)
Definition durable_outcome (x : CreditRequest * CreditOutcome) : Prop :=
  (rq_op x.1 = Issue -> o_applied x.2 = false -> binds_nothing x.1) /\
  (rq_op x.1 = Fence -> reason (o_status x.2) <> RBudgetExceeded).

Section Booted.
Context {J : Type} `{Journal J}.
Implicit Types (e er : Engine J) (rq : CreditRequest) (o : CreditOutcome).

(** An engine, as recovery finds it before the log is replayed. *)
Record blank er (limits : EngineLimits) : Prop := {
  bl_accounts : e_accounts er = ∅;
  bl_chain : e_chain er = digest_zero;
  bl_limits : e_limits er = limits;
  bl_next : e_next_sequence er = 1;
}.

(** A commit record holds an attempt that decodes. *)
Definition recorded (x : LogEntry) : Prop :=
  lg_kind x = KAttempt -> exists t, durable_attempt_wf t /\ lg_payload x = encode_durable_attempt t.

Lemma decision_recorded c s rq o t : durable_attempt_wf t -> Forall recorded (decision_records c s rq o t).
Proof. intros Ht. constructor; [done |]. constructor; [| done]. intros _. by exists t. Qed.

(** A live engine that the entries [es] reproduce. *)
Record booted_on (es : list LogEntry) e : Prop := {
  bt_ok : engine_ok e;
  bt_typed : forall k a, e_accounts e !! k = Some a -> typed a;
  bt_stats : attempts_range (e_stats e);
  bt_records : Forall recorded es;
  bt_log : forall er, blank er (e_limits e) ->
    exists er', replay_list es er = (success, er') /\
      mirrors er' (e_limits e) (e_accounts e) (e_chain e) (e_next_sequence e);
}.

Lemma request_wf_note max rq :
  request_wf 4096 rq -> Z.of_nat (length (rq_note rq)) <= max -> request_wf max rq.
Proof. intros [] Hn. constructor; try done. lia. Qed.

Lemma mirrors_insert er limits A c n key x y :
  mirrors er limits (<[key := y]> A) c n -> forget_refusals y = forget_refusals x ->
  mirrors er limits (<[key := x]> A) c n.
Proof. intros [MA ???] Hxy. constructor; try done. by rewrite MA, !fmap_insert, Hxy. Qed.

(** One decision appended to entries that reproduce the engine. *)
Lemma booted_decision es e rq o c created x :
  booted_on es e -> request_wf 4096 rq -> (rq_op rq = Issue -> o_applied o = false -> binds_nothing rq) ->
  malformed (e_limits e) rq = None -> decision e rq o c created x ->
  let t := durable_attempt rq o c created (e_stats e) in
  durable_attempt_wf t /\ typed x /\
  forall er, blank er (e_limits e) ->
    exists er', replay_list (es ++ decision_records (e_chain e) (e_next_sequence e) rq o t) er = (success, er') /\
      mirrors er' (e_limits e) (<[a_account (rq_authority rq) := x]> (e_accounts e))
        (commit_chain (e_chain e) (wrap64 (e_next_sequence e + 1)) rq o)
        (wrap64 (wrap64 (e_next_sequence e + 1) + 1)).
Proof.
  intros [Bok Bty Bst _ Blog] Hq Hd1 Hm Hdec t.
  destruct (decision_sound _ _ _ _ _ _ Bok Bty Hq Bst Hd1 Hdec) as (Hwf & Hod & Htx & Hrep). fold t in Hwf, Hrep.
  split; [done |]. split; [done |]. intros er Hbl. destruct (Blog er Hbl) as (er1 & Hr1 & Hm1).
  apply malformed_none in Hm as (_ & _ & _ & Hnote & _). pose proof (request_wf_note _ _ Hq Hnote) as Hq'.
  rewrite (replay_list_app _ _ _ _ Hr1).
  destruct (e_accounts e !! a_account (rq_authority rq)) as [a|] eqn:Ha; simpl in Hrep.
  - destruct Hrep as (Htc & b & y & H1 & H2 & Hab & Hy).
    destruct (replay_existing_pair er1 (e_limits e) (e_accounts e) (e_chain e) (e_next_sequence e)
      (e_next_sequence e) rq o t a b y) as (er2 & Hr2 & Hm2); try done; [by eapply Bty |].
    exists er2. split; [exact Hr2 |]. by eapply mirrors_insert.
  - destruct Hrep as (Htc & H2 & Hx).
    by apply (replay_created_pair er1 (e_limits e) (e_accounts e) (e_chain e) (e_next_sequence e)).
Qed.

(** The engine that has made it, with its records in the log. *)
Lemma booted_step es e rq o e' c created x st e1 :
  booted_on es e -> request_wf 4096 rq -> (rq_op rq = Issue -> o_applied o = false -> binds_nothing rq) ->
  malformed (e_limits e) rq = None ->
  persist_locked rq o c created (put_account (a_account (rq_authority rq)) c e) = (st, e1) ->
  e_chain e1 = commit_chain (e_chain e) (wrap64 (e_next_sequence e + 1)) rq o ->
  e_next_sequence e1 = wrap64 (wrap64 (e_next_sequence e + 1) + 1) -> carried e1 e' ->
  e_accounts e' = <[a_account (rq_authority rq) := x]> (e_accounts e) ->
  decision e rq o c created x -> engine_ok e' ->
  booted_on (es ++ decision_records (e_chain e) (e_next_sequence e) rq o
    (durable_attempt rq o c created (e_stats e))) e'.
Proof.
  intros Hb Hq Hd1 Hm Hp HC HN [Cj Cc Cn Cl _ _ Cs] Hacc Hdec Hok'.
  pose proof (persist_core _ _ _ _ _ _ _ Hp) as Hcore. simpl in *.
  destruct (booted_decision _ _ _ _ _ _ _ Hb Hq Hd1 Hm Hdec) as (Hwf & Htx & Hlog). destruct Hb as [Bok Bty Bst Brec Blog].
  constructor; [done | | | |].
  - intros k a. rewrite Hacc. intros [[<- <-]|[_ Hk]]%lookup_insert_Some; [done | by eapply Bty].
  - apply Cs. unfold attempts_range. by rewrite (sc_applied _ _ Hcore), (sc_refused _ _ Hcore).
  - apply Forall_app_2; [done | by apply decision_recorded].
  - intros er. rewrite Cl, (sc_limits _ _ Hcore), Hacc, Cc, HC, Cn, HN. apply Hlog.
Qed.

(** A call that leaves no record. *)
Lemma booted_quiet es e e' :
  booted_on es e -> engine_ok e' -> e_accounts e' = e_accounts e -> carried e e' -> booted_on es e'.
Proof.
  intros [_ Bty Bst Brec Blog] Hok' Hacc [Cj Cc Cn Cl _ _ Cs]. constructor; try done.
  - rewrite Hacc. done.
  - by apply Cs.
  - rewrite Cc, Cn, Cl, Hacc. done.
Qed.

End Booted.

Section Run.
Context {J : Type} `{Journal J, !JournalLaws J}.
Implicit Types (e er : Engine J) (rq : CreditRequest) (o : CreditOutcome).

(** A live engine that its own log reproduces. *)
Definition booted e : Prop := booted_on (j_log (e_journal e)) e.

Lemma booted_apply e rq o e' :
  booted e -> request_wf 4096 rq -> apply rq e = (o, e') -> durable_outcome (rq, o) ->
  e_journal_failed e' = false -> j_snap (e_journal e') = None -> booted e'.
Proof.
  intros Hb Hq Hap Hd Hf Hs. pose proof (bt_ok _ _ Hb) as Hok.
  assert (Hok' : engine_ok e') by (eapply apply_ok_aux; [apply Hok | by eapply request_wf_range | done]).
  destruct (apply_logged _ _ _ _ Hap) as [o e' d c created x st e1 _ _ _ _ Hf' _|o e' _ Hacc Hc|o e' _ Hop Hr|
    o e' c created x st e1 Hm Hp Hst Hc Hacc Hdec].
  - congruence.
  - unfold booted. rewrite (cr_journal _ _ Hc). by eapply booted_quiet.
  - by destruct Hd as [_ []].
  - rewrite (cr_journal _ _ Hc) in Hs. destruct (persist_records _ _ _ _ _ _ _ Hp Hst Hs) as (HL & HC & HN).
    simpl in HL, HC, HN. unfold booted. rewrite (cr_journal _ _ Hc), HL. destruct Hd as [Hd1 _]. by eapply booted_step.
Qed.

(** A failure or a snapshot along a run shows at its end. *)
Lemma apply_healthy rq e o e' :
  apply rq e = (o, e') -> e_journal_failed e' = false -> j_snap (e_journal e') = None ->
  e_journal_failed e = false /\ j_snap (e_journal e) = None.
Proof.
  intros Hap Hf Hs. destruct (e_journal_failed e) eqn:E.
  { exfalso. unfold apply in Hap. destruct (e_recovered e); rewrite ?E in Hap; simplify_eq/=; congruence. }
  split; [done |]. destruct (apply_logged _ _ _ _ Hap)
    as [o e' d c created x st e1 _ _ _ _ Hf' _|o e' _ Hacc [Cj _ _ _ _ _ _]|o e' _ Hop Hr [Cj _ _ _ _ _ _]|o e' c created x st e1 Hm Hp Hst [Cj _ _ _ _ _ _] _ _].
  - congruence.
  - congruence.
  - congruence.
  - rewrite Cj in Hs. apply (persist_snap _ _ _ _ _ _ _ Hp Hst) in Hs. done.
Qed.

Lemma run_healthy rqs e :
  let e' := (run (CApply <$> rqs) e).2 in
  e_journal_failed e' = false -> j_snap (e_journal e') = None ->
  e_journal_failed e = false /\ j_snap (e_journal e) = None.
Proof.
  revert e. induction rqs as [|rq rqs IH]; intros e; [done |].
  rewrite run_apply_cons. simpl. intros Hf Hs. destruct (IH _ Hf Hs) as [Hf1 Hs1].
  by apply (apply_healthy rq e _ _ (surjective_pairing _)).
Qed.

Lemma run_booted rqs e :
  booted e -> Forall (request_wf 4096) rqs ->
  let r := run (CApply <$> rqs) e in
  Forall durable_outcome r.1 -> e_journal_failed r.2 = false -> j_snap (e_journal r.2) = None ->
  booted r.2.
Proof.
  revert e. induction rqs as [|rq rqs IH]; intros e Hb Hq; [done |].
  apply Forall_cons in Hq as [Hq Hqs]. rewrite run_apply_cons. simpl. intros Hd Hf Hs.
  apply Forall_cons in Hd as [Hd Hds]. destruct (run_healthy rqs _ Hf Hs) as [Hf1 Hs1].
  apply IH; try done. by eapply (booted_apply e rq _ _ Hb Hq (surjective_pairing _)).
Qed.

End Run.

(** ** The in-memory journal during a run and a replay *)

Definition intact (j : InMemoryJournal) : Prop :=
  Forall (fun x => en_corrupted x = false) (mj_entries j).

Lemma append_intact s k c p (e : Engine InMemoryJournal) st e' :
  append_record s k c p e = (st, e') -> intact (e_journal e) -> intact (e_journal e').
Proof.
  unfold append_record. simpl. unfold memory_append, intact. intros Ha Hi.
  repeat case_match; simplify_eq/=; try done. apply Forall_app_2; [done |]. by constructor.
Qed.

Lemma snapshot_intact (e : Engine InMemoryJournal) st e' :
  snapshot_locked e = (st, e') -> intact (e_journal e) -> intact (e_journal e').
Proof.
  unfold snapshot_locked. destruct (e_has_journal e); [| by intros [= <- <-]]. simpl negb. cbv iota.
  destruct (append_record _ _ _ _ e) as [s1 e1] eqn:E1. intros Hs Hi.
  pose proof (append_intact _ _ _ _ _ _ _ E1 Hi) as H1.
  destruct (status_ok s1); simpl in Hs; [| by simplify_eq].
  unfold memory_write_snapshot in Hs. destruct (_ >? _); simplify_eq/=; [done |].
  unfold intact in *. simpl in *. rewrite Forall_forall in *. intros x [_ Hx]%list_elem_of_filter. auto.
Qed.

Lemma persist_intact rq o a c (e : Engine InMemoryJournal) st e' :
  persist_locked rq o a c e = (st, e') -> intact (e_journal e) -> intact (e_journal e').
Proof.
  unfold persist_locked. destruct (append_record _ KIntent _ _ e) as [s1 e1] eqn:E1. intros Hp Hi.
  pose proof (append_intact _ _ _ _ _ _ _ E1 Hi) as H1.
  destruct (status_ok s1); simpl in Hp; [| by simplify_eq].
  destruct (append_record _ KAttempt _ _ _) as [s2 e2] eqn:E2.
  pose proof (append_intact _ _ _ _ _ _ _ E2 H1) as H2.
  destruct (status_ok s2); simpl in Hp; [| by simplify_eq].
  destruct (snapshot_due _); [by eapply snapshot_intact in Hp | by simplify_eq/=].
Qed.

Lemma run_intact rqs (e : Engine InMemoryJournal) :
  e_journal_failed (run (CApply <$> rqs) e).2 = false ->
  j_snap (e_journal (run (CApply <$> rqs) e).2) = None ->
  intact (e_journal e) -> intact (e_journal (run (CApply <$> rqs) e).2).
Proof.
  revert e. induction rqs as [|rq rqs IH]; intros e; [done |]. rewrite run_apply_cons. cbn [snd].
  intros Hf Hs Hi. apply IH; try done. destruct (run_healthy rqs _ Hf Hs) as [Hf1 Hs1].
  destruct (apply_logged _ _ _ _ (surjective_pairing (apply rq e)))
    as [o e' d c created x st e1 _ _ _ _ Hf' _|o e' _ Hacc [Cj _ _ _ _ _ _]|o e' _ Hop Hr [Cj _ _ _ _ _ _]|o e' c created x st e1 Hm Hp Hst [Cj _ _ _ _ _ _] _ _].
  - congruence.
  - by rewrite Cj.
  - by rewrite Cj.
  - rewrite Cj. by eapply persist_intact.
Qed.

Section Loop.
Context {J : Type} `{Journal J}.

(** Replaying a record does not look at the journal, nor at where the record was. *)
Lemma replay_record_carries r j (e : Engine J) :
  replay_record None r (set_journal j e) =
  let '(st, e') := replay_record None r e in (st, set_journal j e').
Proof.
  unfold replay_record. destruct (jr_kind r); [done | | |].
  - unfold replay_commit. destruct (decode_durable_attempt _) as [|t]; [done |]. simpl.
    destruct (negb (digest_eqb _ _)); [done |]. unfold replay_attempt. simpl.
    match goal with |- context [match ?s with (_, _) => _ end] => destruct s as [st [a|]] end;
      [| by destruct (status_ok st)].
    destruct (status_ok st) eqn:E; simpl; [| by rewrite E]. destruct (replay_finish t a) as [st2 b].
    destruct (status_ok st2) eqn:E2; simpl; by rewrite ?E2.
  - unfold replay_snapshot. destruct (decode_durable_state _) as [|s]; [done |].
    destruct (negb (_ =? _)); [done |]. unfold restore_durable_state. simpl.
    destruct (restore_accounts _ _ _) as [st m]. by destruct (status_ok st).
  - unfold replay_intent. simpl. destruct (decode_request_message _ _) as [|rq]; [done |].
    unfold mark_ambiguous. simpl. destruct (e_accounts e !! _); [| done]. by destruct (existsb _ _).
Qed.

Lemma replay_list_carries l j (e er : Engine J) st :
  replay_list l e = (st, er) -> replay_list l (set_journal j e) = (st, set_journal j er).
Proof.
  revert e. induction l as [|y l IH]; intros e; simpl; [by intros [= <- ->] |].
  rewrite replay_record_carries. destruct (replay_record None (log_record y) e) as [st2 e2].
  destruct (status_ok st2) eqn:E; [apply IH | by intros [= -> ->]].
Qed.

(** A replay that does not fail succeeds. *)
Lemma replay_list_status l (e er : Engine J) st :
  replay_list l e = (st, er) -> status_ok st = true -> st = success.
Proof.
  revert e. induction l as [|y l IH]; intros e; simpl; [by intros [= <- _] |].
  destruct (replay_record None (log_record y) e) as [st2 e2].
  destruct (status_ok st2) eqn:E; [apply IH | intros [= -> _]; congruence].
Qed.

Lemma replay_list_stats l (e er : Engine J) st :
  Forall recorded l -> replay_list l e = (st, er) -> attempts_range (e_stats e) -> attempts_range (e_stats er).
Proof.
  intros Hl. revert e. induction Hl as [|x l Hx Hl IH]; intros e; simpl; [by intros [= _ <-] |].
  destruct (replay_record None (log_record x) e) as [st2 e2] eqn:E. intros Hr He.
  assert (He2 : attempts_range (e_stats e2)).
  { clear Hr. revert E. unfold replay_record. simpl. destruct (lg_kind x) eqn:Hk.
    - by intros [= _ <-].
    - destruct (Hx Hk) as (t & Ht & Hp). unfold replay_commit. simpl. rewrite Hp, durable_attempt_decodes by done.
      destruct (negb (digest_eqb _ _)); [by intros [= _ <-] |]. unfold replay_attempt.
      match goal with |- context [match ?s with (_, _) => _ end] => destruct s as [st3 [a|]] end;
        [| by destruct (status_ok st3); intros [= _ <-]].
      destruct (status_ok st3) eqn:E3; simpl; [| rewrite E3; simpl; by intros [= _ <-]].
      destruct (replay_finish t a) as [st4 b]. destruct (status_ok st4) eqn:E4; simpl; rewrite ?E4; simpl;
        intros [= _ <-]; [| done]. split; apply Ht.
    - unfold replay_snapshot. destruct (decode_durable_state _) as [|d]; [by intros [= _ <-] |].
      destruct (negb (_ =? _)); [by intros [= _ <-] |]. unfold restore_durable_state.
      destruct (restore_accounts _ _ _) as [st3 m]. by destruct (status_ok st3); intros [= _ <-].
    - unfold replay_intent. simpl. destruct (decode_request_message _ _) as [|rq]; [by intros [= _ <-] |].
      unfold mark_ambiguous. destruct (e_accounts e !! _); [| by intros [= _ <-]].
      by destruct (existsb _ _); intros [= _ <-]. }
  destruct (status_ok st2); [by eapply IH |]. by injection Hr as _ <-.
Qed.

End Loop.

(** Where the journal stands does not matter, what it holds does. *)
Definition same_store (j j' : InMemoryJournal) : Prop :=
  mj_entries j' = mj_entries j /\ mj_snapshot j' = mj_snapshot j.

(** Entries that the replay after a snapshot does not skip. *)
Definition later (snapshot : option Z) (x : Entry) : Prop :=
  match snapshot with Some s => s < en_sequence x | None => True end.

Lemma replay_record_later {J : Type} `{Journal J} ss x r (e : Engine J) :
  later ss x -> jr_sequence r = en_sequence x -> replay_record ss r e = replay_record None r e.
Proof.
  intros Hl Hr. unfold replay_record. rewrite Hr. destruct ss as [s|]; [| done]. simpl in Hl.
  by destruct (Z.leb_spec (en_sequence x) s); [lia |].
Qed.

Lemma replay_loop_list fuel ss pre post (e er : Engine InMemoryJournal) st :
  mj_entries (e_journal e) = pre ++ post -> mj_cursor (e_journal e) = length pre ->
  Forall (fun x => en_corrupted x = false) post -> Forall (later ss) post -> (length post < fuel)%nat ->
  replay_list (entry_log <$> post) e = (st, er) ->
  exists j, replay_loop fuel ss e = Some (st, set_journal j er) /\ same_store (e_journal e) j.
Proof.
  revert fuel pre e er. induction post as [|x post IH]; intros fuel pre e er He Hc Hi Hla Hf Hr.
  - destruct fuel as [|fuel]; [simpl in Hf; lia |]. simpl in Hr. simplify_eq. simpl.
    unfold memory_next_record. rewrite He, Hc, app_nil_r, lookup_ge_None_2 by lia. simpl.
    eexists. by split.
  - destruct fuel as [|fuel]; [simpl in Hf; lia |]. apply Forall_cons in Hi as [Hx Hi].
    apply Forall_cons in Hla as [Hlx Hla]. simpl. unfold memory_next_record.
    rewrite He, Hc, list_lookup_middle by done. rewrite Hx. simpl.
    set (j := mkMemory _ _ _ _ _ _ _). set (r := mkJRecord _ _ _ _ _ _).
    rewrite (replay_record_later ss x) by done. change (replay_record None r (set_journal j e))
      with (replay_record None (log_record (entry_log x)) (set_journal j e)).
    rewrite replay_record_carries. simpl in Hr.
    destruct (replay_record None (log_record (entry_log x)) e) as [st1 e1] eqn:E.
    destruct (status_ok st1) eqn:Hst; simpl.
    + apply (replay_list_carries _ j) in Hr.
      destruct (IH fuel (pre ++ [x]) (set_journal j e1) (set_journal j er)) as (j' & Hj & Hs1 & Hs2); try done.
      * simpl. by rewrite <-app_assoc.
      * simpl. rewrite length_app. simpl. lia.
      * simpl in Hf. lia.
      * exists j'. split; [done |]. split; [rewrite Hs1 | rewrite Hs2]; simpl; [by rewrite <-He | done].
    + injection Hr as <- <-. exists j. split; [done |]. split; [simpl; by rewrite <-He | done].
Qed.

Lemma run_limits {J : Type} `{Journal J} rqs (e : Engine J) :
  e_limits (run (CApply <$> rqs) e).2 = e_limits e.
Proof.
  revert e. induction rqs as [|rq rqs IH]; intros e; [done |]. rewrite run_apply_cons. cbn [snd].
  rewrite IH. destruct (apply_cases rq e _ _ (surjective_pairing (apply rq e)))
    as [o|a|a x|a o e' _ _ _ _ _ _ _ Hs|e' _ _ _ a o Hs|o e' _ _ _ Hl]; try done.
  - by apply settle_case_account in Hs as (b & failed & _ & []).
  - by destruct Hs.
Qed.

(** What recovery makes of [e1] when replaying its journal gives [er]. *)
Record recovered_as (e1 er ef : Engine InMemoryJournal) : Prop := {
  rv_accounts : e_accounts ef = demote_all <$> e_accounts er;
  rv_chain : e_chain ef = e_chain er;
  rv_next : e_next_sequence ef = e_next_sequence er;
  rv_limits : e_limits ef = e_limits er;
  rv_stats : attempts_range (e_stats er) -> attempts_range (e_stats ef);
  rv_recovered : e_recovered ef = true;
  rv_store : same_store (e_journal e1) (e_journal ef);
}.

(** Recovery from an in-memory journal without a snapshot answers what the replay
    of its entries answers. *)
Lemma recover_memory (e1 : Engine InMemoryJournal) :
  e_has_journal e1 = true -> mj_snapshot (e_journal e1) = None -> intact (e_journal e1) ->
  exists es, blank es (e_limits e1) /\ e_stats es = e_stats e1 /\
    forall st er, replay_list (j_log (e_journal e1)) es = (st, er) ->
    exists ef, recover (S (length (mj_entries (e_journal e1)))) e1 = Some (st, ef) /\
      (status_ok st = true -> recovered_as e1 er ef).
Proof.
  intros Hh Hs Hi. remember (S (length (mj_entries (e_journal e1)))) as fuel eqn:Hfuel.
  unfold recover. rewrite Hh. simpl. rewrite Hs. simpl.
  match goal with |- context [replay_loop fuel None ?x] => set (es := x) end.
  exists es. split; [by constructor |]. split; [done |]. intros st er Hr.
  destruct (replay_loop_list fuel None [] (mj_entries (e_journal e1)) es er st) as (j & Hj & Hj1 & Hj2);
    try done; [by apply Forall_true | lia |].
  rewrite Hj. simpl in Hj1, Hj2. destruct (status_ok st) eqn:Hst; simpl; [| by exists (set_journal j er)].
  pose proof (replay_list_status _ _ _ _ Hr Hst) as ->. eexists. split; [done |]. intros _. constructor; try done.
  split; simpl; congruence.
Qed.

(** Recovery from an empty journal. *)
Definition first_boot (limits : EngineLimits) (budget : Z) (operator : Incarnation) (nonce : Digest128)
    : Engine InMemoryJournal :=
  mkEngine (clamp_limits limits) true (mkMemory [] 0 budget 0 false false None) operator nonce ∅ 1
    digest_zero 0 0 stats_zero true false.

Lemma first_boot_recovers limits budget operator nonce :
  recover 1 (engine_make limits true (memory_make budget) operator nonce) =
  Some (success, first_boot limits budget operator nonce).
Proof. reflexivity. Qed.

Lemma first_boot_booted limits budget operator nonce :
  limits_ok (clamp_limits limits) -> booted (first_boot limits budget operator nonce).
Proof.
  intros Hl. constructor; [by apply empty_engine_ok | done | split; simpl; word_lia | done |].
  intros er [Ba Bc Bl Bn]. exists er. split; [done |]. by constructor.
Qed.

(** ** The theorem *)

(** C5: Restart: run an engine on a fresh journal with any requests, and let no
    snapshot have been taken and no journal failure have occurred.  Then an
    engine restarted on that journal, whatever its challenge and operator,
    recovers: replay accepts every record, and every account is back exactly as
    it was, except that no incarnation is live and the audit log of refusals is
    empty; the digest chain and the journal sequence continue where they
    stopped.  Excluded are the two refusals whose record does not describe the
    account they leave ([durable_outcome]). *)
Theorem restart_restores_accounts limits budget operator nonce e0 rqs (e1 : Engine InMemoryJournal) :
  recover 1 (engine_make limits true (memory_make budget) operator nonce) = Some (success, e0) ->
  limits_ok (clamp_limits limits) -> Forall (request_wf 4096) rqs ->
  let outcomes := (run (CApply <$> rqs) e0).1 in
  let e := (run (CApply <$> rqs) e0).2 in
  Forall durable_outcome outcomes -> e_journal_failed e = false -> mj_snapshot (e_journal e) = None ->
  e_has_journal e1 = true -> e_limits e1 = clamp_limits limits -> e_journal e1 = e_journal e ->
  exists er, recover (S (length (mj_entries (e_journal e)))) e1 = Some (success, er) /\
    e_accounts er = (fun a => demote_all (forget_refusals a)) <$> e_accounts e /\
    e_chain er = e_chain e /\ e_next_sequence er = e_next_sequence e /\ e_recovered er = true.
Proof.
  intros H0 Hl Hq outcomes e Hd Hf Hs Hh1 Hl1 Hj1.
  rewrite first_boot_recovers in H0. injection H0 as <-.
  pose proof (first_boot_booted limits budget operator nonce Hl) as Hb.
  set (e0 := first_boot limits budget operator nonce) in *.
  pose proof (run_booted rqs e0 Hb Hq Hd Hf Hs) as Hbe. fold e in Hbe.
  pose proof (run_intact rqs e0 Hf Hs ltac:(by constructor)) as Hie. fold e in Hie.
  assert (Hlim : e_limits e = clamp_limits limits) by (unfold e; by rewrite run_limits).
  destruct (recover_memory e1) as (es & Hbl & _ & Hrec); [done | by rewrite Hj1 | by rewrite Hj1 |].
  rewrite Hl1, <-Hlim in Hbl. destruct (bt_log _ _ Hbe es Hbl) as (er & Hr & [MA MC ML MN]). rewrite <-Hj1 in Hr.
  destruct (Hrec _ _ Hr) as (ef & He & Hrv). rewrite Hj1 in He. exists ef.
  destruct (Hrv eq_refl) as [-> -> -> _ _ -> _]. rewrite MA, <-map_fmap_compose. by split_and!.
Qed.

(** A recovery that succeeds with an engine that passes a check. *)
Definition boots_with {A} (x : option (Status * A)) (f : A -> bool) : bool :=
  match x with Some (st, y) => status_ok st && (detail st =? 0) && f y | None => false end.

Lemma boots_with_some {A} (x : option (Status * A)) f :
  boots_with x f = true -> exists y, x = Some (success, y) /\ f y = true.
Proof.
  destruct x as [[st y]|]; [| done]. simpl. intros [[Hs Hz%Z.eqb_eq]%andb_prop Hf]%andb_prop.
  apply status_ok_iff in Hs. exists y. destruct st. simpl in *. by subst.
Qed.

(** A run that opens an account and issues credit on it. *)
Definition restart_requests : list CreditRequest := [open_request; issue_request 2 5].

Definition restart_run : list (CreditRequest * CreditOutcome) * Engine InMemoryJournal :=
  run (CApply <$> restart_requests) (first_boot default_limits 1000000 operator sample_nonce).

(** Every request is applied, none is a fence, the journal is healthy and has no snapshot. *)
Definition clean_run (r : list (CreditRequest * CreditOutcome) * Engine InMemoryJournal) : bool :=
  forallb (fun x => o_applied x.2) r.1 &&
  forallb (fun x => negb (op_code (rq_op x.1) =? op_code Fence)) r.1 &&
  negb (e_journal_failed r.2) && (if mj_snapshot (e_journal r.2) is Some _ then false else true).

Lemma restart_run_clean : clean_run restart_run = true.
Proof. vm_compute. reflexivity. Qed.

Lemma restart_requests_wf : Forall (request_wf 4096) restart_requests.
Proof.
  unfold restart_requests. constructor; [| constructor; [| constructor]].
  - apply operator_request_wf; try reflexivity; simpl rq_proof;
      try (unfold digest_range; simpl; word_lia).
    rewrite challenge_compute_words. apply db_finish_range.
  - apply operator_request_wf; try reflexivity; unfold digest_range; simpl; word_lia.
Qed.

Lemma durable_applied outcomes :
  forallb (fun x : CreditRequest * CreditOutcome => o_applied x.2) outcomes = true ->
  forallb (fun x => negb (op_code (rq_op x.1) =? op_code Fence)) outcomes = true ->
  Forall durable_outcome outcomes.
Proof.
  rewrite !forallb_forall, Forall_forall. intros Ha Hf x Hx%list_elem_of_In. split.
  - intros _ Hn. specialize (Ha x Hx). simpl in Ha. by rewrite Hn in Ha.
  - intros Hop. specialize (Hf x Hx). simpl in Hf. by rewrite Hop in Hf.
Qed.

Definition restarted (e : Engine InMemoryJournal) : Engine InMemoryJournal :=
  set_journal (e_journal e)
    (engine_make default_limits true (memory_make 0) operator (mkDigest 8 9)).

Lemma restart_restores_accounts_witness :
  exists er, recover (S (length (mj_entries (e_journal restart_run.2)))) (restarted restart_run.2) =
      Some (success, er) /\
    e_accounts er = (fun a => demote_all (forget_refusals a)) <$> e_accounts restart_run.2.
Proof.
  assert (G : forall r, restart_run = r -> clean_run r = true ->
    exists er, recover (S (length (mj_entries (e_journal r.2)))) (restarted r.2) = Some (success, er) /\
    e_accounts er = (fun a => demote_all (forget_refusals a)) <$> e_accounts r.2).
  { intros [os e] Hr Hc.
    pose proof (restart_restores_accounts default_limits 1000000 operator sample_nonce _
      restart_requests (restarted e) (first_boot_recovers _ _ _ _) default_limits_ok
      restart_requests_wf) as H.
    cbv zeta in H. unfold restart_run in Hr. rewrite Hr in H. cbn [fst snd] in H.
    unfold clean_run in Hc. cbn [fst snd] in Hc |- *.
    apply andb_prop in Hc as [Hc Hs]. apply andb_prop in Hc as [Hc Hf].
    apply andb_prop in Hc as [Ha Hn].
    destruct H as (er & H1 & H2 & _).
    - exact (durable_applied os Ha Hn).
    - exact (proj1 (negb_true_iff _) Hf).
    - destruct (mj_snapshot _); [discriminate Hs | reflexivity].
    - reflexivity.
    - reflexivity.
    - reflexivity.
    - exists er. split; [exact H1 | exact H2]. }
  exact (G restart_run eq_refl restart_run_clean).
Defined.
