(* ===== verification/Lives.v ===== *)
(** * The second restart

    A restart forgets which incarnations were live, but nothing in the journal
    says so: a later replay of the same records still holds them live.  What a
    process decides after a restart is therefore journaled with an account digest
    that the replay of the next process may not reach.  This file says when a
    second restart recovers and when it cannot. *)

From S2P Require Import Prelude Checked Status Digest Ledger Authority Request Bytes Wire.
From S2P Require Import Record Journal Window Account Engine Recovery Steps Invariant Verdicts.
From S2P Require Import Safety Sample Guarantees Durability Replay AccountDigest RecoveryProps Restart.
Local Open Scope Z_scope.

(** ** What a restart keeps of an account *)

Definition survivor (a : AccountState) : AccountState := demote_all (forget_refusals a).

Lemma survivor_ok limits a : account_ok limits a -> account_ok limits (survivor a).
Proof.
  intros [Hl Hs [H1 H2 H3] He Hr]. constructor; try done.
  - eapply standing_demoted; [exact Hs |]. intros i. left. apply lookup_fmap.
  - constructor; [done | |]; intros i; simpl; setoid_rewrite watermark_demote; [apply H2 | apply H3].
  - simpl. lia.
Qed.

Lemma survivor_typed a : typed a -> typed (survivor a).
Proof. by intros []. Qed.

(** An incarnation live in an account. *)
Definition live_in (a : AccountState) (i : Z) : Prop :=
  exists r, ac_incarnations a !! i = Some r /\ ir_state r = Reconciled.

Lemma demote_not_live a i : ~ live_in a i -> demote <$> (ac_incarnations a !! i) = ac_incarnations a !! i.
Proof.
  intros Hn. destruct (ac_incarnations a !! i) as [r|] eqn:Hr; [| done]. simpl. f_equal.
  destruct (demote_cases r) as [[Hs _]|[_ ->]]; [| done]. by destruct Hn; exists r.
Qed.

Lemma demote_all_quiet a : (forall i, ~ live_in a i) -> demote_all a = a.
Proof.
  intros Hn. destruct a as [x1 x2 x3 x4 x5 x6 x7 x8 x9 x10 m x12 x13 x14 x15 x16 x17]. unfold demote_all, set_incarnations.
  simpl. f_equal. apply map_eq. intros i. rewrite lookup_fmap. by apply (demote_not_live _ _ (Hn i)).
Qed.

(** ** Reconciling after a restart *)

Lemma reconcile_account_eq rq a :
  reconcile_account rq a = set_incarnations
    (partial_alter (fun o => Some (set_ir_reconciled (ac_epoch a) (ac_generation a) (rq_proof rq)
       (default (fresh_incarnation rq) o))) (a_incarnation (rq_authority rq)) (ac_incarnations a)) a.
Proof.
  unfold reconcile_account, find_incarnation, update_incarnation, put_incarnation.
  destruct (ac_incarnations a !! a_incarnation (rq_authority rq)) as [r|] eqn:Hr; simpl;
    unfold set_incarnations; simpl; f_equal.
  - apply partial_alter_ext. intros x. rewrite Hr. by intros <-.
  - rewrite alter_insert_eq. apply partial_alter_ext. intros x. rewrite Hr. by intros <-.
Qed.

Lemma reconciled_demote ep gen proof d o :
  set_ir_reconciled ep gen proof (default d (demote <$> o)) = set_ir_reconciled ep gen proof (default d o).
Proof. destruct o as [r|]; [| done]. simpl. by destruct (demote_cases r) as [[_ ->]|[_ ->]]. Qed.

(** Who else is live makes the difference. *)
Lemma reconcile_survivor rq a :
  (forall i, live_in a i -> i = a_incarnation (rq_authority rq)) ->
  reconcile_account rq (survivor a) = forget_refusals (reconcile_account rq a).
Proof.
  intros Hl. rewrite !reconcile_account_eq. unfold survivor, demote_all, forget_refusals, set_incarnations, set_refusals.
  simpl. f_equal. apply map_eq. intros i. destruct (decide (i = a_incarnation (rq_authority rq))) as [->|Hi].
  - rewrite !lookup_partial_alter_eq, lookup_fmap. by rewrite reconciled_demote.
  - rewrite !lookup_partial_alter_ne, lookup_fmap by done. apply demote_not_live. intros H. by apply Hl in H.
Qed.

Lemma demoted_one_word r : ir_state r = Reconciled -> one_word_apart (demote r) r.
Proof.
  intros Hs. destruct (demote_cases r) as [[_ ->]|[? _]]; [| done].
  exists [ir_id r; ir_publisher r; ir_boot r], (authority_state_code Unknown), (authority_state_code Reconciled),
    (drop 4 (incarnation_words r)). unfold incarnation_words. simpl. rewrite Hs. split_and!; try done; word_lia.
Qed.

(** With one other incarnation live, the account that the replay reconciles has
    another digest than the account that was reconciled after the restart. *)
Lemma reconcile_other_digest rq a other notes :
  let caller := a_incarnation (rq_authority rq) in
  other <> caller -> live_in a other -> (forall i, live_in a i -> i = caller \/ i = other) ->
  account_digest (count_commit caller (reconcile_account rq (dress notes a))) <>
  account_digest (count_commit caller (reconcile_account rq (survivor a))).
Proof.
  intros caller Ho (r & Hr & Hs) Hl. set (b := count_commit caller (reconcile_account rq (survivor a))).
  assert (Hb : ac_incarnations b !! other = Some (demote r)).
  { unfold b. rewrite reconcile_account_eq. simpl. fold caller.
    by rewrite lookup_alter_ne, lookup_partial_alter_ne, lookup_fmap, Hr by done. }
  pose proof (account_digest_record b other _ _ Hb (demoted_one_word r Hs)) as Hd. intros E. apply Hd. rewrite <-E. clear E Hd.
  rewrite !account_digest_words. f_equal. unfold b. rewrite !reconcile_account_eq. unfold account_words.
  f_equal. f_equal. f_equal. simpl. fold caller. apply map_eq. intros i.
  destruct (decide (i = other)) as [->|Hio].
  { rewrite lookup_insert_eq, lookup_alter_ne, lookup_partial_alter_ne by done. by rewrite Hr. }
  rewrite lookup_insert_ne by done. destruct (decide (i = caller)) as [->|Hic].
  - by rewrite !lookup_alter_eq, !lookup_partial_alter_eq, lookup_fmap, reconciled_demote.
  - rewrite !lookup_alter_ne, !lookup_partial_alter_ne, lookup_fmap by done. apply demote_not_live.
    intros H. by destruct (Hl i H).
Qed.


(** ** The process after a restart *)

Implicit Types (e er : Engine InMemoryJournal) (rq : CreditRequest) (o : CreditOutcome).

(** The engine [er] that recovery makes of what [e] left. *)
Record resumed e er : Prop := {
  rs_accounts : e_accounts er = survivor <$> e_accounts e;
  rs_chain : e_chain er = e_chain e;
  rs_next : e_next_sequence er = e_next_sequence e;
  rs_limits : e_limits er = e_limits e;
  rs_stats : attempts_range (e_stats er);
  rs_store : same_store (e_journal e) (e_journal er);
}.

Lemma resumed_log e er : resumed e er -> j_log (e_journal er) = j_log (e_journal e).
Proof. intros [_ _ _ _ _ [Hs _]]. simpl. unfold memory_log. by rewrite Hs. Qed.

Lemma restart_resumes e e1 :
  booted e -> intact (e_journal e) -> mj_snapshot (e_journal e) = None ->
  e_has_journal e1 = true -> e_limits e1 = e_limits e -> e_journal e1 = e_journal e ->
  attempts_range (e_stats e1) ->
  exists er, recover (S (length (mj_entries (e_journal e)))) e1 = Some (success, er) /\ resumed e er /\
    e_recovered er = true.
Proof.
  intros Hb Hi Hs Hh Hl Hj Hst.
  destruct (recover_memory e1) as (es & Hbl & Hes & Hrec); [done | by rewrite Hj | by rewrite Hj |].
  rewrite Hl in Hbl. destruct (bt_log _ _ Hb es Hbl) as (e2 & Hr & [MA MC ML MN]).
  pose proof (replay_list_stats _ _ _ _ (bt_records _ _ Hb) Hr) as Hst2. rewrite <-Hj in Hr.
  destruct (Hrec _ _ Hr) as (er & He & Hrv). specialize (Hrv eq_refl). rewrite Hj in He. exists er.
  destruct Hrv as [RA RC RN RL RS RR RJ]. split; [done |]. split; [| done].
  constructor; try congruence.
  - by rewrite RA, MA, <-map_fmap_compose.
  - apply RS, Hst2. by rewrite Hes.
Qed.

Lemma resumed_ok e er : engine_ok e -> resumed e er -> engine_ok er.
Proof.
  intros [Hl Ha Hn] [RA _ _ RL _ _]. constructor; rewrite ?RL; [done | | by rewrite RA, map_size_fmap].
  intros k b. rewrite RA, lookup_fmap. destruct (e_accounts e !! k) as [a|] eqn:E; simpl; [| done].
  intros [= <-]. destruct (Ha k a E) as [Hok Hk]. split; [by apply survivor_ok | done].
Qed.

Lemma resumed_typed e er k a :
  (forall k a, e_accounts e !! k = Some a -> typed a) -> resumed e er -> e_accounts er !! k = Some a -> typed a.
Proof.
  intros Ht [RA _ _ _ _ _]. rewrite RA, lookup_fmap. destruct (e_accounts e !! k) eqn:E; simpl; [| done].
  intros [= <-]. by eapply survivor_typed, Ht.
Qed.

Lemma survivor_not_live a i : ~ live_in (survivor a) i.
Proof. intros (r & Hr & Hs). by eapply demote_all_unreconciled. Qed.

(** What an applied request of the process after a restart must be, on an account
    nobody has touched since. *)
Lemma first_decision_reconciles er rq a o c created x :
  decision er rq o c created x -> o_applied o = true ->
  e_accounts er !! a_account (rq_authority rq) = Some (survivor a) ->
  rq_op rq = Reconcile /\ created = false /\
  c = count_commit (a_incarnation (rq_authority rq)) (reconcile_account rq (survivor a)).
Proof.
  intros Hd Ha Hacc. destruct Hd as [a' b Had Hv o c|r d a' b Had Hv o c|Hop Hor c o].
  - pose proof (am_account _ _ _ Had) as Ha'. rewrite Hacc in Ha'. injection Ha' as <-.
    assert (Hr : rq_op rq = Reconcile).
    { pose proof (unauthorized_none _ _ _ _ (am_authorized _ _ _ Had)) as (_ & _ & _ & _ & Hu).
      destruct (op_eqb (rq_op rq) Reconcile) eqn:E; [by apply op_eqb_eq in E |].
      destruct Hu as (r & Hr & Hl). unfold is_live in Hl. rewrite !andb_true_iff in Hl.
      destruct Hl as [[Hs%state_eqb_eq _] _]. destruct (survivor_not_live a (a_incarnation (rq_authority rq))). by exists r. }
    split; [done |]. split; [done |]. unfold c. f_equal. revert Hv. unfold verdict. rewrite Hr. simpl.
    destruct (negb _); [done |]. by intros [= <-].
  - done.
  - destruct (open_refusal_none _ _ Hor) as [Hn _]. congruence.
Qed.

(** Its record is refused by a replay in which another incarnation is still live. *)
Lemma replay_refuses_reconciliation er limits A c n s rq o stats a other more :
  let caller := a_incarnation (rq_authority rq) in
  let t := durable_attempt rq o (count_commit caller (reconcile_account rq (survivor a))) false stats in
  mirrors er limits A c n -> request_wf (max_note_bytes limits) rq -> durable_attempt_wf t ->
  rq_op rq = Reconcile -> o_applied o = true -> A !! a_account (rq_authority rq) = Some a -> ac_ambiguous a = [] ->
  other <> caller -> live_in a other -> (forall i, live_in a i -> i = caller \/ i = other) ->
  exists er', replay_list (decision_records c s rq o t ++ more) er =
    (refused_status RJournalDigestMismatch 135, er').
Proof.
  intros caller t Hm Hq Hwf Hop Hap Ha Hamb Ho Hlo Hl.
  destruct (replay_intent_marks er limits A c n s (intent_chain c s rq) rq Hm Hq) as (er1 & H1 & HA & HC & _).
  { intros b Hb. congruence. }
  unfold decision_records. simpl app. simpl replay_list. rewrite H1. simpl status_ok. cbv iota.
  unfold replay_record. simpl. unfold replay_commit. simpl. rewrite durable_attempt_decodes, HC by done.
  change (dt_request t) with rq. change (dt_outcome t) with o. rewrite digest_eqb_refl. simpl.
  unfold replay_attempt. change (dt_created_account t) with false. change (dt_request t) with rq. cbv iota.
  rewrite HA, lookup_fmap, lookup_alter_eq, Ha. simpl.
  change (forget_refusals (set_ambiguous [ambiguous_note rq s] a)) with (dress [ambiguous_note rq s] a).
  unfold replay_existing. change (dt_outcome t) with o. change (dt_request t) with rq. rewrite Hap.
  unfold apply_replay_transition, replay_effects. rewrite Hop. simpl. fold caller.
  unfold replay_finish, replay_mismatch. simpl.
  rewrite digest_eqb_neq by (by apply (reconcile_other_digest rq a other [ambiguous_note rq s])).
  simpl. by eexists.
Qed.

(** A run without snapshot and failure only appends. *)
Lemma run_appends rqs e :
  let e' := (run (CApply <$> rqs) e).2 in
  e_journal_failed e' = false -> j_snap (e_journal e') = None ->
  exists more, j_log (e_journal e') = j_log (e_journal e) ++ more.
Proof.
  revert e. induction rqs as [|rq rqs IH]; intros e; [intros; exists []; by rewrite app_nil_r |].
  rewrite run_apply_cons. cbv zeta. cbn [snd]. intros Hf Hs. destruct (IH _ Hf Hs) as [more Hm].
  destruct (run_healthy rqs _ Hf Hs) as [Hf1 Hs1].
  assert (exists m, j_log (e_journal (apply rq e).2) = j_log (e_journal e) ++ m) as [m Hj].
  { destruct (apply_logged _ _ _ _ (surjective_pairing (apply rq e)))
      as [o x d c created y st e1 _ _ _ _ Hf' _|o x _ _ Hc|o x _ _ _ Hc|o x c created y st e1 _ Hp Hst Hc _ _].
    - congruence.
    - exists []. by rewrite (cr_journal _ _ Hc), app_nil_r.
    - exists []. by rewrite (cr_journal _ _ Hc), app_nil_r.
    - rewrite (cr_journal _ _ Hc) in *. destruct (persist_records _ _ _ _ _ _ _ Hp Hst Hs1) as [HL _].
      rewrite HL. by eexists. }
  exists (m ++ more). rewrite Hm, Hj. by rewrite app_assoc.
Qed.

(** The first decision on an account after a restart, as it is logged. *)
Record reconciled_anew er rq o (a x : AccountState) e2 : Prop := {
  ra_op : rq_op rq = Reconcile;
  ra_note : request_wf (max_note_bytes (e_limits er)) rq;
  ra_typed : typed x;
  ra_sound :
    let t := durable_attempt rq o (count_commit (a_incarnation (rq_authority rq))
               (reconcile_account rq (survivor a))) false (e_stats er) in
    durable_attempt_wf t /\ o_decided o = true /\ reproduced (e_limits er) t (Some (survivor a)) x /\
    j_log (e_journal e2) =
      j_log (e_journal er) ++ decision_records (e_chain er) (e_next_sequence er) rq o t;
  ra_accounts : e_accounts e2 = <[a_account (rq_authority rq) := x]> (e_accounts er);
  ra_chain : e_chain e2 = commit_chain (e_chain er) (wrap64 (e_next_sequence er + 1)) rq o;
  ra_next : e_next_sequence e2 = wrap64 (wrap64 (e_next_sequence er + 1) + 1);
  ra_limits : e_limits e2 = e_limits er;
  ra_stats : attempts_range (e_stats e2);
}.

Lemma first_decision_logged e er rq o e2 a :
  booted e -> resumed e er -> request_wf 4096 rq -> e_accounts e !! a_account (rq_authority rq) = Some a ->
  apply rq er = (o, e2) -> o_applied o = true ->
  e_journal_failed e2 = false -> j_snap (e_journal e2) = None ->
  exists x, reconciled_anew er rq o a x e2.
Proof.
  intros Hb Hre Hq Ha Hap Hoa Hf Hs. pose proof (resumed_ok _ _ (bt_ok _ _ Hb) Hre) as Hok.
  assert (Hacc : e_accounts er !! a_account (rq_authority rq) = Some (survivor a))
    by (by rewrite (rs_accounts _ _ Hre), lookup_fmap, Ha).
  destruct (apply_logged _ _ _ _ Hap) as [o e2 d c created y st e1 _ _ _ _ Hf' _|o e2 Hoa' _ _|o e2 Hoa' _ _ _|
    o e2 c created x st e1 Hm Hp Hst Hc Hae Hdec]; [congruence | congruence | congruence |].
  destruct (first_decision_reconciles _ _ _ _ _ _ _ Hdec Hoa Hacc) as (Hop & -> & ->). exists x.
  destruct (fun Hty Hst => decision_sound er rq o _ _ x Hok Hty Hq Hst ltac:(by rewrite Hop) Hdec)
    as (Hwf & Hod & Htx & Hrep); [intros k b; by apply (resumed_typed e er k b (bt_typed _ _ Hb)) | apply Hre |].
  rewrite Hacc in Hrep. rewrite (cr_journal _ _ Hc) in Hs.
  destruct (persist_records _ _ _ _ _ _ _ Hp Hst Hs) as (HL & HC & HN). simpl in HC, HN, HL.
  pose proof (persist_core _ _ _ _ _ _ _ Hp) as Hcore. destruct Hc as [Cj Cc Cn Cl _ _ Cs].
  apply malformed_none in Hm as (_ & _ & _ & Hnote & _).
  constructor; try done; try congruence.
  - by apply (request_wf_note _ _ Hq).
  - cbv zeta. split_and!; try done. rewrite Cj. exact HL.
  - rewrite Cl, (sc_limits _ _ Hcore). done.
  - apply Cs. unfold attempts_range. rewrite (sc_applied _ _ Hcore), (sc_refused _ _ Hcore). apply Hre.
Qed.

Lemma replay_finish_forgets t a :
  replay_finish t (forget_refusals a) = let '(st, b) := replay_finish t a in (st, forget_refusals b).
Proof.
  unfold replay_finish, replay_mismatch. rewrite !account_digest_words.
  change (account_words (forget_refusals a)) with (account_words a). simpl.
  repeat (case_match; [done |]). done.
Qed.

(** If nobody else was live, the log still reproduces the engine. *)
Lemma reconciled_booted e er rq o a x e2 :
  booted e -> resumed e er -> reconciled_anew er rq o a x e2 -> o_applied o = true -> engine_ok e2 ->
  e_accounts e !! a_account (rq_authority rq) = Some a ->
  (forall k b i, e_accounts e !! k = Some b -> live_in b i ->
     k = a_account (rq_authority rq) /\ i = a_incarnation (rq_authority rq)) ->
  booted e2.
Proof.
  intros Hb Hre [Hop Hnote Htx Hsound Hacc HC HN HL Hst] Hoa Hok Ha Hl. cbv zeta in Hsound.
  set (t := durable_attempt _ _ _ _ _) in *. destruct Hsound as (Hwf & Hod & (_ & b & y & H1 & H2 & Hab & Hy) & Hlog).
  rewrite (rs_limits _ _ Hre) in *. rewrite (rs_chain _ _ Hre), (rs_next _ _ Hre), (resumed_log _ _ Hre) in *.
  assert (Hb0 : replay_existing t a = (success, count_commit (a_incarnation (rq_authority rq)) (reconcile_account rq a)) /\
    b = forget_refusals (count_commit (a_incarnation (rq_authority rq)) (reconcile_account rq a))).
  { revert H1. unfold replay_existing, apply_replay_transition, replay_effects. change (dt_outcome t) with o.
    change (dt_request t) with rq. rewrite Hoa, Hop. simpl. intros [= <-]. split; [done |].
    rewrite reconcile_survivor; [done |]. intros i Hi. by eapply Hl. }
  destruct Hb0 as [H1' ->]. rewrite replay_finish_forgets in H2. destruct (replay_finish t _) as [st z] eqn:Hz.
  injection H2 as -> <-.
  constructor; [done | | done | |].
  - intros k c. rewrite Hacc. intros [[<- <-]|[_ Hk]]%lookup_insert_Some; [done |].
    by apply (resumed_typed e er k c (bt_typed _ _ Hb)).
  - rewrite Hlog. apply Forall_app_2; [apply Hb | by apply decision_recorded].
  - intros er0 Hbl. rewrite HL in Hbl |- *. destruct (bt_log _ _ Hb er0 Hbl) as (er1 & Hr1 & Hm).
    rewrite Hlog, (replay_list_app _ _ _ _ Hr1), HC, HN.
    destruct (replay_existing_pair er1 (e_limits e) (e_accounts e) (e_chain e) (e_next_sequence e) (e_next_sequence e)
      rq o t a (count_commit (a_incarnation (rq_authority rq)) (reconcile_account rq a)) z Hm Hnote Hwf eq_refl eq_refl eq_refl Hod Ha (ty_ambiguous _ (bt_typed _ _ Hb _ _ Ha)) Hab H1' Hz)
      as (er2 & Hr2 & Hm2).
    exists er2. split; [exact Hr2 |]. destruct Hm2 as [MA MC ML MN]. constructor; try done.
    rewrite MA, Hacc, !fmap_insert, (rs_accounts _ _ Hre). change (forget_refusals (forget_refusals z)) with (forget_refusals z) in Hy.
    rewrite Hy. apply map_eq. intros k. destruct (decide (k = a_account (rq_authority rq))) as [->|Hk];
      [by rewrite !lookup_insert_eq |]. rewrite !lookup_insert_ne, !lookup_fmap by done.
    destruct (e_accounts e !! k) as [c|] eqn:Ec; [| done]. simpl. f_equal. unfold survivor.
    rewrite demote_all_quiet; [done |]. intros i Hi. by destruct (Hl k c i Ec Hi).
Qed.

(** ** The theorem *)

(** The next process on a journal: a fresh engine around what the last one left. *)
Definition process_on (limits : EngineLimits) (operator : Incarnation) (nonce : Digest128) (j : InMemoryJournal)
    : Engine InMemoryJournal :=
  set_journal j (engine_make limits true (memory_make 0) operator nonce).

(** A process that has just restarted, its first applied request, and what follows. *)
Section SecondLife.
Context (e er : Engine InMemoryJournal) (rq : CreditRequest) (rest : list CreditRequest) (a : AccountState).
Context (Hb : booted e) (Hi : intact (e_journal e)) (Hre : resumed e er).
Context (Ha : e_accounts e !! a_account (rq_authority rq) = Some a).
Context (Hq : request_wf 4096 rq) (Hrest : Forall (request_wf 4096) rest).
Let o := (apply rq er).1.
Let r' := run (CApply <$> rest) (apply rq er).2.
Context (Hoa : o_applied o = true) (Hf : e_journal_failed r'.2 = false) (Hs : j_snap (e_journal r'.2) = None).

Lemma second_life_first : exists x, reconciled_anew er rq o a x (apply rq er).2.
Proof using Hb Hre Ha Hq Hoa Hf Hs.
  destruct (run_healthy rest _ Hf Hs) as [Hf1 Hs1].
  by apply (first_decision_logged e er rq o _ a Hb Hre Hq Ha (surjective_pairing _)).
Qed.

Lemma second_life_limits : e_limits r'.2 = e_limits e.
Proof using Hb Hre Ha Hq Hoa Hf Hs.
  destruct second_life_first as [x Hx]. unfold r'.
  by rewrite run_limits, (ra_limits _ _ _ _ _ _ Hx), (rs_limits _ _ Hre).
Qed.

Lemma second_life_intact : intact (e_journal r'.2).
Proof using Hi Hre Hf Hs.
  pose proof (run_intact (rq :: rest) er) as Hri. rewrite run_apply_cons in Hri. apply Hri; try done.
  unfold intact. destruct (rs_store _ _ Hre) as [Hen _]. by rewrite Hen.
Qed.

Lemma second_restart_recovers :
  (forall k b i, e_accounts e !! k = Some b -> live_in b i ->
     k = a_account (rq_authority rq) /\ i = a_incarnation (rq_authority rq)) ->
  Forall durable_outcome r'.1 -> booted r'.2.
Proof using Hb Hre Ha Hq Hrest Hoa Hf Hs.
  intros Hsole Hd. destruct second_life_first as [x Hx]. apply run_booted; try done.
  eapply (reconciled_booted e er rq o a x); try done.
  eapply apply_ok_aux; [by apply (resumed_ok e), Hre; apply Hb | by eapply request_wf_range | apply surjective_pairing].
Qed.

Lemma second_restart_refuses other es :
  other <> a_incarnation (rq_authority rq) -> live_in a other ->
  (forall i, live_in a i -> i = a_incarnation (rq_authority rq) \/ i = other) -> blank es (e_limits e) ->
  exists er', replay_list (j_log (e_journal r'.2)) es = (refused_status RJournalDigestMismatch 135, er').
Proof using Hb Hre Ha Hq Hoa Hf Hs.
  intros Ho Hlo Hex Hbl. destruct second_life_first as [x Hx]. destruct (run_appends rest _ Hf Hs) as [more Hmore].
  destruct (ra_sound _ _ _ _ _ _ Hx) as (Hwf & Hod & _ & Hlog).
  rewrite (rs_chain _ _ Hre), (rs_next _ _ Hre), (resumed_log _ _ Hre) in Hlog.
  destruct (bt_log _ _ Hb es Hbl) as (er1 & Hr1 & Hm). unfold r'.
  rewrite Hmore, Hlog, <-app_assoc, (replay_list_app _ _ _ _ Hr1).
  apply (replay_refuses_reconciliation er1 (e_limits e) (e_accounts e) (e_chain e) (e_next_sequence e)
    (e_next_sequence e) rq o (e_stats er) a other more); try done.
  - rewrite <-(rs_limits _ _ Hre). apply Hx.
  - apply Hx.
  - by apply (ty_ambiguous _ (bt_typed _ _ Hb _ _ Ha)).
Qed.
End SecondLife.

(** C8: A second restart.  Run an engine on a fresh journal, without journal failure,
    snapshot or the two refusals of [durable_outcome], restart it on what it left,
    and let the first request the new process applies be on an account that was
    there: it is a reconciliation.  Let the process then run any further requests,
    without journal failure or snapshot, and restart once more.  If the incarnation
    that reconciled was the only one still live anywhere when the first process
    ended, and neither of the two refusals occurs in the second life, the second
    restart recovers, with every account as the process left it.  If exactly one
    other incarnation was live on that account, the second restart fails, whatever
    was appended after the reconciliation: replay refuses the reconciliation with
    [JournalDigestMismatch] 135. *)
Theorem second_restart_needs_sole_incarnation limits budget operator operator' operator'' nonce nonce' nonce''
    e0 rqs rq rest a :
  recover 1 (engine_make limits true (memory_make budget) operator nonce) = Some (success, e0) ->
  limits_ok (clamp_limits limits) -> Forall (request_wf 4096) rqs ->
  let r := run (CApply <$> rqs) e0 in
  let e := r.2 in
  Forall durable_outcome r.1 -> e_journal_failed e = false -> mj_snapshot (e_journal e) = None ->
  let key := a_account (rq_authority rq) in
  let caller := a_incarnation (rq_authority rq) in
  e_accounts e !! key = Some a -> request_wf 4096 rq -> Forall (request_wf 4096) rest ->
  exists er,
    recover (S (length (mj_entries (e_journal e)))) (process_on limits operator' nonce' (e_journal e)) =
      Some (success, er) /\
    let o := (apply rq er).1 in
    let r' := run (CApply <$> rest) (apply rq er).2 in
    let e' := r'.2 in
    let next := process_on limits operator'' nonce'' (e_journal e') in
    let fuel := S (length (mj_entries (e_journal e'))) in
    o_applied o = true -> e_journal_failed e' = false -> mj_snapshot (e_journal e') = None ->
    rq_op rq = Reconcile /\
    ((forall k b i, e_accounts e !! k = Some b -> live_in b i -> k = key /\ i = caller) ->
     Forall durable_outcome r'.1 ->
     exists ef, recover fuel next = Some (success, ef) /\ resumed e' ef) /\
    (forall other, other <> caller -> live_in a other -> (forall i, live_in a i -> i = caller \/ i = other) ->
     exists ef, recover fuel next = Some (refused_status RJournalDigestMismatch 135, ef)).
Proof.
  intros H0 Hl Hqs r e Hd Hf Hs key caller Ha Hq Hrest.
  rewrite first_boot_recovers in H0. injection H0 as <-.
  pose proof (run_booted rqs _ (first_boot_booted limits budget operator nonce Hl) Hqs Hd Hf Hs) as Hb. fold r e in Hb.
  pose proof (run_intact rqs _ Hf Hs ltac:(by constructor)) as Hi. fold r e in Hi.
  assert (Hlim : e_limits e = clamp_limits limits) by (unfold e, r; by rewrite run_limits).
  destruct (restart_resumes e (process_on limits operator' nonce' (e_journal e))) as (er & He & Hre & _);
    [done.. | by rewrite Hlim | done | split; simpl; word_lia |].
  exists er. split; [done |]. intros o r' e' next fuel Hoa Hf' Hs'. change (j_snap (e_journal e') = None) in Hs'.
  pose proof (second_life_limits e er rq rest a Hb Hre Ha Hq Hoa Hf' Hs') as Hl'. rewrite Hlim in Hl'.
  pose proof (second_life_intact e er rq rest Hi Hre Hf' Hs') as Hi'.
  destruct (second_life_first e er rq rest a Hb Hre Ha Hq Hoa Hf' Hs') as [x Hx].
  split; [apply Hx |]. split.
  - intros Hsole Hd'. pose proof (second_restart_recovers e er rq rest a Hb Hre Ha Hq Hrest Hoa Hf' Hs' Hsole Hd') as Hb'.
    destruct (restart_resumes e' next Hb' Hi' Hs' eq_refl (eq_sym Hl') eq_refl) as (ef & Hef & Hrf & _);
      [split; simpl; word_lia | by exists ef].
  - intros other Ho Hlo Hex. destruct (recover_memory next) as (es & Hbl & _ & Hrec); [done.. |].
    destruct (second_restart_refuses e er rq rest a Hb Hre Ha Hq Hoa Hf' Hs' other es Ho Hlo Hex) as [er1 Hr1];
      [rewrite Hlim; exact Hbl |].
    destruct (Hrec _ _ Hr1) as (ef & Hef & _). by exists ef.
Qed.

(** ** On a concrete account *)

(** Exactly one incarnation but [caller] is live. *)
Definition only_other_live (caller other : Z) (a : AccountState) : bool :=
  negb (other =? caller) && (if ac_incarnations a !! other is Some r then state_eqb (ir_state r) Reconciled else false) &&
  forallb (fun '(i, r) => negb (state_eqb (ir_state r) Reconciled) || (i =? caller) || (i =? other))
    (map_to_list (ac_incarnations a)).

Lemma only_other_live_spec caller other a :
  only_other_live caller other a = true ->
  other <> caller /\ live_in a other /\ (forall i, live_in a i -> i = caller \/ i = other).
Proof.
  unfold only_other_live. rewrite !andb_true_iff, forallb_forall. intros [[Hne Hr] Hall]. split_and!.
  - by apply Z.eqb_neq, negb_true_iff.
  - destruct (ac_incarnations a !! other) as [r|] eqn:E; [| done]. exists r. by apply state_eqb_eq in Hr.
  - intros i (r & Hi & Hs). specialize (Hall (i, r)). rewrite <-list_elem_of_In, elem_of_map_to_list in Hall.
    specialize (Hall Hi). simpl in Hall. rewrite (proj2 (state_eqb_eq _ _) Hs), !orb_true_iff, !Z.eqb_eq in Hall.
    simpl in Hall. destruct Hall as [[?|?]|?]; [done | by left | by right].
Qed.

(** The operator opened the account; after the restart a worker reconciles. *)
Definition worker_id : Z := Eval vm_compute in make_incarnation_id 9 9.
Definition worker : Incarnation := mkIncarnation 9 9 worker_id.
Definition worker_vector : AuthorityVector := mkVector 1 2 1 1 worker_id.
Definition second_nonce : Digest128 := mkDigest 8 9.

Definition worker_reconciles : CreditRequest :=
  mkRequest (mkDigest 200 1) Reconcile 1 worker_vector worker 0 0 0 0 0 0 0
    (challenge_compute second_nonce worker worker_vector) digest_zero sample_config DecisionNone RUnknownState [].

Lemma worker_reconciles_wf : request_wf 4096 worker_reconciles.
Proof.
  constructor; simpl rq_proof; by vm_compute.
Qed.

Definition second_process : Engine InMemoryJournal :=
  process_on default_limits operator second_nonce (e_journal restart_run.2).

(** The first process leaves the operator alone live. *)
Definition leaves_operator (e : Engine InMemoryJournal) : bool :=
  if e_accounts e !! 2 is Some a then only_other_live worker_id operator_id a else false.

Lemma first_life_checked : leaves_operator restart_run.2 = true.
Proof. vm_compute. reflexivity. Qed.

(** The worker's request is applied and takes no snapshot. *)
Definition serves_worker (e : Engine InMemoryJournal) : bool :=
  let r := apply worker_reconciles e in
  o_applied r.1 && (negb (e_journal_failed r.2) && if mj_snapshot (e_journal r.2) is Some _ then false else true).

Lemma second_life_checked :
  boots_with (recover (S (length (mj_entries (e_journal restart_run.2)))) second_process) serves_worker = true.
Proof. vm_compute. reflexivity. Qed.

Lemma second_restart_needs_sole_incarnation_witness :
  exists er, recover (S (length (mj_entries (e_journal restart_run.2)))) second_process = Some (success, er) /\
    let e := (apply worker_reconciles er).2 in
    exists ef, recover (S (length (mj_entries (e_journal e))))
      (process_on default_limits operator (mkDigest 5 6) (e_journal e)) =
      Some (refused_status RJournalDigestMismatch 135, ef).
Proof.
  destruct (boots_with_some _ _ second_life_checked) as (er & Hr & Hc). unfold serves_worker in Hc.
  apply andb_prop in Hc as [Hoa Hc]. apply andb_prop in Hc as [Hf Hs]. apply negb_true_iff in Hf.
  assert (Hs' : mj_snapshot (e_journal (apply worker_reconciles er).2) = None)
    by (destruct (mj_snapshot _); [discriminate Hs | reflexivity]).
  clear Hs.
  assert (G : forall r, restart_run = r -> clean_run r = true ->
    leaves_operator r.2 = true ->
    recover (S (length (mj_entries (e_journal r.2)))) (process_on default_limits operator second_nonce (e_journal r.2)) =
      Some (success, er) ->
    exists ef, recover (S (length (mj_entries (e_journal (apply worker_reconciles er).2))))
      (process_on default_limits operator (mkDigest 5 6) (e_journal (apply worker_reconciles er).2)) =
      Some (refused_status RJournalDigestMismatch 135, ef)).
  { intros [os e] Hrun Hclean Ho He. unfold leaves_operator in Ho. cbn [fst snd] in *.
    destruct (e_accounts e !! 2) as [a|] eqn:Ha; [| discriminate Ho].
    apply only_other_live_spec in Ho as (H1 & H2 & H3).
    unfold clean_run in Hclean. cbn [fst snd] in Hclean. apply andb_prop in Hclean as [Hc Hsn].
    apply andb_prop in Hc as [Hc Hfl]. apply andb_prop in Hc as [Hap Hnf].
    pose proof (second_restart_needs_sole_incarnation default_limits 1000000 operator operator operator
      sample_nonce second_nonce (mkDigest 5 6) _ restart_requests worker_reconciles [] a
      (first_boot_recovers _ _ _ _) default_limits_ok restart_requests_wf) as H.
    cbv zeta in H. unfold restart_run in Hrun. rewrite Hrun in H. cbn [fst snd] in H.
    destruct H as (er' & He' & H).
    - exact (durable_applied os Hap Hnf).
    - exact (proj1 (negb_true_iff _) Hfl).
    - destruct (mj_snapshot (e_journal e)); [discriminate Hsn | reflexivity].
    - exact Ha.
    - exact worker_reconciles_wf.
    - constructor.
    - rewrite He in He'. injection He' as <-. destruct (H Hoa Hf Hs') as (_ & _ & Hneg).
      exact (Hneg operator_id H1 H2 H3). }
  exists er. split; [exact Hr |]. exact (G restart_run eq_refl restart_run_clean first_life_checked Hr).
Defined.
