(* ===== verification/Typing.v ===== *)
(** * Every field the engine keeps or answers fits its type

    In the source the machine types see to it; here it is an invariant of the
    engine, and what it gives: every answer of a healthy engine reaches a client
    unchanged, and every state the engine can reach survives its snapshot format. *)

From S2P Require Import Prelude Checked Status Digest Ledger Authority Request Bytes Wire.
From S2P Require Import Record Journal Window Account Engine Steps Invariant Verdicts.
From S2P Require Import Safety Sample Guarantees Durability AccountDigest Restart.
Local Open Scope Z_scope.

Create HintDb typed discriminated.

(** ** Typed accounts *)

Record decided_typed (x : WindowEntry) : Prop := {
  et_key : window_entry_wf (we_key x);
  et_detail : in_u64 (detail (we_status x));
  et_view : view_wf (we_view x);
}.

Definition records_typed (m : gmap Z IncarnationRecord) : Prop :=
  map_Forall (fun _ r => incarnation_record_wf r) m.

Definition window_typed (w : AttemptWindow) : Prop := forall k x, window_find k w = Some x -> decided_typed x.

Record account_typed (a : AccountState) : Prop := {
  at_config : config_wf (ac_config a);
  at_names : ac_domain a = c_domain (ac_config a) /\ ac_account a = c_account (ac_config a);
  at_records : records_typed (ac_incarnations a);
  at_fences : Forall fence_wf (ac_fences a);
  at_ambiguous : Forall ambiguous_wf (ac_ambiguous a) /\ in_u64 (Z.of_nat (length (ac_ambiguous a)));
  at_window : window_typed (ac_window a);
  at_committed : in_u64 (ac_committed_attempts a);
  at_refused : in_u64 (ac_refused_attempts a);
}.

(** The bounds that appear in refusals are machine words. *)
Record limits_typed (l : EngineLimits) : Prop := {
  lt_accounts : in_u64 (max_accounts l);
  lt_incarnations : in_u64 (max_incarnations_per_account l);
  lt_fences : in_u64 (max_fences_per_account l);
}.

(** ** Incarnation records *)

Definition keeps_record (f : IncarnationRecord -> IncarnationRecord) : Prop :=
  forall r, incarnation_record_wf r -> incarnation_record_wf (f r).

Ltac record_typed := intros r []; constructor; simpl; auto with word.

Lemma keeps_state s : keeps_record (set_ir_state s).
Proof. record_typed. Qed.
Lemma keeps_reconciled e g p : in_u64 e -> in_u64 g -> digest_range p -> keeps_record (set_ir_reconciled e g p).
Proof. intros. record_typed. Qed.
Lemma keeps_producer v : in_u64 v -> keeps_record (set_ir_producer v).
Proof. intros. record_typed. Qed.
Lemma keeps_consumer v : in_u64 v -> keeps_record (set_ir_consumer v).
Proof. intros. record_typed. Qed.
Lemma keeps_grant v : in_u64 v -> keeps_record (set_ir_grant v).
Proof. intros. record_typed. Qed.
Lemma keeps_last v : in_u64 v -> keeps_record (set_ir_last_sequence v).
Proof. intros. record_typed. Qed.
Lemma keeps_incr_committed : keeps_record incr_ir_committed.
Proof. record_typed. Qed.
Lemma keeps_incr_refused : keeps_record incr_ir_refused.
Proof. record_typed. Qed.
Lemma keeps_fenced v : in_u64 v -> keeps_record (set_ir_fenced v).
Proof. intros. record_typed. Qed.
Lemma keeps_demote : keeps_record demote.
Proof. intros r Hr. unfold demote. destruct (state_eqb _ _); [by apply keeps_state | done]. Qed.

Lemma records_alter f i m : keeps_record f -> records_typed m -> records_typed (alter f i m).
Proof.
  intros Hf Hm j r. destruct (decide (i = j)) as [<-|Hij].
  - rewrite lookup_alter_eq. destruct (m !! i) as [x|] eqn:Hx; simpl; [| done].
    intros [= <-]. apply Hf. by apply (Hm i).
  - rewrite lookup_alter_ne by done. apply Hm.
Qed.

Lemma records_insert i r m : incarnation_record_wf r -> records_typed m -> records_typed (<[i := r]> m).
Proof. intros. by apply map_Forall_insert_2. Qed.

Lemma records_demoted m m' :
  records_typed m -> (forall i, m' !! i = m !! i \/ m' !! i = demote <$> (m !! i)) -> records_typed m'.
Proof.
  intros Hm Hm' i r Hr. destruct (Hm' i) as [E|E]; rewrite E in Hr; [by apply (Hm i) |].
  destruct (m !! i) as [x|] eqn:Hx; simpl in Hr; [| done]. injection Hr as <-.
  apply keeps_demote. by apply (Hm i).
Qed.

(** A binding that succeeds keeps the record typed; one that fails names a word. *)
Lemma bind_identity_typed cur req set r :
  in_u64 cur -> incarnation_record_wf r -> keeps_record (set req) ->
  match bind_identity cur req set r with inl d => in_u64 d | inr r' => incarnation_record_wf r' end.
Proof. intros Hc Hr Hs. unfold bind_identity. repeat case_match; simplify_eq; auto. Qed.

Lemma bind_issue_typed max rq r :
  request_wf max rq -> incarnation_record_wf r ->
  match bind_issue rq r with
  | inl (_, d, r') => in_u64 d /\ incarnation_record_wf r'
  | inr r' => incarnation_record_wf r'
  end.
Proof.
  intros Hq Hr. unfold bind_issue.
  pose proof (bind_identity_typed (ir_producer r) (rq_producer rq) set_ir_producer r
    (iwf_producer _ Hr) Hr (keeps_producer _ (rwf_producer _ _ Hq))) as H1.
  destruct (bind_identity _ _ set_ir_producer r) as [d|r1]; [done |].
  pose proof (bind_identity_typed (ir_consumer r1) (rq_consumer rq) set_ir_consumer r1
    (iwf_consumer _ H1) H1 (keeps_consumer _ (rwf_consumer _ _ Hq))) as H2.
  destruct (bind_identity _ _ set_ir_consumer r1) as [d|r2]; [done |].
  pose proof (bind_identity_typed (ir_grant r2) (rq_grant rq) set_ir_grant r2
    (iwf_grant _ H2) H2 (keeps_grant _ (rwf_grant _ _ Hq))) as H3.
  by destruct (bind_identity _ _ set_ir_grant r2) as [d|r3].
Qed.

(** ** Accounts *)

Lemma typed_map a m : account_typed a -> records_typed m -> account_typed (set_incarnations m a).
Proof. intros [] Hm. by constructor. Qed.

Lemma typed_update f i a : keeps_record f -> account_typed a -> account_typed (update_incarnation f i a).
Proof. intros Hf Ha. apply typed_map; [done |]. by apply records_alter, Ha. Qed.

Lemma typed_put i r a : incarnation_record_wf r -> account_typed a -> account_typed (put_incarnation i r a).
Proof. intros Hr Ha. apply typed_map; [done |]. by apply records_insert, Ha. Qed.

Lemma typed_totals t a : account_typed a -> account_typed (set_totals t a).
Proof. intros []. by constructor. Qed.
Lemma typed_capacity c a : account_typed a -> account_typed (set_capacity c a).
Proof. intros []. by constructor. Qed.
Lemma typed_exhaustion b r a : account_typed a -> account_typed (set_exhaustion b r a).
Proof. intros []. by constructor. Qed.
Lemma typed_era e g a : account_typed a -> account_typed (set_era e g a).
Proof. intros []. by constructor. Qed.
Lemma typed_demote a : account_typed a -> account_typed (demote_all a).
Proof.
  intros Ha. apply typed_map; [done |]. eapply records_demoted; [apply Ha |]. intros i. right. apply lookup_fmap.
Qed.
Lemma typed_fences fs a : Forall fence_wf fs -> account_typed a -> account_typed (set_fences fs a).
Proof. intros Hf []. by constructor. Qed.

#[export] Hint Resolve typed_update typed_put typed_totals typed_capacity typed_exhaustion typed_era
  typed_demote typed_fences keeps_state keeps_reconciled keeps_last keeps_incr_committed
  keeps_incr_refused keeps_fenced : typed.

(** ** Decisions *)

(** The account a verdict leaves is typed, and its refusal names a word. *)
Definition verdict_typed (v : Verdict) : Prop :=
  account_typed (verdict_account v) /\
  match v with VRefused _ d _ | VDecided _ d _ => in_u64 d | VApplied _ => True end.

Section Verdicts.
Context (limits : EngineLimits) (rq : CreditRequest) (a : AccountState).
Context (Hlim : limits_typed limits) (Hok : account_ok limits a) (Hat : account_typed a).
Context (Hq : request_wf 4096 rq).

Lemma ledger_verdict_typed b :
  account_typed b -> account_plan b = account_plan a -> verdict_typed (ledger_verdict rq b).
Proof.
  intros Hb Hp. pose proof (account_plan_ok a (li_ok _ _ _ (ao_ledger _ _ Hok))) as Hpl.
  destruct (ledger_verdict rq b) as [r d x|r d x|x] eqn:E.
  - revert E. unfold ledger_verdict. destruct (ledger_apply _ _ _) as [v p]. by destruct (status_ok v).
  - assert (Hd : in_u64 d) by (eapply (ledger_verdict_detail rq b); [by rewrite Hp | apply Hq | done]).
    split; [| done]. revert E. unfold ledger_verdict. destruct (ledger_apply _ _ _) as [v p].
    destruct (status_ok v); [done |]. by intros [= _ _ <-].
  - split; [| done]. revert E. unfold ledger_verdict. destruct (ledger_apply _ _ _) as [v p].
    destruct (status_ok v); [| done]. intros [= <-]. by apply typed_totals.
Qed.

Lemma plan_step_typed op apply :
  op_range op -> match op with LSetCapacity _ mx _ => in_u64 mx | _ => True end ->
  (forall p, account_typed (apply p)) ->
  verdict_typed (plan_step (run_op op (account_plan a)) apply a).
Proof.
  intros Hr Hm Hf. pose proof (account_plan_ok a (li_ok _ _ _ (ao_ledger _ _ Hok))) as Hpl.
  pose proof (fun r d y => plan_step_detail op apply a a r d y Hpl Hr Hm) as Hd. revert Hd.
  unfold plan_step. destruct (run_op op (account_plan a)) as [p ok]. destruct ok; simpl; intros Hd.
  - split; [apply Hf | done].
  - split; [done | by eapply Hd].
Qed.

Lemma data_verdict_typed : verdict_typed (data_verdict rq a).
Proof.
  unfold data_verdict. destruct (negb _); [split; [done | simpl; auto with word] |].
  destruct (_ && _).
  { split; [done |]. simpl. pose proof (reason_code_u16 (ac_exhaustion_cause a)). word_lia. }
  destruct (op_eqb (rq_op rq) Issue); [| by apply ledger_verdict_typed].
  destruct (find_incarnation _ a) as [r|] eqn:Hr; [| split; [done | simpl; word_lia]].
  pose proof (bind_issue_typed _ _ _ Hq (at_records _ Hat _ _ Hr)) as Hb.
  destruct (bind_issue rq r) as [[[c d] x]|x].
  - destruct Hb. split; [by apply typed_put | done].
  - apply ledger_verdict_typed; [by apply typed_put | done].
Qed.

Lemma count_word (n : nat) m : Z.of_nat n <= m -> in_u64 m -> in_u64 (Z.of_nat n).
Proof. intros. word_lia. Qed.

Lemma fence_record_typed : fence_wf (fence_record rq a).
Proof.
  pose proof (ao_era _ _ Hok) as [? ?]. constructor; simpl; auto with word; try apply Hq.
Qed.

Lemma fence_account_typed b :
  account_typed b -> fence_record rq b = fence_record rq a -> account_typed (fence_account rq b).
Proof.
  intros Hb Hf. unfold fence_account. rewrite Hf. apply typed_fences.
  - apply Forall_app. split; [apply (at_fences _ Hb) |].
    constructor; [apply fence_record_typed | constructor].
  - apply typed_update; [apply keeps_fenced, Hq | done].
Qed.

Lemma bare_typed i : in_u64 i -> incarnation_record_wf (bare_incarnation i).
Proof. intros. constructor; simpl; try word_lia; done. Qed.

Lemma fence_verdict_typed : verdict_typed (fence_verdict limits rq a).
Proof.
  pose proof (si_size _ _ _ _ _ (ao_standing _ _ Hok)) as Hsz.
  pose proof (si_fences _ _ _ _ _ (ao_standing _ _ Hok)) as Hfs.
  pose proof (count_word _ _ Hsz (lt_incarnations _ Hlim)).
  pose proof (count_word _ _ Hfs (lt_fences _ Hlim)).
  unfold fence_verdict. repeat case_match; split; simpl; try done; try word_lia.
  - by apply fence_account_typed.
  - apply typed_put; [apply bare_typed, Hq | done].
  - apply fence_account_typed; [| done]. apply typed_put; [apply bare_typed, Hq | done].
Qed.

Lemma era_verdict_typed : verdict_typed (era_verdict rq a).
Proof.
  pose proof (ao_era _ _ Hok) as [He Hg].
  pose proof (account_plan_ok a (li_ok _ _ _ (ao_ledger _ _ Hok))) as Hpl.
  unfold era_verdict. repeat case_match; simplify_eq; split; simpl; auto with typed.
  all: try (unfold enter_era; auto with typed; fail).
  all: match goal with H : negb ?b = true |- _ => destruct b; [done |] end.
  all: by eapply (run_op_detail LQuarantine).
Qed.

Lemma control_verdict_typed : verdict_typed (control_verdict limits rq a).
Proof.
  pose proof (rwf_count _ _ Hq) as Hn. unfold control_verdict.
  destruct (rq_op rq); try (split; simpl; [done | word_lia]).
  - repeat case_match; split; simpl; auto with typed; word_lia.
  - repeat case_match; split; simpl; auto with typed; word_lia.
  - apply (plan_step_typed (LSetCapacity _ _ _)); [apply Hq | apply (at_config _ Hat) | auto with typed].
  - apply era_verdict_typed.
  - apply fence_verdict_typed.
  - apply era_verdict_typed.
  - by apply (plan_step_typed (LRetireStale _)); [| | auto with typed].
  - destruct (rq_decision rq); [split; simpl; [done | word_lia] | |].
    + by apply (plan_step_typed (LToReturned _)); [| | auto with typed].
    + by apply (plan_step_typed (LToConsumed _)); [| | auto with typed].
  - repeat case_match; split; simpl; auto with typed; word_lia.
Qed.

Lemma reconcile_account_typed : account_typed (reconcile_account rq a).
Proof.
  pose proof (ao_era _ _ Hok) as [? ?]. unfold reconcile_account. destruct (find_incarnation _ a).
  - apply typed_update; [| done]. apply keeps_reconciled; [done | done | apply Hq].
  - apply typed_update; [apply keeps_reconciled; [done | done | apply Hq] |]. apply typed_put; [| done].
    destruct (rwf_authority _ _ Hq), (rwf_presenter _ _ Hq). constructor; simpl; try done; word_lia.
Qed.

Lemma verdict_keeps_typed nonce : verdict_typed (verdict nonce limits rq a).
Proof.
  unfold verdict. destruct (classify (rq_op rq)).
  1, 2: destruct (op_eqb _ Reconcile); [destruct (negb _) | apply data_verdict_typed].
  1, 3: split; simpl; [done | word_lia].
  1, 2: split; [apply reconcile_account_typed | done].
  destruct (_ && _); [split; simpl; [done | word_lia] | apply control_verdict_typed].
Qed.
End Verdicts.

(** ** Settling *)

Lemma typed_count_commit i a : account_typed a -> account_typed (count_commit i a).
Proof.
  intros Ha. apply typed_update; [apply keeps_incr_committed |]. destruct Ha. constructor; simpl; auto with word.
Qed.

Lemma typed_count_refusal i a : account_typed a -> account_typed (count_refusal i a).
Proof.
  intros Ha. apply typed_update; [apply keeps_incr_refused |]. destruct Ha. constructor; simpl; auto with word.
Qed.

Lemma length_filter_le {A} (p : A -> bool) l : (length (List.filter p l) <= length l)%nat.
Proof. induction l as [|x l IH]; simpl; [lia |]. destruct (p x); simpl; lia. Qed.

Lemma typed_resolve i s a : account_typed a -> account_typed (resolve_ambiguous i s a).
Proof.
  intros [? ? ? ? [Hf Hn] ? ? ?]. constructor; try done. simpl. split.
  - rewrite Forall_forall in *. intros x. rewrite list_elem_of_In, filter_In, <-list_elem_of_In.
    intros [? _]. by apply Hf.
  - pose proof (length_filter_le (fun n => negb (note_matches i s n)) (ac_ambiguous a)). word_lia.
Qed.

Lemma published_typed limits rq o a :
  account_ok limits a -> account_typed a -> request_wf 4096 rq ->
  window_find (a_incarnation (rq_authority rq), rq_sequence rq) (ac_window a) = None ->
  in_u64 (detail (o_status o)) -> view_wf (o_view o) ->
  account_typed (publish_window_locked rq o a).
Proof.
  intros Hok Ha Hq Hw Hd Hv. unfold publish_window_locked. apply typed_resolve, typed_update.
  { apply keeps_last, Hq. }
  destruct Ha as [? ? ? ? ? Hwt ? ?]. constructor; try done. simpl. intros k x Hx.
  apply window_insert_other in Hx; [| apply (ao_window _ _ Hok) | done].
  destruct Hx as [[_ ->]|Hx]; [| by eapply Hwt]. constructor; simpl; [| done | done].
  split; [apply (vwf_incarnation _ (rwf_authority _ _ Hq)) | apply Hq].
Qed.

Lemma typed_record_refusal limits rq o a :
  account_typed a -> account_typed (record_refusal_locked limits rq o a).
Proof. intros []. unfold record_refusal_locked. destruct (_ <? _); by constructor. Qed.

(** ** The engine *)

Section Engines.
Context {J : Type} `{Journal J}.
Implicit Types (e : Engine J) (rq : CreditRequest) (o : CreditOutcome).

Record engine_typed e : Prop := {
  en_ok : engine_ok e;
  en_limits : limits_typed (e_limits e);
  en_accounts : forall k a, e_accounts e !! k = Some a -> account_typed a;
}.

Lemma settled_typed e rq a o o' a' failed :
  engine_typed e -> request_wf 4096 rq -> admitted e rq a -> settled_account e rq a o o' a' failed ->
  account_typed a'.
Proof.
  intros [He Hl Ht] Hq [Hacc [Hop Hdes] Hu Hw Hseq] Hs.
  destruct (eo_accounts _ He _ _ Hacc) as [Ha _]. pose proof (Ht _ _ Hacc) as Hta.
  destruct (verdict_spec (e_challenge e) (e_limits e) (i_id (e_operator e)) rq a)
    as [[Hok Hf _] _]; try done; [by eapply request_wf_range |].
  pose proof (verdict_keeps_typed (e_limits e) rq a Hl Ha Hta Hq (e_challenge e)) as [Hv Hd].
  destruct Hs as [r d b E|r d b E|r d b o' E _ _ _|b E|b o' E _ _ _]; rewrite E in *; simpl in *; try done.
  - unfold refused_account. cbv zeta. apply typed_record_refusal.
    eapply published_typed; [by apply count_refusal_ok | by apply typed_count_refusal | done | | done |].
    + simpl. by rewrite (vf_window _ _ _ Hf).
    + apply account_view_wf, (count_refusal_ok (e_limits e)). done.
  - unfold committed_account. cbv zeta.
    eapply published_typed; [by apply count_commit_ok | by apply typed_count_commit | done | | simpl; word_lia |].
    + simpl. by rewrite (vf_window _ _ _ Hf).
    + apply account_view_wf, (count_commit_ok (e_limits e)). done.
  - destruct (undone_commit_shape rq a b Hf) as (m & -> & Hm). apply typed_map; [done |].
    eapply records_demoted; [apply Hta |]. intros i. destruct (Hm i) as [->|[_ ->]]; auto.
Qed.

Lemma opened_typed limits rq : request_wf 4096 rq -> account_typed (opened_account limits rq).
Proof.
  intros Hq. pose proof (rwf_authority _ _ Hq) as [? ? ? ? ?]. pose proof (rwf_presenter _ _ Hq) as [? ? ?].
  constructor; simpl; try done; try word_lia.
  - apply Hq.
  - intros i r [<- <-]%lookup_singleton_Some. constructor; simpl; try done; try word_lia. apply Hq.
Qed.

Lemma opened_published_typed e rq :
  engine_typed e -> request_wf 4096 rq -> open_refusal rq e = None ->
  let a := opened_account (e_limits e) rq in
  account_typed (publish_window_locked rq (applied_outcome a (initial_outcome rq)) a).
Proof.
  intros [He Hl Ht] Hq Ho a.
  assert (Hok : account_ok (e_limits e) a)
    by (apply opened_account_ok; [apply He | by eapply request_wf_range | done]).
  eapply published_typed; [done | by apply opened_typed | done | | simpl; word_lia |].
  - unfold window_find. simpl. by rewrite lookup_empty.
  - apply account_view_wf, Hok.
Qed.

Lemma apply_typed e rq o e' :
  engine_typed e -> request_wf 4096 rq -> apply rq e = (o, e') -> engine_typed e'.
Proof.
  intros He Hq Hap. pose proof (request_wf_range _ _ Hq) as Hr.
  assert (He' : engine_ok e') by (eapply apply_ok_aux; [apply He | done..]).
  pose proof He as [Hok Hl Ht]. apply apply_cases in Hap.
  destruct Hap as [o|a|a x|a o e' Ho Hd Ha Hm Hu Hk Hp Hs|e' Ho Hm Hop a o Hs|o e' _ _ Hacc Hli _ _ _ _].
  - done.
  - done.
  - by constructor.
  - apply settle_case_account in Hs as (a' & failed & Hs & [Sl _ _ _ _ Sa _]).
    pose proof (admitted_intro _ _ _ Hok Ho Hd Ha Hu Hk Hp) as Had.
    constructor; rewrite ?Sl; [done | done |]. intros k b. rewrite Sa.
    intros [[<- <-]|[_ Hb]]%lookup_insert_Some; [by eapply settled_typed | by eapply Ht].
  - destruct Hs as [Sl _ _ _ _ Sa _]. constructor; rewrite ?Sl; [done | done |]. intros k b. rewrite Sa.
    intros [[<- <-]|[_ Hb]]%lookup_insert_Some; [by apply opened_published_typed | by eapply Ht].
  - constructor; rewrite ?Hli, ?Hacc; done.
Qed.

(** ** Answers *)

Lemma refused_wf rq r d : request_wf 4096 rq -> in_u64 d -> outcome_wf (refused r d (initial_outcome rq)).
Proof. intros Hq Hd. constructor; simpl; try done; apply Hq. Qed.

Lemma decided_refusal_wf rq r d :
  request_wf 4096 rq -> in_u64 d -> outcome_wf (decided_refusal r d (initial_outcome rq)).
Proof. intros Hq Hd. constructor; simpl; try done; apply Hq. Qed.

Lemma era_vector_wf limits a v :
  account_ok limits a -> vector_wf v -> vector_wf (vector_set_era (ac_epoch a) (ac_generation a) v).
Proof. intros Ha []. pose proof (ao_era _ _ Ha) as [? ?]. by constructor. Qed.

Lemma malformed_word limits rq r d : request_wf 4096 rq -> malformed limits rq = Some (r, d) -> in_u64 d.
Proof.
  intros Hq. pose proof (rwf_note _ _ Hq). unfold malformed. repeat case_match; intros [= _ <-]; word_lia.
Qed.

Lemma unauthorized_word e rq a r d :
  engine_typed e -> account_ok (e_limits e) a -> request_wf 4096 rq ->
  unauthorized (e_limits e) (i_id (e_operator e)) rq a = Some (r, d) -> in_u64 d.
Proof.
  intros [_ Hl _] Ha Hq. pose proof (ao_era _ _ Ha) as [_ Hg].
  pose proof (vwf_incarnation _ (rwf_authority _ _ Hq)) as Hi.
  pose proof (count_word _ _ (si_size _ _ _ _ _ (ao_standing _ _ Ha)) (lt_incarnations _ Hl)).
  unfold unauthorized. repeat case_match; intros; simplify_eq; first [done | word_lia].
Qed.

Lemma misplaced_word rq a limits r d :
  account_ok limits a -> misplaced rq a = Some (r, d) -> in_u64 d.
Proof.
  intros Ha. pose proof (wi_range _ _ (ao_window _ _ Ha) (a_incarnation (rq_authority rq))) as Hw.
  unfold misplaced. change (caller_watermark _ a) with (watermark_in (ac_incarnations a) (a_incarnation (rq_authority rq))).
  destruct (add_overflow _ 1) as [over x] eqn:E. apply add_overflow_word in E.
  repeat case_match; intros [= _ <-]; done.
Qed.

Lemma open_refusal_word e rq r d :
  engine_typed e -> request_wf 4096 rq -> open_refusal rq e = Some (r, d) -> in_u64 d.
Proof.
  intros [He Hl _] Hq. pose proof (count_word _ _ (eo_count _ He) (lt_accounts _ Hl)).
  pose proof (vwf_account _ (rwf_authority _ _ Hq)). pose proof (cwf_capacity _ (rwf_config _ _ Hq)).
  unfold open_refusal. repeat case_match; intros; simplify_eq; first [done | word_lia].
Qed.

(** A settled decision: the answer fits if the status of a failed write does. *)
Lemma settled_answer e rq a key o' e' :
  engine_typed e -> request_wf 4096 rq -> admitted e rq a ->
  settle_case e rq a key (set_outcome_era a (initial_outcome rq))
    (verdict (e_challenge e) (e_limits e) rq a) o' e' ->
  e_journal_failed e' = false \/ in_u64 (detail (o_status o')) -> outcome_wf o'.
Proof.
  intros [He Hl Ht] Hq Had Hs Hst. pose proof (ad_account _ _ _ Had) as Hacc.
  destruct (eo_accounts _ He _ _ Hacc) as [Ha _].
  destruct (verdict_spec (e_challenge e) (e_limits e) (i_id (e_operator e)) rq a)
    as [[Hok _ _] _]; [done | by eapply request_wf_range | apply Had | apply Had |].
  pose proof (verdict_keeps_typed (e_limits e) rq a Hl Ha (Ht _ _ Hacc) Hq (e_challenge e)) as [_ Hd].
  pose proof (era_vector_wf _ _ _ Ha (rwf_authority _ _ Hq)) as Hv. pose proof (rwf_sequence _ _ Hq).
  assert (Hview : forall f b, account_ok (e_limits e) b -> f = count_commit \/ f = count_refusal ->
    view_wf (account_view (f (a_incarnation (rq_authority rq)) b))).
  { intros f b Hb [->| ->]; apply account_view_wf;
      [apply (count_commit_ok (e_limits e)) | apply (count_refusal_ok (e_limits e))]; done. }
  remember (verdict _ _ _ _) as v eqn:E.
  destruct Hs as [r d b e' S|r d b o' e' -> S|r d b o' st e' -> _ S|b o' e' -> S|b o' st e' -> _ S];
    destruct S as [_ _ _ _ _ _ Sf]; rewrite Sf in Hst; simpl in Hok, Hd, Hst;
    constructor; simpl; try done; try apply account_digest_range; try word_lia; try (by apply Hview; auto).
Qed.

Lemma create_answer e rq o e' :
  engine_typed e -> request_wf 4096 rq -> create_account_locked rq (initial_outcome rq) e = (o, e') ->
  e_journal_failed e' = false \/ in_u64 (detail (o_status o)) -> outcome_wf o.
Proof.
  intros He Hq. unfold create_account_locked. destruct (open_refusal rq e) as [[r d]|] eqn:Ho.
  { intros [= <- <-] _. apply refused_wf; [done |]. by eapply open_refusal_word. }
  assert (Hok : account_ok (e_limits e) (opened_account (e_limits e) rq))
    by (apply opened_account_ok; [apply He | by eapply request_wf_range | done]).
  assert (Hv : view_wf (account_view (opened_account (e_limits e) rq))) by apply account_view_wf, Hok.
  destruct (persist_locked _ _ _ _ _) as [st e1].
  destruct (status_ok st); simpl; intros [= <- <-] Hst;
    constructor; simpl; try done; try apply account_digest_range; try apply Hq; try word_lia.
  by destruct Hst.
Qed.

Lemma decide_answer e rq a o e' :
  engine_typed e -> request_wf 4096 rq -> rq_op rq <> Open -> rq_op rq <> Describe ->
  e_accounts e !! a_account (rq_authority rq) = Some a ->
  decide_locked (a_account (rq_authority rq)) a rq (initial_outcome rq) e = (o, e') ->
  e_journal_failed e' = false \/ in_u64 (detail (o_status o)) -> outcome_wf o.
Proof.
  intros He Hq Hop1 Hop2 Ha. destruct (eo_accounts _ (en_ok _ He) _ _ Ha) as [Hok _]. unfold decide_locked.
  destruct (unauthorized _ _ rq a) as [[r d]|] eqn:Hu.
  { intros [= <- <-] _. apply refused_wf; [done |]. by eapply unauthorized_word. }
  destruct (known_attempt rq a _) as [[x dup]|] eqn:Hk.
  - intros Hd _. assert (Hx : outcome_wf x); [| by destruct dup; injection Hd as <- <-].
    unfold known_attempt in Hk. destruct (window_find (_, _) _) as [entry|] eqn:Hw.
    + destruct (digest_eqb _ _); injection Hk as <- <-; [| apply decided_refusal_wf; [done | apply Hq]].
      pose proof (at_window _ (en_accounts _ He _ _ Ha) _ _ Hw) as Het.
      constructor; simpl; try apply Hq; try apply account_digest_range; try word_lia; try apply Het.
      * by eapply era_vector_wf, Hq.
      * apply account_view_wf, Hok.
    + destruct (window_find_by_attempt _ _); [| done]. injection Hk as <- <-.
      apply decided_refusal_wf; [done | apply Hq].
  - destruct (misplaced rq a) as [[r d]|] eqn:Hp.
    { intros [= <- <-] _. apply refused_wf; [done |]. by eapply misplaced_word. }
    intros Hd. eapply settled_answer; try done.
    + by apply (admitted_intro e rq a); [apply He | ..].
    + by apply decide_settled.
Qed.

Lemma apply_answer e rq o e' :
  engine_typed e -> request_wf 4096 rq -> apply rq e = (o, e') ->
  e_journal_failed e' = false \/ in_u64 (detail (o_status o)) -> outcome_wf o.
Proof.
  intros He Hq. unfold apply. destruct (e_recovered e); simpl;
    [| intros [= <- <-] _; apply refused_wf; [done | word_lia]].
  destruct (e_journal_failed e) eqn:Hf; [intros [= <- <-] _; apply refused_wf; [done | word_lia] |].
  unfold apply_locked. destruct (malformed (e_limits e) rq) as [[r d]|] eqn:Hm.
  { intros [= <- <-] _. apply refused_wf; [done |]. by eapply malformed_word. }
  destruct (decide (rq_op rq = Open)) as [Hop|Hop]; [rewrite Hop; by apply create_answer |].
  destruct (e_accounts e !! a_account (rq_authority rq)) as [a|] eqn:Ha.
  - destruct (eo_accounts _ (en_ok _ He) _ _ Ha) as [Hok _]. pose proof (en_accounts _ He _ _ Ha) as Hat.
    destruct (decide (rq_op rq = Describe)) as [Hdes|Hdes].
    + rewrite Hdes. destruct (negb _); intros [= <- <-] _; [apply refused_wf; [done | word_lia] |].
      constructor; simpl; try apply account_digest_range; try word_lia.
      * destruct (ac_incarnations a !! _) as [c|] eqn:Hc; [| word_lia]. apply (at_records _ Hat _ _ Hc).
      * by eapply era_vector_wf, Hq.
      * apply account_view_wf, Hok.
      * apply (at_ambiguous _ Hat).
    + intros Hd. eapply (decide_answer e rq a); try done. by destruct (rq_op rq).
  - destruct (rq_op rq); try done; intros [= <- <-] _; (apply refused_wf; [done | word_lia]).
Qed.
End Engines.

(** ** Runs *)

Section Runs.
Context {J : Type} `{Journal J}.
Implicit Types (e : Engine J).

(** A command as it comes from the wire: its fields fit their widths. *)
Definition command_wf (c : Command) : Prop :=
  match c with CApply rq => request_wf 4096 rq | CSnapshot => True end.

(** The client decodes exactly the outcome the engine answered. *)
Definition delivered (o : CreditOutcome) : Prop :=
  decode_response_message (encode_response_message o) = inr o.

Lemma empty_engine_typed e :
  e_accounts e = ∅ -> limits_ok (e_limits e) -> limits_typed (e_limits e) -> engine_typed e.
Proof.
  intros He Hl Ht. constructor; [by apply empty_engine_ok | done |].
  intros k a. by rewrite He, lookup_empty.
Qed.

Lemma snapshot_typed e : engine_typed e -> engine_typed (snapshot e).2.
Proof.
  intros [Hok Hl Ht]. pose proof (snapshot_accounts e) as Ha.
  destruct (snapshot e) as [st e'] eqn:E. pose proof (snapshot_ok_aux _ _ _ Hok E). simpl in *.
  assert (e_limits e' = e_limits e) as El.
  { revert E. unfold snapshot. destruct (e_recovered e); simpl; [| by intros [= _ <-]].
    destruct (e_journal_failed e); [by intros [= _ <-] |]. intros Hc%snapshot_core. apply Hc. }
  constructor; rewrite ?El, ?Ha; done.
Qed.

Lemma exec_typed c e : engine_typed e -> command_wf c -> engine_typed (exec c e).2.
Proof.
  intros He Hc. destruct c as [rq|]; simpl.
  - destruct (apply rq e) as [o e'] eqn:E. by eapply apply_typed.
  - pose proof (snapshot_typed e He). by destruct (snapshot e).
Qed.

Lemma exec_latched c e : e_journal_failed e = true -> e_journal_failed (exec c e).2 = true.
Proof.
  intros Hf. destruct c as [rq|]; simpl; [unfold apply | unfold snapshot];
    by destruct (e_recovered e); simpl; rewrite ?Hf.
Qed.

Lemma run_latched cs e : e_journal_failed e = true -> e_journal_failed (run cs e).2 = true.
Proof.
  revert e. induction cs as [|c cs IH]; [done |]. intros e Hf. rewrite run_cons. by apply IH, exec_latched.
Qed.

Lemma run_answers cs e :
  engine_typed e -> Forall command_wf cs ->
  engine_typed (run cs e).2 /\
  Forall (fun x => in_u64 (detail (o_status x.2)) -> outcome_wf x.2) (run cs e).1 /\
  (e_journal_failed (run cs e).2 = false -> Forall (fun x => in_u64 (detail (o_status x.2))) (run cs e).1).
Proof.
  revert e. induction cs as [|c cs IH].
  { intros e He _. split_and!; [done | constructor | intros; constructor]. }
  intros e He [Hc Hcs]%Forall_cons.
  rewrite run_cons. cbn [fst snd]. destruct (IH (exec c e).2) as (H1 & H2 & H3); [by apply exec_typed | done |].
  split; [done |]. rewrite !Forall_app. destruct c as [rq|]; simpl in *.
  - destruct (apply rq e) as [o e'] eqn:E. simpl in *. split.
    + split; [| done]. constructor; [| constructor]. simpl. intros Hd. eapply (apply_answer e); [done | done | exact E | by right].
    + intros Hf. split; [| by apply H3]. constructor; [| constructor]. simpl.
      apply owf_detail. eapply (apply_answer e); [done | done | exact E |]. left.
      destruct (e_journal_failed e') eqn:Hf'; [| done]. by rewrite (run_latched cs e' Hf') in Hf.
  - destruct (snapshot e). simpl in *. split; [by split; [constructor |] |].
    intros Hf. split; [constructor | by apply H3].
Qed.
End Runs.

(** C21: Every field the engine keeps or answers fits its machine type, and so
    every answer gets across.  After any run of requests whose fields fit, with
    snapshots and journal failures, every account holds only values of its field
    types, and every outcome is decoded from its response message as exactly
    itself, provided, where the journal failed, that the status it failed with is
    such a value. *)
Theorem answers_are_typed {J : Type} `{Journal J} (e : Engine J) cs :
  e_accounts e = ∅ -> limits_ok (e_limits e) -> limits_typed (e_limits e) -> Forall command_wf cs ->
  let r := run cs e in
  (forall k a, e_accounts r.2 !! k = Some a -> account_typed a) /\
  Forall (fun x => in_u64 (detail (o_status x.2)) -> delivered x.2) r.1 /\
  (e_journal_failed r.2 = false -> Forall (fun x => in_u64 (detail (o_status x.2))) r.1).
Proof.
  intros He Hl Ht Hcs r. destruct (run_answers cs e) as (H1 & H2 & H3); [by apply empty_engine_typed | done |].
  split; [apply H1 | split; [| done]]. eapply Forall_impl; [exact H2 |].
  intros x Hx Hd. exact (response_message_decodes x.2 (Hx Hd)).
Qed.

Definition typing_commands : list Command := (CApply <$> restart_requests) ++ [CSnapshot].

Lemma typing_commands_wf : Forall command_wf typing_commands.
Proof.
  unfold typing_commands. apply Forall_app. split; [| repeat constructor].
  apply Forall_fmap. exact restart_requests_wf.
Qed.

Lemma default_limits_typed : limits_typed default_limits.
Proof. constructor; simpl; word_lia. Qed.

Lemma answers_are_typed_witness :
  let r := run typing_commands empty_engine in
  length r.1 = 2%nat /\ Forall (fun x => delivered x.2) r.1 /\
  exists a, e_accounts r.2 !! 2 = Some a /\ account_typed a.
Proof.
  pose proof (answers_are_typed empty_engine typing_commands eq_refl default_limits_ok
    default_limits_typed typing_commands_wf) as H.
  assert (Hc : let r := run typing_commands empty_engine in
    length r.1 = 2%nat /\ e_journal_failed r.2 = false /\ is_Some (e_accounts r.2 !! 2)).
  { split; [vm_compute; reflexivity |]. split; [vm_compute; reflexivity |].
    apply not_eq_None_Some. vm_compute. discriminate. }
  cbv zeta in *. destruct (run typing_commands empty_engine) as [os e']. cbn [fst snd] in *.
  destruct Hc as (H1 & H2 & [a Ha]). destruct H as (H3 & H4 & H5). specialize (H5 H2).
  split; [exact H1 |]. split; [| exists a; split; [exact Ha | exact (H3 2 a Ha)]].
  clear -H4 H5. rewrite Forall_forall in *. intros x Hx. exact (H4 x Hx (H5 x Hx)).
Defined.
