(* ===== verification/Checkpoint.v ===== *)
(** * Snapshots of a live engine

    Every state the engine can reach is written in a form that decodes, and a
    snapshot that was written is restored as the accounts it was taken of.  What
    a snapshot does not keep is the audit log of refusals and, of each decided
    attempt, all but its incarnation and sequence. *)

From S2P Require Import Prelude Checked Status Digest Ledger Authority Request Bytes Wire.
From S2P Require Import Record Journal Window Account Engine Recovery Steps Invariant Verdicts.
From S2P Require Import Safety Sample Guarantees Durability Replay AccountDigest Restart Typing.
Local Open Scope Z_scope.

(** ** What a snapshot keeps of an account *)

(** A window of decided attempts of which only the keys are known. *)
Definition restored_window (limit : Z) (keys : list (Z * Z)) : AttemptWindow :=
  fold_left (fun w k => window_insert (restored_entry k) w) keys (window_make limit).

Definition forget_decided (limits : EngineLimits) (a : AccountState) : AccountState :=
  set_window (restored_window (max_attempt_window limits) (window_identities (ac_window a)))
    (forget_refusals a).

Lemma restored_incarnations limits a :
  account_ok limits a ->
  fold_left (fun m r => <[ir_id r := r]> m) (map_to_list (ac_incarnations a)).*2 ∅ = ac_incarnations a.
Proof.
  intros Ha. pose proof (si_id _ _ _ _ _ (ao_standing _ _ Ha)) as Hid.
  assert (Hk : ir_id <$> (map_to_list (ac_incarnations a)).*2 = (map_to_list (ac_incarnations a)).*1).
  { rewrite <-list_fmap_compose. apply list_fmap_ext. intros n [i r] Hn. simpl. apply Hid.
    apply elem_of_map_to_list. by eapply list_elem_of_lookup_2. }
  apply map_eq. intros i. apply option_eq. intros r.
  rewrite (lookup_fold_insert ir_id id) by (rewrite Hk; apply NoDup_fst_map_to_list).
  rewrite lookup_empty. split.
  - intros [(x & Hx & <- & <-)|[_ ?]]; [| done].
    apply list_elem_of_fmap in Hx as ([j y] & -> & Hy). apply elem_of_map_to_list in Hy. simpl.
    by rewrite (Hid j y Hy).
  - intros Hr. left. exists r. split_and!; [| by apply Hid | done].
    apply list_elem_of_fmap. exists (i, r). split; [done |]. by apply elem_of_map_to_list.
Qed.

Lemma restored_built limits a :
  account_ok limits a -> account_typed a ->
  restored_account limits (build_durable_account a true) = forget_decided limits a.
Proof.
  intros Ha Ht. pose proof (at_names _ Ht) as [Hd Hk]. unfold restored_account, build_durable_account.
  cbn [da_config da_epoch da_generation da_capacity da_totals da_hard_exhausted da_exhaustion_cause
    da_attempt_window da_incarnations da_fences da_ambiguous da_committed_attempts da_refused_attempts].
  rewrite (restored_incarnations limits), <-Hd, <-Hk by done. done.
Qed.

Lemma forget_decided_digest limits a : account_digest (forget_decided limits a) = account_digest a.
Proof. by rewrite !account_digest_words. Qed.

(** ** Restoring accounts *)

Lemma restore_built limits (A : list AccountState) m :
  Forall (fun a => account_ok limits a /\ account_typed a) A ->
  restore_accounts limits ((fun a => build_durable_account a true) <$> A) m =
  (success, fold_left (fun m a => <[ac_account a := forget_decided limits a]> m) A m).
Proof.
  intros HA. revert m. induction HA as [|a A [Ha Ht] HA IH]; intros m; [done |].
  rewrite fmap_cons. cbn [restore_accounts fold_left]. rewrite restored_built by done.
  change (ac_capacity (forget_decided limits a)) with (ac_capacity a).
  change (ac_totals (forget_decided limits a)) with (ac_totals a).
  rewrite check_invariants_success by apply Ha. cbn [status_ok reason success negb reason_eqb].
  rewrite forget_decided_digest. change (da_state_digest _) with (account_digest a).
  rewrite (proj2 (digest_eqb_eq _ _) eq_refl). apply IH.
Qed.

Lemma restored_accounts limits (A : list AccountState) (m : gmap Z AccountState) :
  A ≡ₚ (map_to_list m).*2 ->
  (forall k a, m !! k = Some a -> ac_account a = k) ->
  fold_left (fun m a => <[ac_account a := forget_decided limits a]> m) A ∅ =
  forget_decided limits <$> m.
Proof.
  intros Hp Hkey.
  assert (Hk : ac_account <$> (map_to_list m).*2 = (map_to_list m).*1).
  { rewrite <-list_fmap_compose. apply list_fmap_ext. intros n [i a] Hn. simpl. apply Hkey.
    apply elem_of_map_to_list. by eapply list_elem_of_lookup_2. }
  apply map_eq. intros k. apply option_eq. intros b.
  rewrite (lookup_fold_insert ac_account (forget_decided limits))
    by (rewrite Hp, Hk; apply NoDup_fst_map_to_list).
  rewrite lookup_fmap, fmap_Some, lookup_empty. setoid_rewrite Hp.
  setoid_rewrite list_elem_of_fmap. split.
  - intros [(a & ([j y] & -> & Hy) & <- & <-)|[_ ?]]; [| done].
    apply elem_of_map_to_list in Hy. simpl. exists y. by rewrite (Hkey j y Hy).
  - intros (a & Ha & ->). left. exists a. split_and!; [| by apply Hkey | done].
    exists (k, a). split; [done |]. by apply elem_of_map_to_list.
Qed.

(** The chain digest of a commit is one. *)
Lemma commit_chain_range c s rq o : digest_range (commit_chain c s rq o).
Proof. Local Transparent commit_chain. apply db_finish_range. Qed.

(** ** Live states decode *)

(** Limits that the snapshot format has room for. *)
Record limits_fit (l : EngineLimits) : Prop := {
  lf_accounts : max_accounts l <= kMaxCollection;
  lf_incarnations : max_incarnations_per_account l <= kMaxCollection;
  lf_fences : max_fences_per_account l <= kMaxCollection;
  lf_window : max_attempt_window l <= kMaxCollection;
}.

Definition account_fits (limits : EngineLimits) (a : AccountState) : Prop :=
  aw_limit (ac_window a) = max_attempt_window limits /\
  Z.of_nat (length (ac_ambiguous a)) <= kMaxCollection.

Lemma built_wf limits a :
  limits_fit limits -> account_ok limits a -> account_typed a -> account_fits limits a ->
  nested_account_wf (build_durable_account a true).
Proof.
  intros Hl Ha Ht [Hw Hn]. destruct (ao_standing _ _ Ha) as [_ _ _ Hsz Hfs].
  pose proof (ao_window _ _ Ha) as [Hwf _ _]. pose proof (ww_bound _ Hwf) as Hb.
  pose proof (ao_era _ _ Ha) as [? ?]. destruct Hl as [_ Hl2 Hl3 Hl4].
  assert (Hlen : length (map_to_list (ac_incarnations a)).*2 = size (ac_incarnations a))
    by (by rewrite length_fmap, length_map_to_list).
  destruct (li_ok _ _ _ (ao_ledger _ _ Ha)) as [? (? & ? & ? & ? & ? & ?) _ _ _].
  split.
  - constructor; simpl; try done; try apply Ht; try apply account_digest_range.
    + split; [| rewrite Hlen; lia]. apply Forall_fmap, Forall_forall. intros [i r] Hr%elem_of_map_to_list.
      by apply (at_records _ Ht i).
    + split; [apply (at_fences _ Ht) | lia].
    + split; [apply (at_ambiguous _ Ht) | done].
    + split; [| unfold window_identities; lia]. apply Forall_forall. intros k Hk.
      apply (ww_order _ Hwf) in Hk as [x Hx]. rewrite <-(ww_key _ Hwf _ _ Hx).
      apply (at_window _ Ht k x Hx).
  - rewrite length_encode_account. simpl da_incarnations. simpl da_fences. simpl da_ambiguous.
    simpl da_attempt_window. rewrite Hlen. unfold window_identities, kMaxCollection in *. word_lia.
Qed.

Section Live.
Context {J : Type} `{Journal J}.
Implicit Types (e er : Engine J).

(** What the engine adds to its accounts in a snapshot. *)
Record snapshottable e : Prop := {
  sn_typed : engine_typed e;
  sn_limits : limits_fit (e_limits e);
  sn_fits : forall k a, e_accounts e !! k = Some a -> account_fits (e_limits e) a;
  sn_next : in_u64 (e_next_sequence e);
  sn_chain : digest_range (e_chain e);
}.

Lemma durable_accounts_built e :
  exists A, A ≡ₚ (map_to_list (e_accounts e)).*2 /\
    durable_accounts e = (fun a => build_durable_account a true) <$> A.
Proof.
  assert (Hp : durable_accounts e ≡ₚ (fun a => build_durable_account a true) <$> (map_to_list (e_accounts e)).*2)
    by apply merge_sort_Permutation.
  apply Permutation_map_inv in Hp as (A & HA & HP). exists A. split; [by symmetry | done].
Qed.

Lemma built_accounts e (A : list AccountState) (P : AccountState -> Prop) :
  A ≡ₚ (map_to_list (e_accounts e)).*2 -> (forall k a, e_accounts e !! k = Some a -> P a) -> Forall P A.
Proof.
  intros HA HP. rewrite HA. apply Forall_fmap, Forall_forall. intros [k a] Ha%elem_of_map_to_list.
  by apply (HP k).
Qed.

Lemma snapshot_state_wf e : snapshottable e -> durable_state_wf (snapshot_state e).
Proof.
  intros [[Hok Hl Ht] Hf Hfit Hn Hc]. destruct (durable_accounts_built e) as (A & HA & HD).
  constructor; simpl; [done | done | auto with word | apply db_finish_range |].
  rewrite HD. split.
  - apply Forall_fmap. eapply (built_accounts e A); [done |]. intros k a Hka. simpl.
    eapply built_wf; [exact Hf | by eapply (eo_accounts _ Hok) | by eapply Ht | by eapply Hfit].
  - rewrite length_fmap, HA, length_fmap, length_map_to_list. pose proof (eo_count _ Hok).
    destruct Hf. lia.
Qed.

Lemma snapshot_state_decodes e :
  snapshottable e -> decode_durable_state (encode_durable_state (snapshot_state e)) = inr (snapshot_state e).
Proof. intros He. by apply durable_state_roundtrip, snapshot_state_wf. Qed.

(** Restoring a live state puts every account back, minus what is forgotten. *)
Lemma restore_snapshot_state e er :
  snapshottable e -> e_limits er = e_limits e ->
  restore_durable_state (snapshot_state e) er =
  (success, set_accounts (forget_decided (e_limits e) <$> e_accounts e) er).
Proof.
  intros [[Hok Hl Ht] Hf Hfit _ _] El. destruct (durable_accounts_built e) as (A & HA & HD).
  unfold restore_durable_state. simpl ds_accounts. rewrite HD, El, restore_built.
  - rewrite (restored_accounts _ _ (e_accounts e)); [done | done |].
    intros k a Hka. by apply (eo_accounts _ Hok).
  - eapply (built_accounts e A); [done |]. intros k a Hka. split; [by apply (eo_accounts _ Hok k) | by apply (Ht k)].
Qed.

(** ** The counters of the log *)

Definition log_words e : Prop := in_u64 (e_next_sequence e) /\ digest_range (e_chain e).

Lemma append_words s k c p e st e' :
  append_record s k c p e = (st, e') -> log_words e -> log_words e'.
Proof. unfold append_record. destruct (j_append _ _ _ _ _). by intros [= <- <-]. Qed.

Lemma snapshot_words e st e' : snapshot_locked e = (st, e') -> log_words e -> log_words e'.
Proof.
  intros Hs Hw. revert Hs. unfold snapshot_locked. destruct (e_has_journal e); simpl; [| by intros [= <- <-]].
  destruct (append_record _ _ _ _ e) as [s1 e1] eqn:E1. apply append_words in E1 as [? ?]; [| done].
  destruct (status_ok s1); simpl; [| by intros [= <- <-]].
  destruct (j_write_snapshot _ _ _ _) as [s2 j2]. destruct (status_ok s2); simpl;
    [| intros [= <- <-]; split; simpl; auto with word].
  destruct (j_rotate _ _) as [s3 j3]. destruct (status_ok s3); simpl;
    intros [= <- <-]; split; simpl; auto with word.
Qed.

Lemma persist_words rq o a c e st e' : persist_locked rq o a c e = (st, e') -> log_words e -> log_words e'.
Proof.
  intros Hs Hw. revert Hs. unfold persist_locked.
  destruct (append_record _ KIntent _ _ e) as [s1 e1] eqn:E1. apply append_words in E1 as [? ?]; [| done].
  destruct (status_ok s1); simpl; [| by intros [= <- <-]].
  destruct (append_record _ KAttempt _ _ _) as [s2 e2] eqn:E2.
  apply append_words in E2 as [? ?]; [| split; simpl; auto with word].
  destruct (status_ok s2); simpl; [| by intros [= <- <-]].
  match goal with |- context [commit_chain ?c ?s ?r ?x] => pose proof (commit_chain_range c s r x) end.
  destruct (snapshot_due _).
  - intros E%snapshot_words; [done |]. split; simpl; auto with word.
  - intros [= <- <-]. split; simpl; auto with word.
Qed.

Lemma apply_words rq e o e' : apply rq e = (o, e') -> log_words e -> log_words e'.
Proof.
  intros Hap Hw.
  assert (Hp : forall a x c k b st e1, persist_locked rq a x c (put_account k b e) = (st, e1) -> log_words e1)
    by (intros; eapply persist_words; [done | exact Hw]).
  revert Hap. unfold apply. destruct (e_recovered e); simpl; [| by intros [= _ <-]].
  destruct (e_journal_failed e); [by intros [= _ <-] |]. unfold apply_locked, create_account_locked,
    decide_locked, decide_control_locked, decide_data_locked, settle, commit_applied, finish_decided.
  repeat case_match; intros; simplify_eq; try exact Hw; try (split; apply Hw);
    match goal with E : persist_locked _ _ _ _ _ = _ |- _ => apply Hp in E; exact E end.
Qed.

(** ** The sizes of what an account remembers *)

Lemma publish_fits limits rq o a :
  account_ok limits a ->
  window_find (a_incarnation (rq_authority rq), rq_sequence rq) (ac_window a) = None ->
  account_fits limits a -> account_fits limits (publish_window_locked rq o a).
Proof.
  intros Ha Hw [H1 H2]. split.
  - change (ac_window (publish_window_locked rq o a)) with (window_insert (window_entry rq o) (ac_window a)).
    rewrite window_insert_limit; [done | apply (ao_window _ _ Ha) | done].
  - simpl. etrans; [| exact H2]. apply Nat2Z.inj_le. apply length_filter_le.
Qed.

Lemma settled_fits e rq a o o' a' failed :
  engine_ok e -> request_range rq -> admitted e rq a -> settled_account e rq a o o' a' failed ->
  account_fits (e_limits e) a -> account_fits (e_limits e) a'.
Proof.
  intros He Hr [Hacc [Hop Hdes] Hu Hw Hseq] Hs [H1 H2].
  destruct (eo_accounts _ He _ _ Hacc) as [Ha _].
  destruct (verdict_spec (e_challenge e) (e_limits e) (i_id (e_operator e)) rq a)
    as [[Hok Hf _] _]; try done.
  assert (Hb : forall b, verdict_frame rq a b -> account_fits (e_limits e) b).
  { intros b Hb. split; [rewrite (vf_window _ _ _ Hb) | rewrite (vf_ambiguous _ _ _ Hb)]; done. }
  destruct Hs as [r d b E|r d b E|r d b o' E _ _ _|b E|b o' E _ _ _]; rewrite E in *; simpl in *; auto.
  - unfold refused_account. cbv zeta.
    assert (Hp : account_fits (e_limits e) (publish_window_locked rq (observe (count_refusal (a_incarnation (rq_authority rq)) b)
      (decided_refusal r d o)) (count_refusal (a_incarnation (rq_authority rq)) b))).
    { apply (publish_fits (e_limits e)); [by apply count_refusal_ok | | by apply Hb in Hf]. simpl. by rewrite (vf_window _ _ _ Hf). }
    unfold record_refusal_locked. by destruct (_ <? _).
  - unfold committed_account. cbv zeta.
    apply (publish_fits (e_limits e)); [by apply count_commit_ok | | by apply Hb in Hf]. simpl. by rewrite (vf_window _ _ _ Hf).
  - by destruct (undone_commit_shape rq a b Hf) as (m & -> & _).
Qed.

Lemma apply_snapshottable e rq o e' :
  snapshottable e -> request_wf 4096 rq -> apply rq e = (o, e') -> snapshottable e'.
Proof.
  intros [Ht Hl Hf Hn Hc] Hq Hap. pose proof (request_wf_range _ _ Hq) as Hr.
  pose proof (apply_typed _ _ _ _ Ht Hq Hap) as Ht'. pose proof (en_ok _ Ht) as Hok.
  destruct (apply_words rq e o e' Hap) as [Hn' Hc']; [by split |].
  apply apply_cases in Hap.
  destruct Hap as [o|a|a x|a o e' Ho Hd Ha Hm Hu Hk Hp Hs|e' Ho Hm Hop a o Hs|o e' _ _ Hacc Hli _ _ _ _];
    try (by constructor).
  - apply settle_case_account in Hs as (a' & failed & Hs & [Sl _ _ _ _ Sa _]).
    pose proof (admitted_intro _ _ _ Hok Ho Hd Ha Hu Hk Hp) as Had.
    constructor; rewrite ?Sl; try done. intros k b. rewrite Sa.
    intros [[<- <-]|[_ Hb]]%lookup_insert_Some; [| by eapply Hf].
    eapply settled_fits; try done. by eapply Hf.
  - destruct Hs as [Sl _ _ _ _ Sa _]. constructor; rewrite ?Sl; try done. intros k b. rewrite Sa.
    intros [[<- <-]|[_ Hb]]%lookup_insert_Some; [| by eapply Hf].
    eapply publish_fits; [by apply opened_account_ok; [apply Hok | |] | apply lookup_empty |].
    pose proof (lo_window _ (eo_limits _ Hok)). split; simpl; [| by vm_compute].
    destruct (Z.eqb_spec (max_attempt_window (e_limits e)) 0); [lia | done].
  - constructor; rewrite ?Hli, ?Hacc; done.
Qed.

Lemma exec_snapshottable c e : snapshottable e -> command_wf c -> snapshottable (exec c e).2.
Proof.
  intros He Hc. destruct c as [rq|]; simpl.
  - destruct (apply rq e) as [o e'] eqn:E. by eapply apply_snapshottable.
  - pose proof He as [Ht Hl Hf Hn Hch]. pose proof (snapshot_typed e Ht) as Ht'.
    pose proof (snapshot_accounts e) as Ha.
    assert (Hx : log_words (snapshot e).2 /\ e_limits (snapshot e).2 = e_limits e).
    { unfold snapshot. destruct (e_recovered e); simpl; [| by split_and!].
      destruct (e_journal_failed e); [by split_and! |]. destruct (snapshot_locked e) as [st e'] eqn:E. simpl.
      split; [by eapply snapshot_words | by apply snapshot_core in E as []]. }
    destruct Hx as [[? ?] El]. destruct (snapshot e) as [st e']. simpl in *.
    constructor; rewrite ?El, ?Ha; done.
Qed.

Lemma run_snapshottable cs e : snapshottable e -> Forall command_wf cs -> snapshottable (run cs e).2.
Proof.
  revert e. induction cs as [|c cs IH]; [done |]. intros e He [Hc Hcs]%Forall_cons.
  rewrite run_cons. apply IH; [by apply exec_snapshottable | done].
Qed.
End Live.

(** ** The restored window *)

Lemma restored_window_spec limit keys :
  1 <= limit -> NoDup keys -> Z.of_nat (length keys) <= limit ->
  let w := restored_window limit keys in
  window_wf w /\ aw_limit w = limit /\ window_identities w = keys /\
  (forall k x, window_find k w = Some x -> x = restored_entry k).
Proof.
  intros Hl. induction keys as [|k keys IH] using rev_ind; intros Hn Hb w.
  - subst w. split; [apply window_make_wf; lia |]. simpl. destruct (Z.eqb_spec limit 0); [lia |].
    by split_and!.
  - apply NoDup_app in Hn as (Hn & Hk & _). rewrite length_app in Hb. simpl in Hb.
    destruct IH as (Hwf & Hlim & Hid & Hx); [done | lia |].
    assert (Hf : window_find k (restored_window limit keys) = None).
    { destruct (window_find k _) as [x|] eqn:E; [| done]. exfalso.
      apply (Hk k); [| by left]. rewrite <-Hid. apply (ww_order _ Hwf). by exists x. }
    subst w. unfold restored_window. rewrite fold_left_app. fold (restored_window limit keys). simpl.
    split; [by apply window_insert_wf |]. split; [by rewrite window_insert_limit |]. split.
    + unfold window_identities in *. rewrite window_insert_order, Hid by done.
      unfold window_full. rewrite Hlim, Hid. destruct (Z.geb_spec (Z.of_nat (length keys)) limit); [lia | done].
    + intros k' x Hx'. apply window_insert_other in Hx' as [[-> ->]|Hx']; auto.
Qed.

Lemma forget_decided_window limits a :
  limits_ok limits -> account_ok limits a -> account_fits limits a ->
  window_identities (ac_window (forget_decided limits a)) = window_identities (ac_window a) /\
  (forall k, is_Some (window_find k (ac_window a)) ->
     window_find k (ac_window (forget_decided limits a)) = Some (restored_entry k)).
Proof.
  intros Hl Ha [Hw _]. pose proof (ao_window _ _ Ha) as [Hwf _ _].
  destruct (restored_window_spec (max_attempt_window limits) (aw_order (ac_window a)))
    as (Hwf' & _ & Hid & Hx); [apply Hl | apply Hwf | rewrite <-Hw; apply Hwf |].
  split; [done |]. intros k Hk. apply (ww_order _ Hwf) in Hk. rewrite <-Hid in Hk.
  apply (ww_order _ Hwf') in Hk as [x Hk]. rewrite (Hx k x) in Hk by done. done.
Qed.

(** ** Numbers in the log of the in-memory journal *)

Section Memory.
Implicit Types (e : Engine InMemoryJournal).

(** Every record is numbered below the next one, and [k] more fit in a word. *)
Record room (k : Z) e : Prop := {
  ro_below : Forall (fun x => en_sequence x < e_next_sequence e) (mj_entries (e_journal e));
  ro_next : 0 <= e_next_sequence e /\ e_next_sequence e + k < 18446744073709551616;
}.

Lemma room_less k k' e : k' <= k -> room k e -> room k' e.
Proof. intros ? []. constructor; [done | lia]. Qed.

Lemma below_next n m (l : list Entry) :
  n <= m -> Forall (fun x => en_sequence x < n) l -> Forall (fun x => en_sequence x < m) l.
Proof. intros ? Hl. eapply Forall_impl; [exact Hl |]. simpl. lia. Qed.

(** An append at the next number, and the number after it. *)
Lemma append_room k kind c p e st e' :
  0 <= k -> append_record (e_next_sequence e) kind c p e = (st, e') -> room (k + 1) e ->
  e_next_sequence e' = e_next_sequence e /\ e_has_journal e' = e_has_journal e /\
  if status_ok st then room k (set_next_sequence (wrap64 (e_next_sequence e' + 1)) e') else room k e'.
Proof.
  intros Hk Ha [Hb Hn]. revert Ha. unfold append_record. simpl. unfold memory_append.
  destruct (mj_replaying _); [intros [= <- <-]; split_and!; [done.. |]; constructor; simpl; [done | lia] |].
  destruct (_ >? _); intros [= <- <-]; (split_and!; [done.. |]); [constructor; simpl; [done | lia] |].
  constructor; simpl; rewrite wrap64_small by word_lia; [| lia].
  apply Forall_app. split; [by eapply below_next; [| exact Hb]; lia |].
  constructor; [simpl; lia | constructor].
Qed.

Lemma snapshot_room k e st e' :
  0 <= k -> snapshot_locked e = (st, e') -> room (k + 1) e -> room k e'.
Proof.
  intros Hk Hs Hr. revert Hs. unfold snapshot_locked.
  destruct (e_has_journal e); simpl; [| intros [= _ <-]; by eapply room_less; [| exact Hr]; lia].
  destruct (append_record _ _ _ _ e) as [s1 e1] eqn:E.
  destruct (append_room k _ _ _ _ _ _ Hk E Hr) as (En & _ & E1).
  destruct (status_ok s1); simpl; [| by intros [= _ <-]]. destruct E1 as [Hb Hn].
  unfold memory_write_snapshot. destruct (_ >? _); simpl; intros [= _ <-]; constructor; simpl; try done.
  apply Forall_forall. intros x [_ Hx]%list_elem_of_filter. rewrite Forall_forall in Hb. by apply Hb.
Qed.

Lemma persist_room k rq o a c e st e' :
  0 <= k -> persist_locked rq o a c e = (st, e') -> room (k + 3) e -> room k e'.
Proof.
  intros Hk Hs Hr. revert Hs. unfold persist_locked.
  destruct (append_record _ KIntent _ _ e) as [s1 e1] eqn:Ei.
  destruct (append_room (k + 2) _ _ _ _ _ _ ltac:(lia) Ei) as (En & _ & E1);
    [by eapply room_less; [| exact Hr]; lia |].
  destruct (status_ok s1); simpl; [| intros [= _ <-]; by eapply room_less; [| exact E1]; lia].
  destruct (append_record _ KAttempt _ _ _) as [s2 e2] eqn:Ea.
  destruct (append_room (k + 1) _ _ _ _ _ _ ltac:(lia) Ea) as (En2 & _ & E2);
    [by eapply room_less; [| exact E1]; lia |].
  destruct (status_ok s2); simpl; [| intros [= _ <-]; by eapply room_less; [| exact E2]; lia].
  destruct E2 as [Hb Hn]. destruct (snapshot_due _).
  - intros E. apply (snapshot_room k) in E; [done | done | by constructor].
  - intros [= _ <-]. eapply (room_less (k + 1)); [lia | by constructor].
Qed.

Lemma apply_room k rq e o e' : 0 <= k -> apply rq e = (o, e') -> room (k + 3) e -> room k e'.
Proof.
  intros Hk Hap Hr. assert (Hr' : room k e) by (by eapply room_less; [| exact Hr]; lia).
  assert (Hp : forall a x c i b st e1, persist_locked rq a x c (put_account i b e) = (st, e1) -> room k e1).
  { intros a x c i b st e1 E. eapply persist_room; [done | exact E |]. by destruct Hr; constructor. }
  assert (Hcopy : forall e1 e2, room k e1 -> e_journal e2 = e_journal e1 ->
    e_next_sequence e2 = e_next_sequence e1 -> room k e2).
  { intros e1 e2 [? ?] Ej En. constructor; rewrite ?Ej, ?En; done. }
  revert Hap. unfold apply. destruct (e_recovered e); simpl; [| by intros [= _ <-]].
  destruct (e_journal_failed e); [by intros [= _ <-] |]. unfold apply_locked, create_account_locked,
    decide_locked, decide_control_locked, decide_data_locked, settle, commit_applied, finish_decided.
  repeat case_match; intros; simplify_eq; try exact Hr'; try (by apply (Hcopy e));
    match goal with E : persist_locked _ _ _ _ _ = _ |- _ => by eapply Hcopy; [by eapply Hp | |] end.
Qed.

Lemma exec_room k c e : 0 <= k -> room (k + 3) e -> room k (exec c e).2.
Proof.
  intros Hk Hr. destruct c as [rq|]; simpl.
  - destruct (apply rq e) as [o e'] eqn:E. by eapply apply_room.
  - unfold snapshot. assert (Hr' : room k e) by (by eapply room_less; [| exact Hr]; lia).
    destruct (e_recovered e); simpl; [| done]. destruct (e_journal_failed e); [done |].
    destruct (snapshot_locked e) as [st e'] eqn:E. simpl.
    eapply snapshot_room; [done | exact E |]. eapply room_less; [| exact Hr]. lia.
Qed.

Lemma run_room cs k e : 0 <= k -> room (k + 3 * Z.of_nat (length cs)) e -> room k (run cs e).2.
Proof.
  revert e. induction cs as [|c cs IH]; intros e Hk Hr.
  - eapply room_less; [| exact Hr]. simpl. lia.
  - rewrite run_cons. apply IH; [done |]. apply exec_room; [lia |]. eapply room_less; [| exact Hr]. simpl. lia.
Qed.
End Memory.

(** ** Snapshot and restart *)

Lemma filter_below n (l : list Entry) :
  Forall (fun x => en_sequence x < n) l -> filter (fun x => n < en_sequence x) l = [].
Proof.
  induction 1 as [|x l Hx Hl IH]; [done |]. rewrite filter_cons_False; [done |]. simpl in *. lia.
Qed.

(** What a successful snapshot leaves in the in-memory journal: itself only. *)
Lemma snapshot_done (e : Engine InMemoryJournal) st e' :
  room 1 e -> snapshot_locked e = (st, e') -> status_ok st = true ->
  mj_entries (e_journal e') = [] /\
  mj_snapshot (e_journal e') = Some (e_next_sequence e, e_chain e, encode_durable_state (snapshot_state e)) /\
  e_next_sequence e' = e_next_sequence e + 1 /\ e_chain e' = e_chain e /\
  e_snapshots e' = wrap64 (e_snapshots e + 1).
Proof.
  intros [Hb Hn] Hs Hst. revert Hs. unfold snapshot_locked, append_record. simpl.
  generalize (encode_durable_state (snapshot_state e)) as payload. intros payload. unfold memory_append.
  destruct (e_has_journal e); simpl; [| intros [= <- _]; done].
  destruct (mj_replaying _); simpl; [intros [= <- _]; done |].
  destruct (_ >? _); simpl; [intros [= <- _]; done |].
  unfold memory_write_snapshot. simpl. destruct (_ >? _); simpl; [intros [= <- _]; done |].
  intros [= _ <-]. simpl. rewrite wrap64_small by word_lia. split; [| by split_and!].
  rewrite filter_app, filter_below by done. rewrite filter_cons_False; [done | simpl; lia].
Qed.

(** What loading the snapshot of a live state makes of an engine. *)
Definition loaded {J : Type} (e er : Engine J) : Engine J :=
  set_snapshots (wrap64 (e_snapshots e + 1)) (set_next_sequence (wrap64 (e_next_sequence e + 1))
    (set_chain (e_chain e) (set_accounts (forget_decided (e_limits e) <$> e_accounts e) er))).

Lemma recover_snapshot_live {J : Type} `{Journal J} (e er : Engine J) :
  snapshottable e -> e_limits er = e_limits e ->
  recover_snapshot (Some (e_next_sequence e, e_chain e, encode_durable_state (snapshot_state e))) er =
  (success, loaded e er).
Proof.
  intros He Hl. unfold recover_snapshot. rewrite snapshot_state_decodes by done.
  rewrite (restore_snapshot_state e) by done. change (ds_journal_sequence (snapshot_state e)) with (e_next_sequence e).
  by rewrite Z.eqb_refl.
Qed.

(** Recovery of an engine whose in-memory journal holds a snapshot and nothing after it. *)
Lemma recover_snapshot_only snap (e1 er : Engine InMemoryJournal) :
  e_has_journal e1 = true -> mj_entries (e_journal e1) = [] -> mj_snapshot (e_journal e1) = snap ->
  recover_snapshot snap (recover_reset (set_journal (memory_open (e_journal e1)).2 e1)) = (success, er) ->
  e_journal er = (memory_open (e_journal e1)).2 ->
  exists er', recover 1 e1 = Some (success, er') /\
    e_accounts er' = demote_all <$> e_accounts er /\ e_chain er' = e_chain er /\
    e_next_sequence er' = e_next_sequence er /\ e_snapshots er' = e_snapshots er /\ e_recovered er' = true.
Proof.
  intros Hh Hen Hsn Hr Hj. unfold recover. rewrite Hh.
  change (j_open (e_journal e1)) with (success, (memory_open (e_journal e1)).2). cbv beta iota zeta.
  change (j_read_snapshot _) with (success, mj_snapshot (e_journal e1)). rewrite Hsn. cbv beta iota zeta.
  change (negb (status_ok success)) with false. change (negb true) with false. cbv iota.
  rewrite Hr. simpl. rewrite Hj. unfold memory_next_record. simpl. rewrite Hen, lookup_nil. simpl.
  eexists. split; [reflexivity |]. by split_and!.
Qed.

(** Restarting from a snapshot: run an engine on a fresh journal with any
    requests and snapshots, whatever is refused and whether or not the journal
    fails on the way, then take a snapshot.  If that succeeds, the state it wrote
    decodes, and an engine restarted on the journal, whatever its challenge and
    operator, recovers exactly the accounts, except that no incarnation is live,
    the audit log of refusals is empty, and of the decided attempts only their
    identities are left; the digest chain, the journal sequence and the count of
    snapshots continue where they stopped. *)
Theorem snapshot_restores_accounts limits budget operator nonce e0 cs st e' (e1 : Engine InMemoryJournal) :
  recover 1 (engine_make limits true (memory_make budget) operator nonce) = Some (success, e0) ->
  limits_ok (clamp_limits limits) -> limits_typed (clamp_limits limits) -> limits_fit (clamp_limits limits) ->
  Forall command_wf cs -> 3 * Z.of_nat (length cs) + 3 < 18446744073709551616 ->
  let e := (run cs e0).2 in
  snapshot e = (st, e') -> status_ok st = true ->
  e_has_journal e1 = true -> e_limits e1 = e_limits e' -> e_journal e1 = e_journal e' ->
  exists er, recover 1 e1 = Some (success, er) /\
    e_accounts er = demote_all <$> (forget_decided (e_limits e) <$> e_accounts e) /\
    (forall k a, e_accounts e !! k = Some a ->
       window_identities (ac_window (forget_decided (e_limits e) a)) = window_identities (ac_window a)) /\
    e_chain er = e_chain e' /\ e_next_sequence er = e_next_sequence e' /\
    e_snapshots er = e_snapshots e' /\ e_recovered er = true.
Proof.
  intros H0 Hl Ht Hf Hcs Hn e Hs Hst Hh1 Hl1 Hj1. rewrite first_boot_recovers in H0. injection H0 as <-.
  assert (He : snapshottable e).
  { apply run_snapshottable; [| done]. constructor; simpl; try done.
    by apply empty_engine_typed. }
  assert (Hr : room 1 e).
  { apply run_room; [done |]. constructor; simpl; [constructor | lia]. }
  revert Hs. unfold snapshot. destruct (e_recovered e); simpl; [| intros [= <- _]; done].
  destruct (e_journal_failed e); [intros [= <- _]; done |]. intros Hs.
  pose proof (snapshot_core _ _ _ Hs) as [Sl _ _ _ _ _ _ _ _ _].
  destruct (snapshot_done _ _ _ Hr Hs Hst) as (H1 & H2 & H3 & H4 & H5).
  destruct (recover_snapshot_only (Some (e_next_sequence e, e_chain e, encode_durable_state (snapshot_state e)))
    e1 (loaded e (recover_reset (set_journal (memory_open (e_journal e1)).2 e1))))
    as (er & R1 & R2 & R3 & R4 & R5 & R6); [done | by rewrite Hj1 | rewrite Hj1; exact H2 | | done |].
  { apply recover_snapshot_live; [done |]. simpl. congruence. }
  exists er. destruct Hr as [_ Hr]. simpl in R2, R3, R4, R5. rewrite wrap64_small in R4 by word_lia.
  split_and!; try done; try congruence.
  intros k a Ha. destruct He as [Hty _ Hfit _ _]. pose proof (en_ok _ Hty) as Hok.
  apply (forget_decided_window (e_limits e)); [apply Hok | by apply (eo_accounts _ Hok k) | by eapply Hfit].
Qed.

Definition snapshotted_run : Status * Engine InMemoryJournal := snapshot restart_run.2.

Lemma snapshotted_run_ok : status_ok snapshotted_run.1 = true.
Proof. vm_compute. reflexivity. Qed.

Lemma default_limits_fit : limits_fit default_limits.
Proof. constructor; unfold kMaxCollection; simpl; lia. Qed.

Lemma snapshot_restores_accounts_witness :
  exists er, recover 1 (restarted snapshotted_run.2) = Some (success, er) /\
    e_accounts er = demote_all <$> (forget_decided (e_limits restart_run.2) <$> e_accounts restart_run.2).
Proof.
  assert (Hc : Forall command_wf (CApply <$> restart_requests))
    by (apply Forall_fmap; exact restart_requests_wf).
  assert (G : forall r p, restart_run = r -> snapshot r.2 = p -> status_ok p.1 = true ->
    e_limits (restarted p.2) = e_limits p.2 ->
    exists er, recover 1 (restarted p.2) = Some (success, er) /\
      e_accounts er = demote_all <$> (forget_decided (e_limits r.2) <$> e_accounts r.2)).
  { intros [os e] [st e'] Hr Hp Hst Hl.
    pose proof (snapshot_restores_accounts default_limits 1000000 operator sample_nonce _
      (CApply <$> restart_requests) st e' (restarted e')
      (first_boot_recovers _ _ _ _) default_limits_ok default_limits_typed default_limits_fit Hc) as H.
    cbv zeta in H. unfold restart_run in Hr. rewrite Hr in H. cbn [fst snd] in *.
    destruct H as (er & H1 & H2 & _); [reflexivity | exact Hp | exact Hst | reflexivity | exact Hl | reflexivity |].
    exists er. split; [exact H1 | exact H2]. }
  apply (G restart_run snapshotted_run eq_refl eq_refl snapshotted_run_ok). vm_compute. reflexivity.
Defined.

(** What a snapshot forgets: an attempt that is decided and presented again
    is answered from the window with its recorded outcome, but once its account
    has been through a snapshot and a restart, the same presentation is reported
    as contradicting the recorded attempt, although it is the same request. *)
Theorem snapshot_turns_duplicates_into_conflicts limits rq a x o :
  limits_ok limits -> account_ok limits a -> account_fits limits a ->
  window_find (a_incarnation (rq_authority rq), rq_sequence rq) (ac_window a) = Some x ->
  we_request x = request_digest rq -> request_digest rq <> digest_zero ->
  known_attempt rq a o = Some (duplicate_outcome x a o, true) /\
  known_attempt rq (demote_all (forget_decided limits a)) o =
    Some (decided_refusal RAttemptConflict (rq_sequence rq) o, false).
Proof.
  intros Hl Ha Hf Hw Hx Hd. unfold known_attempt. rewrite Hw, Hx.
  rewrite (proj2 (digest_eqb_eq _ _) eq_refl). split; [done |].
  change (ac_window (demote_all (forget_decided limits a))) with (ac_window (forget_decided limits a)).
  destruct (forget_decided_window limits a Hl Ha Hf) as [_ Hk]. rewrite Hk by eauto. simpl we_request.
  destruct (digest_eqb digest_zero (request_digest rq)) eqn:E; [| done].
  apply digest_eqb_eq in E. congruence.
Qed.

(** The account after an applied [Issue], with what the theorem asks of it. *)
Definition remembers (rq : CreditRequest) (a : AccountState) : bool :=
  (aw_limit (ac_window a) =? max_attempt_window default_limits) &&
  (Z.of_nat (length (ac_ambiguous a)) <=? kMaxCollection) &&
  match window_find (a_incarnation (rq_authority rq), rq_sequence rq) (ac_window a) with
  | Some x => digest_eqb (we_request x) (request_digest rq)
  | None => false
  end && negb (digest_eqb (request_digest rq) digest_zero).

Lemma issued_remembers :
  match e_accounts (apply (issue_request 1 5) sample_engine).2 !! 2 with
  | Some a => remembers (issue_request 1 5) a
  | None => false
  end = true.
Proof. vm_compute. reflexivity. Qed.

Lemma snapshot_turns_duplicates_into_conflicts_witness :
  exists a x, e_accounts (apply (issue_request 1 5) sample_engine).2 !! 2 = Some a /\
    known_attempt (issue_request 1 5) a outcome_zero = Some (duplicate_outcome x a outcome_zero, true) /\
    known_attempt (issue_request 1 5) (demote_all (forget_decided default_limits a)) outcome_zero =
      Some (decided_refusal RAttemptConflict 1 outcome_zero, false).
Proof.
  pose proof issued_remembers as Hr.
  assert (Hok : engine_ok (apply (issue_request 1 5) sample_engine).2)
    by (eapply apply_ok_aux; [apply (sample_engine_ok 1000000) | apply issue_range | apply surjective_pairing]).
  assert (Hl : e_limits (apply (issue_request 1 5) sample_engine).2 = default_limits) by (vm_compute; reflexivity).
  destruct (e_accounts (apply (issue_request 1 5) sample_engine).2 !! 2) as [a|] eqn:Ha; [| discriminate Hr].
  apply (eo_accounts _ Hok) in Ha as [Ha _]. rewrite Hl in Ha. unfold remembers in Hr.
  apply andb_prop in Hr as [Hr Hz]. apply andb_prop in Hr as [Hr Hw]. apply andb_prop in Hr as [H1 H2].
  destruct (window_find _ _) as [x|] eqn:Hx; [| discriminate Hw].
  exists a, x. split; [reflexivity |].
  apply (snapshot_turns_duplicates_into_conflicts default_limits (issue_request 1 5) a x outcome_zero).
  - exact default_limits_ok.
  - exact Ha.
  - split; [by apply Z.eqb_eq | by apply Z.leb_le].
  - exact Hx.
  - by apply digest_eqb_eq.
  - intros E. rewrite E in Hz. discriminate Hz.
Defined.
