(* ===== verification/Resume.v ===== *)
(** * Going on from a snapshot

    A restart from a journal that holds a snapshot and the records of what was
    decided after it.  The replay works on accounts of which the snapshot kept the
    decided attempts only by their identities, so everything here is up to what
  [outline] forgets. *)

From S2P Require Import Prelude Checked Status Digest Ledger Authority Request Bytes Wire.
From S2P Require Import Record Journal Window Account Engine Recovery Steps Invariant Verdicts.
From S2P Require Import Safety Sample Guarantees Durability Replay AccountDigest RecoveryProps Restart.
From S2P Require Import Typing Checkpoint.
Local Open Scope Z_scope.

(** ** Accounts up to what a snapshot forgets *)

(** A window of decided attempts with their identities only. *)
Definition keys_only (w : AttemptWindow) : AttemptWindow := mkWindow (aw_order w) ∅ ∅ (aw_limit w).

Lemma evict_keys limit order bk ba bk' ba' :
  keys_only (window_evict limit order bk ba) = keys_only (window_evict limit order bk' ba').
Proof.
  revert bk ba bk' ba'. induction order as [|k order IH]; intros bk ba bk' ba'; [done |].
  cbn [window_evict]. destruct (_ >? _); [| done]. destruct (bk !! k), (bk' !! k); apply IH.
Qed.

(** Which identities are kept depends on identities alone. *)
Lemma insert_keys x y w w' :
  we_key x = we_key y -> keys_only w = keys_only w' ->
  keys_only (window_insert x w) = keys_only (window_insert y w').
Proof. intros Hk [= Ho Hl]. unfold window_insert. rewrite Hk, Ho, Hl. apply evict_keys. Qed.

(** What is left of an account without its audit log and, of decided attempts, all
    but their identities; and without its pending notes. *)
Definition outline : AccountState -> AccountState := reframe keys_only id.
Definition bare : AccountState -> AccountState := reframe keys_only (fun _ => []).

Lemma bare_digest a b : bare a = bare b -> account_digest a = account_digest b.
Proof.
  intros H. rewrite <-(reframe_digest keys_only (fun _ => []) a), <-(reframe_digest keys_only (fun _ => []) b).
  by apply (f_equal account_digest).
Qed.

Lemma bare_outline a b : bare a = bare b -> ac_ambiguous a = ac_ambiguous b -> outline a = outline b.
Proof.
  intros Hb Hn. unfold outline, bare, reframe in *.
  replace (set_window (keys_only (ac_window a)) (set_ambiguous (id (ac_ambiguous a)) (forget_refusals a)))
    with (set_ambiguous (ac_ambiguous a) (bare a)) by done.
  replace (set_window (keys_only (ac_window b)) (set_ambiguous (id (ac_ambiguous b)) (forget_refusals b)))
    with (set_ambiguous (ac_ambiguous b) (bare b)) by done.
  unfold bare, reframe. by rewrite Hb, Hn.
Qed.

Lemma bare_dressed notes a : bare (set_ambiguous notes a) = bare a.
Proof. done. Qed.

Lemma bare_forget limits a :
  limits_ok limits -> account_ok limits a -> account_fits limits a -> bare (forget_decided limits a) = bare a.
Proof.
  intros Hl Ha Hf. destruct (forget_decided_window limits a Hl Ha Hf) as [Hk _]. destruct Hf as [Hw _].
  pose proof (ao_window _ _ Ha) as [Hwf _ _].
  destruct (restored_window_spec (max_attempt_window limits) (aw_order (ac_window a)))
    as (_ & Hlim & Hid & _); [apply Hl | apply Hwf | rewrite <-Hw; apply Hwf |].
  assert (E : keys_only (ac_window (forget_decided limits a)) = keys_only (ac_window a)).
  { unfold keys_only. rewrite Hw. f_equal; [exact Hid | exact Hlim]. }
  change (bare (forget_decided limits a)) with (set_window (keys_only (ac_window (forget_decided limits a))) (bare a)).
  by rewrite E.
Qed.

Lemma bare_demote a b : bare a = bare b -> bare (demote_all a) = bare (demote_all b).
Proof.
  intros H. change (bare (demote_all a)) with (demote_all (bare a)).
  change (bare (demote_all b)) with (demote_all (bare b)). by rewrite H.
Qed.

(** Replaying a decision keeps to the outline. *)
Lemma bare_existing t a b a0 :
  replay_existing t a = (success, b) -> bare a0 = bare a ->
  exists b0, replay_existing t a0 = (success, b0) /\ bare b0 = bare b /\ ac_ambiguous b0 = ac_ambiguous a0.
Proof.
  intros H E. pose proof (reframe_existing keys_only (fun _ => []) t a) as Ha.
  pose proof (reframe_existing keys_only (fun _ => []) t a0) as Ha0. fold bare in Ha, Ha0.
  pose proof (reframe_existing keys_only id t a0) as H1.
  pose proof (reframe_existing keys_only (fun _ => ac_ambiguous a0) t a0) as H2.
  change (reframe keys_only id a0) with (reframe keys_only (fun _ => ac_ambiguous a0) a0) in H1. rewrite H2 in H1.
  rewrite E, Ha, H in Ha0. destruct (replay_existing t a0) as [st b0].
  apply pair_equal_spec in Ha0 as [<- E0]. apply pair_equal_spec in H1 as [_ H1].
  exists b0. split; [done |]. split; [done |]. by apply (f_equal ac_ambiguous) in H1.
Qed.

(** Publishing changes the window and the record of the caller, and resolves notes. *)
Definition published (w : AttemptWindow) (rq : CreditRequest) (a : AccountState) : AccountState :=
  resolve_ambiguous (a_incarnation (rq_authority rq)) (rq_sequence rq)
    (update_incarnation (set_ir_last_sequence (rq_sequence rq)) (a_incarnation (rq_authority rq)) (set_window w a)).

Lemma bare_published w rq a :
  bare (published w rq a) = set_window (keys_only w)
    (update_incarnation (set_ir_last_sequence (rq_sequence rq)) (a_incarnation (rq_authority rq)) (bare a)).
Proof. by destruct a. Qed.

Lemma bare_publish rq o o0 a a0 :
  bare a = bare a0 -> bare (publish_window_locked rq o a) = bare (publish_window_locked rq o0 a0).
Proof.
  intros E. change (publish_window_locked rq o a) with (published (window_insert (window_entry rq o) (ac_window a)) rq a).
  change (publish_window_locked rq o0 a0) with (published (window_insert (window_entry rq o0) (ac_window a0)) rq a0).
  rewrite !bare_published, E.
  rewrite (insert_keys (window_entry rq o) (window_entry rq o0) (ac_window a) (ac_window a0)); [done | done |].
  by apply (f_equal ac_window) in E.
Qed.

(** The comparison and the publication that end it. *)
Lemma bare_finish t b y b0 :
  replay_finish t b = (success, y) -> bare b0 = bare b -> o_decided (dt_outcome t) = true ->
  exists y0, replay_finish t b0 = (success, y0) /\ bare y0 = bare y /\
    ac_ambiguous y0 = List.filter (fun n => negb (note_matches (a_incarnation (rq_authority (dt_request t)))
      (rq_sequence (dt_request t)) n)) (ac_ambiguous b0).
Proof.
  intros H E Hd. revert H. unfold replay_finish. rewrite Hd.
  assert (replay_mismatch (dt_account t) b0 = replay_mismatch (dt_account t) b) as ->.
  { unfold replay_mismatch. rewrite (bare_digest b0 b E).
    change (ac_capacity b0) with (ac_capacity (bare b0)). change (ac_totals b0) with (ac_totals (bare b0)).
    change (ac_hard_exhausted b0) with (ac_hard_exhausted (bare b0)).
    change (ac_exhaustion_cause b0) with (ac_exhaustion_cause (bare b0)). by rewrite E. }
  destruct (replay_mismatch _ b); [done |]. intros [= <-]. eexists. split; [done |].
  split; [by apply bare_publish | done].
Qed.

(** ** Replaying on outlines *)

Section Tracks.
Context {J : Type} `{Journal J}.
Implicit Types (e er : Engine J) (rq : CreditRequest) (o : CreditOutcome).

(** A replayed engine with the accounts [A] up to [bare], without pending notes. *)
Record tracks er (limits : EngineLimits) (A : gmap Z AccountState) (c : Digest128) (n : Z) : Prop := {
  tk_accounts : bare <$> e_accounts er = bare <$> A;
  tk_quiet : forall k a, e_accounts er !! k = Some a -> ac_ambiguous a = [];
  tk_chain : e_chain er = c;
  tk_limits : e_limits er = limits;
  tk_next : e_next_sequence er = n;
}.

Lemma tracks_some er limits A c n k a :
  tracks er limits A c n -> A !! k = Some a -> exists b, e_accounts er !! k = Some b /\ bare b = bare a.
Proof.
  intros [HA _ _ _ _] Ha. apply (f_equal (lookup k)) in HA. rewrite !lookup_fmap, Ha in HA. simpl in HA.
  destruct (e_accounts er !! k) as [b|]; [| done]. injection HA. intros. exists b. split; [done |].
  by apply (f_equal (default (bare a))) in HA.
Qed.

Lemma tracks_none er limits A c n k : tracks er limits A c n -> A !! k = None -> e_accounts er !! k = None.
Proof.
  intros [HA _ _ _ _] Ha. apply (f_equal (lookup k)) in HA. rewrite !lookup_fmap, Ha in HA. simpl in HA.
  by destruct (e_accounts er !! k).
Qed.

Lemma tracks_insert er er' limits A c n c' n' k a b :
  tracks er limits A c n -> e_accounts er' = <[k := b]> (e_accounts er) -> bare b = bare a -> ac_ambiguous b = [] ->
  e_chain er' = c' -> e_limits er' = limits -> e_next_sequence er' = n' ->
  tracks er' limits (<[k := a]> A) c' n'.
Proof.
  intros [HA Hq _ _ _] Ha Hb Hn. constructor; try done.
  - by rewrite Ha, !fmap_insert, HA, Hb.
  - intros i x. rewrite Ha. intros [[_ <-]|[_ Hx]]%lookup_insert_Some; [done | by eapply Hq].
Qed.

(** The intent of a decision on an account that exists leaves a note there. *)
Lemma tracked_intent er c s rq a :
  request_wf (max_note_bytes (e_limits er)) rq -> e_accounts er !! a_account (rq_authority rq) = Some a ->
  ac_ambiguous a = [] ->
  replay_record None (log_record (mkLog s KIntent c (encode_request_message rq))) er =
  (success, set_stats (incr_st_replayed_ambiguous (e_stats er))
     (put_account (a_account (rq_authority rq)) (set_ambiguous [ambiguous_note rq s] a) er)).
Proof.
  intros Hq Ha Hn. unfold replay_record. simpl. unfold replay_intent. simpl. rewrite request_message_decodes by done.
  unfold mark_ambiguous. rewrite Ha, Hn. simpl. by destruct (_ >=? _).
Qed.

(** The records of a decision on an account that exists. *)
Lemma tracked_existing_pair er limits A c n s rq o t a b x :
  tracks er limits A c n -> request_wf (max_note_bytes limits) rq -> durable_attempt_wf t ->
  dt_request t = rq -> dt_outcome t = o -> dt_created_account t = false -> o_decided o = true ->
  A !! a_account (rq_authority rq) = Some a ->
  replay_existing t a = (success, b) -> replay_finish t b = (success, x) ->
  exists er', replay_list (decision_records c s rq o t) er = (success, er') /\
    tracks er' limits (<[a_account (rq_authority rq) := x]> A)
      (commit_chain c (wrap64 (s + 1)) rq o) (wrap64 (wrap64 (s + 1) + 1)).
Proof.
  intros Htk Hq Hwf Htq Hto Htc Hd Ha He Hf. set (key := a_account (rq_authority rq)) in *.
  destruct (tracks_some _ _ _ _ _ _ _ Htk Ha) as (a0 & Ha0 & Ea). pose proof Htk as [TA TQ TC TL TN].
  pose proof (tracked_intent er (intent_chain c s rq) s rq a0) as H1. fold key in H1.
  rewrite TL in H1. specialize (H1 Hq Ha0 (TQ _ _ Ha0)). set (note := ambiguous_note rq s) in *.
  set (er1 := set_stats _ _) in H1.
  destruct (bare_existing t a b (set_ambiguous [note] a0) He Ea) as (b0 & He0 & Eb & Hn).
  destruct (bare_finish t b x b0 Hf Eb) as (x0 & Hf0 & Ex & Hnx); [by rewrite Hto |].
  assert (Hx0 : ac_ambiguous x0 = []).
  { rewrite Hnx, Hn, Htq. simpl. unfold note, note_matches. simpl. by rewrite !Z.eqb_refl. }
  assert (Hr : exists er', replay_attempt t er1 = (success, er') /\ e_accounts er' = <[key := x0]> (e_accounts er1)).
  { apply (replay_put er1 key (set_ambiguous [note] a0) t b0); try done; [apply lookup_insert_eq | by rewrite Htq]. }
  destruct Hr as (er2 & Hr & Hacc). pose proof (replay_limits t er1) as Hl. rewrite Hr in Hl. simpl in Hl.
  destruct (replay_commit_ok er1 c (wrap64 (s + 1)) rq o t er2) as (er3 & H3 & Ha3 & Hc3 & Hl3 & Hn3); try done.
  exists er3. simpl replay_list. rewrite H1. simpl status_ok. cbv iota. rewrite H3. split; [done |].
  eapply (tracks_insert er er3 limits A c n _ _ key x x0); try done; [| congruence].
  rewrite Ha3, Hacc. unfold er1. simpl. by rewrite insert_insert_eq.
Qed.

(** The records of the decision that opened an account. *)
Lemma tracked_created_pair er limits A c n s rq o t x :
  tracks er limits A c n -> request_wf (max_note_bytes limits) rq -> durable_attempt_wf t ->
  dt_request t = rq -> dt_outcome t = o -> dt_created_account t = true ->
  A !! a_account (rq_authority rq) = None ->
  replay_finish t (replay_created limits t) = (success, x) -> ac_ambiguous x = [] ->
  exists er', replay_list (decision_records c s rq o t) er = (success, er') /\
    tracks er' limits (<[a_account (rq_authority rq) := x]> A)
      (commit_chain c (wrap64 (s + 1)) rq o) (wrap64 (wrap64 (s + 1) + 1)).
Proof.
  intros Htk Hq Hwf Htq Hto Htc Ha Hf Hx. set (key := a_account (rq_authority rq)) in *.
  pose proof (tracks_none _ _ _ _ _ _ Htk Ha) as Ha0. pose proof Htk as [TA TQ TC TL TN].
  assert (H1 : replay_record None (log_record (mkLog s KIntent (intent_chain c s rq)
    (encode_request_message rq))) er = (success, er)).
  { unfold replay_record. simpl. unfold replay_intent. simpl. rewrite TL, request_message_decodes by done.
    unfold mark_ambiguous. fold key. by rewrite Ha0. }
  assert (Hr : exists er', replay_attempt t er = (success, er') /\ e_accounts er' = <[key := x]> (e_accounts er)).
  { unfold replay_attempt. rewrite Htc, Htq. fold key. rewrite Ha0, TL. simpl. rewrite Hf. simpl. by eexists. }
  destruct Hr as (er2 & Hr & Hacc). pose proof (replay_limits t er) as Hl. rewrite Hr in Hl. simpl in Hl.
  destruct (replay_commit_ok er c (wrap64 (s + 1)) rq o t er2) as (er3 & H3 & Ha3 & Hc3 & Hl3 & Hn3); try done.
  exists er3. simpl replay_list. rewrite H1. simpl status_ok. cbv iota. rewrite H3. split; [done |].
  eapply (tracks_insert er er3 limits A c n _ _ key x x); try done; [| congruence]. by rewrite Ha3, Hacc.
Qed.

(** A decision of a live engine, replayed on an engine that tracks it. *)
Lemma tracked_decision e er s rq o cc created x :
  engine_ok e -> (forall k a, e_accounts e !! k = Some a -> typed a) -> attempts_range (e_stats e) ->
  tracks er (e_limits e) (e_accounts e) (e_chain e) s ->
  request_wf 4096 rq -> (rq_op rq = Issue -> o_applied o = false -> binds_nothing rq) ->
  malformed (e_limits e) rq = None -> decision e rq o cc created x ->
  let t := durable_attempt rq o cc created (e_stats e) in
  typed x /\ exists er', replay_list (decision_records (e_chain e) s rq o t) er = (success, er') /\
    tracks er' (e_limits e) (<[a_account (rq_authority rq) := x]> (e_accounts e))
      (commit_chain (e_chain e) (wrap64 (s + 1)) rq o) (wrap64 (wrap64 (s + 1) + 1)).
Proof.
  intros Hok Hty Hst Htk Hq Hd Hm Hdec t.
  destruct (decision_sound _ _ _ _ _ _ Hok Hty Hq Hst Hd Hdec) as (Hwf & Hod & Htx & Hrep). fold t in Hwf, Hrep.
  split; [done |]. apply malformed_none in Hm as (_ & _ & _ & Hnote & _). pose proof (request_wf_note _ _ Hq Hnote) as Hq'.
  destruct (e_accounts e !! a_account (rq_authority rq)) as [a|] eqn:Ha; simpl in Hrep.
  - destruct Hrep as (Htc & b & y & H1 & H2 & Hab & Hy).
    destruct (tracked_existing_pair er (e_limits e) (e_accounts e) (e_chain e) s s rq o t a b y)
      as (er' & Hr & Hk); try done. exists er'. split; [done |].
    destruct Hk as [KA KQ KC KL KN]. constructor; try done. rewrite KA, !fmap_insert.
    change (bare y) with (bare (forget_refusals y)). by rewrite Hy.
  - destruct Hrep as (Htc & H2 & _).
    apply (tracked_created_pair er (e_limits e) (e_accounts e) (e_chain e) s); try done. apply Htx.
Qed.
End Tracks.

(** ** Snapshots along a run *)

Section Memory.
Implicit Types (e er : Engine InMemoryJournal) (rq : CreditRequest) (o : CreditOutcome).

(** The engine [e2] that persisting leaves when no snapshot is due. *)
Record appended e rq o (c : AccountState) (created : bool) e2 : Prop := {
  ap_core : same_core e e2;
  ap_chain : e_chain e2 = commit_chain (e_chain e) (wrap64 (e_next_sequence e + 1)) rq o;
  ap_next : e_next_sequence e2 = wrap64 (wrap64 (e_next_sequence e + 1) + 1);
  ap_plain : e_next_sequence e2 = e_next_sequence e + 2;
  ap_log : j_log (e_journal e2) = j_log (e_journal e) ++
    decision_records (e_chain e) (e_next_sequence e) rq o (durable_attempt rq o c created (e_stats e));
  ap_snapshot : mj_snapshot (e_journal e2) = mj_snapshot (e_journal e);
  ap_room : room 1 e2;
}.

Lemma persist_split e rq o c created st e1 :
  persist_locked rq o c created e = (st, e1) -> status_ok st = true -> room 3 e ->
  exists e2, appended e rq o c created e2 /\ (e1 = e2 \/ snapshot_locked e2 = (st, e1)).
Proof.
  unfold persist_locked. destruct (append_record _ KIntent _ _ e) as [s1 e1'] eqn:E1. intros Hp Hst Hroom.
  pose proof (append_core _ _ _ _ _ _ _ E1) as C1.
  destruct (append_room 2 _ _ _ _ _ _ ltac:(lia) E1 Hroom) as (N1 & _ & R1).
  destruct (status_ok s1) eqn:H1; simpl in Hp; [| by injection Hp as <- _; congruence].
  apply append_log in E1 as (L1 & S1 & E1); [| done].
  destruct (append_record _ KAttempt _ _ _) as [s2 e2'] eqn:E2.
  pose proof (append_core _ _ _ _ _ _ _ E2) as C2.
  destruct (append_room 1 _ _ _ _ _ _ ltac:(lia) E2 R1) as (N2 & _ & R2).
  destruct (status_ok s2) eqn:H2; simpl in Hp; [| by injection Hp as <- _; congruence].
  apply append_log in E2 as (L2 & S2 & E2); [| done]. cbn [e_journal set_next_sequence] in L2, S2.
  simpl in N2. set (e2 := set_stats _ _) in Hp. exists e2.
  assert (Hcore : same_core e e2).
  { etrans; [exact C1 |]. etrans; [| etrans; [exact C2 |]]; by constructor. }
  assert (Hc : e_chain e1' = e_chain e) by (by rewrite E1). destruct R2 as [Rb Rn].
  assert (Hstat : e_stats e1' = e_stats e) by (by rewrite E1).
  pose proof (ro_next _ _ Hroom) as Hn.
  split; [constructor; try done |].
  - unfold e2. simpl. by rewrite Hc, N1.
  - unfold e2. simpl. by rewrite N2, N1.
  - unfold e2. simpl. rewrite N2, N1, (wrap64_small (e_next_sequence e + 1)), wrap64_small by word_lia. lia.
  - unfold e2. cbn [e_journal set_stats set_journal_records set_next_sequence set_chain].
    rewrite L2, L1, <-app_assoc. unfold decision_records. simpl. by rewrite Hc, N1, Hstat.
  - unfold e2. simpl in S1, S2 |- *. by rewrite S2, S1.
  - destruct (snapshot_due e2); [by right |]. injection Hp as _ <-. by left.
Qed.

(** The journal failure latch stays set. *)
Lemma apply_unfailed rq e o e' : apply rq e = (o, e') -> e_journal_failed e' = false -> e_journal_failed e = false.
Proof.
  intros Hap Hf. destruct (e_journal_failed e) eqn:E; [| done].
  unfold apply in Hap. destruct (e_recovered e); rewrite ?E in Hap; simplify_eq/=; congruence.
Qed.

Lemma run_unfailed rqs e : e_journal_failed (run (CApply <$> rqs) e).2 = false -> e_journal_failed e = false.
Proof.
  revert e. induction rqs as [|rq rqs IH]; intros e; [done |]. rewrite run_apply_cons. cbn [snd].
  intros Hf%IH. by apply (apply_unfailed rq e _ _ (surjective_pairing _)).
Qed.

(** The numbers of the log only grow, and a new snapshot has a number of its own. *)
Definition snapshot_since (n : Z) (e : Engine InMemoryJournal) : Prop :=
  exists s c p, mj_snapshot (e_journal e) = Some (s, c, p) /\ n <= s.

Lemma apply_snap rq e o e' :
  apply rq e = (o, e') -> room 3 e -> e_journal_failed e' = false ->
  e_next_sequence e <= e_next_sequence e' /\
  (mj_snapshot (e_journal e') = mj_snapshot (e_journal e) \/ snapshot_since (e_next_sequence e) e').
Proof.
  intros Hap Hr Hf. destruct (apply_logged _ _ _ _ Hap)
    as [o e' d c created x st e1 _ _ _ _ Hf' _|o e' _ _ [Cj _ Cn _ _ _ _]|o e' _ _ _ [Cj _ Cn _ _ _ _]|
        o e' c created x st e1 _ Hp Hst [Cj _ Cn _ _ _ _] _ _].
  - congruence.
  - rewrite Cj, Cn. split; [lia | by left].
  - rewrite Cj, Cn. split; [lia | by left].
  - apply persist_split in Hp as (e2 & [_ _ _ Hn _ Hs2 Hr2] & Hcase); [| done | by destruct Hr]. simpl in Hn.
    rewrite Cj, Cn. destruct Hcase as [->|Hs]; [split; [lia | by left] |].
    destruct (snapshot_done _ _ _ Hr2 Hs Hst) as (_ & H1 & H2 & _ & _). split; [lia |]. right.
    unfold snapshot_since. rewrite Cj. eexists _, _, _. split; [exact H1 | lia].
Qed.

Lemma run_snap rqs e :
  room (3 * Z.of_nat (length rqs)) e -> e_journal_failed (run (CApply <$> rqs) e).2 = false ->
  let e' := (run (CApply <$> rqs) e).2 in
  mj_snapshot (e_journal e') = mj_snapshot (e_journal e) \/ snapshot_since (e_next_sequence e) e'.
Proof.
  revert e. induction rqs as [|rq rqs IH]; intros e Hr; [by left |]. rewrite run_apply_cons. cbn [snd]. intros Hf.
  pose proof (run_unfailed _ _ Hf) as Hf1. pose proof (surjective_pairing (apply rq e)) as Hap.
  destruct (apply_snap rq e _ _ Hap) as [Hn Hs]; [by eapply room_less; [| exact Hr]; simpl; lia | done |].
  assert (Hr' : room (3 * Z.of_nat (length rqs)) (apply rq e).2).
  { eapply apply_room; [lia | exact Hap |]. eapply room_less; [| exact Hr]. simpl. lia. }
  destruct (IH _ Hr' Hf) as [E|(s & c & p & E & Hle)].
  - destruct Hs as [Hs|(s & c & p & Hs & Hle)]; [left; congruence | right].
    exists s, c, p. split; [congruence | done].
  - right. exists s, c, p. split; [done | lia].
Qed.

(** The snapshot that is there at the end was there all along. *)
Lemma run_kept rq rqs e s c p :
  room (3 * Z.of_nat (S (length rqs))) e -> s < e_next_sequence e ->
  let e1 := (apply rq e).2 in
  e_journal_failed (run (CApply <$> rqs) e1).2 = false ->
  mj_snapshot (e_journal (run (CApply <$> rqs) e1).2) = Some (s, c, p) -> mj_snapshot (e_journal e) = Some (s, c, p) ->
  room (3 * Z.of_nat (length rqs)) e1 /\ s < e_next_sequence e1 /\ e_journal_failed e1 = false /\
  mj_snapshot (e_journal e1) = Some (s, c, p).
Proof.
  intros Hr Hs e1 Hf Hend Hstart. pose proof (run_unfailed _ _ Hf) as Hf1.
  pose proof (surjective_pairing (apply rq e)) as Hap. fold e1 in Hap.
  destruct (apply_snap rq e _ _ Hap) as [Hn Hc]; [by eapply room_less; [| exact Hr]; lia | done |].
  assert (Hr' : room (3 * Z.of_nat (length rqs)) e1).
  { eapply apply_room; [lia | exact Hap |]. eapply room_less; [| exact Hr]. lia. }
  split_and!; [done | lia | done |]. destruct Hc as [->|(s' & c' & p' & E & Hle)]; [done |].
  destruct (run_snap rqs e1 Hr' Hf) as [E'|(s2 & c2 & p2 & E' & Hle')]; rewrite Hend in E'; [congruence |].
  injection E' as -> _ _. lia.
Qed.

(** ** A run after a snapshot *)

(** An engine past the snapshot with number [s]. *)
Record beyond (s : Z) e : Prop := {
  by_next : s < e_next_sequence e;
  by_later : Forall (later (Some s)) (mj_entries (e_journal e));
  by_intact : intact (e_journal e);
}.

Lemma later_log s (l : list Entry) :
  Forall (later (Some s)) l <-> Forall (fun x => s < lg_sequence x) (entry_log <$> l).
Proof. by rewrite Forall_fmap. Qed.

(** A call that keeps the snapshot leaves the log alone or appends a decision. *)
Lemma logged_beyond s c p e rq o e' :
  apply rq e = (o, e') -> room 3 e -> beyond s e ->
  e_journal_failed e' = false -> mj_snapshot (e_journal e') = Some (s, c, p) ->
  beyond s e' /\
  (carried e e' /\ (e_accounts e' = e_accounts e \/ rq_op rq = Fence /\ reason (o_status o) = RBudgetExceeded) \/
   exists cc created x e2, malformed (e_limits e) rq = None /\ decision e rq o cc created x /\ 
     appended (put_account (a_account (rq_authority rq)) cc e) rq o cc created e2 /\
     carried e2 e' /\ e_accounts e' = <[a_account (rq_authority rq) := x]> (e_accounts e)).
Proof.
  intros Hap Hr [Hbe Hla Hin] Hf Hs. destruct (apply_logged _ _ _ _ Hap)
    as [o e' d cc created x st e1 _ _ _ _ Hf' _|o e' _ Ha Hc|o e' _ Hop Hre Hc|
        o e' cc created x st e1 Hm Hp Hst1 Hcar Ha Hdec].
  - congruence.
  - split; [constructor; rewrite ?(cr_journal _ _ Hc), ?(cr_next _ _ Hc); done | left; auto].
  - split; [constructor; rewrite ?(cr_journal _ _ Hc), ?(cr_next _ _ Hc); done | left; auto].
  - pose proof (persist_intact _ _ _ _ _ _ _ Hp Hin) as Hin1. pose proof Hcar as [Cj _ Cn _ _ _ _].
    apply persist_split in Hp as (e2 & Had & Hcase); [| done | by destruct Hr].
    pose proof Had as [_ _ _ Hpl HL _ Hr2]. simpl in Hpl.
    change (j_log (e_journal e2) = j_log (e_journal e) ++ decision_records (e_chain e)
      (e_next_sequence e) rq o (durable_attempt rq o cc created (e_stats e))) in HL. destruct Hcase as [->|Hsn].
    2: { destruct (snapshot_done _ _ _ Hr2 Hsn Hst1) as (_ & H1 & _). rewrite Cj, H1 in Hs. injection Hs as Hs _ _. lia. }
    split; [constructor |].
    + rewrite Cn. lia.
    + rewrite Cj. apply later_log. apply later_log in Hla.
      change (Forall (fun y => s < lg_sequence y) (j_log (e_journal e2))). rewrite HL.
      apply Forall_app_2; [done |]. destruct Hr as [_ Hr].
      constructor; [simpl; lia |]. constructor; [| done]. simpl. rewrite wrap64_small by word_lia. lia.
    + by rewrite Cj.
    + right. by exists cc, created, x, e2.
Qed.

Lemma run_beyond s c p rqs e :
  beyond s e -> room (3 * Z.of_nat (length rqs)) e ->
  let e' := (run (CApply <$> rqs) e).2 in
  e_journal_failed e' = false ->
  mj_snapshot (e_journal e) = Some (s, c, p) -> mj_snapshot (e_journal e') = Some (s, c, p) ->
  beyond s e' /\ exists more, j_log (e_journal e') = j_log (e_journal e) ++ more.
Proof.
  revert e. induction rqs as [|rq rqs IH]; intros e Hb Hr; [split; [done | exists []; by rewrite app_nil_r] |].
  rewrite run_apply_cons. simpl. intros Hf Hs0 Hs.
  destruct (run_kept rq rqs e s c p) as (Hr1 & _ & Hf1 & Hs1); try done; [apply Hb |].
  destruct (logged_beyond s c p e rq _ _ (surjective_pairing _)) as (Hb1 & Hcase); try done;
    [eapply room_less; [| exact Hr]; simpl; lia |].
  destruct (IH _ Hb1 Hr1 Hf Hs1 Hs) as [Hb2 [more Hm]]. simpl in Hm. split; [done |].
  destruct Hcase as [[Hc _]|(cc & created & x & e2 & _ & _ & [_ _ _ _ HL _ _] & [Cj _ _ _ _ _ _] & _)]; simpl in *.
  - exists more. by rewrite Hm, (cr_journal _ _ Hc).
  - rewrite Hm, Cj, HL, <-app_assoc. by eexists.
Qed.

(** An engine that goes on after the snapshot with number [s]: what was logged since
    reproduces it from any engine in [start]. *)
Record going_on (s : Z) (start : Engine InMemoryJournal -> Prop) e : Prop := {
  go_ok : engine_ok e;
  go_typed : forall k a, e_accounts e !! k = Some a -> typed a;
  go_stats : attempts_range (e_stats e);
  go_beyond : beyond s e;
  go_log : forall er, start er -> exists er', replay_list (j_log (e_journal e)) er = (success, er') /\
    tracks er' (e_limits e) (e_accounts e) (e_chain e) (e_next_sequence e);
}.

Lemma going_apply s c p start e rq o e' :
  going_on s start e -> request_wf 4096 rq -> apply rq e = (o, e') -> durable_outcome (rq, o) -> room 3 e ->
  e_journal_failed e' = false -> mj_snapshot (e_journal e') = Some (s, c, p) -> going_on s start e'.
Proof.
  intros [Hok Hty Hst Hbe Hlog] Hq Hap Hd Hr Hf Hs.
  assert (Hok' : engine_ok e') by (eapply apply_ok_aux; [apply Hok | by eapply request_wf_range | done]).
  destruct (logged_beyond s c p e rq o e') as [Hbe' [[Hc [Ha|[Hop Hre]]]|Hcase]]; try done.
  - destruct Hc as [Cj Cc Cn Cl _ _ Cs]. constructor; rewrite ?Cj, ?Cc, ?Cn, ?Cl, ?Ha; try done. by apply Cs.
  - by destruct Hd as [_ []].
  - destruct Hcase as (cc & created & x & e2 & Hm & Hdec & [Hco Hch Hne _ HL _ _] & [Cj Cc Cn Cl _ _ Cs] & Ha).
    destruct Hd as [Hd _]. simpl in Hch, Hne. change (j_log (e_journal e2) = j_log (e_journal e) ++
      decision_records (e_chain e) (e_next_sequence e) rq o (durable_attempt rq o cc created (e_stats e))) in HL.
    assert (Htx : typed x) by (by apply (decision_sound e rq o cc created x)).
    constructor; try done.
    + intros k b. rewrite Ha. intros [[_ <-]|[_ Hk]]%lookup_insert_Some; [done | by eapply Hty].
    + apply Cs. unfold attempts_range. by rewrite (sc_applied _ _ Hco), (sc_refused _ _ Hco).
    + intros er Her. destruct (Hlog er Her) as (er1 & H1 & Ht1).
      destruct (tracked_decision e er1 (e_next_sequence e) rq o cc created x) as (_ & er2 & H2 & Ht2); try done.
      exists er2. rewrite Cj, Cc, Cn, Cl, Ha, (sc_limits _ _ Hco), HL, (replay_list_app _ _ _ _ H1), Hch, Hne. done.
Qed.

Lemma run_going s c p start rqs e :
  going_on s start e -> Forall (request_wf 4096) rqs -> room (3 * Z.of_nat (length rqs)) e ->
  let r := run (CApply <$> rqs) e in
  Forall durable_outcome r.1 -> e_journal_failed r.2 = false ->
  mj_snapshot (e_journal e) = Some (s, c, p) -> mj_snapshot (e_journal r.2) = Some (s, c, p) ->
  going_on s start r.2.
Proof.
  revert e. induction rqs as [|rq rqs IH]; intros e Hg Hq Hr; [done |].
  apply Forall_cons in Hq as [Hq Hqs]. rewrite run_apply_cons. simpl. intros Hd Hf Hs0 Hs.
  apply Forall_cons in Hd as [Hd Hds].
  destruct (run_kept rq rqs e s c p) as (Hr1 & _ & Hf1 & Hs1); try done; [apply (go_beyond _ _ _ Hg) |].
  apply IH; try done. eapply (going_apply s c p start e rq _ _ Hg Hq (surjective_pairing _)); try done.
  eapply room_less; [| exact Hr]. simpl. lia.
Qed.

End Memory.

(** ** What a snapshot finds *)

Section Quiet.
Context {J : Type} `{Journal J}.
Implicit Types (e : Engine J).

(** No account has a pending note, and the counters are words: so it is in every
    engine that has not recovered a journal with pending intents. *)
Record quiet e : Prop := {
  qu_notes : forall k a, e_accounts e !! k = Some a -> ac_ambiguous a = [];
  qu_stats : attempts_range (e_stats e);
}.

Lemma settled_quiet e rq a o o' a' failed :
  engine_ok e -> request_range rq -> admitted e rq a -> settled_account e rq a o o' a' failed ->
  ac_ambiguous a = [] -> ac_ambiguous a' = [].
Proof.
  intros He Hr [Hacc [Hop Hdes] Hu Hw Hseq] Hs Hn. destruct (eo_accounts _ He _ _ Hacc) as [Ha _].
  destruct (verdict_spec (e_challenge e) (e_limits e) (i_id (e_operator e)) rq a) as [[Hok Hf _] _]; try done.
  pose proof (vf_ambiguous _ _ _ Hf) as Hb. rewrite Hn in Hb.
  destruct Hs as [r d b E|r d b E|r d b o' E _ _ _|b E|b o' E _ _ _]; rewrite E in *; simpl in *; try done.
  - unfold refused_account. cbv zeta. unfold record_refusal_locked.
    destruct (_ <? _); simpl; by rewrite Hb.
  - by rewrite Hb.
  - by destruct (undone_commit_shape rq a b Hf) as (m & -> & _).
Qed.

Lemma attempts_core e e' : same_core e e' -> attempts_range (e_stats e) -> attempts_range (e_stats e').
Proof. intros Hc [? ?]. unfold attempts_range. by rewrite (sc_applied _ _ Hc), (sc_refused _ _ Hc). Qed.

Lemma apply_attempts rq e o e' : apply rq e = (o, e') -> attempts_range (e_stats e) -> attempts_range (e_stats e').
Proof.
  intros Hap Hw. pose proof Hw as [? ?].
  assert (Hp : forall a x c k b st e1, persist_locked rq a x c (put_account k b e) = (st, e1) -> attempts_range (e_stats e1))
    by (intros * E%persist_core; by eapply attempts_core).
  revert Hap. unfold apply. destruct (e_recovered e); simpl; [| by intros [= _ <-]].
  destruct (e_journal_failed e); [by intros [= _ <-] |]. unfold apply_locked, create_account_locked,
    decide_locked, decide_control_locked, decide_data_locked, settle, commit_applied, finish_decided.
  repeat case_match; intros; simplify_eq; try exact Hw; try (by split);
    match goal with E : persist_locked _ _ _ _ _ = _ |- _ => apply Hp in E end; try done;
    match goal with E : attempts_range _ |- _ => destruct E; split; simpl; auto with word end.
Qed.

Lemma apply_quiet rq e o e' :
  engine_ok e -> request_range rq -> quiet e -> apply rq e = (o, e') -> quiet e'.
Proof.
  intros Hok Hr [Hn Hst] Hap. constructor; [| by eapply apply_attempts]. apply apply_cases in Hap.
  destruct Hap as [o|a|a x|a o e' Ho Hd Ha Hm Hu Hk Hp Hs|e' Ho Hm Hop a o Hs|o e' _ _ Hacc _ _ _ _ _]; try done.
  - apply settle_case_account in Hs as (a' & failed & Hs & [_ _ _ _ _ Sa _]).
    pose proof (admitted_intro _ _ _ Hok Ho Hd Ha Hu Hk Hp) as Had. intros k b. rewrite Sa.
    intros [[<- <-]|[_ Hb]]%lookup_insert_Some; [| by eapply Hn]. eapply settled_quiet; try done. by eapply Hn.
  - destruct Hs as [_ _ _ _ _ Sa _]. intros k b. rewrite Sa.
    intros [[<- <-]|[_ Hb]]%lookup_insert_Some; [done | by eapply Hn].
  - by rewrite Hacc.
Qed.

Lemma snapshot_quiet e : quiet e -> quiet (snapshot e).2.
Proof.
  intros Hq. unfold snapshot. destruct (e_recovered e); simpl; [| done]. destruct (e_journal_failed e); [done |].
  destruct (snapshot_locked e) as [st e'] eqn:E. apply snapshot_core in E. destruct Hq as [Hn Hst].
  constructor; simpl; [by rewrite (sc_accounts _ _ E) | by eapply attempts_core].
Qed.

Lemma run_quiet cs e : snapshottable e -> quiet e -> Forall command_wf cs -> quiet (run cs e).2.
Proof.
  revert e. induction cs as [|c cs IH]; [done |]. intros e He Hq [Hc Hcs]%Forall_cons. rewrite run_cons.
  apply IH; [by apply exec_snapshottable | | done]. destruct c as [rq|]; simpl.
  - destruct (apply rq e) as [o e'] eqn:E. eapply apply_quiet; [apply He | by eapply request_wf_range | exact Hq | exact E].
  - pose proof (snapshot_quiet e Hq). by destruct (snapshot e).
Qed.

Lemma run_commands_limits cs e : e_limits (run cs e).2 = e_limits e.
Proof.
  revert e. induction cs as [|c cs IH]; intros e; [done |]. rewrite run_cons. cbn [snd]. rewrite IH.
  destruct c as [rq|]; simpl.
  - pose proof (run_limits [rq] e) as Hl. rewrite run_apply_cons in Hl. by destruct (apply rq e).
  - unfold snapshot. destruct (e_recovered e); simpl; [| done]. destruct (e_journal_failed e); [done |].
    destruct (snapshot_locked e) as [st e'] eqn:E. by apply snapshot_core in E as [].
Qed.

Lemma quiet_typed e k a : engine_typed e -> quiet e -> e_accounts e !! k = Some a -> typed a.
Proof.
  intros Ht Hq Ha. pose proof (en_accounts _ Ht _ _ Ha) as [? ? ? ? ? ? ? ?].
  constructor; try done. by apply (qu_notes _ Hq k).
Qed.
End Quiet.

(** ** Recovery from a snapshot and what follows it *)

Implicit Types (e er : Engine InMemoryJournal) (rq : CreditRequest) (o : CreditOutcome).

(** What the journal holds of the snapshot taken of [e]. *)
Definition snapshot_of e : Z * Digest128 * list Z :=
  (e_next_sequence e, e_chain e, encode_durable_state (snapshot_state e)).

(** The engines that have loaded it. *)
Definition holds e er : Prop := tracks er (e_limits e) (e_accounts e) (e_chain e) (wrap64 (e_next_sequence e + 1)).

Lemma loaded_holds e er : snapshottable e -> quiet e -> e_limits er = e_limits e -> holds e (loaded e er).
Proof.
  intros [[Hok Hl Ht] Hf Hfit _ _] Hq El. constructor; simpl; try done.
  - rewrite <-map_fmap_compose. apply map_fmap_ext. intros k a Ha. simpl.
    apply bare_forget; [apply Hok | by apply (eo_accounts _ Hok k) | by eapply Hfit].
  - intros k a. rewrite lookup_fmap. destruct (e_accounts e !! k) as [b|] eqn:E; simpl; [| done].
    intros [= <-]. exact (qu_notes _ Hq k b E).
Qed.

(** Recovery answers what the replay of the later entries answers. *)
Lemma recover_loaded e (e1 : Engine InMemoryJournal) :
  snapshottable e -> quiet e -> e_has_journal e1 = true -> e_limits e1 = e_limits e ->
  mj_snapshot (e_journal e1) = Some (snapshot_of e) -> intact (e_journal e1) ->
  Forall (later (Some (e_next_sequence e))) (mj_entries (e_journal e1)) ->
  exists es, holds e es /\ forall st er, replay_list (j_log (e_journal e1)) es = (st, er) ->
    exists ef, recover (S (length (mj_entries (e_journal e1)))) e1 = Some (st, ef) /\
      (status_ok st = true -> e_accounts ef = demote_all <$> e_accounts er /\ e_chain ef = e_chain er /\
         e_next_sequence ef = e_next_sequence er /\ e_recovered ef = true).
Proof.
  intros He Hq Hh Hl Hs Hi Hla. remember (S (length (mj_entries (e_journal e1)))) as fuel eqn:Hfuel.
  unfold recover. rewrite Hh. change (j_open (e_journal e1)) with (success, (memory_open (e_journal e1)).2).
  cbv beta iota zeta. change (j_read_snapshot _) with (success, mj_snapshot (e_journal e1)). rewrite Hs.
  cbv beta iota zeta. change (negb (status_ok success)) with false. change (negb true) with false. cbv iota.
  unfold snapshot_of. rewrite (recover_snapshot_live e) by done.
  set (es0 := loaded e _). change (negb (status_ok success)) with false. cbv beta iota.
  change (j_begin_replay (e_journal es0)) with (memory_begin_replay (e_journal es0)).
  unfold memory_begin_replay. cbv beta iota zeta. change (negb (status_ok success)) with false. cbv iota.
  match goal with |- context [replay_loop fuel ?s ?x] => change s with (Some (e_next_sequence e)); set (es := x) end.
  exists es. split; [by destruct (loaded_holds e es0 He Hq Hl) |]. intros st er Hr.
  destruct (replay_loop_list fuel (Some (e_next_sequence e)) [] (mj_entries (e_journal e1)) es er st)
    as (j & -> & _); try done; [lia |].
  destruct (status_ok st) eqn:Hst; simpl; [| by exists (set_journal j er)].
  pose proof (replay_list_status _ _ _ _ Hr Hst) as ->. eexists. split; [done |]. intros _. by split_and!.
Qed.

(** An engine that has just written a snapshot goes on from it. *)
Lemma snapshot_goes_on k e st e' :
  snapshottable e -> quiet e -> room (k + 1) e -> 0 <= k -> snapshot_locked e = (st, e') -> status_ok st = true ->
  going_on (e_next_sequence e) (holds e) e' /\ mj_snapshot (e_journal e') = Some (snapshot_of e) /\
  e_limits e' = e_limits e /\ room k e'.
Proof.
  intros He Hq Hr Hk Hs Hst. pose proof (snapshot_core _ _ _ Hs) as Hc. pose proof (sc_limits _ _ Hc) as Sl.
  pose proof (sc_accounts _ _ Hc) as Sa. pose proof (snapshot_room _ _ _ _ Hk Hs Hr) as Hr'.
  destruct (snapshot_done _ _ _ (room_less (k + 1) 1 e ltac:(lia) Hr) Hs Hst) as (H1 & H2 & H3 & H4 & _). pose proof (en_ok _ (sn_typed _ He)) as Hok.
  split_and!; try done. constructor.
  - destruct Hok as [Hl Ha Hn]. by constructor; rewrite ?Sl, ?Sa.
  - intros i a. rewrite Sa. apply quiet_typed; [apply He | done].
  - eapply attempts_core; [exact Hc | apply Hq].
  - constructor; [lia | by rewrite H1 | unfold intact; by rewrite H1].
  - intros er Her. exists er. simpl. unfold memory_log. rewrite H1. split; [done |].
    destruct Hr as [_ Hr]. rewrite Sl, Sa, H3, H4. unfold holds in Her. by rewrite (wrap64_small (e_next_sequence e + 1)) in Her by word_lia.
Qed.

(** What the replay of a later log makes of the accounts. *)
Lemma tracks_outlined er limits A c n :
  tracks er limits A c n -> (forall k a, A !! k = Some a -> ac_ambiguous a = []) ->
  outline <$> (demote_all <$> e_accounts er) = (fun a => demote_all (outline a)) <$> A.
Proof.
  intros Htk HA. apply map_eq. intros k. rewrite !lookup_fmap. destruct (A !! k) as [a|] eqn:Ha.
  - destruct (tracks_some _ _ _ _ _ _ _ Htk Ha) as (b & Hb & E). rewrite Hb. simpl. f_equal.
    change (demote_all (outline b) = demote_all (outline a)). f_equal. apply bare_outline; [done |].
    rewrite (HA k a Ha). by eapply tk_quiet.
  - by rewrite (tracks_none _ _ _ _ _ _ Htk Ha).
Qed.

(** C6: Going on from a snapshot: run an engine on a fresh journal with any requests
    and snapshots, whatever is refused or fails, take a snapshot, and go on with any
    requests, without journal failure or another snapshot, and without an [Issue]
    refused while naming identities or a [Fence] refused for budget
    ([durable_outcome]).  An engine restarted on the journal loads the snapshot,
    replays what was decided since, and recovers: every account is back but for
    liveness, the audit log of refusals and the recorded answers of decided
    attempts, whose identities it knows in the same order; the digest chain and the
    journal sequence continue where they stopped.  The fields of the requests fit
    their widths, the limits fit the snapshot format, and the run is shorter than
    the 64-bit journal sequence. *)
Theorem restart_goes_on_from_snapshot limits budget operator nonce e0 cs st e' rqs (e1 : Engine InMemoryJournal) :
  recover 1 (engine_make limits true (memory_make budget) operator nonce) = Some (success, e0) ->
  limits_ok (clamp_limits limits) -> limits_typed (clamp_limits limits) -> limits_fit (clamp_limits limits) ->
  Forall command_wf cs -> Forall (request_wf 4096) rqs ->
  3 * Z.of_nat (length cs) + 3 * Z.of_nat (length rqs) + 2 < 18446744073709551616 ->
  let e := (run cs e0).2 in
  snapshot e = (st, e') -> status_ok st = true ->
  let r := run (CApply <$> rqs) e' in
  Forall durable_outcome r.1 -> e_journal_failed r.2 = false ->
  mj_snapshot (e_journal r.2) = mj_snapshot (e_journal e') ->
  e_has_journal e1 = true -> e_limits e1 = clamp_limits limits -> e_journal e1 = e_journal r.2 ->
  exists er, recover (S (length (mj_entries (e_journal r.2)))) e1 = Some (success, er) /\
    outline <$> e_accounts er = (fun a => demote_all (outline a)) <$> e_accounts r.2 /\
    e_chain er = e_chain r.2 /\ e_next_sequence er = e_next_sequence r.2 /\ e_recovered er = true.
Proof.
  intros H0 Hl Ht Hf Hcs Hqs Hn e Hs Hst r Hd Hfl Hsame Hh1 Hl1 Hj1. rewrite first_boot_recovers in H0. injection H0 as <-.
  set (e0 := first_boot limits budget operator nonce) in *.
  assert (He0 : snapshottable e0) by (constructor; simpl; try done; by apply empty_engine_typed).
  assert (He : snapshottable e) by (by apply run_snapshottable).
  assert (Hq : quiet e) by (apply run_quiet; [done | by constructor | done]).
  assert (Hr : room (3 * Z.of_nat (length rqs) + 1) e)
    by (apply run_room; [lia |]; constructor; simpl; [constructor | lia]).
  assert (Hlim : e_limits e = clamp_limits limits) by (unfold e; by rewrite run_commands_limits).
  revert Hs. unfold snapshot. destruct (e_recovered e); simpl; [| by intros [= <- _]].
  destruct (e_journal_failed e); [by intros [= <- _] |]. intros Hs.
  destruct (snapshot_goes_on _ e st e' He Hq Hr ltac:(lia) Hs Hst) as (Hg & Hsn & Hlim' & Hr').
  rewrite Hsn in Hsame.
  pose proof (run_going _ _ _ _ rqs e' Hg Hqs Hr' Hd Hfl Hsn Hsame) as [Rok Rty _ [_ Rla Rin] Rlog].
  fold r in Rok, Rty, Rla, Rin, Rlog.
  destruct (recover_loaded e e1) as (es & Hes & Hrec); try done; try congruence; [by rewrite Hj1.. |].
  destruct (Rlog es Hes) as (er & Her & Htk). rewrite <-Hj1 in Her. destruct (Hrec _ _ Her) as (ef & Hef & Hv).
  rewrite Hj1 in Hef. exists ef. destruct (Hv eq_refl) as (-> & -> & -> & ->). split; [done |].
  split_and!; [| apply Htk | apply Htk | done]. eapply tracks_outlined; [exact Htk |]. intros k a Ha. by apply (Rty k a Ha).
Qed.

(** Credit is issued on the account once more after the snapshot. *)
Definition later_requests : list CreditRequest := [issue_request 3 7].

Lemma later_requests_wf : Forall (request_wf 4096) later_requests.
Proof.
  constructor; [| constructor]. apply operator_request_wf; try reflexivity; unfold digest_range; simpl; word_lia.
Qed.

Definition later_run : list (CreditRequest * CreditOutcome) * Engine InMemoryJournal :=
  run (CApply <$> later_requests) snapshotted_run.2.

(** Every request is applied, none is a fence, the journal is healthy. *)
Definition applied_run (r : list (CreditRequest * CreditOutcome) * Engine InMemoryJournal) : bool :=
  forallb (fun x => o_applied x.2) r.1 &&
  forallb (fun x => negb (op_code (rq_op x.1) =? op_code Fence)) r.1 && negb (e_journal_failed r.2).

Lemma later_run_applied : applied_run later_run = true.
Proof. vm_compute. reflexivity. Qed.

Lemma later_run_snapshot : mj_snapshot (e_journal later_run.2) = mj_snapshot (e_journal snapshotted_run.2).
Proof. vm_compute. reflexivity. Qed.

Lemma restart_goes_on_from_snapshot_witness :
  exists er, recover (S (length (mj_entries (e_journal later_run.2)))) (restarted later_run.2) = Some (success, er) /\
    outline <$> e_accounts er = (fun a => demote_all (outline a)) <$> e_accounts later_run.2.
Proof.
  assert (Hc : Forall command_wf (CApply <$> restart_requests))
    by (apply Forall_fmap; exact restart_requests_wf).
  assert (G : forall p r, snapshotted_run = p -> status_ok p.1 = true -> run (CApply <$> later_requests) p.2 = r ->
    applied_run r = true -> mj_snapshot (e_journal r.2) = mj_snapshot (e_journal p.2) ->
    exists er, recover (S (length (mj_entries (e_journal r.2)))) (restarted r.2) = Some (success, er) /\
      outline <$> e_accounts er = (fun a => demote_all (outline a)) <$> e_accounts r.2).
  { intros [st e'] [os e] Hp Hst Hr Ha Hs. cbn [fst snd] in *. unfold applied_run in Ha. cbn [fst snd] in Ha.
    apply andb_prop in Ha as [Ha Hf]. apply andb_prop in Ha as [Ha Hn].
    pose proof (restart_goes_on_from_snapshot default_limits 1000000 operator sample_nonce _
      (CApply <$> restart_requests) st e' later_requests (restarted e)
      (first_boot_recovers _ _ _ _) default_limits_ok default_limits_typed default_limits_fit Hc later_requests_wf) as H.
    cbv zeta in H. rewrite Hr in H. cbn [fst snd] in H.
    destruct H as (er & H1 & H2 & _); [reflexivity | exact Hp | exact Hst | exact (durable_applied os Ha Hn) |
      exact (proj1 (negb_true_iff _) Hf) | exact Hs | reflexivity | reflexivity | reflexivity |].
    exists er. split; [exact H1 | exact H2]. }
  exact (G snapshotted_run later_run eq_refl snapshotted_run_ok eq_refl later_run_applied later_run_snapshot).
Defined.
