(* ===== verification/Automatic.v ===== *)
(** * Snapshots that the engine takes by itself

    The snapshot inside [persist_locked] is taken between the commit record of a
    decision and its publication, so it lacks the sequence that the decision
    consumed; and the log it rotates away is where that was.  This file shows what
    the next decision on the account then does to recovery. *)

From S2P Require Import Prelude Checked Status Digest Ledger Authority Request Bytes Wire.
From S2P Require Import Record Journal Window Account Engine Recovery Steps Invariant Verdicts.
From S2P Require Import Safety Sample Guarantees Durability Replay AccountDigest RecoveryProps Restart.
From S2P Require Import Typing Checkpoint Resume.
Local Open Scope Z_scope.

(** ** An account with another last sequence of one incarnation *)

Definition resequence (s i : Z) (a : AccountState) : AccountState :=
  update_incarnation (set_ir_last_sequence s) i a.

Lemma alter_comm (f g : IncarnationRecord -> IncarnationRecord) i j (m : gmap Z IncarnationRecord) :
  (forall r, f (g r) = g (f r)) -> alter f j (alter g i m) = alter g i (alter f j m).
Proof.
  intros Hc. apply map_eq. intros k. rewrite !lookup_alter.
  repeat case_decide; subst; try done. destruct (m !! k) as [r|]; simpl; [by rewrite Hc | done].
Qed.

(** Transformers of records that neither look at the last sequence nor change it. *)
Record apart_from_last (f : IncarnationRecord -> IncarnationRecord) : Prop := {
  al_keeps : forall r, ir_last_sequence (f r) = ir_last_sequence r;
  al_comm : forall s r, f (set_ir_last_sequence s r) = set_ir_last_sequence s (f r);
}.

Lemma apart_reconciled ep gen p : apart_from_last (set_ir_reconciled ep gen p).
Proof. by constructor. Qed.
Lemma apart_fenced s : apart_from_last (set_ir_fenced s).
Proof. by constructor. Qed.
Lemma apart_state s : apart_from_last (set_ir_state s).
Proof. by constructor. Qed.
Lemma apart_committed : apart_from_last incr_ir_committed.
Proof. by constructor. Qed.
Lemma apart_refused : apart_from_last incr_ir_refused.
Proof. by constructor. Qed.
Lemma apart_demote : apart_from_last demote.
Proof. constructor; intros; unfold demote; simpl; by destruct (state_eqb _ _). Qed.
Lemma apart_bindings rq : apart_from_last (replay_bindings rq).
Proof. constructor; intros; unfold replay_bindings; by destruct (is_set _), (is_set _), (is_set _). Qed.

#[local] Hint Resolve apart_reconciled apart_fenced apart_state apart_committed apart_refused apart_demote
  apart_bindings : core.

(** The last sequence that an account has of an incarnation it knows. *)
Definition last_is (v i : Z) (a : AccountState) : Prop :=
  exists r, ac_incarnations a !! i = Some r /\ ir_last_sequence r = v.

(** A transformer of accounts that commutes with [resequence]. *)
Record steady (F : AccountState -> AccountState) (a : AccountState) : Prop := {
  st_keeps : forall v i, last_is v i a -> last_is v i (F a);
  st_comm : forall v i s, last_is v i a -> F (resequence s i a) = resequence s i (F a);
}.

Lemma steady_update f j a : apart_from_last f -> steady (update_incarnation f j) a.
Proof.
  intros [Hk Hc]. constructor.
  - intros v i (r & Hr & Hv). unfold last_is. simpl. rewrite lookup_alter. case_decide; [| by exists r].
    subst j. rewrite Hr. exists (f r). by rewrite Hk.
  - intros v i s _. unfold resequence, update_incarnation, set_incarnations. simpl. f_equal.
    apply alter_comm. intros r. apply Hc.
Qed.

Lemma steady_put r j a : ac_incarnations a !! j = None -> steady (put_incarnation j r) a.
Proof.
  intros Hj. constructor.
  - intros v i (x & Hx & Hv). exists x. simpl. by rewrite lookup_insert_ne by (intros ->; congruence).
  - intros v i s (x & Hx & _). unfold resequence, update_incarnation, put_incarnation, set_incarnations. simpl. f_equal.
    assert (i <> j) by (intros ->; congruence). apply map_eq. intros k. rewrite lookup_insert, !lookup_alter, lookup_insert.
    repeat case_decide; subst; simplify_map_eq; done.
Qed.

Lemma steady_compose F G a : steady F a -> steady G (F a) -> steady (fun x => G (F x)) a.
Proof.
  intros [F1 F2] [G1 G2]. constructor; [auto |]. intros v i s Hi. rewrite (F2 v) by done. eapply G2. by apply F1.
Qed.

(** Transformers that leave the incarnations alone. *)
Lemma steady_frame F a :
  ac_incarnations (F a) = ac_incarnations a ->
  (forall m, F (set_incarnations m a) = set_incarnations m (F a)) -> steady F a.
Proof.
  intros H1 H2. constructor.
  - unfold last_is. by rewrite H1.
  - intros v i s _. unfold resequence, update_incarnation. by rewrite H2, H1.
Qed.

Lemma steady_demote a : steady demote_all a.
Proof.
  constructor.
  - intros v i (r & Hr & Hv). exists (demote r). simpl. rewrite lookup_fmap, Hr. by rewrite (al_keeps _ apart_demote).
  - intros v i s _. unfold resequence, update_incarnation, demote_all, set_incarnations. simpl. f_equal.
    apply map_eq. intros k. rewrite !lookup_fmap, !lookup_alter, !lookup_fmap. case_decide; [subst k | done].
    destruct (ac_incarnations a !! i) as [r|]; [| done]. exact (f_equal Some (al_comm _ apart_demote s r)).
Qed.

(** ** Replay does not look at last sequences *)

Definition steady_step (G : AccountState -> Status * AccountState) (a : AccountState) : Prop :=
  forall v i s, last_is v i a ->
    last_is v i (G a).2 /\ G (resequence s i a) = ((G a).1, resequence s i (G a).2).

Lemma steady_transition rq a : steady_step (apply_replay_transition rq) a.
Proof.
  intros v i s Hi. unfold apply_replay_transition, replay_plan.
  assert (Hera : forall t n g, last_is v i (enter_era t n g a) /\
    enter_era t n g (resequence s i a) = resequence s i (enter_era t n g a)).
  { intros t n g. destruct (steady_demote (set_era n g (set_totals t a))) as [H1 H2].
    split; [by apply H1 | by apply (H2 v)]. }
  destruct (rq_op rq); try done.
  all: try (change (account_plan (resequence s i a)) with (account_plan a)).
  all: try (change (ledger_apply (account_plan a) (resequence s i a) rq) with (ledger_apply (account_plan a) a rq);
            destruct (ledger_apply _ _ _) as [st p]; by destruct (status_ok st)).
  all: try (simpl; destruct (plan_quarantine_in_flight _) as [p ok]; destruct ok; simpl; [| done];
            split; [apply Hera | by rewrite <-(proj2 (Hera _ _ _))]).
  all: try (destruct (plan_set_capacity _ _ _ _) as [p ok]; by destruct ok).
  all: try (destruct (plan_retire_stale _ _) as [p ok]; by destruct ok).
  destruct (rq_decision rq); match goal with |- context [if (?x).2 then _ else _] => destruct x as [p ok] end; by destruct ok.
Qed.

Lemma steady_reconcile rq a : steady (reconcile_account rq) a.
Proof.
  unfold reconcile_account, find_incarnation. set (id := a_incarnation (rq_authority rq)).
  destruct (ac_incarnations a !! id) as [r|] eqn:E.
  - destruct (steady_update (set_ir_reconciled (ac_epoch a) (ac_generation a) (rq_proof rq)) id a) as [H1 H2]; [done |].
    constructor; [by rewrite E | intros v i s Hi].
    rewrite E. rewrite <-(H2 v) by done. unfold resequence at 1. simpl. rewrite lookup_alter. case_decide; [| by rewrite E].
    subst. by rewrite E.
  - pose proof (steady_put (fresh_incarnation rq) id a E) as Hp.
    destruct (steady_compose _ (update_incarnation (set_ir_reconciled (ac_epoch a) (ac_generation a) (rq_proof rq)) id) a Hp)
      as [H1 H2]; [by apply steady_update |]. constructor; [by rewrite E | intros v i s Hi].
    rewrite E. rewrite <-(H2 v) by done. simpl. rewrite lookup_alter. case_decide; [subst |]; by rewrite E.
Qed.

(** The branch of [Fence] and [Reconcile] on an incarnation that may be new. *)
Lemma steady_known j r a :
  steady (fun x => match find_incarnation j x with None => put_incarnation j r x | Some _ => x end) a.
Proof.
  unfold find_incarnation. destruct (ac_incarnations a !! j) as [y|] eqn:E.
  - constructor; cbv beta; [by rewrite E | intros v i s _]. rewrite E. simpl. rewrite lookup_alter. case_decide; [subst |]; by rewrite E.
  - destruct (steady_put r j a E) as [H1 H2]. constructor; cbv beta; [by rewrite E | intros v i s Hi].
    rewrite E, <-(H2 v) by done.
    simpl. rewrite lookup_alter. case_decide; [subst |]; by rewrite E.
Qed.

Lemma steady_fence rq a : steady (fence_account rq) a.
Proof.
  destruct (steady_update (set_ir_fenced (rq_sequence rq)) (rq_target rq) a) as [H1 H2]; [done |].
  constructor; [intros v i Hi; exact (H1 v i Hi) |]. intros v i s Hi. unfold fence_account. rewrite (H2 v) by done. done.
Qed.

Lemma steady_then F a :
  steady F a -> forall v i s, last_is v i a ->
    last_is v i (success, F a).2 /\ (success, F (resequence s i a)) = (success, resequence s i (F a)).
Proof. intros [H1 H2] v i s Hi. split; [by apply H1 | by rewrite (H2 v)]. Qed.

Lemma steady_effects rq a : steady_step (replay_effects rq) a.
Proof.
  intros v i s Hi. unfold replay_effects, find_incarnation.
  assert (Hup : forall f j code, apart_from_last f ->
    let G x := match ac_incarnations x !! j with
               | None => (refused_status RJournalCorrupt code, x)
               | Some _ => (success, update_incarnation f j x)
               end in
    last_is v i (G a).2 /\ G (resequence s i a) = ((G a).1, resequence s i (G a).2)).
  { intros f j code Hf G. destruct (steady_update f j a Hf) as [H1 H2]. unfold G. simpl. rewrite lookup_alter.
    destruct (ac_incarnations a !! j) as [y|] eqn:E; simpl.
    - split; [by apply H1 |]. case_decide; [subst |]; rewrite ?E; simpl; by rewrite (H2 v).
    - split; [done |]. case_decide; [subst |]; by rewrite ?E. }
  destruct (rq_op rq); try done.
  - apply (Hup (replay_bindings rq)). auto.
  - apply (steady_then (fun x => fence_account rq (match ac_incarnations x !! rq_target rq with
      None => put_incarnation (rq_target rq) (bare_incarnation (rq_target rq)) x | Some _ => x end))); [| done].
    apply steady_compose; [apply steady_known | apply steady_fence].
  - by apply (steady_then _ a (steady_reconcile rq a)).
  - apply (Hup (set_ir_state Retired)). auto.
Qed.

Lemma steady_count_commit j a : steady (count_commit j) a.
Proof.
  pose proof (steady_update incr_ir_committed j (set_committed (wrap64 (ac_committed_attempts a + 1)) a) apart_committed) as [H1 H2].
  constructor; [exact H1 | exact H2].
Qed.

Lemma steady_count_refusal j a : steady (count_refusal j) a.
Proof.
  pose proof (steady_update incr_ir_refused j (set_refused (wrap64 (ac_refused_attempts a + 1)) a) apart_refused) as [H1 H2].
  constructor; [exact H1 | exact H2].
Qed.

Lemma steady_existing t a : steady_step (replay_existing t) a.
Proof.
  intros v i s Hi. unfold replay_existing. destruct (o_applied (dt_outcome t)).
  - destruct (steady_transition (dt_request t) a v i s Hi) as [H1 ->].
    destruct (apply_replay_transition _ a) as [st x]. simpl in H1 |- *. destruct (status_ok st); simpl; [| done].
    destruct (steady_effects (dt_request t) x v i s H1) as [H2 ->].
    destruct (replay_effects _ x) as [st' y]. simpl in H2 |- *. destruct (status_ok st'); simpl; [| done].
    destruct (steady_count_commit (a_incarnation (rq_authority (dt_request t))) y) as [H3 H4].
    split; [by apply H3 | by rewrite (H4 v)].
  - destruct (o_decided (dt_outcome t)); [| done].
    destruct (steady_count_refusal (a_incarnation (rq_authority (dt_request t))) a) as [H3 H4].
    simpl. split; [by apply H3 | by rewrite (H4 v)].
Qed.

(** Another last sequence is another digest. *)
Lemma resequence_digest s v i a :
  last_is v i a -> in_u64 s -> in_u64 v -> s <> v -> account_digest (resequence s i a) <> account_digest a.
Proof.
  intros (r & Hr & Hv) Hs Hw Hne.
  assert (E : resequence s i a = put_incarnation i (set_ir_last_sequence s r) a).
  { unfold resequence, update_incarnation, put_incarnation. f_equal. by apply alter_as_insert. }
  rewrite E. apply (account_digest_record a i r); [done |].
  exists (take 9 (incarnation_words r)), v, s, (drop 10 (incarnation_words r)).
  unfold incarnation_words. simpl. rewrite Hv. split_and!; try done.
Qed.

(** ** The account of a decision and what is published *)

(** An account without its window, its notes and its audit log. *)
Definition core : AccountState -> AccountState := reframe (fun _ => window_make 1) (fun _ => []).

Lemma core_bare a b : bare a = bare b -> core a = core b.
Proof. intros H. exact (f_equal (set_window (window_make 1)) H). Qed.

Lemma core_published w rq a :
  core (published w rq a) = resequence (rq_sequence rq) (a_incarnation (rq_authority rq)) (core a).
Proof. by destruct a. Qed.

Lemma core_publish rq o a :
  core (publish_window_locked rq o a) = resequence (rq_sequence rq) (a_incarnation (rq_authority rq)) (core a).
Proof. exact (core_published (window_insert (window_entry rq o) (ac_window a)) rq a). Qed.

Lemma core_refusal limits rq o a : core (record_refusal_locked limits rq o a) = core a.
Proof. unfold record_refusal_locked. by destruct (_ <? _). Qed.

Lemma last_watermark i (m : gmap Z IncarnationRecord) a :
  ac_incarnations a = m -> is_Some (m !! i) -> last_is (watermark_in m i) i a.
Proof. intros <- [r Hr]. exists r. unfold watermark_in. by rewrite Hr. Qed.

(** What is known of the account [c] that a decision journals and of the account [x]
    it publishes. *)
Record decided_account (limits : EngineLimits) rq (c x : AccountState) (v : Z) : Prop := {
  da_ok : account_ok limits c;
  da_typed : account_typed c;
  da_fits : account_fits limits c;
  da_quiet : ac_ambiguous c = [];
  da_key : ac_account c = a_account (rq_authority rq);
  da_publish : core x = resequence (rq_sequence rq) (a_incarnation (rq_authority rq)) (core c);
  da_last : last_is v (a_incarnation (rq_authority rq)) (core c);
  da_new : in_u64 v /\ rq_sequence rq <> v;
}.

Section Decisions.
Context {J : Type} `{Journal J}.
Implicit Types (e : Engine J) (rq : CreditRequest) (o : CreditOutcome).

Lemma decision_account e rq o c created x :
  snapshottable e -> quiet e -> request_wf 4096 rq -> decision e rq o c created x ->
  exists v, decided_account (e_limits e) rq c x v.
Proof.
  intros [[Hok Hlt Hty] _ Hfit _ _] Hqu Hq Hd. pose proof (request_wf_range _ _ Hq) as Hr.
  assert (Hsettled : forall f a b, admission e rq a -> f = incr_ir_committed \/ f = incr_ir_refused ->
    forall k : AccountState, account_ok (e_limits e) k -> account_typed k ->
    verdict_frame rq a b -> ac_account k = ac_account b -> ac_window k = ac_window b -> ac_ambiguous k = ac_ambiguous b ->
    is_Some (ac_incarnations b !! a_incarnation (rq_authority rq)) ->
    ac_incarnations k = alter f (a_incarnation (rq_authority rq)) (ac_incarnations b) ->
    core x = resequence (rq_sequence rq) (a_incarnation (rq_authority rq)) (core k) ->
    exists v, decided_account (e_limits e) rq k x v).
  { intros f a b [Hacc Ho Hde Hu Hkn Hp] Hf k Hk1 Hk2 Hfr Hka Hkw Hkn' Hin Hki Hx.
    destruct (admitted_intro e rq a Hok Ho Hde Hacc Hu Hkn Hp) as [_ _ _ _ Hseq].
    destruct (eo_accounts _ Hok _ _ Hacc) as [Ha Hkey]. destruct (Hfit _ _ Hacc) as [F1 F2].
    exists (watermark_in (ac_incarnations k) (a_incarnation (rq_authority rq))).
    assert (Hw : watermark_in (ac_incarnations k) (a_incarnation (rq_authority rq)) =
      watermark_in (ac_incarnations a) (a_incarnation (rq_authority rq)))
      by (rewrite Hki, count_map_watermark by done; apply Hfr).
    constructor; try done.
    - split; [by rewrite Hkw, (vf_window _ _ _ Hfr) | by rewrite Hkn', (vf_ambiguous _ _ _ Hfr)].
    - rewrite Hkn', (vf_ambiguous _ _ _ Hfr). by apply (qu_notes _ Hqu (a_account (rq_authority rq))).
    - by rewrite Hka, (vf_account _ _ _ Hfr).
    - apply last_watermark; [done |]. rewrite Hki. by apply alter_is_Some.
    - rewrite Hw. split; [apply (wi_range _ _ (ao_window _ _ Ha)) | lia]. }
  destruct Hd as [a b Had Hv o c|r d a b Had Hv o c|Hop Hor c o].
  - pose proof (am_account _ _ _ Had) as Hacc. destruct (eo_accounts _ Hok _ _ Hacc) as [Ha _].
    destruct (verdict_spec (e_challenge e) (e_limits e) (i_id (e_operator e)) rq a)
      as [[Hbok Hbf _] Hin]; [done | done | apply Had | apply Had |].
    pose proof (verdict_keeps_typed (e_limits e) rq a Hlt Ha (Hty _ _ Hacc) Hq (e_challenge e)) as [Hvt _].
    rewrite Hv in Hbok, Hbf, Hin, Hvt. simpl in Hbok, Hbf, Hin, Hvt.
    apply (Hsettled incr_ir_committed a b Had (or_introl eq_refl)); try done;
      [by apply count_commit_ok | by apply typed_count_commit].
  - pose proof (am_account _ _ _ Had) as Hacc. destruct (eo_accounts _ Hok _ _ Hacc) as [Ha _].
    destruct (verdict_spec (e_challenge e) (e_limits e) (i_id (e_operator e)) rq a)
      as [[Hbok Hbf _] Hin]; [done | done | apply Had | apply Had |].
    pose proof (verdict_keeps_typed (e_limits e) rq a Hlt Ha (Hty _ _ Hacc) Hq (e_challenge e)) as [Hvt _].
    rewrite Hv in Hbok, Hbf, Hin, Hvt. simpl in Hbok, Hbf, Hin, Hvt.
    apply (Hsettled incr_ir_refused a b Had (or_intror eq_refl)); try done;
      [by apply count_refusal_ok | by apply typed_count_refusal |].
    unfold refused_account. cbv zeta. rewrite core_refusal. apply core_publish.
  - pose proof (open_refusal_none _ _ Hor) as (_ & Hk & _ & _ & _ & _ & _ & _ & Hs & _).
    exists 0. constructor.
    + by apply opened_account_ok; [apply Hok | |].
    + by apply opened_typed.
    + pose proof (lo_window _ (eo_limits _ Hok)). split; simpl; [| by vm_compute].
      destruct (Z.eqb_spec (max_attempt_window (e_limits e)) 0); [lia | done].
    + done.
    + exact Hk.
    + apply core_publish.
    + eexists. simpl. rewrite lookup_singleton_eq. by split.
    + split; [apply in_u64_0 | lia].
Qed.
End Decisions.

(** ** The next decision on the account *)

Lemma finish_digest t a y : replay_finish t a = (success, y) -> account_digest a = da_state_digest (dt_account t).
Proof.
  unfold replay_finish, replay_mismatch. destruct (digest_eqb (account_digest a) (da_state_digest (dt_account t))) eqn:E; [| done].
  intros _. by apply digest_eqb_eq.
Qed.

(** Replaying on an account that lacks the sequence another decision consumed. *)
Lemma existing_diverges t c x b y s v i a0 :
  core x = resequence s i (core c) -> last_is v i (core c) -> in_u64 s -> in_u64 v -> s <> v ->
  replay_existing t x = (success, b) -> replay_finish t b = (success, y) -> core a0 = core c ->
  exists b0, replay_existing t a0 = (success, b0) /\ account_digest b0 <> da_state_digest (dt_account t).
Proof.
  intros Hx Hi Hs Hv Hne H1 H2 Ha0. destruct (steady_existing t (core c) v i s Hi) as [Hl Hc].
  pose proof (reframe_existing (fun _ => window_make 1) (fun _ => []) t x) as Ex. fold core in Ex.
  pose proof (reframe_existing (fun _ => window_make 1) (fun _ => []) t a0) as Ea. fold core in Ea.
  rewrite H1, Hx, Hc in Ex. rewrite Ha0 in Ea. destruct (replay_existing t (core c)) as [st z]. simpl in Hl, Ex.
  destruct (replay_existing t a0) as [st0 b0]. apply pair_equal_spec in Ex as [-> Ex].
  apply pair_equal_spec in Ea as [<- ->]. exists b0. split; [done |]. rewrite <-(finish_digest _ _ _ H2).
  pose proof (resequence_digest s v i (core b0) Hl Hs Hv Hne) as Hd. rewrite Ex in Hd. unfold core in Hd.
  rewrite !reframe_digest in Hd. by intros E.
Qed.

Section Fatal.
Implicit Types (e er : Engine InMemoryJournal) (rq : CreditRequest) (o : CreditOutcome).

Lemma replay_refuses_decision er limits A ch n k rq o t c x x2 s v i more :
  tracks er limits A ch k -> request_wf (max_note_bytes limits) rq -> durable_attempt_wf t ->
  dt_request t = rq -> dt_outcome t = o -> reproduced limits t (Some x) x2 ->
  A !! a_account (rq_authority rq) = Some c ->
  core x = resequence s i (core c) -> last_is v i (core c) -> in_u64 s -> in_u64 v -> s <> v ->
  exists er', replay_list (decision_records ch n rq o t ++ more) er =
    (refused_status RJournalDigestMismatch 135, er').
Proof.
  intros Htk Hq Hwf Htq Hto (Htc & b & y & H1 & H2 & _) Hc Hx Hl Hs Hv Hne.
  destruct (tracks_some _ _ _ _ _ _ _ Htk Hc) as (c0 & Hc0 & Eb). pose proof Htk as [_ TQ TC TL _].
  pose proof (tracked_intent er (intent_chain ch n rq) n rq c0) as HI.
  rewrite TL in HI. specialize (HI Hq Hc0 (TQ _ _ Hc0)).
  unfold decision_records. simpl app. simpl replay_list. rewrite HI. simpl status_ok. cbv iota.
  unfold replay_record. simpl. unfold replay_commit. simpl. rewrite durable_attempt_decodes, TC, Htq, Hto by done.
  rewrite digest_eqb_refl. simpl. unfold replay_attempt. rewrite Htc, Htq. cbv iota. simpl e_accounts.
  rewrite lookup_insert_eq. 
  destruct (existing_diverges t c x b y s v i (set_ambiguous [ambiguous_note rq n] c0)) as (b0 & H0 & Hd); try done.
  { exact (core_bare _ _ Eb). }
  rewrite H0. simpl. unfold replay_finish, replay_mismatch. rewrite (digest_eqb_neq _ _ Hd). simpl. by eexists.
Qed.

(** The engine at the moment of an automatic snapshot can be restored. *)
Lemma appended_snapshottable e rq o c created x v e2 e' :
  snapshottable e -> quiet e -> decided_account (e_limits e) rq c x v -> request_wf 4096 rq ->
  appended (put_account (a_account (rq_authority rq)) c e) rq o c created e2 -> room 3 e ->
  engine_ok e' -> e_limits e' = e_limits e -> e_accounts e' = <[a_account (rq_authority rq) := x]> (e_accounts e) ->
  snapshottable e2 /\ quiet e2.
Proof.
  intros [[Hok Hlt Hty] Hlf Hfit Hn Hc] [Hqn Hqs] [D1 D2 D3 D4 D5 _ _ _] Hq [Hco Hch _ Hpl _ _ _] Hr Hok' Hl' Ha'.
  pose proof (sc_limits _ _ Hco) as Sl. pose proof (sc_accounts _ _ Hco) as Sa. simpl in Sl, Sa, Hpl, Hch.
  destruct Hr as [_ Hr]. pose proof (eo_count _ Hok') as Hcnt. rewrite Ha', Hl' in Hcnt.
  split; [constructor; [constructor |..] | constructor].
  - constructor; rewrite ?Sl, ?Sa; [apply Hok | |].
    + intros k b [[<- <-]|[_ Hk]]%lookup_insert_Some; [done | by apply (eo_accounts _ Hok)].
    + by rewrite map_size_insert in Hcnt |- *.
  - by rewrite Sl.
  - intros k b. rewrite Sa. intros [[_ <-]|[_ Hk]]%lookup_insert_Some; [done | by eapply Hty].
  - by rewrite Sl.
  - intros k b. rewrite Sa, Sl. intros [[_ <-]|[_ Hk]]%lookup_insert_Some; [done | by eapply Hfit].
  - rewrite Hpl. word_lia.
  - rewrite Hch. apply commit_chain_range.
  - intros k b. rewrite Sa. intros [[_ <-]|[_ Hk]]%lookup_insert_Some; [done | by eapply Hqn].
  - eapply attempts_core; [exact Hco | exact Hqs].
Qed.

(** What an automatic snapshot leaves: [e2] is the engine it was taken of. *)
Record self_snapshot e rq e1 e2 (c x : AccountState) (v : Z) : Prop := {
  ss_restorable : snapshottable e2 /\ quiet e2;
  ss_account : decided_account (e_limits e) rq c x v;
  ss_before : e_accounts e2 = <[a_account (rq_authority rq) := c]> (e_accounts e);
  ss_after : e_accounts e1 = <[a_account (rq_authority rq) := x]> (e_accounts e);
  ss_limits : e_limits e2 = e_limits e /\ e_limits e1 = e_limits e;
  ss_chain : e_chain e1 = e_chain e2;
  ss_entries : mj_entries (e_journal e1) = [];
  ss_snapshot : mj_snapshot (e_journal e1) = Some (snapshot_of e2);
  ss_beyond : beyond (e_next_sequence e2) e1;
}.

Lemma automatic_snapshot e rq o e1 :
  snapshottable e -> quiet e -> request_wf 4096 rq -> room 3 e -> apply rq e = (o, e1) ->
  e_journal_failed e1 = false -> mj_snapshot (e_journal e1) <> mj_snapshot (e_journal e) ->
  exists e2 c x v, self_snapshot e rq e1 e2 c x v.
Proof.
  intros He Hqu Hq Hr Hap Hf Hne.
  assert (Hok1 : engine_ok e1)
    by (eapply apply_ok_aux; [apply (en_ok _ (sn_typed _ He)) | by eapply request_wf_range | done]).
  destruct (apply_logged _ _ _ _ Hap) as [o e1 d c created x st e1' _ _ _ _ Hf' _|o e1 _ _ Hc|o e1 _ _ _ Hc|
    o e1 c created x st e1' Hm Hp Hst Hc Ha Hdec];
    [congruence | by rewrite (cr_journal _ _ Hc) in Hne.. |].
  apply persist_split in Hp as (e2 & Had & Hcase); [| done | by destruct Hr].
  rewrite (cr_journal _ _ Hc) in Hne. destruct Hcase as [->|Hs]; [by destruct Hne; apply Had |].
  destruct (decision_account e rq o c created x He Hqu Hq Hdec) as [v Hda].
  pose proof (sc_limits _ _ (ap_core _ _ _ _ _ _ Had)) as Sl. pose proof (sc_accounts _ _ (ap_core _ _ _ _ _ _ Had)) as Sa.
  pose proof (sc_limits _ _ (snapshot_core _ _ _ Hs)) as Sl'. destruct Hc as [Cj Cc Cn Cl _ _ _]. simpl in Sl, Sa.
  destruct (snapshot_done _ _ _ (ap_room _ _ _ _ _ _ Had) Hs Hst) as (H1 & H2 & H3 & H4 & _).
  exists e2, c, x, v. constructor; try done; try congruence.
  - eapply appended_snapshottable; try done. congruence.
  - split; congruence.
  - by rewrite Cj.
  - constructor; [lia | by rewrite Cj, H1 |]. unfold intact. by rewrite Cj, H1.
Qed.

(** A further decision on the account, whatever is decided after it. *)
Lemma decision_after_snapshot e rq e1 e2 c x v rq2 rest :
  self_snapshot e rq e1 e2 c x v -> engine_typed e1 -> quiet e1 -> request_wf 4096 rq -> request_wf 4096 rq2 ->
  room (3 * Z.of_nat (S (length rest))) e1 ->
  let o2 := (apply rq2 e1).1 in
  let ef := (run (CApply <$> rest) (apply rq2 e1).2).2 in
  a_account (rq_authority rq2) = a_account (rq_authority rq) ->
  mj_entries (e_journal (apply rq2 e1).2) <> [] ->
  (rq_op rq2 = Issue -> o_applied o2 = false -> binds_nothing rq2) ->
  e_journal_failed ef = false -> mj_snapshot (e_journal ef) = mj_snapshot (e_journal e1) ->
  beyond (e_next_sequence e2) ef /\
  forall es, holds e2 es ->
    exists er, replay_list (j_log (e_journal ef)) es = (refused_status RJournalDigestMismatch 135, er).
Proof.
  intros [[He2 Hq2] Hda Hbef Haft [Hl2 Hl1] Hch Hen Hsn Hby] Ht1 Hqu1 Hq Hqr2 Hr o2 ef Hkey Hlogd Hbind Hf Hsame.
  rewrite Hsn in Hsame. destruct (run_kept rq2 rest e1 _ _ _ Hr (by_next _ _ Hby) Hf Hsame Hsn) as (Hr2 & _ & Hf2 & Hsn2).
  destruct (logged_beyond _ _ _ e1 rq2 o2 _ (surjective_pairing _)
    (room_less (3 * Z.of_nat (S (length rest))) 3 e1 ltac:(lia) Hr) Hby Hf2 Hsn2) as [Hby2 Hcase].
  destruct (run_beyond _ _ _ rest _ Hby2 Hr2 Hf Hsn2 Hsame) as [Hbyf [more Hmore]]. split; [exact Hbyf |].
  destruct Hcase as [[Hc _]|(c2 & created & x2 & e2' & Hm & Hdec & Hap & Hc & _)].
  { destruct Hlogd. by rewrite (cr_journal _ _ Hc). }
  intros es Hes. destruct (decision_sound e1 rq2 o2 c2 created x2) as (Hwf & _ & _ & Hrep); try done; [apply Ht1 | | apply Hqu1 |].
  { intros k a. by apply quiet_typed. }
  rewrite Hkey, Haft, lookup_insert_eq in Hrep. pose proof (ap_log _ _ _ _ _ _ Hap) as HL.
  change (j_log (e_journal e2') = j_log (e_journal e1) ++ decision_records (e_chain e1) (e_next_sequence e1) rq2 o2
    (durable_attempt rq2 o2 c2 created (e_stats e1))) in HL.
  change (j_log (e_journal e1)) with (entry_log <$> mj_entries (e_journal e1)) in HL. rewrite Hen in HL. simpl app in HL.
  unfold ef. rewrite Hmore, (cr_journal _ _ Hc), HL, Hch. destruct Hda as [_ _ _ _ _ Hpub Hlast [Hv Hne]].
  apply malformed_none in Hm as (_ & _ & _ & Hnote & _). rewrite Hl1 in *. unfold holds in Hes. rewrite Hl2 in Hes.
  eapply (replay_refuses_decision es (e_limits e) (e_accounts e2) (e_chain e2) (e_next_sequence e1) _ rq2 o2 _ c x x2
    (rq_sequence rq) v (a_incarnation (rq_authority rq))); try done.
  - by apply request_wf_note.
  - by rewrite Hkey, Hbef, lookup_insert_eq.
  - apply Hq.
Qed.
End Fatal.

(** C7: The snapshots that the engine takes by itself make its journal unusable.  Run
    an engine on a fresh journal with any requests and snapshots; let a request be
    decided whose record makes a snapshot due, and let that succeed.  Then let the very
    next request be one on the same account that leaves a record, whoever presents it
    and whether it is applied or refused, unless it is an [Issue] that is refused while
    naming identities; and let any further requests follow without journal failure or
    another snapshot.  No process recovers from the journal: the snapshot lacks the
    sequence that the first decision consumed, and replaying the second fails with
    [JournalDigestMismatch] 135. *)
Theorem automatic_snapshot_is_fatal limits budget operator nonce e0 cs rq rq2 rest (e' : Engine InMemoryJournal) :
  recover 1 (engine_make limits true (memory_make budget) operator nonce) = Some (success, e0) ->
  limits_ok (clamp_limits limits) -> limits_typed (clamp_limits limits) -> limits_fit (clamp_limits limits) ->
  Forall command_wf cs -> request_wf 4096 rq -> request_wf 4096 rq2 ->
  3 * Z.of_nat (length cs) + 3 * Z.of_nat (length rest) + 7 < 18446744073709551616 ->
  let e := (run cs e0).2 in
  let e1 := (apply rq e).2 in
  let o2 := (apply rq2 e1).1 in
  let e2 := (apply rq2 e1).2 in
  let ef := (run (CApply <$> rest) e2).2 in
  mj_snapshot (e_journal e1) <> mj_snapshot (e_journal e) ->
  a_account (rq_authority rq2) = a_account (rq_authority rq) -> mj_entries (e_journal e2) <> [] ->
  (rq_op rq2 = Issue -> o_applied o2 = false -> binds_nothing rq2) ->
  e_journal_failed ef = false -> mj_snapshot (e_journal ef) = mj_snapshot (e_journal e1) ->
  e_has_journal e' = true -> e_limits e' = clamp_limits limits -> e_journal e' = e_journal ef ->
  exists er, recover (S (length (mj_entries (e_journal ef)))) e' =
    Some (refused_status RJournalDigestMismatch 135, er).
Proof.
  intros H0 Hl Ht Hfi Hcs Hq Hq2 Hn e e1 o2 e2 ef Hne Hkey Hlogd Hbind Hf Hsame Hh Hl' Hj.
  rewrite first_boot_recovers in H0. injection H0 as <-. set (e0 := first_boot limits budget operator nonce) in *.
  assert (He0 : snapshottable e0) by (constructor; simpl; try done; by apply empty_engine_typed).
  assert (He : snapshottable e) by (by apply run_snapshottable).
  assert (Hqu : quiet e) by (apply run_quiet; [done | by constructor | done]).
  assert (Hr : room (3 * Z.of_nat (S (length rest)) + 3) e)
    by (apply run_room; [lia |]; constructor; simpl; [constructor | lia]).
  pose proof (surjective_pairing (apply rq e)) as Hap. fold e1 in Hap.
  assert (Hf1 : e_journal_failed e1 = false).
  { apply run_unfailed in Hf. by apply (apply_unfailed rq2 e1 _ _ (surjective_pairing _)). }
  destruct (automatic_snapshot e rq _ e1 He Hqu Hq
    (room_less (3 * Z.of_nat (S (length rest)) + 3) 3 e ltac:(lia) Hr) Hap Hf1 Hne) as (es & c & x & v & Hss).
  destruct (decision_after_snapshot e rq e1 es c x v rq2 rest) as [Hby Hrep]; try done.
  { by eapply apply_typed; [apply He | exact Hq | exact Hap]. }
  { eapply (apply_quiet rq e); [apply (en_ok _ (sn_typed _ He)) | by eapply request_wf_range | exact Hqu | exact Hap]. }
  { eapply apply_room; [lia | exact Hap | done]. }
  destruct Hss as [[Hes Hqs] _ _ _ [Hls _] _ _ Hsn _]. fold o2 e2 ef in Hby, Hrep.
  destruct (recover_loaded es e') as (er & Hh' & Hrec); try done; try (rewrite Hj; apply Hby).
  { rewrite Hl', Hls. unfold e. by rewrite run_commands_limits. }
  { rewrite Hj. fold ef in Hsame. congruence. }
  destruct (Hrep er Hh') as [er' Hr']. rewrite <-Hj in Hr'. destruct (Hrec _ _ Hr') as (x' & Hx & _).
  rewrite Hj in Hx. by exists x'.
Qed.

(** ** With a snapshot after every four records *)

Definition four_records : EngineLimits :=
  mkLimits 64 256 1024 8192 256 256 64 64 32 128 1048576 65536 64 67108864 4.

Definition opened_four : Engine InMemoryJournal :=
  (run [CApply open_request] (first_boot four_records 1000000 operator sample_nonce)).2.

(** The opening and one issue make the snapshot due; another issue is logged after it. *)
Definition snapshot_then_issue (e : Engine InMemoryJournal) : bool :=
  let e1 := (apply (issue_request 2 5) e).2 in
  let e2 := (apply (issue_request 3 5) e1).2 in
  (if mj_snapshot (e_journal e) is None then true else false) &&
  (if mj_snapshot (e_journal e1) is Some _ then true else false) &&
  (if mj_entries (e_journal e2) is [] then false else true) &&
  negb (e_journal_failed e2).

Lemma opened_four_checked : snapshot_then_issue opened_four = true.
Proof. vm_compute. reflexivity. Qed.

Lemma opened_four_kept :
  let e1 := (apply (issue_request 2 5) opened_four).2 in
  mj_snapshot (e_journal (apply (issue_request 3 5) e1).2) = mj_snapshot (e_journal e1).
Proof. vm_compute. reflexivity. Qed.

Lemma four_records_ok : limits_ok (clamp_limits four_records).
Proof. constructor; vm_compute; done. Qed.

Lemma four_records_typed : limits_typed (clamp_limits four_records).
Proof. constructor; vm_compute; done. Qed.

Lemma four_records_fit : limits_fit (clamp_limits four_records).
Proof. constructor; vm_compute; done. Qed.

Lemma issue_wf sequence count : in_u64 sequence -> in_u64 count -> request_wf 4096 (issue_request sequence count).
Proof. intros Hs Hc. apply operator_request_wf; try reflexivity; try done; unfold digest_range; simpl; word_lia. Qed.

Lemma automatic_snapshot_is_fatal_witness :
  let e2 := (apply (issue_request 3 5) (apply (issue_request 2 5) opened_four).2).2 in
  exists er, recover (S (length (mj_entries (e_journal e2))))
    (set_journal (e_journal e2) (engine_make four_records true (memory_make 0) operator (mkDigest 8 9))) =
    Some (refused_status RJournalDigestMismatch 135, er).
Proof.
  assert (Hc : Forall command_wf [CApply open_request]).
  { constructor; [| constructor]. pose proof restart_requests_wf as H. inversion H. assumption. }
  assert (G : forall e, opened_four = e -> snapshot_then_issue e = true ->
    (let e1 := (apply (issue_request 2 5) e).2 in
     mj_snapshot (e_journal (apply (issue_request 3 5) e1).2) = mj_snapshot (e_journal e1)) ->
    let e2 := (apply (issue_request 3 5) (apply (issue_request 2 5) e).2).2 in
    exists er, recover (S (length (mj_entries (e_journal e2))))
      (set_journal (e_journal e2) (engine_make four_records true (memory_make 0) operator (mkDigest 8 9))) =
      Some (refused_status RJournalDigestMismatch 135, er)).
  { intros e He Hs Hk e2. unfold snapshot_then_issue in Hs. cbv zeta in Hs. fold e2 in Hs.
    apply andb_prop in Hs as [Hs Hf]. apply andb_prop in Hs as [Hs Hn]. apply andb_prop in Hs as [Hs0 Hs1].
    pose proof (automatic_snapshot_is_fatal four_records 1000000 operator sample_nonce _ [CApply open_request]
      (issue_request 2 5) (issue_request 3 5) []
      (set_journal (e_journal e2) (engine_make four_records true (memory_make 0) operator (mkDigest 8 9)))
      (first_boot_recovers _ _ _ _) four_records_ok four_records_typed four_records_fit Hc) as H.
    cbv zeta in H. unfold opened_four in He. rewrite He in H. apply H.
    - apply issue_wf; word_lia.
    - apply issue_wf; word_lia.
    - reflexivity.
    - intros E. rewrite E in Hs1. destruct (mj_snapshot (e_journal e)); discriminate.
    - reflexivity.
    - intros E. fold e2 in E. rewrite E in Hn. discriminate.
    - intros _ _. split; [reflexivity |]. split; reflexivity.
    - exact (proj1 (negb_true_iff _) Hf).
    - exact Hk.
    - reflexivity.
    - reflexivity.
    - reflexivity. }
  exact (G opened_four eq_refl opened_four_checked opened_four_kept).
Defined.
