(* ===== verification/Platform.v ===== *)
(** * The operating system as the journal sees it
      (include/creditfabric/platform.hpp, src/platform.cpp)

    The C library and the system calls are not part of the program: what they
    answer during one call of the journal is an argument, [OS].  The wrappers of
    platform.cpp around them are modelled: which call they make in which order,
    and what status each failure becomes.  Files are their bytes; [None] is a
    file that does not exist. *)

From Stdlib Require Import String Ascii.
From S2P Require Import Prelude Status Digest.
Local Open Scope Z_scope.

(** The calls one operation of the journal makes.  [Stdio d] is the call of the
    C library whose failure the code reports with detail [d]; the numbers of the
    other calls distinguish their uses within one operation. *)
Inductive SysCall : Set :=
| Stdio (detail : Z) | Fread (n : nat) | Probe (n : nat) | Fflush (n : nat) | Fileno (n : nat)
| Fsync (n : nat) | Stat (n : nat) | Mkdir | Rename | Remove | Ftruncate.

(** Which calls succeed, and how many of the bytes handed to a failing write
    or flush reach the file. *)
Record OS := mkOS { os_ok : SysCall -> bool; os_written : nat }.

(** Nothing fails. *)
Definition healthy : OS := mkOS (fun _ => true) 0.

(** ** Files *)

Definition File : Type := option (list Z).

(** The bytes [fread] returns for [count] bytes at [offset]: fewer at the end. *)
Definition file_read (offset count : Z) (f : list Z) : list Z :=
  take (Z.to_nat count) (drop (Z.to_nat offset) f).

(** [fwrite] at [offset], filling a gap with zeros and overwriting in place. *)
Definition file_write (offset : nat) (data f : list Z) : list Z :=
  take offset f ++ replicate (offset - length f) 0 ++ data ++ drop (offset + length data) f.

(** ** platform.cpp *)

Definition durable_flush (os : OS) (n : nat) (stream : bool) : Status :=
  if negb stream then refused_status RInvalidState 0 else
  if negb (os_ok os (Fflush n)) then refused_status RIoError 0 else
  if negb (os_ok os (Fileno n)) then refused_status RIoError 0 else
  if negb (os_ok os (Fsync n)) then refused_status RIoError 0 else
  success.

(** [rename] replaces the destination atomically; syncing the directory is best effort. *)
Definition atomic_replace_file (os : OS) (source destination : File) : Status * (File * File) :=
  if negb (os_ok os Rename) then (refused_status RIoError 0, (source, destination)) else
  (success, (None, source)).

(** A file that exists but cannot be opened counts as missing. *)
Definition file_exists (os : OS) (n : nat) (f : File) : bool :=
  if f is Some _ then os_ok os (Probe n) else false.

Definition remove_file (os : OS) (n : nat) (f : File) : Status * File :=
  if negb (file_exists os n f) then (success, f) else
  if negb (os_ok os Remove) then (refused_status RIoError 0, f) else
  (success, None).

(** [find_last_of] of a set of characters. *)
Definition find_last_of (p : Ascii.ascii -> bool) (path : string) : option nat :=
  fold_left (fun last '(i, c) => if p c then Some i else last)
    (imap pair (list_ascii_of_string path)) None.

Definition is_slash (c : Ascii.ascii) : bool :=
  Ascii.eqb c "/"%char || Ascii.eqb c "\"%char.

(** The [n]-th use of [stat], and whether what it finds is a directory. *)
Definition directory_exists (os : OS) (n : nat) : bool := os_ok os (Stat n).

Definition ensure_parent_directory (os : OS) (path : string) : Status :=
  match find_last_of is_slash path with
  | None | Some O => success
  | Some _ =>
      if directory_exists os 0 then success else
      if negb (os_ok os Mkdir) && negb (directory_exists os 1) then refused_status RIoError 0 else
      success
  end.

(** The size [file_size] reports, when it can. *)
Definition file_size (os : OS) (f : File) : Status * option Z :=
  match f with
  | None => (refused_status RIoError 0, None)
  | Some bytes =>
      if negb (os_ok os (Probe 0)) then (refused_status RIoError 0, None) else
      if negb (os_ok os (Stdio 0)) then (refused_status RIoError 0, None) else
      (success, Some (Z.of_nat (length bytes)))
  end.

(** The clock counts nanoseconds; whole milliseconds are kept, as 64 bits. *)
Definition monotonic_millis (now : Z) : Z := wrap64 (Z.quot now 1000000).

(** [entropy] is what [random_u64] returns, [now] the clock. *)
Definition make_boot_id (entropy now : Z) : Z := mix64 (Z.lxor entropy (monotonic_millis now)).

(** On Windows sockets are started up once in a process: [initialized] is the static
    flag, [started] what [WSAStartup] answers. *)
Definition initialize_sockets (windows initialized started : bool) : Status * bool :=
  if negb windows then (success, initialized) else
  if initialized then (success, initialized) else
  if negb started then (refused_status RTransportError 0, initialized) else
  (success, true).

(** A shutdown leaves the flag set. *)
Definition shutdown_sockets (windows : bool) (initialized : bool) : bool := initialized.

(** ** Files that are written in place *)

Lemma file_write_append f data : file_write (length f) data f = f ++ data.
Proof.
  unfold file_write. rewrite firstn_all, Nat.sub_diag, drop_ge by lia. simpl. by rewrite app_nil_r.
Qed.

Lemma file_write_within pre f data :
  file_write (length pre) data (pre ++ f) = pre ++ data ++ drop (length data) f.
Proof.
  unfold file_write. rewrite take_app_length, length_app.
  replace (length pre - (length pre + length f))%nat with 0%nat by lia.
  by rewrite drop_app_add.
Qed.

Lemma file_read_at (offset : Z) pre data post :
  offset = Z.of_nat (length pre) ->
  file_read offset (Z.of_nat (length data)) (pre ++ data ++ post) = data.
Proof. intros ->. unfold file_read. by rewrite !Nat2Z.id, drop_app_length, take_app_length. Qed.

Lemma length_file_read_max offset count f :
  0 <= count -> Z.of_nat (length (file_read offset count f)) <= count.
Proof. intros. unfold file_read. rewrite length_take. lia. Qed.
