(* ===== verification/FileJournal.v ===== *)
(** * The file journal (include/creditfabric/file_journal.hpp, src/file_journal.cpp)

    The journal on disk: a header and a sequence of records
    [length | crc | sequence kind chain payload] in one file, the newest snapshot
    in another, replaced by renaming a temporary.  Every operation takes what the
    operating system answers during it ([OS], in [Platform]); a failing write
    leaves a prefix of what was to be written.  [FileSession] is the instance of
    [Journal]: a file journal together with the answers of the calls to come. *)

From Stdlib Require Import String.
From S2P Require Import Prelude Status Digest Bytes Crc32c Wire Journal Platform.
Local Open Scope word_scope.
Local Open Scope Z_scope.

Definition kJournalMagic : Z := 0x314A4643.
Definition kSnapshotMagic : Z := 0x31534643.
Definition kHeaderBytes : Z := 12.
Definition kRecordOverhead : Z := 8.
Definition kEnvelopeBytes : Z := 25.
Definition kSnapshotPayloadLimit : Z := 67108864.

(** [memcpy] to and from bytes, little-endian. *)
Definition put_u32 (value : Z) : list Z := w_u32 value.
Definition put_u64 (value : Z) : list Z := w_u64 value.
Definition get_u32 (source : list Z) : Z := le_or 0 0 (take 4 source).
Definition get_u64 (source : list Z) : Z := le_or 0 0 (take 8 source).

Definition encode_envelope (sequence : Z) (kind : JournalRecordKind) (chain : Digest128)
    (payload : list Z) : list Z :=
  put_u64 sequence ++ [kind_code kind] ++ put_u64 (lo chain) ++ put_u64 (hi chain) ++ payload.

(** Length, checksum and envelope, as [append] writes them. *)
Definition record_prefix (envelope : list Z) : list Z :=
  put_u32 (wrap32 (Z.of_nat (length envelope))) ++ put_u32 (crc32c envelope 0).

(** Magic, version and padding, and the twelve bytes with their checksum. *)
Definition header_body (magic : Z) : list Z := put_u32 magic ++ [Z.land kFormatVersion 0xFF; 0; 0; 0].
Definition file_header (magic : Z) : list Z :=
  header_body magic ++ put_u32 (crc32c (header_body magic) 0).

(** ** State *)

Record FileJournalOptions := mkFileOptions {
  fo_prefix : string;
  fo_max_record_bytes : Z;
  fo_max_bytes : Z;
  fo_records_per_snapshot : Z;
  fo_truncate_torn_tail : bool;
}.

Definition file_options_default : FileJournalOptions :=
  mkFileOptions "creditfabric" 1048576 67108864 4096 true.

(** The files under one prefix: the log, the snapshot and its temporary. *)
Record Disk := mkDisk { d_journal : File; d_snapshot : File; d_temporary : File }.

Definition disk_empty : Disk := mkDisk None None None.

Record FileJournal := mkFile {
  fj_options : FileJournalOptions;
  fj_disk : Disk;
  fj_stream : bool;
  fj_write_offset : Z;
  fj_scan_offset : Z;
  fj_bytes : Z;
  fj_records : Z;
  fj_truncated_bytes : Z;
  fj_replaying : bool;
  fj_torn : bool;
  fj_open : bool;
}.

Definition file_make (options : FileJournalOptions) (disk : Disk) : FileJournal :=
  mkFile options disk false 0 0 0 0 0 false false false.

Definition journal_path (j : FileJournal) : string := fo_prefix (fj_options j) +:+ ".jrnl".
Definition snapshot_path (j : FileJournal) : string := fo_prefix (fj_options j) +:+ ".snap".

Definition log_content (j : FileJournal) : list Z := default [] (d_journal (fj_disk j)).

Definition set_disk (d : Disk) (j : FileJournal) : FileJournal :=
  mkFile (fj_options j) d (fj_stream j) (fj_write_offset j) (fj_scan_offset j) (fj_bytes j)
    (fj_records j) (fj_truncated_bytes j) (fj_replaying j) (fj_torn j) (fj_open j).

(** The log file holds these bytes. *)
Definition set_log (f : list Z) (j : FileJournal) : FileJournal :=
  set_disk (mkDisk (Some f) (d_snapshot (fj_disk j)) (d_temporary (fj_disk j))) j.

Definition set_replaying (b : bool) (j : FileJournal) : FileJournal :=
  mkFile (fj_options j) (fj_disk j) (fj_stream j) (fj_write_offset j) (fj_scan_offset j) (fj_bytes j)
    (fj_records j) (fj_truncated_bytes j) b (fj_torn j) (fj_open j).

(** [write_offset_ = offset; bytes_ = write_offset_; records_ = records]. *)
Definition set_written (offset records : Z) (j : FileJournal) : FileJournal :=
  mkFile (fj_options j) (fj_disk j) (fj_stream j) offset (fj_scan_offset j) offset records
    (fj_truncated_bytes j) (fj_replaying j) (fj_torn j) (fj_open j).

(** [torn_ = true; truncated_bytes_ = write_offset_ - scan_offset_]. *)
Definition tear (j : FileJournal) : FileJournal :=
  mkFile (fj_options j) (fj_disk j) (fj_stream j) (fj_write_offset j) (fj_scan_offset j) (fj_bytes j)
    (fj_records j) (fj_write_offset j -% fj_scan_offset j) (fj_replaying j) true (fj_open j).

(** ** Opening *)

(** The checks of a header read back, with the details of its four failures. *)
Definition check_header (os : OS) (magic short bad_magic bad_crc : Z) (size : nat) (header : list Z)
    : Status :=
  if negb (os_ok os (Stdio short)) || (length header <? size)%nat
  then refused_status RJournalCorrupt short else
  if negb (get_u32 header =? magic) then refused_status RJournalCorrupt bad_magic else
  if negb (byte_at header 4 =? Z.land kFormatVersion 0xFF)
  then refused_status RJournalVersionUnsupported (byte_at header 4) else
  if negb (get_u32 (drop 8 header) =? crc32c (take 8 header) 0)
  then refused_status RJournalCorrupt bad_crc else
  success.

(** The end of [open], from [stream_ = stream]. *)
Definition open_stream (os : OS) (j : FileJournal) : Status * FileJournal :=
  let j := mkFile (fj_options j) (fj_disk j) true (fj_write_offset j) (fj_scan_offset j) (fj_bytes j)
             (fj_records j) 0 false false true in
  if negb (os_ok os (Stdio 15)) then (refused_status RIoError 15, j) else
  if negb (os_ok os (Stdio 16)) then (refused_status RIoError 16, j) else
  let size := Z.of_nat (length (log_content j)) in
  (success, mkFile (fj_options j) (fj_disk j) true size kHeaderBytes size 0 0 false false true).

Definition file_open (os : OS) (j : FileJournal) : Status * FileJournal :=
  let status := ensure_parent_directory os (journal_path j) in
  if negb (status_ok status) then (status, j) else
  let existed := file_exists os 0 (d_journal (fj_disk j)) in
  if negb (os_ok os (Stdio 10)) then (refused_status RIoError 10, j) else
  if negb existed then
    let header := file_header kJournalMagic in
    if negb (os_ok os (Stdio 11))
    then (refused_status RIoError 11, set_log (take (os_written os) header) j) else
    let status := durable_flush os 0 true in
    if negb (status_ok status) then (status, set_log (take (os_written os) header) j) else
    open_stream os (set_log header j)
  else
    let status := check_header os kJournalMagic 12 13 14 12 (file_read 0 kHeaderBytes (log_content j)) in
    if negb (status_ok status) then (status, j) else
    open_stream os j.

Definition rewrite_journal_header (os : OS) (j : FileJournal) : Status * FileJournal :=
  if negb (fj_stream j) then (refused_status RInvalidState 20, j) else
  let header := file_header kJournalMagic in
  let partial := set_log (file_write 0 (take (os_written os) header) (log_content j)) j in
  if negb (os_ok os (Stdio 21)) then (refused_status RIoError 21, j) else
  if negb (os_ok os (Stdio 22)) then (refused_status RIoError 22, partial) else
  let status := durable_flush os 0 true in
  if negb (status_ok status) then (status, partial) else
  (success, set_log (file_write 0 header (log_content j)) j).

(** [truncate_stream]: [fflush] before, so nothing buffered is left behind. *)
Definition truncate_stream (os : OS) (n : nat) (size : Z) (j : FileJournal) : Status * FileJournal :=
  if negb (os_ok os (Fflush n)) then (refused_status RIoError 1, j) else
  if negb (os_ok os (Fileno n)) then (refused_status RIoError 2, j) else
  if negb (os_ok os Ftruncate) then (refused_status RIoError 3, j) else
  (success, set_log (file_read 0 size (log_content j) ++
                     replicate (Z.to_nat size - length (log_content j)) 0) j).

(** ** Replaying *)

Definition file_begin_replay (j : FileJournal) : Status * FileJournal :=
  if negb (fj_open j) then (refused_status RInvalidState 30, j) else
  if fj_replaying j then (refused_status RInvalidState 31, j) else
  (success,
   mkFile (fj_options j) (fj_disk j) (fj_stream j) (fj_write_offset j) kHeaderBytes (fj_bytes j) 0
     (fj_truncated_bytes j) true false (fj_open j)).

Definition kind_of_code (c : Z) : option JournalRecordKind :=
  if c =? 1 then Some KAttempt else
  if c =? 2 then Some KSnapshot else
  if c =? 3 then Some KIntent else None.

(** A record whose bytes are [envelope], at [scan_offset_]. *)
Definition accept_record (kind : JournalRecordKind) (envelope : list Z) (j : FileJournal)
    : (Status * JournalRecord) * FileJournal :=
  ((success,
    mkJRecord true (get_u64 envelope) kind
      (mkDigest (get_u64 (drop 9 envelope)) (get_u64 (drop 17 envelope)))
      (drop (Z.to_nat kEnvelopeBytes) envelope) (fj_scan_offset j)),
   mkFile (fj_options j) (fj_disk j) (fj_stream j) (fj_write_offset j)
     (fj_scan_offset j +% (kRecordOverhead + Z.of_nat (length envelope))) (fj_bytes j)
     (fj_records j +% 1) (fj_truncated_bytes j) (fj_replaying j) (fj_torn j) (fj_open j)).

Definition file_next_record (os : OS) (j : FileJournal) : (Status * JournalRecord) * FileJournal :=
  let torn := ((success, jrecord_zero), tear j) in
  if negb (fj_open j) then ((refused_status RInvalidState 32, jrecord_zero), j) else
  if negb (fj_stream j) then ((refused_status RInvalidState 33, jrecord_zero), j) else
  if fj_scan_offset j +% kRecordOverhead >? fj_write_offset j then
    if negb (fj_scan_offset j =? fj_write_offset j) then torn else ((success, jrecord_zero), j)
  else
  if negb (os_ok os (Stdio 34)) then ((refused_status RIoError 34, jrecord_zero), j) else
  let prefix := file_read (fj_scan_offset j) kRecordOverhead (log_content j) in
  if negb (os_ok os (Fread 0)) || (length prefix <? 8)%nat then torn else
  let size := get_u32 prefix in
  let expected_crc := get_u32 (drop 4 prefix) in
  if (size >? fo_max_record_bytes (fj_options j)) || (size <? kEnvelopeBytes)
     || (fj_scan_offset j +% kRecordOverhead +% size >? fj_write_offset j) then torn else
  let envelope := file_read (fj_scan_offset j +% kRecordOverhead) size (log_content j) in
  if negb (os_ok os (Fread 1)) || negb (Z.of_nat (length envelope) =? size) then torn else
  if negb (crc32c envelope 0 =? expected_crc) then torn else
  match kind_of_code (byte_at envelope 8) with
  | None => torn
  | Some kind => accept_record kind envelope j
  end.

Definition file_end_replay (os : OS) (j : FileJournal) : Status * FileJournal :=
  if negb (fj_open j) then (refused_status RInvalidState 40, j) else
  if negb (fj_replaying j) then (refused_status RInvalidState 42, j) else
  let j := set_replaying false j in
  if negb (fj_stream j) then (refused_status RInvalidState 41, j) else
  if fj_torn j then
    if negb (fo_truncate_torn_tail (fj_options j))
    then (refused_status RJournalTorn (fj_truncated_bytes j), j) else
    let '(status, j) := truncate_stream os 0 (fj_scan_offset j) j in
    if negb (status_ok status) then (status, j) else
    (success, set_written (fj_scan_offset j) (fj_records j) j)
  else (success, j).

(** ** Appending and rotating *)

Definition file_append (os : OS) (sequence : Z) (kind : JournalRecordKind) (chain : Digest128)
    (payload : list Z) (j : FileJournal) : Status * FileJournal :=
  let size := Z.of_nat (length payload) in
  if negb (fj_open j) then (refused_status RInvalidState 50, j) else
  if fj_replaying j then (refused_status RInvalidState 51, j) else
  if fj_torn j then (refused_status RJournalTorn (fj_truncated_bytes j), j) else
  if size +% kEnvelopeBytes >? fo_max_record_bytes (fj_options j)
  then (refused_status ROversizedFrame size, j) else
  if fj_bytes j +% size +% kEnvelopeBytes +% kRecordOverhead >? fo_max_bytes (fj_options j)
  then (refused_status RBudgetExceeded (fj_bytes j), j) else
  if negb (fj_stream j) then (refused_status RInvalidState 52, j) else
  if negb (os_ok os (Stdio 53)) then (refused_status RIoError 53, j) else
  let envelope := encode_envelope sequence kind chain payload in
  let prefix := record_prefix envelope in
  let write data := set_log (file_write (Z.to_nat (fj_write_offset j)) data (log_content j)) j in
  if negb (os_ok os (Stdio 54)) then (refused_status RIoError 54, write (take (os_written os) prefix)) else
  if negb (os_ok os (Stdio 55))
  then (refused_status RIoError 55, write (take (os_written os) (prefix ++ envelope))) else
  let status := durable_flush os 0 true in
  if negb (status_ok status) then (status, write (take (os_written os) (prefix ++ envelope))) else
  (success,
   set_written (fj_write_offset j +% (kRecordOverhead + Z.of_nat (length envelope)))
     (fj_records j +% 1) (write (prefix ++ envelope))).

(** The sequence of the snapshot is not looked at: the whole log goes. *)
Definition file_rotate (os : OS) (snapshot_sequence : Z) (j : FileJournal) : Status * FileJournal :=
  if negb (fj_open j) then (refused_status RInvalidState 60, j) else
  if negb (fj_stream j) then (refused_status RInvalidState 61, j) else
  let '(status, j) := rewrite_journal_header os j in
  if negb (status_ok status) then (status, j) else
  let '(status, j) := truncate_stream os 1 kHeaderBytes j in
  if negb (status_ok status) then (status, j) else
  let status := durable_flush os 2 true in
  if negb (status_ok status) then (status, j) else
  (success,
   mkFile (fj_options j) (fj_disk j) (fj_stream j) kHeaderBytes kHeaderBytes kHeaderBytes 0 0
     (fj_replaying j) false (fj_open j)).

(** ** Snapshots *)

Definition snapshot_header (sequence : Z) (chain : Digest128) : list Z :=
  file_header kSnapshotMagic ++ put_u64 sequence ++ put_u64 (lo chain).

Definition snapshot_trailer (chain : Digest128) (payload : list Z) : list Z :=
  put_u64 (hi chain) ++ put_u32 (wrap32 (Z.of_nat (length payload))) ++ put_u32 (crc32c payload 0).

Definition set_temporary (f : File) (j : FileJournal) : FileJournal :=
  set_disk (mkDisk (d_journal (fj_disk j)) (d_snapshot (fj_disk j)) f) j.

(** [remove_file(temporary)], whose status is ignored, after the temporary holds [f]. *)
Definition discard_temporary (os : OS) (f : list Z) (j : FileJournal) : FileJournal :=
  set_temporary (remove_file os 1 (Some f)).2 j.

Definition file_write_snapshot (os : OS) (sequence : Z) (chain : Digest128) (payload : list Z)
    (j : FileJournal) : Status * FileJournal :=
  if Z.of_nat (length payload) >? kSnapshotPayloadLimit
  then (refused_status ROversizedFrame (Z.of_nat (length payload)), j) else
  if negb (os_ok os (Stdio 70)) then (refused_status RIoError 70, j) else
  let image := snapshot_header sequence chain ++ payload ++ snapshot_trailer chain payload in
  let partial := take (os_written os) image in
  if negb (os_ok os (Stdio 71)) then (refused_status RIoError 71, discard_temporary os partial j) else
  let flushed := durable_flush os 0 true in
  if negb (status_ok flushed) then (flushed, discard_temporary os partial j) else
  let '(replaced, (temporary, snapshot)) :=
    atomic_replace_file os (Some image) (d_snapshot (fj_disk j)) in
  if negb (status_ok replaced) then (replaced, discard_temporary os image j) else
  (success, set_disk (mkDisk (d_journal (fj_disk j)) snapshot temporary) j).

Definition file_read_snapshot (os : OS) (j : FileJournal)
    : Status * option (Z * Digest128 * list Z) :=
  let file := default [] (d_snapshot (fj_disk j)) in
  if negb (file_exists os 0 (d_snapshot (fj_disk j))) then (success, None) else
  if negb (os_ok os (Stdio 80)) then (refused_status RIoError 80, None) else
  let header := file_read 0 28 file in
  let status := check_header os kSnapshotMagic 81 82 83 28 header in
  if negb (status_ok status) then (status, None) else
  if negb (os_ok os (Stdio 84)) || (length file <? 16)%nat
  then (refused_status RJournalCorrupt 84, None) else
  let trailer := file_read (Z.of_nat (length file) - 16) 16 file in
  let size := get_u32 (drop 8 trailer) in
  if size >? kSnapshotPayloadLimit then (refused_status RJournalCorrupt 85, None) else
  let payload := file_read 28 size file in
  if negb (os_ok os (Stdio 86)) || negb (Z.of_nat (length payload) =? size)
  then (refused_status RJournalCorrupt 86, None) else
  if negb (crc32c payload 0 =? get_u32 (drop 12 trailer))
  then (refused_status RJournalCorrupt 87, None) else
  (success, Some (get_u64 (drop 12 header),
                  mkDigest (get_u64 (drop 20 header)) (get_u64 trailer), payload)).

(** ** Describing and closing *)

Definition file_describe (j : FileJournal) : string :=
  journal_path j +:+ " (bytes=" +:+ dec_string (fj_bytes j) +:+ " records="
    +:+ dec_string (fj_records j) +:+ (if fj_torn j then " torn=yes" else " torn=no") +:+ ")".

Definition file_close (j : FileJournal) : Status * FileJournal :=
  (success,
   mkFile (fj_options j) (fj_disk j) false (fj_write_offset j) (fj_scan_offset j) (fj_bytes j)
     (fj_records j) (fj_truncated_bytes j) false (fj_torn j) false).

(** ** The instance *)

(** A journal and what the operating system will answer to the calls to come;
    when the list is used up, everything succeeds. *)
Record FileSession := mkSession { se_file : FileJournal; se_script : list OS }.

Definition se_os (s : FileSession) : OS := hd healthy (se_script s).

Definition in_session {A} (f : OS -> FileJournal -> A * FileJournal) (s : FileSession) : A * FileSession :=
  let '(a, j) := f (se_os s) (se_file s) in (a, mkSession j (tail (se_script s))).

#[global] Instance file_journal : Journal FileSession := {
  j_open := in_session file_open;
  j_append s k c p := in_session (fun os => file_append os s k c p);
  j_begin_replay := in_session (fun _ => file_begin_replay);
  j_next_record := in_session file_next_record;
  j_end_replay := in_session file_end_replay;
  j_rotate s := in_session (fun os => file_rotate os s);
  j_write_snapshot s c p := in_session (fun os => file_write_snapshot os s c p);
  j_read_snapshot s := file_read_snapshot (se_os s) (se_file s);
  j_bytes s := fj_bytes (se_file s);
  j_records s := fj_records (se_file s);
  j_torn_tail s := fj_torn (se_file s);
  j_close := in_session (fun _ => file_close);
}.
