(* ===== verification/FileLog.v ===== *)
(** * What the file journal keeps

    The log file as the concatenation of its records, replay of a log whose last
    record was cut short, the effect of failures and crashes while appending,
    damaged records, and the snapshot file. *)

From S2P Require Import Prelude Status Digest Bytes Crc32c Wire Journal Platform FileJournal.
Local Open Scope word_scope.
Local Open Scope Z_scope.

(** ** The bytes of a log *)

Definition entry_envelope (e : LogEntry) : list Z :=
  encode_envelope (lg_sequence e) (lg_kind e) (lg_chain e) (lg_payload e).

Definition encode_record (e : LogEntry) : list Z :=
  record_prefix (entry_envelope e) ++ entry_envelope e.

Definition log_bytes (es : list LogEntry) : list Z := concat (encode_record <$> es).

Definition log_image (es : list LogEntry) : list Z := file_header kJournalMagic ++ log_bytes es.

(** An entry whose numbers fit the types of [append]'s arguments. *)
Record entry_typed (e : LogEntry) : Prop := {
  ety_sequence : in_u64 (lg_sequence e);
  ety_kind : lg_kind e <> KUnknown;
  ety_chain : digest_range (lg_chain e);
  ety_payload : Forall in_u8 (lg_payload e);
  ety_length : Z.of_nat (length (lg_payload e)) < 2 ^ 63;
}.

(** An entry the journal can hold: its record fits the configured maximum. *)
Record entry_wf (options : FileJournalOptions) (e : LogEntry) : Prop := {
  ewf_typed : entry_typed e;
  ewf_size : Z.of_nat (length (lg_payload e)) + kEnvelopeBytes <= fo_max_record_bytes options;
}.

(** The length of a record is stored in 32 bits, and file offsets are [long]. *)
Definition options_wf (options : FileJournalOptions) : Prop :=
  in_u32 (fo_max_record_bytes options) /\ 0 <= fo_max_bytes options < 2 ^ 63.

(** File offsets are [long]. *)
Definition file_fits (f : list Z) : Prop := Z.of_nat (length f) < 2 ^ 63.

#[global] Opaque w_u32 w_u64.

Lemma length_put_u32 v : length (put_u32 v) = 4%nat.
Proof. apply (length_w_le 4). Qed.
Lemma length_put_u64 v : length (put_u64 v) = 8%nat.
Proof. apply (length_w_le 8). Qed.
Lemma put_u32_bytes v : Forall in_u8 (put_u32 v).
Proof. apply (w_le_bytes 4). Qed.
Lemma put_u64_bytes v : Forall in_u8 (put_u64 v).
Proof. apply (w_le_bytes 8). Qed.

Lemma get_put_u32 v k : in_u32 v -> get_u32 (put_u32 v ++ k) = v.
Proof.
  intros. unfold get_u32. rewrite take_app_exact by (by rewrite length_put_u32). by apply (le_or_word 4).
Qed.
Lemma get_put_u64 v k : in_u64 v -> get_u64 (put_u64 v ++ k) = v.
Proof.
  intros. unfold get_u64. rewrite take_app_exact by (by rewrite length_put_u64). by apply (le_or_word 8).
Qed.

Create Rewrite HintDb file_len.
#[export] Hint Rewrite @length_app @length_cons @length_nil length_put_u32 length_put_u64 : file_len.
Ltac len := autorewrite with file_len; simpl length.
Tactic Notation "len" "in" hyp(H) := autorewrite with file_len in H; simpl length in H.

Lemma length_envelope e : length (entry_envelope e) = (25 + length (lg_payload e))%nat.
Proof. unfold entry_envelope, encode_envelope. len. lia. Qed.

Lemma length_record_prefix env : length (record_prefix env) = 8%nat.
Proof. unfold record_prefix. by len. Qed.

Lemma length_encode_record e : length (encode_record e) = (33 + length (lg_payload e))%nat.
Proof. unfold encode_record. rewrite length_app, length_record_prefix, length_envelope. lia. Qed.

Lemma length_file_header magic : length (file_header magic) = 12%nat.
Proof. unfold file_header, header_body. by len. Qed.

#[export] Hint Rewrite length_envelope length_record_prefix length_encode_record length_file_header : file_len.

Lemma envelope_bytes e options : entry_wf options e -> Forall in_u8 (entry_envelope e).
Proof.
  intros [[] _]. unfold entry_envelope, encode_envelope.
  repeat apply Forall_app_2; auto using put_u64_bytes.
  constructor; [| done]. destruct (lg_kind e); simpl; word_lia.
Qed.

Lemma kind_of_kind_code k : k <> KUnknown -> kind_of_code (kind_code k) = Some k.
Proof. by destruct k. Qed.

(** Reading the fields of an envelope back. *)
Lemma envelope_fields e options :
  entry_wf options e ->
  let env := entry_envelope e in
  get_u64 env = lg_sequence e /\ kind_of_code (byte_at env 8) = Some (lg_kind e) /\
  mkDigest (get_u64 (drop 9 env)) (get_u64 (drop 17 env)) = lg_chain e /\
  drop (Z.to_nat kEnvelopeBytes) env = lg_payload e.
Proof.
  intros [[Hs Hk [Hlo Hhi] Hp _] _] env. unfold env, entry_envelope, encode_envelope.
  set (s := put_u64 (lg_sequence e)). set (l := put_u64 (lo (lg_chain e))).
  set (h := put_u64 (hi (lg_chain e))).
  assert (Ls : length s = 8%nat) by apply length_put_u64.
  assert (Ll : length l = 8%nat) by apply length_put_u64.
  assert (Lh : length h = 8%nat) by apply length_put_u64.
  split_and!.
  - unfold s. by rewrite get_put_u64.
  - unfold byte_at. rewrite lookup_app_r by lia. rewrite Ls. simpl. by apply kind_of_kind_code.
  - rewrite (app_assoc s), drop_app_exact by (len; lia). unfold l at 1. rewrite get_put_u64 by done.
    rewrite (app_assoc _ l), drop_app_exact by (len; lia). unfold h. rewrite get_put_u64 by done.
    by destruct (lg_chain e).
  - rewrite !app_assoc, drop_app_exact; [done |]. unfold kEnvelopeBytes. len. lia.
Qed.

(** ** One record at a time *)

(** A journal whose file is [pre ++ post], about to read [post]. *)
Record scanning (pre post : list Z) (j : FileJournal) : Prop := {
  sn_open : fj_open j = true; sn_stream : fj_stream j = true;
  sn_content : log_content j = pre ++ post;
  sn_write : fj_write_offset j = Z.of_nat (length (pre ++ post));
  sn_scan : fj_scan_offset j = Z.of_nat (length pre);
  sn_fits : file_fits (pre ++ post);
}.

(** What reading a record leaves alone. *)
Record same_log (j j' : FileJournal) : Prop := {
  sl_options : fj_options j' = fj_options j; sl_disk : fj_disk j' = fj_disk j;
  sl_replaying : fj_replaying j' = fj_replaying j; sl_bytes : fj_bytes j' = fj_bytes j;
}.

#[global] Instance same_log_preorder : PreOrder same_log.
Proof. split; [by constructor | by intros ??? [] []; constructor; etrans]. Qed.

Definition record_at (offset : Z) (e : LogEntry) : JournalRecord :=
  mkJRecord true (lg_sequence e) (lg_kind e) (lg_chain e) (lg_payload e) offset.

(** A prefix and an envelope of the right length, at the scan offset. *)
Lemma next_record_framed pre prefix env post j :
  scanning pre (prefix ++ env ++ post) j -> length prefix = 8%nat ->
  get_u32 prefix = Z.of_nat (length env) ->
  kEnvelopeBytes <= Z.of_nat (length env) <= fo_max_record_bytes (fj_options j) ->
  file_next_record healthy j =
  if negb (crc32c env 0 =? get_u32 (drop 4 prefix)) then ((success, jrecord_zero), tear j) else
  match kind_of_code (byte_at env 8) with
  | None => ((success, jrecord_zero), tear j)
  | Some kind => accept_record kind env j
  end.
Proof.
  intros [Ho Hs Hc Hw Hsc Hf] Hp Hn Hm. unfold file_fits in Hf. unfold file_next_record, kRecordOverhead in *.
  rewrite Ho, Hs, Hc, Hw, Hsc. simpl os_ok. cbn [negb orb]. rewrite !length_app, Hp in *.
  rewrite wrap64_small by word_lia.
  destruct (Z.gtb_spec (Z.of_nat (length pre) + 8) (Z.of_nat (length pre + (8 + (length env + length post)))));
    [lia |].
  assert (Hr : file_read (Z.of_nat (length pre)) 8 (pre ++ prefix ++ env ++ post) = prefix).
  { change 8 with (Z.of_nat 8). rewrite <-Hp. by apply file_read_at. }
  rewrite Hr, Hp, Hn. change (8 <? 8)%nat with false. cbv iota.
  destruct (Z.gtb_spec (Z.of_nat (length env)) (fo_max_record_bytes (fj_options j))); [lia |].
  destruct (Z.ltb_spec (Z.of_nat (length env)) kEnvelopeBytes); [lia |]. cbn [orb].
  rewrite wrap64_small by word_lia.
  destruct (Z.gtb_spec (Z.of_nat (length pre) + 8 + Z.of_nat (length env))
    (Z.of_nat (length pre + (8 + (length env + length post))))); [lia |].
  rewrite (app_assoc pre), file_read_at by (rewrite length_app; lia).
  rewrite Z.eqb_refl. done.
Qed.

(** A whole record is delivered and the scan moves past it. *)
Lemma next_record_whole pre e post j :
  scanning pre (encode_record e ++ post) j -> entry_wf (fj_options j) e -> options_wf (fj_options j) ->
  exists j', file_next_record healthy j = ((success, record_at (Z.of_nat (length pre)) e), j') /\
    scanning (pre ++ encode_record e) post j' /\ same_log j j' /\ fj_torn j' = fj_torn j /\
    fj_truncated_bytes j' = fj_truncated_bytes j.
Proof.
  intros Hs He Ho. pose proof (envelope_fields e _ He) as (F1 & F2 & F3 & F4). cbv zeta in *.
  pose proof (ewf_size _ _ He) as Hz. unfold options_wf in Ho. unfold kEnvelopeBytes in Hz.
  pose proof (length_envelope e) as Hl. pose proof (envelope_bytes _ _ He) as Hb.
  unfold encode_record in Hs |- *. rewrite <-app_assoc in Hs.
  assert (Hc : in_u32 (crc32c (entry_envelope e) 0)) by (apply crc32c_range; [done | word_lia]).
  rewrite (next_record_framed pre _ _ post j Hs); [| by len | | unfold kEnvelopeBytes; lia].
  2: { unfold record_prefix. rewrite get_put_u32; [apply wrap32_small | apply wrap32_range]. word_lia. }
  unfold record_prefix at 1. rewrite drop_app_exact by (by len).
  rewrite <-(app_nil_r (put_u32 (crc32c _ _))), get_put_u32, Z.eqb_refl by done. simpl negb. cbv iota.
  rewrite F2. unfold accept_record. rewrite F1, F3, F4.
  destruct Hs as [S1 S2 S3 S4 S5 S6]. rewrite S5. eexists. split; [done |].
  split_and!; [| by constructor | done | done].
  constructor; simpl; rewrite <-?app_assoc; try done.
  unfold kRecordOverhead, file_fits in *. rewrite !length_app, length_record_prefix in *.
  rewrite wrap64_small by word_lia. lia.
Qed.

(** At the end of the file there is nothing to deliver. *)
Lemma next_record_end pre j :
  scanning pre [] j -> file_next_record healthy j = ((success, jrecord_zero), j).
Proof.
  intros [S1 S2 S3 S4 S5 S6]. unfold file_next_record, kRecordOverhead. rewrite S1, S2, S4, S5. simpl.
  rewrite app_nil_r in *. unfold file_fits in S6. rewrite wrap64_small by word_lia.
  destruct (Z.gtb_spec (Z.of_nat (length pre) + 8) (Z.of_nat (length pre))); [| lia].
  by rewrite Z.eqb_refl.
Qed.

(** A record cut short ends the log. *)
Lemma next_record_cut pre e (n : nat) j :
  scanning pre (take n (encode_record e)) j -> entry_wf (fj_options j) e -> options_wf (fj_options j) ->
  (0 < n < length (encode_record e))%nat ->
  file_next_record healthy j = ((success, jrecord_zero), tear j) /\
  fj_truncated_bytes (tear j) = Z.of_nat n.
Proof.
  intros [S1 S2 S3 S4 S5 S6] He Ho Hn. pose proof (ewf_size _ _ He) as Hz.
  unfold options_wf in Ho. unfold kEnvelopeBytes in Hz.
  assert (Hlen : length (take n (encode_record e)) = n) by (rewrite length_take; lia).
  unfold file_fits in S6. rewrite length_app, Hlen in S4, S6. split.
  2: { simpl. rewrite S4, S5, wrap64_small by word_lia. lia. }
  unfold file_next_record, kRecordOverhead. rewrite S1, S2, S3, S4, S5. simpl os_ok. cbn [negb orb].
  rewrite wrap64_small by word_lia.
  destruct (Z.gtb_spec (Z.of_nat (length pre) + 8) (Z.of_nat (length pre + n))).
  { destruct (Z.eqb_spec (Z.of_nat (length pre)) (Z.of_nat (length pre + n))); [lia | done]. }
  rewrite length_encode_record in Hn.
  assert (Ht : take n (encode_record e) =
    record_prefix (entry_envelope e) ++ take (n - 8) (entry_envelope e)).
  { unfold encode_record. rewrite take_app_ge by (len; lia). by len. }
  assert (Hr : file_read (Z.of_nat (length pre)) 8 (pre ++ take n (encode_record e)) =
    record_prefix (entry_envelope e)).
  { rewrite Ht. change 8 with (Z.of_nat 8). rewrite <-(length_record_prefix (entry_envelope e)).
    by apply file_read_at. }
  rewrite Hr, length_record_prefix. change (8 <? 8)%nat with false. cbv iota.
  unfold record_prefix at 1 2 3. rewrite get_put_u32 by apply wrap32_range.
  rewrite wrap32_small by (rewrite length_envelope; word_lia). rewrite length_envelope.
  rewrite wrap64_small by word_lia.
  destruct (Z.gtb_spec (Z.of_nat (length pre) + 8 + Z.of_nat (25 + length (lg_payload e)))
    (Z.of_nat (length pre + n))); [| lia].
  by rewrite orb_true_r.
Qed.

(** ** Whole logs *)

(** Read until the journal reports the end. *)
Fixpoint drain (fuel : nat) (j : FileJournal) : list JournalRecord * FileJournal :=
  match fuel with
  | O => ([], j)
  | S fuel =>
      let '((status, r), j) := file_next_record healthy j in
      if status_ok status && jr_valid r then
        let '(rs, j) := drain fuel j in (r :: rs, j)
      else ([], j)
  end.

(** A new process: open the journal and replay it. *)
Definition file_boot (options : FileJournalOptions) (disk : Disk)
    : list Status * list JournalRecord * FileJournal :=
  let '(opened, j) := file_open healthy (file_make options disk) in
  let '(begun, j) := file_begin_replay j in
  let '(records, j) := drain (S (length (log_content j))) j in
  let '(ended, j) := file_end_replay healthy j in
  ([opened; begun; ended], records, j).

(** The records of a log that starts at [offset]. *)
Fixpoint records_from (offset : Z) (es : list LogEntry) : list JournalRecord :=
  match es with
  | [] => []
  | e :: es => record_at offset e :: records_from (offset + Z.of_nat (length (encode_record e))) es
  end.

(** Bytes at which a replay stops, with or without declaring the log torn. *)
Definition stops (options : FileJournalOptions) (bad : list Z) (torn : bool) : Prop :=
  forall pre j, scanning pre bad j -> fj_options j = options ->
    file_next_record healthy j = ((success, jrecord_zero), if torn then tear j else j).

Lemma stops_end options : stops options [] false.
Proof. intros pre j Hs _. by apply next_record_end in Hs. Qed.

Lemma stops_cut options e (n : nat) :
  entry_wf options e -> options_wf options -> (n < length (encode_record e))%nat ->
  stops options (take n (encode_record e)) (negb (n =? 0)%nat).
Proof.
  intros He Ho Hn. destruct n as [|n]; [apply stops_end |].
  intros pre j Hs <-. by apply (next_record_cut pre e (S n) j Hs He Ho ltac:(lia)).
Qed.

Lemma drain_log fuel pre es bad torn j :
  scanning pre (log_bytes es ++ bad) j -> Forall (entry_wf (fj_options j)) es ->
  options_wf (fj_options j) -> stops (fj_options j) bad torn -> (length es < fuel)%nat ->
  exists j', drain fuel j = (records_from (Z.of_nat (length pre)) es, if torn then tear j' else j') /\
    scanning (pre ++ log_bytes es) bad j' /\ same_log j j' /\ fj_torn j' = fj_torn j.
Proof.
  revert fuel pre j. induction es as [|e es IH]; intros fuel pre j Hs Hes Ho Hb Hf;
    (destruct fuel as [|fuel]; [simpl in Hf; lia |]); simpl.
  - simpl in Hs. rewrite (Hb pre j Hs eq_refl). simpl. exists j. by rewrite app_nil_r.
  - apply Forall_cons in Hes as [He Hes]. simpl in Hf.
    change (log_bytes (e :: es)) with (encode_record e ++ log_bytes es) in Hs |- *.
    rewrite <-app_assoc in Hs.
    destruct (next_record_whole _ _ _ _ Hs He Ho) as (j1 & -> & Hs1 & Hl & Ht & _). simpl.
    pose proof (sl_options _ _ Hl) as Hopt.
    destruct (IH fuel _ j1 Hs1) as (j' & -> & Hs' & Hl' & Ht'); rewrite ?Hopt; try done; [lia |].
    exists j'. rewrite length_app, Nat2Z.inj_add. split; [done |]. rewrite (app_assoc pre).
    split_and!; [done | by etrans | by etrans].
Qed.

(** ** Opening *)

Lemma file_header_checks magic short bad_magic bad_crc post :
  in_u32 magic -> let header := file_header magic ++ post in
  check_header healthy magic short bad_magic bad_crc (length header) header = success.
Proof.
  intros Hm header. unfold check_header. simpl os_ok. rewrite Nat.ltb_irrefl. cbn [negb orb].
  assert (Hb : length (header_body magic) = 8%nat) by (unfold header_body; by len).
  assert (Hr : Forall in_u8 (header_body magic)).
  { unfold header_body. apply Forall_app_2; [apply put_u32_bytes |].
    repeat constructor; by vm_compute. }
  unfold header, file_header. rewrite <-app_assoc, take_app_exact, drop_app_exact by done.
  rewrite get_put_u32, Z.eqb_refl by (apply crc32c_range; [done | word_lia]).
  unfold header_body. rewrite <-!app_assoc, get_put_u32, Z.eqb_refl by done. simpl negb. cbv iota.
  by rewrite Z.eqb_refl.
Qed.

Lemma file_open_image options disk post :
  d_journal disk = Some (file_header kJournalMagic ++ post) ->
  let size := Z.of_nat (length (file_header kJournalMagic ++ post)) in
  file_open healthy (file_make options disk) =
  (success, mkFile options disk true size kHeaderBytes size 0 0 false false true).
Proof.
  intros Hd size. unfold file_open, ensure_parent_directory, file_exists, log_content. simpl.
  rewrite Hd. simpl default.
  replace (match find_last_of _ _ with Some (S _) => success | _ => success end) with success
    by (by destruct (find_last_of _ _) as [[|]|]).
  unfold kHeaderBytes, file_read. simpl (Z.to_nat 0). rewrite drop_0.
  rewrite take_app_exact by (by rewrite length_file_header).
  pose proof (file_header_checks kJournalMagic 12 13 14 [] ltac:(by vm_compute)) as Hc.
  cbv zeta in Hc. rewrite app_nil_r, length_file_header in Hc. rewrite Hc. simpl.
  unfold open_stream, log_content. simpl. rewrite Hd. done.
Qed.

Lemma end_replay_torn good bad j :
  fj_open j = true -> fj_replaying j = true -> fj_stream j = true -> fj_torn j = true ->
  fo_truncate_torn_tail (fj_options j) = true -> log_content j = good ++ bad ->
  fj_scan_offset j = Z.of_nat (length good) ->
  file_end_replay healthy j =
  (success, set_written (fj_scan_offset j) (fj_records j) (set_log good (set_replaying false j))).
Proof.
  intros H1 H2 H3 H4 H5 H6 H7. unfold file_end_replay. rewrite H1, H2. cbn [negb].
  unfold truncate_stream. destruct j as [o d s w sc b r t rp tn op]. cbn in *. subst. cbn.
  unfold log_content in *. cbn in *. rewrite H5, H6. cbn. unfold file_read. rewrite !Nat2Z.id. cbn.
  rewrite drop_0, take_app_length, length_app.
  replace (length good - (length good + length bad))%nat with 0%nat by lia. simpl. by rewrite app_nil_r.
Qed.

Lemma end_replay_whole j :
  fj_open j = true -> fj_replaying j = true -> fj_stream j = true -> fj_torn j = false ->
  file_end_replay healthy j = (success, set_replaying false j).
Proof.
  intros H1 H2 H3 H4. unfold file_end_replay. destruct j. cbn in *. by subst.
Qed.

(** The three steps of a boot on a file with an intact header. *)
Lemma file_boot_log options disk es bad torn :
  d_journal disk = Some (log_image es ++ bad) -> file_fits (log_image es ++ bad) ->
  Forall (entry_wf options) es -> options_wf options -> stops options bad torn ->
  fo_truncate_torn_tail options = true ->
  exists j, file_boot options disk = ([success; success; success], records_from kHeaderBytes es, j) /\
    d_journal (fj_disk j) = Some (if torn then log_image es else log_image es ++ bad) /\
    d_snapshot (fj_disk j) = d_snapshot disk /\ fj_options j = options /\ fj_torn j = torn /\
    fj_open j = true /\ fj_stream j = true /\ fj_replaying j = false /\
    fj_write_offset j = Z.of_nat (length (if torn then log_image es else log_image es ++ bad)) /\
    fj_bytes j = fj_write_offset j /\
    (torn = true -> fj_truncated_bytes j = Z.of_nat (length bad)).
Proof.
  intros Hd Hf Hes Ho Hb Ht. unfold log_image in Hd, Hf. rewrite <-app_assoc in Hd, Hf.
  unfold file_boot. rewrite (file_open_image _ _ _ Hd). unfold file_begin_replay at 1. simpl fj_open.
  cbn [negb fj_replaying]. set (size := Z.of_nat _).
  set (j0 := mkFile _ _ _ _ _ _ _ _ _ _ _).
  assert (Hs : scanning (file_header kJournalMagic) (log_bytes es ++ bad) j0).
  { constructor; try done. unfold log_content. simpl. by rewrite Hd. }
  assert (Hlen : (length es <= length (log_bytes es))%nat).
  { clear. induction es as [|e es IH]; [done |].
    change (log_bytes (e :: es)) with (encode_record e ++ log_bytes es). len. lia. }
  destruct (drain_log (S (length (log_content j0))) _ es bad torn j0 Hs) as (j & -> & Hs' & Hl & Htn);
    try done.
  { rewrite (sn_content _ _ _ Hs). len. lia. }
  replace (Z.of_nat (length (file_header kJournalMagic))) with kHeaderBytes by (by rewrite length_file_header).
  destruct Hs' as [S1 S2 S3 S4 S5 S6], Hl as [L1 L2 L3 L4]. simpl in L1, L2, L3, L4, Htn.
  fold (log_image es) in S3, S4, S5, S6. unfold file_fits in S6. rewrite length_app in S4, S6.
  destruct torn.
  - rewrite (end_replay_torn (log_image es) bad); simpl; rewrite ?L1, ?L3; try done.
    eexists. split; [done |]. unfold set_log. simpl. rewrite S4, S5, L1, L2.
    split_and!; try done. intros _. rewrite wrap64_small by word_lia. lia.
  - rewrite end_replay_whole; rewrite ?L3, ?Htn; try done.
    eexists. split; [done |]. simpl. rewrite L1, L2, L4, S4. unfold size.
    rewrite (app_assoc (file_header _)) in Hd |- *. fold (log_image es) in Hd |- *.
    rewrite length_app. by split_and!.
Qed.

(** ** Appending *)

(** A journal in service whose file holds exactly [es]. *)
Record holds (es : list LogEntry) (j : FileJournal) : Prop := {
  ho_open : fj_open j = true; ho_stream : fj_stream j = true;
  ho_replaying : fj_replaying j = false; ho_torn : fj_torn j = false;
  ho_log : d_journal (fj_disk j) = Some (log_image es);
  ho_write : fj_write_offset j = Z.of_nat (length (log_image es));
  ho_bytes : fj_bytes j = fj_write_offset j;
  ho_entries : Forall (entry_wf (fj_options j)) es;
  ho_fits : file_fits (log_image es);
}.

Lemma log_image_snoc es e : log_image (es ++ [e]) = log_image es ++ encode_record e.
Proof.
  unfold log_image, log_bytes. rewrite fmap_app, concat_app, <-app_assoc. simpl. by rewrite app_nil_r.
Qed.

(** A refused append has written [n] bytes of the record behind the log. *)
Record left_behind (es : list LogEntry) (e : LogEntry) (j j' : FileJournal) (n : nat) : Prop := {
  lb_options : fj_options j' = fj_options j;
  lb_snapshot : d_snapshot (fj_disk j') = d_snapshot (fj_disk j);
  lb_log : d_journal (fj_disk j') = Some (log_image es ++ take n (encode_record e));
  lb_entry : n <> O -> entry_wf (fj_options j) e;
  lb_fits : file_fits (log_image es ++ take n (encode_record e));
}.

Lemma left_nothing es e j : holds es j -> left_behind es e j j 0.
Proof.
  intros [H1 H2 H3 H4 H5 H6 H7 H8 H9]. constructor; rewrite ?take_0, ?app_nil_r; done.
Qed.

Lemma file_append_cases os e j es st j' :
  holds es j -> options_wf (fj_options j) -> entry_typed e ->
  file_append os (lg_sequence e) (lg_kind e) (lg_chain e) (lg_payload e) j = (st, j') ->
  st = success /\ holds (es ++ [e]) j' /\ fj_options j' = fj_options j /\
    d_snapshot (fj_disk j') = d_snapshot (fj_disk j) \/
  status_ok st = false /\ exists n, left_behind es e j j' n.
Proof.
  intros Hh [Ho Hm] Ht. pose proof (left_nothing es e j Hh) as H0.
  destruct Hh as [H1 H2 H3 H4 H5 H6 H7 H8 H9]. pose proof (ety_length _ Ht) as Hl.
  unfold file_append, kEnvelopeBytes, kRecordOverhead. rewrite H1, H2, H3, H4, H7. cbn [negb].
  unfold file_fits in H9. rewrite wrap64_small by word_lia.
  destruct (Z.gtb_spec (Z.of_nat (length (lg_payload e)) + 25) (fo_max_record_bytes (fj_options j)));
    [intros [= <- <-]; right; by eauto |].
  rewrite (wrap64_small (_ + Z.of_nat _)) by word_lia.
  rewrite (wrap64_small (_ + _ + 25)) by word_lia.
  rewrite (wrap64_small (_ + _ + _ + 8)) by word_lia.
  destruct (Z.gtb_spec (fj_write_offset j + Z.of_nat (length (lg_payload e)) + 25 + 8)
    (fo_max_bytes (fj_options j))); [intros [= <- <-]; right; by eauto |].
  assert (He : entry_wf (fj_options j) e) by (constructor; [done | unfold kEnvelopeBytes; lia]).
  fold (entry_envelope e) (encode_record e).
  assert (Hw : forall data, file_write (Z.to_nat (fj_write_offset j)) data (log_content j) =
    log_image es ++ data).
  { intros data. unfold log_content. rewrite H5, H6, Nat2Z.id. apply file_write_append. }
  assert (Hfail : forall n, left_behind es e j
    (set_log (file_write (Z.to_nat (fj_write_offset j)) (take n (encode_record e)) (log_content j)) j) n).
  { intros n. rewrite Hw. constructor; try done. unfold file_fits. rewrite length_app, length_take.
    rewrite length_encode_record. lia. }
  destruct (os_ok os (Stdio 53)); cbn [negb]; [| intros [= <- <-]; right; by eauto].
  destruct (os_ok os (Stdio 54)); cbn [negb].
  2: { intros [= <- <-]. right. split; [done |]. exists (os_written os `min` 8)%nat.
       replace (take _ (record_prefix (entry_envelope e)))
         with (take (os_written os `min` 8) (encode_record e)); [apply Hfail |].
       unfold encode_record. rewrite take_app_le by (rewrite length_record_prefix; lia).
       by rewrite <-take_take, (take_ge _ 8) by (rewrite length_record_prefix; lia). }
  destruct (os_ok os (Stdio 55)); cbn [negb]; [| intros [= <- <-]; right; by eauto].
  unfold durable_flush. cbn [negb].
  destruct (os_ok os (Fflush 0)); cbn [negb]; [| intros [= <- <-]; right; by eauto].
  destruct (os_ok os (Fileno 0)); cbn [negb]; [| intros [= <- <-]; right; by eauto].
  destruct (os_ok os (Fsync 0)); cbn [negb]; [| intros [= <- <-]; right; by eauto].
  intros [= <- <-]. left. rewrite Hw. split_and!; try done.
  specialize (Hfail (length (encode_record e))). rewrite firstn_all, Hw in Hfail.
  pose proof (lb_fits _ _ _ _ _ Hfail) as Hfit. rewrite firstn_all, <-log_image_snoc in Hfit.
  assert (Hwo : fj_write_offset j +% (8 + Z.of_nat (length (entry_envelope e))) =
    Z.of_nat (length (log_image (es ++ [e])))).
  { unfold file_fits in Hfit. rewrite log_image_snoc in *. len in Hfit. len.
    rewrite H6, wrap64_small by word_lia. lia. }
  constructor; simpl; rewrite ?Hwo; try done.
  - by rewrite log_image_snoc.
  - apply Forall_app_2; [done |]. by constructor.
Qed.

(** Appending entries one after the other, up to the first refusal: those that
    were accepted, and the refused one. *)
Fixpoint append_run (l : list (OS * LogEntry)) (j : FileJournal)
    : list LogEntry * option LogEntry * FileJournal :=
  match l with
  | [] => ([], None, j)
  | (os, e) :: l =>
      let '(status, j) :=
        file_append os (lg_sequence e) (lg_kind e) (lg_chain e) (lg_payload e) j in
      if status_ok status then
        let '(accepted, refused, j) := append_run l j in (e :: accepted, refused, j)
      else ([], Some e, j)
  end.

Lemma append_run_cases l es j accepted refused j' :
  holds es j -> options_wf (fj_options j) -> Forall (fun x => entry_typed x.2) l ->
  append_run l j = (accepted, refused, j') ->
  fj_options j' = fj_options j /\ d_snapshot (fj_disk j') = d_snapshot (fj_disk j) /\
  Forall (entry_wf (fj_options j)) (es ++ accepted) /\
  exists e n, d_journal (fj_disk j') = Some (log_image (es ++ accepted) ++ take n (encode_record e)) /\
    file_fits (log_image (es ++ accepted) ++ take n (encode_record e)) /\
    (n <> O -> refused = Some e /\ entry_wf (fj_options j) e).
Proof.
  intros Hh Ho Hl. revert es j accepted refused j' Hh Ho.
  induction l as [|[os e] l IH]; intros es j accepted refused j' Hh Ho; simpl.
  - intros [= <- <- <-]. rewrite app_nil_r. split_and!; try done; [apply Hh |].
    exists (mkLog 0 KIntent digest_zero []), O. rewrite take_0, app_nil_r.
    split_and!; [apply Hh | apply Hh | done].
  - apply Forall_cons in Hl as [He Hl]. simpl in He. destruct (file_append _ _ _ _ _ _) as [st j1] eqn:E.
    destruct (file_append_cases _ _ _ _ _ _ Hh Ho He E)
      as [(-> & Hh1 & Ho1 & Hs1)|(Hst & n & [L1 L2 L3 L4 L5])].
    + simpl. destruct (append_run l j1) as [[acc ref] j2] eqn:E2. intros [= <- <- <-].
      rewrite <-Ho1 in Ho |- *.
      destruct (IH Hl _ _ _ _ _ Hh1 Ho E2) as (A & B & C & D). rewrite <-Hs1.
      rewrite <-app_assoc in C, D. by split_and!.
    + rewrite Hst. intros [= <- <- <-]. rewrite app_nil_r. split_and!; try done; [apply Hh |].
      exists e, n. split_and!; try done. intros Hn. by split; [| apply L4].
Qed.

(** A boot on an undamaged log leaves the journal in service. *)
Lemma boot_holds options disk es :
  d_journal disk = Some (log_image es) -> file_fits (log_image es) -> Forall (entry_wf options) es ->
  options_wf options -> fo_truncate_torn_tail options = true ->
  exists j, file_boot options disk = ([success; success; success], records_from kHeaderBytes es, j) /\
    holds es j /\ fj_options j = options /\ d_snapshot (fj_disk j) = d_snapshot disk.
Proof.
  intros Hd Hf Hes Ho Ht. rewrite <-(app_nil_r (log_image es)) in Hd, Hf.
  destruct (file_boot_log options disk es [] false Hd Hf Hes Ho (stops_end _) Ht)
    as (j & Hj & A1 & A2 & A3 & A4 & A5 & A6 & A7 & A8 & A9 & _).
  rewrite app_nil_r in *. exists j. split_and!; try done. constructor; try done. by rewrite A3.
Qed.

(** ** Properties *)

(** C11: The log survives a crash at any byte.  Boot a journal on a file that
    holds the entries [es], append further entries while the operating system
    fails in any way, stop at the first refused one, whatever part of its record
    was written, and boot again: the replay delivers [es], then every entry that
    was acknowledged, then at most the refused one, in order and exactly as
    appended, and leaves on disk exactly the records it delivered.  An entry is
    never delivered in part, and an acknowledged one never lost. *)
Theorem file_log_survives_crash options disk es l accepted refused :
  options_wf options -> fo_truncate_torn_tail options = true ->
  d_journal disk = Some (log_image es) -> file_fits (log_image es) -> Forall (entry_wf options) es ->
  Forall (fun x => entry_typed x.2) l ->
  forall j, append_run l (file_boot options disk).2 = (accepted, refused, j) ->
  exists extra j2, (extra = [] \/ exists e, refused = Some e /\ extra = [e]) /\
    file_boot options (fj_disk j) =
      ([success; success; success], records_from kHeaderBytes (es ++ accepted ++ extra), j2) /\
    d_journal (fj_disk j2) = Some (log_image (es ++ accepted ++ extra)) /\
    d_snapshot (fj_disk j2) = d_snapshot disk.
Proof.
  intros Ho Ht Hd Hf Hes Hl j Hrun.
  destruct (boot_holds options disk es Hd Hf Hes Ho Ht) as (j1 & Hb & Hh & Ho1 & Hs1).
  rewrite Hb in Hrun. simpl in Hrun. rewrite <-Ho1 in Ho, Ht.
  destruct (append_run_cases _ _ _ _ _ _ Hh Ho Hl Hrun) as (R1 & R2 & R3 & e & n & R4 & R5 & R6).
  rewrite <-Hs1, <-R2, <-Ho1. destruct (decide (length (encode_record e) <= n)%nat) as [Hn|Hn].
  - rewrite take_ge, <-log_image_snoc in R4, R5 by done.
    destruct R6 as [-> He]; [rewrite length_encode_record in Hn; lia |].
    destruct (boot_holds _ _ _ R4 R5 ltac:(by apply Forall_app_2; [| constructor]) Ho Ht)
      as (j2 & Hb2 & Hh2 & _ & Hs2).
    exists [e], j2. rewrite (app_assoc es). split_and!; [right; by exists e | done | apply Hh2 | done].
  - assert (Hst : stops (fj_options j1) (take n (encode_record e)) (negb (n =? 0)%nat)).
    { destruct (decide (n = O)) as [->|Hn0]; [apply stops_end |]. apply stops_cut; [| done | lia].
      by apply R6. }
    destruct (file_boot_log _ _ _ _ _ R4 R5 R3 Ho Hst Ht) as (j2 & Hb2 & Hd2 & Hs2 & _).
    exists [], j2. rewrite app_nil_r. split_and!; [by left | done | | done].
    destruct n; [| done]. simpl in Hd2. by rewrite take_0, app_nil_r in Hd2.
Qed.

(** A journal in service that holds one entry, and a second entry. *)
Definition sample_log_entry (s : Z) : LogEntry := mkLog s KIntent (mkDigest 5 6) [1; 2; 3].

Lemma sample_entry_typed s : in_u64 s -> entry_typed (sample_log_entry s).
Proof. intros. constructor; simpl; try done; repeat constructor; word_lia. Qed.

Lemma sample_entry_wf s : in_u64 s -> entry_wf file_options_default (sample_log_entry s).
Proof. intros. constructor; [by apply sample_entry_typed | by vm_compute]. Qed.

Lemma file_options_default_wf : options_wf file_options_default.
Proof. unfold options_wf. simpl. word_lia. Qed.

Definition sample_disk : Disk := mkDisk (Some (log_image [sample_log_entry 1])) None None.

(** A second append is acknowledged, a third is cut off after seven bytes. *)
Definition sample_appends : list (OS * LogEntry) :=
  [(healthy, sample_log_entry 2); (mkOS (fun c => if c is Fsync _ then false else true) 7, sample_log_entry 3)].

Lemma sample_image_fits : file_fits (log_image [sample_log_entry 1]).
Proof.
  unfold file_fits, log_image, log_bytes. cbn [fmap list_fmap concat].
  rewrite !length_app, length_file_header, length_encode_record. simpl. lia.
Qed.

Lemma file_log_survives_crash_witness :
  exists accepted extra j2,
  file_boot file_options_default
    (fj_disk (append_run sample_appends (file_boot file_options_default sample_disk).2).2) =
  ([success; success; success], records_from kHeaderBytes ([sample_log_entry 1] ++ accepted ++ extra), j2).
Proof.
  destruct (append_run sample_appends (file_boot file_options_default sample_disk).2)
    as [[accepted refused] j] eqn:E.
  destruct (file_log_survives_crash file_options_default sample_disk [sample_log_entry 1] sample_appends
    accepted refused file_options_default_wf eq_refl eq_refl sample_image_fits) with (j := j)
    as (extra & j2 & _ & H & _).
  - constructor; [apply sample_entry_wf; word_lia | constructor].
  - do 2 (constructor; [apply sample_entry_typed; word_lia |]). constructor.
  - exact E.
  - exists accepted, extra, j2. exact H.
Defined.

(** ** Damage *)

Lemma stops_damaged options e pre l k post rest :
  entry_wf options e -> options_wf options -> entry_envelope e = pre ++ l ++ post ->
  Forall in_u8 k -> length l = length k -> (length l <= 4)%nat -> l <> k ->
  stops options (record_prefix (entry_envelope e) ++ (pre ++ k ++ post) ++ rest) true.
Proof.
  intros He [Ho _] Henv Hk Hlen H4 Hne p j Hs Hopt.
  pose proof (envelope_bytes _ _ He) as Hb. pose proof (ewf_size _ _ He) as Hz. unfold kEnvelopeBytes in Hz.
  pose proof (length_envelope e) as Hle.
  assert (Hll : length (pre ++ k ++ post) = length (entry_envelope e)).
  { rewrite Henv, !length_app. lia. }
  rewrite (next_record_framed _ _ _ _ _ Hs);
    [| by len | | rewrite Hll, Hopt; unfold kEnvelopeBytes; lia].
  2: { unfold record_prefix. rewrite get_put_u32 by apply wrap32_range.
       rewrite wrap32_small, Hll by (rewrite Hle; word_lia). done. }
  unfold record_prefix. rewrite drop_app_exact by (by len).
  rewrite <-(app_nil_r (put_u32 (crc32c _ _))).
  rewrite get_put_u32 by (apply crc32c_range; [done | word_lia]).
  rewrite Henv in Hb |- *. apply Forall_app in Hb as [Hp Hb]. apply Forall_app in Hb as [Hl Hq].
  destruct (Z.eqb_spec (crc32c (pre ++ k ++ post) 0) (crc32c (pre ++ l ++ post) 0)) as [E|E]; [| done].
  exfalso. symmetry in E. revert E. apply crc32c_burst; auto. word_lia.
Qed.

(** C23: A damaged record ends the log.  Let up to four consecutive bytes of the
    envelope of one record on disk, behind its length and checksum, have changed,
    whatever follows the record.  With truncation of torn tails enabled, a boot
    succeeds, delivers exactly the records before the damaged one, reports the log
    torn and cuts the file back to them: the records behind the damage are not
    guessed at, and they are gone. *)
Theorem file_damage_ends_log options disk good e pre l k post rest :
  options_wf options -> fo_truncate_torn_tail options = true ->
  Forall (entry_wf options) good -> entry_wf options e -> entry_envelope e = pre ++ l ++ post ->
  Forall in_u8 k -> length l = length k -> (length l <= 4)%nat -> l <> k ->
  let damaged := record_prefix (entry_envelope e) ++ (pre ++ k ++ post) ++ rest in
  d_journal disk = Some (log_image good ++ damaged) -> file_fits (log_image good ++ damaged) ->
  exists j, file_boot options disk = ([success; success; success], records_from kHeaderBytes good, j) /\
    fj_torn j = true /\ fj_truncated_bytes j = Z.of_nat (length damaged) /\
    d_journal (fj_disk j) = Some (log_image good).
Proof.
  intros Ho Ht Hg He Henv Hk Hlen H4 Hne damaged Hd Hf.
  pose proof (stops_damaged options e pre l k post rest He Ho Henv Hk Hlen H4 Hne) as Hs.
  destruct (file_boot_log _ _ _ _ _ Hd Hf Hg Ho Hs Ht) as (j & Hb & A1 & _ & _ & A2 & _ & _ & _ & _ & _ & A3).
  exists j. split_and!; try done. by apply A3.
Qed.

Lemma sample_envelope s :
  entry_envelope (sample_log_entry s) = take 25 (entry_envelope (sample_log_entry s)) ++ [1] ++ [2; 3].
Proof. rewrite <-(take_drop 25 (entry_envelope (sample_log_entry s))) at 1. f_equal. Qed.

Lemma file_damage_ends_log_witness :
  let damaged := record_prefix (entry_envelope (sample_log_entry 2)) ++
    (take 25 (entry_envelope (sample_log_entry 2)) ++ [9] ++ [2; 3]) ++ [7; 7] in
  exists j, file_boot file_options_default
    (mkDisk (Some (log_image [sample_log_entry 1] ++ damaged)) None None) =
    ([success; success; success], records_from kHeaderBytes [sample_log_entry 1], j) /\ fj_torn j = true.
Proof.
  intros damaged.
  destruct (file_damage_ends_log file_options_default
    (mkDisk (Some (log_image [sample_log_entry 1] ++ damaged)) None None)
    [sample_log_entry 1] (sample_log_entry 2) (take 25 (entry_envelope (sample_log_entry 2))) [1] [9] [2; 3] [7; 7])
    as (j & Hj & Ht & _).
  - apply file_options_default_wf.
  - reflexivity.
  - constructor; [apply (sample_entry_wf 1); word_lia | constructor].
  - apply (sample_entry_wf 2). word_lia.
  - apply sample_envelope.
  - constructor; [word_lia | constructor].
  - reflexivity.
  - simpl. lia.
  - discriminate.
  - reflexivity.
  - unfold file_fits, log_image, log_bytes. cbn [fmap list_fmap concat].
    rewrite !length_app, length_file_header, length_record_prefix, length_encode_record.
    rewrite length_take, length_envelope. simpl. lia.
  - exists j. split; [exact Hj | exact Ht].
Defined.

(** C36: A repaired log refuses to grow.  A boot that finds the last record cut
    short delivers the records before it and truncates the file, but keeps the
    mark of the torn tail: every later append of this process is refused as
    [JournalTorn], whatever the entry and the operating system, and changes
    nothing.  Only after one more boot does the journal accept appends again. *)
Theorem repaired_log_refuses_appends options disk es e (n : nat) :
  options_wf options -> fo_truncate_torn_tail options = true -> Forall (entry_wf options) es ->
  entry_wf options e -> (0 < n < length (encode_record e))%nat ->
  d_journal disk = Some (log_image es ++ take n (encode_record e)) ->
  file_fits (log_image es ++ take n (encode_record e)) ->
  exists j, file_boot options disk = ([success; success; success], records_from kHeaderBytes es, j) /\
    d_journal (fj_disk j) = Some (log_image es) /\
    (forall os s k c p,
      file_append os s k c p j = (refused_status RJournalTorn (Z.of_nat n), j)) /\
    exists j2, file_boot options (fj_disk j) =
      ([success; success; success], records_from kHeaderBytes es, j2) /\ holds es j2.
Proof.
  intros Ho Ht Hes He Hn Hd Hf.
  pose proof (stops_cut options e n He Ho ltac:(lia)) as Hs.
  destruct (Nat.eqb_spec n 0) as [->|_]; [lia |].
  destruct (file_boot_log _ _ _ _ _ Hd Hf Hes Ho Hs Ht)
    as (j & Hb & A1 & A2 & A3 & A4 & A5 & A6 & A7 & A8 & A9 & A10). simpl in A1.
  exists j. split_and!; try done.
  - intros os s k c p. unfold file_append. rewrite A5, A7, A4. simpl. rewrite A10 by done.
    by rewrite length_take, Nat.min_l by lia.
  - assert (Hf' : file_fits (log_image es)) by (unfold file_fits in *; rewrite length_app in Hf; lia).
    destruct (boot_holds options _ es A1 Hf' Hes Ho Ht) as (j2 & Hb2 & Hh2 & _). by exists j2.
Qed.

Lemma repaired_log_refuses_appends_witness :
  exists j, d_journal (fj_disk j) = Some (log_image [sample_log_entry 1]) /\
    file_append healthy 2 KIntent digest_zero [] j = (refused_status RJournalTorn 7, j).
Proof.
  destruct (repaired_log_refuses_appends file_options_default
    (mkDisk (Some (log_image [sample_log_entry 1] ++ take 7 (encode_record (sample_log_entry 2)))) None None)
    [sample_log_entry 1] (sample_log_entry 2) 7) as (j & _ & Hd & Ha & _).
  - apply file_options_default_wf.
  - reflexivity.
  - constructor; [apply (sample_entry_wf 1); word_lia | constructor].
  - apply (sample_entry_wf 2). word_lia.
  - rewrite length_encode_record. simpl. lia.
  - reflexivity.
  - pose proof sample_image_fits as H. unfold file_fits in *.
    rewrite length_app, length_take, length_encode_record. revert H.
    unfold log_image, log_bytes. cbn [fmap list_fmap concat].
    rewrite !length_app, length_file_header, length_encode_record. simpl. lia.
  - exists j. split; [exact Hd | exact (Ha healthy 2 KIntent digest_zero [])].
Defined.
