(* ===== verification/FileSnapshot.v ===== *)
(** * Snapshots on disk and the creation of the journal

    The snapshot file is replaced as a whole; what its checksum covers; and what
    a crash while the journal is first created leaves behind. *)

From S2P Require Import Prelude Status Digest Bytes Crc32c Wire Journal Platform FileJournal FileLog.
Local Open Scope word_scope.
Local Open Scope Z_scope.

(** ** The snapshot file *)

Definition snapshot_image (sequence : Z) (chain : Digest128) (payload : list Z) : list Z :=
  snapshot_header sequence chain ++ payload ++ snapshot_trailer chain payload.

Record snapshot_wf (sequence : Z) (chain : Digest128) (payload : list Z) : Prop := {
  swf_sequence : in_u64 sequence;
  swf_chain : digest_range chain;
  swf_payload : Forall in_u8 payload;
  swf_size : Z.of_nat (length payload) <= kSnapshotPayloadLimit;
}.

Lemma length_snapshot_header s c : length (snapshot_header s c) = 28%nat.
Proof. unfold snapshot_header. by len. Qed.

Lemma length_snapshot_trailer c p : length (snapshot_trailer c p) = 16%nat.
Proof. unfold snapshot_trailer. by len. Qed.

(** A file laid out as a snapshot, whose trailer announces the length of the
    payload and the checksum [crc]. *)
Lemma read_snapshot_framed s c crc payload j :
  d_snapshot (fj_disk j) = Some (snapshot_header s c ++ payload ++
    put_u64 (hi c) ++ put_u32 (wrap32 (Z.of_nat (length payload))) ++ put_u32 crc) ->
  in_u64 s -> digest_range c -> Z.of_nat (length payload) <= kSnapshotPayloadLimit -> in_u32 crc ->
  file_read_snapshot healthy j =
  if negb (crc32c payload 0 =? crc) then (refused_status RJournalCorrupt 87, None) else
  (success, Some (s, c, payload)).
Proof.
  intros Hd Hs [Hlo Hhi] Hp Hc. unfold file_read_snapshot, file_exists. rewrite Hd. simpl os_ok.
  cbn [negb default orb]. unfold id. set (tr := put_u64 (hi c) ++ _ ++ _). unfold kSnapshotPayloadLimit in *.
  assert (Htr : length tr = 16%nat) by (unfold tr; by len).
  pose proof (length_snapshot_header s c) as Hh.
  replace (file_read 0 28 (snapshot_header s c ++ payload ++ tr)) with (snapshot_header s c).
  2: { unfold file_read. change (Z.to_nat 0) with 0%nat. by rewrite drop_0, take_app_exact. }
  pose proof (file_header_checks kSnapshotMagic 81 82 83 (put_u64 s ++ put_u64 (lo c)) ltac:(by vm_compute))
    as Hk. cbv zeta in Hk. fold (snapshot_header s c) in Hk. rewrite Hh in Hk. rewrite Hk.
  simpl status_ok. cbn [negb]. rewrite !length_app, Hh, Htr.
  destruct (Nat.ltb_spec (28 + (length payload + 16)) 16); [lia |].
  assert (Hr : file_read (Z.of_nat (28 + (length payload + 16)) - 16) 16
    (snapshot_header s c ++ payload ++ tr) = tr).
  { unfold file_read.
    replace (Z.to_nat (_ - _)) with (length (snapshot_header s c ++ payload)) by (rewrite length_app, Hh; lia).
    rewrite app_assoc, drop_app_length. apply take_ge. rewrite Htr. lia. }
  rewrite Hr. clear Hr.
  assert (T1 : get_u64 tr = hi c) by (unfold tr; by apply get_put_u64).
  assert (T2 : get_u32 (drop 8 tr) = Z.of_nat (length payload)).
  { unfold tr. rewrite drop_app_exact, get_put_u32 by (by len || apply wrap32_range).
    apply wrap32_small. word_lia. }
  assert (T3 : get_u32 (drop 12 tr) = crc).
  { unfold tr. rewrite app_assoc, drop_app_exact by (by len).
    rewrite <-(app_nil_r (put_u32 crc)). by apply get_put_u32. }
  rewrite T1, T2, T3. destruct (Z.gtb_spec (Z.of_nat (length payload)) 67108864); [lia |].
  change 28 with (Z.of_nat 28). rewrite <-Hh, file_read_at, Z.eqb_refl by done. cbn [negb].
  assert (F1 : get_u64 (drop 12 (snapshot_header s c)) = s).
  { unfold snapshot_header. rewrite drop_app_exact by (by rewrite length_file_header). by apply get_put_u64. }
  assert (F2 : get_u64 (drop 20 (snapshot_header s c)) = lo c).
  { unfold snapshot_header. rewrite app_assoc, drop_app_exact by (rewrite length_app; by len).
    rewrite <-(app_nil_r (put_u64 (lo c))). by apply get_put_u64. }
  rewrite F1, F2. by destruct c.
Qed.

Lemma read_snapshot_image s c payload j :
  d_snapshot (fj_disk j) = Some (snapshot_image s c payload) -> snapshot_wf s c payload ->
  file_read_snapshot healthy j = (success, Some (s, c, payload)).
Proof.
  intros Hd [H1 H2 H3 H4]. unfold snapshot_image, snapshot_trailer in Hd.
  rewrite (read_snapshot_framed s c (crc32c payload 0) payload j Hd); try done.
  - by rewrite Z.eqb_refl.
  - apply crc32c_range; [done | word_lia].
Qed.

(** What [write_snapshot] leaves on disk. *)
Lemma write_snapshot_disk os s c payload j st j' :
  file_write_snapshot os s c payload j = (st, j') ->
  d_journal (fj_disk j') = d_journal (fj_disk j) /\
  d_snapshot (fj_disk j') = if status_ok st then Some (snapshot_image s c payload)
                            else d_snapshot (fj_disk j).
Proof.
  unfold file_write_snapshot, durable_flush, atomic_replace_file, discard_temporary.
  repeat (step_if; cbn [negb]; [try (by intros [= <- <-]) |]); try (by intros [= <- <-]).
  all: by repeat step_if; intros [= <- <-].
Qed.

Lemma read_snapshot_same j j2 :
  d_snapshot (fj_disk j2) = d_snapshot (fj_disk j) ->
  file_read_snapshot healthy j2 = file_read_snapshot healthy j.
Proof. intros H. unfold file_read_snapshot. by rewrite H. Qed.

(** ** Properties *)

(** C22: Snapshots are replaced as a whole.  Whatever the operating system does
    while a snapshot is written, and however many of its bytes reach the disk,
    any later process reads from these files exactly the new snapshot when the
    call succeeded, and exactly what was there before when it did not; the log
    is not touched. *)
Theorem snapshot_write_is_atomic os s c payload j st j' j2 :
  snapshot_wf s c payload -> file_write_snapshot os s c payload j = (st, j') ->
  fj_disk j2 = fj_disk j' ->
  d_journal (fj_disk j2) = d_journal (fj_disk j) /\
  file_read_snapshot healthy j2 =
    if status_ok st then (success, Some (s, c, payload)) else file_read_snapshot healthy j.
Proof.
  intros Hwf Hw Hd. destruct (write_snapshot_disk _ _ _ _ _ _ _ Hw) as [H1 H2]. rewrite <-Hd in H1, H2.
  split; [done |]. destruct (status_ok st).
  - by apply read_snapshot_image.
  - by apply read_snapshot_same.
Qed.

(** The rename fails. *)
Definition no_rename : OS := mkOS (fun c => if c is Rename then false else true) 9.

Lemma snapshot_write_is_atomic_witness :
  let j := file_make file_options_default disk_empty in
  let j1 := (file_write_snapshot healthy 4 (mkDigest 5 6) [1; 2] j).2 in
  let j2 := (file_write_snapshot no_rename 7 (mkDigest 5 6) [3] j1).2 in
  file_read_snapshot healthy j2 = (success, Some (4, mkDigest 5 6, [1; 2])).
Proof.
  intros j j1 j2.
  destruct (snapshot_write_is_atomic healthy 4 (mkDigest 5 6) [1; 2] j success j1 j1) as [_ H1];
    [| reflexivity | reflexivity |].
  { constructor; [word_lia | split; simpl; word_lia | repeat constructor; word_lia | by vm_compute]. }
  destruct (snapshot_write_is_atomic no_rename 7 (mkDigest 5 6) [3] j1 (refused_status RIoError 0) j2 j2)
    as [_ H2]; [| reflexivity | reflexivity |].
  { constructor; [word_lia | split; simpl; word_lia | repeat constructor; word_lia | by vm_compute]. }
  exact (eq_trans H2 H1).
Defined.

(** What the checksum of a snapshot covers.  A change of up to four
    consecutive bytes of the payload is refused as [JournalCorrupt] with detail
    87.  The sequence is outside it: eight other bytes in its place are read back
    without complaint as the sequence of the snapshot. *)
Theorem snapshot_checksum_covers_payload_only s c pre l k post s' j j2 :
  snapshot_wf s c (pre ++ l ++ post) -> Forall in_u8 k -> length l = length k ->
  (length l <= 4)%nat -> l <> k -> in_u64 s' ->
  let payload := pre ++ l ++ post in
  let image := snapshot_image s c payload in
  d_snapshot (fj_disk j) = Some (file_write (28 + length pre) k image) ->
  d_snapshot (fj_disk j2) = Some (file_write 12 (put_u64 s') image) ->
  file_read_snapshot healthy j = (refused_status RJournalCorrupt 87, None) /\
  file_read_snapshot healthy j2 = (success, Some (s', c, payload)).
Proof.
  intros [Hs Hc Hp Hz] Hk Hlen H4 Hne Hs' payload image Hd Hd2.
  assert (Hcrc : in_u32 (crc32c payload 0)) by (apply crc32c_range; [done | word_lia]).
  assert (Hll : length payload = length (pre ++ k ++ post)).
  { unfold payload. rewrite !length_app. lia. }
  assert (Hp' := Hp). apply Forall_app in Hp' as [Hpre Hp']. apply Forall_app in Hp' as [Hl Hpost].
  split.
  - rewrite (read_snapshot_framed s c (crc32c payload 0) (pre ++ k ++ post)); try done.
    + destruct (Z.eqb_spec (crc32c (pre ++ k ++ post) 0) (crc32c payload 0)) as [E|E]; [| done].
      exfalso. symmetry in E. revert E. apply crc32c_burst; auto. word_lia.
    + rewrite Hd. unfold image, snapshot_image, payload. f_equal.
      replace (28 + length pre)%nat with (length (snapshot_header s c ++ pre))
        by (rewrite length_app, length_snapshot_header; done).
      rewrite <-app_assoc, (app_assoc (snapshot_header s c)), file_write_within, <-Hlen.
      rewrite <-(app_assoc l), drop_app_length, <-Hll, <-!app_assoc. done.
    + by rewrite <-Hll.
  - apply (read_snapshot_image s' c payload); [| by constructor].
    rewrite Hd2. unfold image, snapshot_image, snapshot_header. apply f_equal.
    rewrite <-!app_assoc, <-(length_file_header kSnapshotMagic), file_write_within.
    rewrite length_put_u64, <-(length_put_u64 s), drop_app_length. done.
Qed.

Lemma snapshot_checksum_covers_payload_only_witness :
  let image := snapshot_image 4 (mkDigest 5 6) [1; 2; 3] in
  file_read_snapshot healthy (file_make file_options_default (mkDisk None (Some (file_write 29 [7] image)) None))
  = (refused_status RJournalCorrupt 87, None).
Proof.
  intros image.
  apply (snapshot_checksum_covers_payload_only 4 (mkDigest 5 6) [1] [2] [7] [3] 9 _
    (file_make file_options_default (mkDisk None (Some (file_write 12 (put_u64 9) image)) None))).
  - constructor; [word_lia | split; simpl; word_lia | repeat constructor; word_lia | by vm_compute].
  - repeat constructor; word_lia.
  - reflexivity.
  - simpl. lia.
  - discriminate.
  - word_lia.
  - reflexivity.
  - reflexivity.
Defined.

(** An interrupted creation is never repaired.  Let the first opening of a
    journal fail while the header is written or synced with fewer than its twelve
    bytes on disk.  From then on no opening of the file succeeds, whatever else
    the operating system does, as long as the file can be read, and none changes
    it: with a healthy one the answer is [JournalCorrupt], detail 12, although the
    journal never held a record. *)
Theorem interrupted_creation_is_permanent options disk os :
  d_journal disk = None -> ensure_parent_directory os (fo_prefix options +:+ ".jrnl") = success ->
  os_ok os (Stdio 10) = true -> os_ok os (Stdio 11) = false \/ os_ok os (Fsync 0) = false ->
  (os_written os < 12)%nat ->
  let '(st, j) := file_open os (file_make options disk) in
  status_ok st = false /\
  (forall os2, os_ok os2 (Probe 0) = true ->
    let '(st2, j2) := file_open os2 (file_make options (fj_disk j)) in
    status_ok st2 = false /\ fj_disk j2 = fj_disk j) /\
  (file_open healthy (file_make options (fj_disk j))).1 = refused_status RJournalCorrupt 12.
Proof.
  intros Hd Hp H10 Hf Hn.
  assert (Hpart : exists st, status_ok st = false /\ file_open os (file_make options disk) =
    (st, set_log (take (os_written os) (file_header kJournalMagic)) (file_make options disk))).
  { unfold file_open, journal_path. simpl fo_prefix. rewrite Hp. simpl. rewrite Hd, H10. simpl.
    destruct (os_ok os (Stdio 11)); simpl; [| by eexists; split; [| reflexivity]].
    destruct Hf as [|Hf]; [done |]. unfold durable_flush. rewrite Hf. simpl.
    destruct (os_ok os (Fflush 0)), (os_ok os (Fileno 0)); simpl;
      by eexists; split; [| reflexivity]. }
  destruct Hpart as (st & Hst & ->). split; [done |].
  set (f := take _ _). assert (Hlen : (length f < 12)%nat) by (unfold f; rewrite length_take; lia).
  assert (Hc : forall os2, os_ok os2 (Probe 0) = true -> forall j, d_journal (fj_disk j) = Some f ->
    exists st, file_open os2 j = (st, j) /\ status_ok st = false /\
      (ensure_parent_directory os2 (journal_path j) = success -> os_ok os2 (Stdio 10) = true ->
       st = refused_status RJournalCorrupt 12)).
  { intros os2 H2 j Hj. unfold file_open, file_exists, log_content. rewrite Hj, H2. simpl default.
    destruct (status_ok (ensure_parent_directory os2 _)) eqn:E; cbn [negb];
      [| eexists; split_and!; [done | done | intros E2 _; rewrite E2 in E; discriminate E]].
    destruct (os_ok os2 (Stdio 10)); cbn [negb];
      [| by eexists; split_and!; [reflexivity | |]].
    unfold check_header, file_read, kHeaderBytes. simpl (Z.to_nat 0). rewrite drop_0, length_take.
    destruct (Nat.ltb_spec (Z.to_nat 12 `min` length f) 12); [| lia]. rewrite orb_true_r.
    by eexists; split_and!; [reflexivity | |]. }
  split.
  - intros os2 H2. destruct (Hc os2 H2 (file_make options (fj_disk (set_log f (file_make options disk)))))
      as (st2 & -> & Hst2 & _); done.
  - destruct (Hc healthy eq_refl (file_make options (fj_disk (set_log f (file_make options disk)))))
      as (st2 & -> & Hst2 & Hs); [done |]. apply Hs; [| done].
    unfold ensure_parent_directory. by destruct (find_last_of _ _) as [[|]|].
Qed.

Lemma interrupted_creation_is_permanent_witness :
  (file_open healthy (file_make file_options_default
    (fj_disk (file_open (mkOS (fun c => if c is Fsync _ then false else true) 5)
      (file_make file_options_default disk_empty)).2))).1 = refused_status RJournalCorrupt 12.
Proof.
  pose proof (interrupted_creation_is_permanent file_options_default disk_empty
    (mkOS (fun c => if c is Fsync _ then false else true) 5) eq_refl eq_refl eq_refl
    (or_intror eq_refl) ltac:(simpl; lia)) as H.
  destruct (file_open _ _) as [st j]. exact (proj2 (proj2 H)).
Defined.
