(* ===== verification/Crash.v ===== *)
(** * A crash of the engine on its file

    The engine over the file journal: whatever the operating system does while it
    runs, and wherever it stops, the next process recovers the accounts of the
    decisions that were acknowledged, and at most what the last, unacknowledged
    attempt left behind as a whole. *)

From S2P Require Import Prelude Checked Status Digest Ledger Authority Request Bytes Wire.
From S2P Require Import Record Journal Window Account Engine Recovery Steps Invariant Verdicts.
From S2P Require Import Safety Sample Guarantees Durability Replay AccountDigest RecoveryProps.
From S2P Require Import Restart Checkpoint Platform FileJournal FileLog.
Local Open Scope word_scope.
Local Open Scope Z_scope.

(** ** The payloads of a decision *)

(** Bytes, at most [n] of them. *)
Definition compact (n : Z) (l : list Z) : Prop := Forall in_u8 l /\ Z.of_nat (length l) <= n.

Lemma compact_app n m l k : compact n l -> compact m k -> compact (n + m) (l ++ k).
Proof. intros [H1 L1] [H2 L2]. split; [by apply Forall_app_2 | rewrite length_app; lia]. Qed.

Lemma compact_le n m l : compact n l -> n <= m -> compact m l.
Proof. intros [H L] Hnm. split; [done | lia]. Qed.

Lemma compact_u8 v : in_u8 v -> compact 1 (w_u8 v).
Proof. intros. split; [by apply w_u8_in_u8 | by rewrite length_w_u8]. Qed.
Lemma compact_u16 v : compact 2 (w_u16 v).
Proof. split; [apply w_u16_in_u8 | by rewrite length_w_u16]. Qed.
Lemma compact_u64 v : compact 8 (w_u64 v).
Proof. split; [apply w_u64_in_u8 | by rewrite length_w_u64]. Qed.
Lemma compact_boolean b : compact 1 (w_boolean b).
Proof. split; [apply w_boolean_in_u8 | by destruct b]. Qed.
Lemma compact_digest d : compact 16 (w_digest d).
Proof. split; [apply w_digest_in_u8 | by rewrite length_w_digest]. Qed.

Lemma compact_items {A} (enc : A -> list Z) n items :
  (forall x, compact n (enc x)) -> compact (n * Z.of_nat (length items)) (encode_items enc items).
Proof.
  intros Henc. induction items as [|x items IH]; [split; [constructor | simpl; lia] |].
  change (encode_items enc (x :: items)) with (enc x ++ encode_items enc items).
  eapply compact_le; [by apply compact_app | simpl length; lia].
Qed.

Create HintDb compact discriminated.
#[export] Hint Resolve compact_app compact_u16 compact_u64 compact_boolean compact_digest : compact.
#[export] Hint Resolve compact_u8 : compact.
#[export] Hint Extern 2 (in_u8 (_ _)) => (match goal with |- in_u8 (_ ?x) => destruct x end; by vm_compute)
  : compact.

Ltac compact := eapply compact_le; [eauto 100 with compact | try lia].

Lemma compact_incarnation r : compact 200 (encode_incarnation r).
Proof. unfold encode_incarnation. compact. Qed.
Lemma compact_fence f : compact 200 (encode_fence f).
Proof. unfold encode_fence. compact. Qed.
Lemma compact_ambiguous n : compact 200 (encode_ambiguous n).
Proof. unfold encode_ambiguous. compact. Qed.
Lemma compact_window e : compact 200 (encode_window_entry e).
Proof. unfold encode_window_entry. compact. Qed.
Lemma compact_totals t : compact 200 (encode_totals t).
Proof. unfold encode_totals. compact. Qed.
Lemma compact_config c : compact 200 (encode_account_config c).
Proof. unfold encode_account_config. compact. Qed.
Lemma compact_outcome o : compact 400 (encode_outcome_body o).
Proof. unfold encode_outcome_body, encode_authority, encode_view. compact. Qed.
#[export] Hint Resolve compact_incarnation compact_fence compact_ambiguous compact_window compact_totals
  compact_config compact_outcome : compact.

Lemma compact_collection {A} (wf : A -> Prop) (enc : A -> list Z) items :
  collection_wf wf items -> (forall x, compact 200 (enc x)) -> compact 300000000 (encode_collection enc items).
Proof.
  intros [_ Hn] Henc. unfold encode_collection, kMaxCollection in *.
  eapply compact_le; [apply compact_app; [apply compact_u64 | by apply compact_items] | lia].
Qed.

#[local] Opaque encode_collection.

Lemma compact_account a : durable_account_wf a -> compact 2000000000 (encode_account a).
Proof.
  Local Transparent encode_account.
  intros []. unfold encode_account. eapply compact_le.
  - repeat (apply compact_app; [first [by eapply compact_collection; eauto with compact | eauto with compact] |]).
    by eapply compact_collection; eauto with compact.
  - lia.
Qed.

Lemma compact_request rq : request_wf 4096 rq -> Forall in_u8 (rq_note rq) -> compact 5000 (encode_request_message rq).
Proof.
  intros Hq Hn. pose proof (rwf_note _ _ Hq).
  split; [by apply request_in_u8 |]. rewrite length_request by lia. lia.
Qed.

Lemma compact_attempt t :
  durable_attempt_wf t -> Forall in_u8 (rq_note (dt_request t)) -> compact 3000000000 (encode_durable_attempt t).
Proof.
  Local Transparent encode_durable_attempt.
  intros [] Hn. unfold encode_durable_attempt. eapply compact_le.
  - apply compact_app; [by apply (compact_request (dt_request t)) |].
    do 3 (apply compact_app; [eauto with compact |]).
    apply (compact_app 2000000000); [| eauto with compact].
    destruct (dt_has_account t); [by apply compact_account | by split; simpl; [constructor | lia]].
  - lia.
Qed.

Lemma compact_entry n s k c p :
  in_u64 s -> k <> KUnknown -> digest_range c -> compact n p -> n < 2 ^ 63 -> entry_typed (mkLog s k c p).
Proof. intros ? ? ? [? ?] ?. constructor; simpl; try done. lia. Qed.

Lemma intent_chain_range c s rq : digest_range (intent_chain c s rq).
Proof. Local Transparent intent_chain. apply db_finish_range. Qed.

(** The records of a decision are entries a journal can take. *)
Lemma decision_records_typed c s rq o t :
  in_u64 s -> durable_attempt_wf t -> dt_request t = rq -> Forall in_u8 (rq_note rq) ->
  Forall entry_typed (decision_records c s rq o t).
Proof.
  intros Hs Ht Hq Hn. subst rq. pose proof (twf_request _ Ht) as Hr. constructor; [| constructor; [| constructor]].
  - eapply compact_entry; [done | done | apply intent_chain_range | by apply compact_request | lia].
  - eapply compact_entry; [apply wrap64_range | done | apply commit_chain_range | by apply compact_attempt | lia].
Qed.

(** ** Appending to the file *)

Implicit Types (e er ef : Engine FileSession) (rq : CreditRequest) (o : CreditOutcome).

(** The file of an engine, and the file a new process finds. *)
Definition file_of e : FileJournal := se_file (e_journal e).

(** A file whose records are [es] for the next process, whatever follows them. *)
Record boots_to (options : FileJournalOptions) (es : list LogEntry) (j : FileJournal) : Prop := {
  bo_snapshot : d_snapshot (fj_disk j) = None;
  bo_entries : Forall (entry_wf options) es;
  bo_log : exists bad torn, d_journal (fj_disk j) = Some (log_image es ++ bad) /\
    file_fits (log_image es ++ bad) /\ stops options bad torn;
}.

(** A file in service. *)
Record serving (options : FileJournalOptions) (es : list LogEntry) (j : FileJournal) : Prop := {
  sv_holds : holds es j;
  sv_fj_options : fj_options j = options;
  sv_snapshot : d_snapshot (fj_disk j) = None;
}.

Lemma serving_boots options es j : serving options es j -> boots_to options es j.
Proof.
  intros [Hh <- Hs]. constructor; [done | apply Hh |]. exists [], false. rewrite app_nil_r.
  split_and!; [apply Hh | apply Hh | apply stops_end].
Qed.

(** What a refused append leaves is the record as a whole, or nothing of it. *)
Lemma left_boots options es r j j' n :
  serving options es j -> options_wf options -> left_behind es r j j' n ->
  boots_to options es j' \/ boots_to options (es ++ [r]) j'.
Proof.
  intros [Hh Ho Hs] Hopt [L1 L2 L3 L4 L5]. rewrite Ho in *.
  destruct (decide (length (encode_record r) <= n)%nat) as [Hn|Hn].
  - right. assert (Hr : entry_wf options r) by (apply L4; rewrite length_encode_record in Hn; lia).
    constructor; [congruence | |].
    + apply Forall_app_2; [rewrite <-Ho; apply Hh | by constructor].
    + exists [], false. rewrite app_nil_r, log_image_snoc. rewrite take_ge in L3, L5 by done.
      split_and!; [done | done | apply stops_end].
  - left. constructor; [congruence | rewrite <-Ho; apply Hh |]. exists (take n (encode_record r)), (negb (n =? 0)%nat).
    split_and!; [done | done |]. destruct (decide (n = O)) as [->|Hn0]; [apply stops_end |].
    apply stops_cut; [by apply L4 | done | lia].
Qed.

(** An accepted record is within the budget of the file. *)
Lemma file_append_budget os r j es j' :
  holds es j -> options_wf (fj_options j) -> entry_typed r ->
  file_append os (lg_sequence r) (lg_kind r) (lg_chain r) (lg_payload r) j = (success, j') ->
  fj_bytes j' <= fo_max_bytes (fj_options j).
Proof.
  intros Hh Hopt Ht E.
  destruct (file_append_cases os r j es success j' Hh Hopt Ht E) as [(_ & Hh' & _ & _)|(Hst & _)]; [| done].
  rewrite (ho_bytes _ _ Hh'), (ho_write _ _ Hh'), log_image_snoc, length_app, length_encode_record.
  destruct Hopt as [Hmr Hm]. pose proof (ety_length _ Ht) as Hl. pose proof (ho_fits _ _ Hh) as Hf. unfold file_fits in Hf.
  revert E. unfold file_append, kEnvelopeBytes, kRecordOverhead.
  rewrite (ho_open _ _ Hh), (ho_stream _ _ Hh), (ho_replaying _ _ Hh), (ho_torn _ _ Hh), (ho_bytes _ _ Hh), (ho_write _ _ Hh).
  cbn [negb]. rewrite wrap64_small by word_lia.
  match goal with |- context [?x >? ?y] => destruct (Z.gtb_spec x y) end; [done |].
  rewrite (wrap64_small (_ + Z.of_nat _)) by word_lia. rewrite (wrap64_small (_ + _ + 25)) by word_lia.
  rewrite (wrap64_small (_ + _ + _ + 8)) by word_lia.
  match goal with |- context [?x >? ?y] => destruct (Z.gtb_spec x y) end; [done |]. intros _. lia.
Qed.

Lemma append_file options es e s k c p st e' :
  serving options es (file_of e) -> options_wf options -> entry_typed (mkLog s k c p) ->
  append_record s k c p e = (st, e') ->
  e' = set_journal (e_journal e') e /\
  (st = success /\ serving options (es ++ [mkLog s k c p]) (file_of e') /\
     fj_bytes (file_of e') <= fo_max_bytes options \/
   status_ok st = false /\
     (boots_to options es (file_of e') \/ boots_to options (es ++ [mkLog s k c p]) (file_of e'))).
Proof.
  intros Hsv Hopt Ht. pose proof Hsv as [Hh Ho Hs]. unfold append_record. simpl. unfold in_session, file_of in *.
  destruct (file_append (se_os (e_journal e)) s k c p (se_file (e_journal e))) as [st1 j1] eqn:E.
  intros [= <- <-]. split; [done |]. simpl. rewrite <-Ho in Hopt.
  destruct (file_append_cases _ (mkLog s k c p) _ es _ _ Hh Hopt Ht E) as [(-> & Hh1 & Ho1 & Hs1)|(Hst & n & Hl)].
  - left. split; [done |]. split; [constructor; [done | congruence | congruence] |].
    rewrite <-Ho. exact (file_append_budget _ (mkLog s k c p) _ es _ Hh Hopt Ht E).
  - right. split; [done |]. rewrite Ho in Hopt. by eapply left_boots.
Qed.

(** Limits under which no snapshot is due before [n] records. *)
Record no_snapshot (options : FileJournalOptions) (limits : EngineLimits) (n : Z) : Prop := {
  ns_records : n < journal_records_per_snapshot limits;
  ns_bytes : fo_max_bytes options < max_journal_bytes limits;
}.

Lemma persist_file options es e rq o a created st e1 n :
  serving options es (file_of e) -> options_wf options -> log_words e ->
  no_snapshot options (e_limits e) (n + 2) -> 0 <= e_journal_records e <= n -> n + 2 < 2 ^ 64 ->
  let t := durable_attempt rq o a created (e_stats e) in
  let records := decision_records (e_chain e) (e_next_sequence e) rq o t in
  durable_attempt_wf t -> Forall in_u8 (rq_note rq) ->
  persist_locked rq o a created e = (st, e1) ->
  st = success /\ serving options (es ++ records) (file_of e1) /\
    e_chain e1 = commit_chain (e_chain e) (wrap64 (e_next_sequence e + 1)) rq o /\
    e_next_sequence e1 = wrap64 (wrap64 (e_next_sequence e + 1) + 1) /\
    e_journal_records e1 = e_journal_records e + 2 \/
  status_ok st = false /\ exists k, (k <= 2)%nat /\ boots_to options (es ++ take k records) (file_of e1).
Proof.
  intros Hsv Hopt [Hseq Hch] [Hrec Hby] Hr Hn t records Ht Hnote. unfold persist_locked.
  pose proof (decision_records_typed (e_chain e) (e_next_sequence e) rq o t Hseq Ht eq_refl Hnote) as Hty.
  fold records in Hty. apply Forall_cons in Hty as [Hty1 [Hty2 _]%Forall_cons].
  destruct (append_record _ KIntent _ _ e) as [s1 e2] eqn:E1.
  destruct (append_file _ _ _ _ _ _ _ _ _ Hsv Hopt Hty1 E1) as [He2 [(-> & Hsv2 & _)|[Hst Hb]]].
  2: { rewrite Hst. intros [= <- <-]. right. split; [done |]. destruct Hb as [Hb|Hb]; [exists 0%nat | exists 1%nat].
       - rewrite take_0, app_nil_r. split; [lia | done].
       - split; [lia | exact Hb]. }
  simpl status_ok. cbn [negb].
  destruct (append_record _ KAttempt _ _ _) as [s2 e3] eqn:E2.
  assert (Ee : e_chain e2 = e_chain e /\ e_next_sequence e2 = e_next_sequence e /\ e_stats e2 = e_stats e /\
    e_journal_records e2 = e_journal_records e /\ e_limits e2 = e_limits e) by (by rewrite He2).
  destruct Ee as (X1 & X2 & X3 & X4 & X5). simpl in E2. rewrite X1, X2, X3 in E2.
  set (e2' := set_next_sequence _ e2) in E2. assert (Hsv2' : serving options _ (file_of e2')) by exact Hsv2.
  destruct (append_file _ _ _ _ _ _ _ _ _ Hsv2' Hopt Hty2 E2) as [He3 [(-> & Hsv3 & Hby3)|[Hst Hb]]].
  2: { rewrite Hst. intros [= <- <-]. right. split; [done |]. rewrite <-app_assoc in Hb.
       destruct Hb as [Hb|Hb]; [exists 1%nat | exists 2%nat]; (split; [lia | exact Hb]). }
  simpl status_ok. cbn [negb]. rewrite <-app_assoc in Hsv3.
  assert (Ed : snapshot_due (set_journal_records (e_journal_records e3 +% 2) e3) = false).
  { unfold snapshot_due. rewrite He3. simpl. rewrite X4, X5. rewrite wrap64_small by word_lia.
    apply orb_false_iff. split; apply Z.leb_gt; [lia |]. unfold file_of in Hby3. simpl in Hby3. lia. }
  match goal with |- context [snapshot_due ?x] => assert (snapshot_due x = false) as -> by exact Ed end.
  intros [= <- <-]. left. rewrite He3. simpl. rewrite X1, X2, X4. split_and!; try done.
  rewrite wrap64_small by word_lia. done.
Qed.

(** ** A run on the file *)

(** A running engine: its file is in service, and its records reproduce it. *)
Record live (options : FileJournalOptions) (es : list LogEntry) (m : Z) e : Prop := {
  lv_booted : booted_on es e;
  lv_serving : serving options es (file_of e);
  lv_words : log_words e;
  lv_records : 0 <= e_journal_records e <= 2 * m;
}.

(** A failure along a run shows at its end. *)
Lemma run_not_failed {J : Type} `{Journal J} rqs (e : Engine J) :
  e_journal_failed (run (CApply <$> rqs) e).2 = false -> e_journal_failed e = false.
Proof.
  revert e. induction rqs as [|rq rqs IH]; intros e; [done |]. rewrite run_apply_cons. cbn [snd]. intros Hf.
  apply IH in Hf. destruct (e_journal_failed e) eqn:E; [| done]. exfalso. revert Hf. unfold apply.
  rewrite E. destruct (e_recovered e); simpl; congruence.
Qed.

Section Runs.
Context (options : FileJournalOptions) (Hopt : options_wf options).

Lemma apply_live es m e rq o e' :
  live options es m e -> request_wf 4096 rq -> Forall in_u8 (rq_note rq) ->
  (forall c created x, decision e rq o c created x ->
     rq_op rq = Issue -> o_applied o = false -> binds_nothing rq) ->
  (rq_op rq = Fence -> reason (o_status o) <> RBudgetExceeded) ->
  no_snapshot options (e_limits e) (2 * m + 2) -> 2 * m + 2 < 2 ^ 64 ->
  apply rq e = (o, e') -> e_journal_failed e' = false -> exists es', live options es' (m + 1) e'.
Proof.
  intros [Hb Hsv Hw Hrec] Hq Hnote Hd1 Hd2 Hns Hm Hap Hf.
  assert (Hok' : engine_ok e') by (eapply apply_ok_aux; [apply Hb | by eapply request_wf_range | done]).
  pose proof (apply_words _ _ _ _ Hap Hw) as Hw'.
  destruct (apply_logged _ _ _ _ Hap) as [o e' d c created x st e1 _ _ _ _ Hf' _|o e' _ Hacc Hc|o e' _ Hop Hr|
    o e' c created x st e1 Hmf Hp Hst Hc Hacc Hdec].
  - congruence.
  - exists es. constructor; [by eapply booted_quiet | | done |].
    + unfold file_of. by rewrite (cr_journal _ _ Hc).
    + rewrite (cr_records _ _ Hc). lia.
  - by destruct (Hd2 Hop).
  - destruct (booted_decision _ _ _ _ _ _ _ Hb Hq (Hd1 _ _ _ Hdec) Hmf Hdec) as (Hwf & _ & _).
    destruct (persist_file options es (put_account (a_account (rq_authority rq)) c e) rq o c created st e1 (2 * m) Hsv Hopt Hw Hns Hrec Hm Hwf Hnote Hp)
      as [(-> & Hsv1 & HC & HN & HR)|[Hbad _]]; [| congruence].
    eexists. constructor; [eapply booted_step; try done; by apply (Hd1 _ _ _ Hdec) | | done |].
    + unfold file_of. rewrite (cr_journal _ _ Hc). exact Hsv1.
    + rewrite (cr_records _ _ Hc), HR. simpl. lia.
Qed.

Lemma run_live rqs : forall es m e,
  live options es m e -> Forall (request_wf 4096) rqs -> Forall (fun rq => Forall in_u8 (rq_note rq)) rqs ->
  let r := run (CApply <$> rqs) e in
  let n := 2 * (m + Z.of_nat (length rqs)) in
  Forall durable_outcome r.1 -> no_snapshot options (e_limits e) n -> n < 2 ^ 64 ->
  e_journal_failed r.2 = false -> exists es', live options es' (m + Z.of_nat (length rqs)) r.2.
Proof.
  induction rqs as [|rq rqs IH]; intros es m e Hl Hq Hn.
  - intros r n _ _ _ _. exists es. simpl. by rewrite Z.add_0_r.
  - apply Forall_cons in Hq as [Hq Hqs]. apply Forall_cons in Hn as [Hnt Hnts]. rewrite run_apply_cons.
    cbn [fst snd length]. intros Hd Hns Hm Hf. apply Forall_cons in Hd as [Hd Hds].
    destruct Hns as [Hr Hby].
    assert (Hf1 : e_journal_failed (apply rq e).2 = false) by (by eapply run_not_failed).
    destruct Hd as [Hd1 Hd2].
    destruct (apply_live es m e rq _ _ Hl Hq Hnt (fun _ _ _ _ => Hd1) Hd2 ltac:(constructor; [lia | done]) ltac:(lia)
      (surjective_pairing _) Hf1) as (es1 & Hl1).
    replace (m + Z.of_nat (S (length rqs))) with (m + 1 + Z.of_nat (length rqs)) in * by lia.
    apply (IH es1 (m + 1)); try done.
    pose proof (run_limits [rq] e) as Hlim. rewrite run_apply_cons in Hlim. simpl in Hlim. rewrite Hlim.
    by constructor.
Qed.
End Runs.

(** ** The first boot *)

Definition file_engine (options : FileJournalOptions) (limits : EngineLimits) (operator : Incarnation)
    (nonce : Digest128) (disk : Disk) (script : list OS) : Engine FileSession :=
  engine_make limits true (mkSession (file_make options disk) script) operator nonce.

(** Opening a log that does not exist leaves the header in it. *)
Lemma file_open_new options os st j :
  file_open os (file_make options disk_empty) = (st, j) -> status_ok st = true ->
  j = mkFile options (mkDisk (Some (file_header kJournalMagic)) None None) true 12 12 12 0 0 false false true.
Proof.
  unfold file_open, open_stream. destruct (status_ok (ensure_parent_directory _ _)) eqn:E1; cbn [negb];
    [| intros [= <- <-]; congruence].
  destruct (os_ok os (Stdio 10)); cbn [negb]; [| by intros [= <- <-]]. simpl file_exists. cbn [negb].
  destruct (os_ok os (Stdio 11)); cbn [negb]; [| by intros [= <- <-]].
  destruct (status_ok (durable_flush os 0 true)) eqn:E2; cbn [negb]; [| intros [= <- <-]; congruence].
  destruct (os_ok os (Stdio 15)); cbn [negb]; [| by intros [= <- <-]].
  destruct (os_ok os (Stdio 16)); cbn [negb]; [| by intros [= <- <-]]. by intros [= <- <-].
Qed.

Lemma first_file_boot options limits operator nonce script fuel e0 :
  recover (S fuel) (file_engine options limits operator nonce disk_empty script) = Some (success, e0) ->
  limits_ok (clamp_limits limits) ->
  live options [] 0 e0 /\ e_limits e0 = clamp_limits limits.
Proof.
  intros Hr Hl. revert Hr. unfold recover, file_engine. simpl e_has_journal. cbn [negb]. simpl j_open.
  unfold in_session. simpl se_file.
  destruct (file_open _ _) as [s1 j1] eqn:E1. simpl.
  destruct (status_ok s1) eqn:Hs1; simpl; [| intros [= -> <-]; done].
  apply file_open_new in E1 as ->; [| done]. simpl. unfold file_next_record. simpl.
  intros Hr. apply (f_equal (fun x => match x with Some (_, e) => e | None => e0 end)) in Hr.
  cbv beta iota in Hr. rewrite <-Hr. clear Hr. split; [| done]. constructor.
  - constructor; [by apply empty_engine_ok | done | split; simpl; word_lia | done |].
    intros er [Ba Bc Bl Bn]. exists er. split; [done |]. by constructor.
  - by constructor.
  - split; simpl; [word_lia | done].
  - simpl. lia.
Qed.

(** ** The next boot *)

(** Replaying the records of a file, in a process where nothing fails. *)
Lemma replay_loop_file options es : forall fuel pre bad torn j e er,
  e_journal e = mkSession j [] -> scanning pre (log_bytes es ++ bad) j -> fj_options j = options ->
  Forall (entry_wf options) es -> options_wf options -> stops options bad torn -> (length es < fuel)%nat ->
  replay_list es e = (success, er) ->
  exists j', replay_loop fuel None e = Some (success, set_journal (mkSession (if torn then tear j' else j') []) er) /\
    scanning (pre ++ log_bytes es) bad j' /\ same_log j j' /\ fj_torn j' = fj_torn j.
Proof.
  induction es as [|x es IH]; intros fuel pre bad torn j e er Hj Hs Ho Hes Hopt Hb Hf Hr;
    (destruct fuel as [|fuel]; [simpl in Hf; lia |]); simpl replay_loop; rewrite Hj; simpl j_next_record;
    unfold in_session, se_os; simpl se_file; simpl hd.
  - simpl in Hs, Hr. injection Hr as <-. rewrite (Hb pre j Hs Ho). simpl. exists j. rewrite app_nil_r.
    by destruct torn.
  - apply Forall_cons in Hes as [Hx Hes]. simpl in Hf.
    change (log_bytes (x :: es)) with (encode_record x ++ log_bytes es) in Hs |- *. rewrite <-app_assoc in Hs.
    rewrite <-Ho in Hx, Hopt. destruct (next_record_whole _ _ _ _ Hs Hx Hopt) as (j1 & -> & Hs1 & Hl & Ht & _).
    simpl. set (e1 := set_journal (mkSession j1 []) e).
    change (replay_record None (record_at (Z.of_nat (length pre)) x) e1) with (replay_record None (log_record x) e1).
    unfold e1. rewrite replay_record_carries. simpl in Hr.
    destruct (replay_record None (log_record x) e) as [st e2]. destruct (status_ok st) eqn:Hst; [| by simplify_eq].
    cbn [negb]. pose proof (sl_options _ _ Hl) as Ho1.
    destruct (IH fuel (pre ++ encode_record x) bad torn j1 (set_journal (mkSession j1 []) e2)
      (set_journal (mkSession j1 []) er)) as (j' & -> & Hs' & Hl' & Ht'); try done; try congruence; [lia | |].
    { by apply replay_list_carries. }
    exists j'. rewrite (app_assoc pre). split_and!; [done | done | by etrans | by etrans].
Qed.

Lemma entries_fit es : (length es <= length (log_bytes es))%nat.
Proof.
  induction es as [|x es IH]; [done |].
  change (log_bytes (x :: es)) with (encode_record x ++ log_bytes es).
  rewrite length_app, length_encode_record. simpl. lia.
Qed.

(** A new process on a file recovers what its records say. *)
Lemma recover_file options es j e1 A c n :
  boots_to options es j -> options_wf options -> fo_truncate_torn_tail options = true ->
  e_has_journal e1 = true -> e_journal e1 = mkSession (file_make options (fj_disk j)) [] ->
  (forall e, blank e (e_limits e1) -> exists er, replay_list es e = (success, er) /\
     e_accounts er = A /\ e_chain er = c /\ e_next_sequence er = n) ->
  exists ef, recover (S (length (log_content j))) e1 = Some (success, ef) /\
    e_accounts ef = demote_all <$> A /\ e_chain ef = c /\ e_next_sequence ef = n /\ e_recovered ef = true.
Proof.
  intros [Hsnap Hes (bad & torn & Hd & Hf & Hb)] Hopt Ht Hh Hj Hrep.
  unfold log_image in Hd, Hf. rewrite <-app_assoc in Hd, Hf.
  remember (S (length (log_content j))) as fuel eqn:Hfuel.
  unfold recover. rewrite Hh, Hj. cbn [negb]. simpl j_open. unfold in_session, se_os. simpl se_file.
  change (hd healthy []) with healthy. rewrite (file_open_image _ _ _ Hd). simpl. unfold file_read_snapshot at 1.
  simpl. rewrite Hsnap. simpl.
  match goal with |- context [replay_loop fuel None (set_journal (mkSession ?x []) ?y)] =>
    set (j0 := x); set (e0 := set_journal (mkSession j0 []) y) end.
  destruct (Hrep e0) as (er & Hr & HA & HC & HN); [by constructor |].
  assert (Hs : scanning (file_header kJournalMagic) (log_bytes es ++ bad) j0).
  { constructor; try done. unfold log_content. simpl. by rewrite Hd. }
  destruct (replay_loop_file options es fuel _ bad torn j0 e0 er eq_refl Hs eq_refl Hes Hopt Hb) as
    (j1 & -> & Hs1 & Hl1 & Ht1); [| done |].
  { pose proof (entries_fit es). rewrite Hfuel. unfold log_content. rewrite Hd. simpl default.
    rewrite !length_app. lia. }
  destruct Hs1 as [S1 S2 S3 S4 S5 S6], Hl1 as [L1 L2 L3 L4]. simpl in L1, L2, L3, L4, Ht1.
  cbn [status_ok negb]. unfold recover_finish. simpl j_end_replay. unfold in_session, se_os. simpl se_file.
  change (hd healthy []) with healthy.
  assert (Hend : exists j2, file_end_replay healthy (if torn then tear j1 else j1) = (success, j2)).
  { destruct torn; eexists; [apply (end_replay_torn (log_image es) bad) | apply end_replay_whole]; simpl;
      rewrite ?L1, ?L3; try done. }
  destruct Hend as [j2 Hend]. cbn [e_journal set_journal se_file se_script hd]. rewrite Hend. simpl. eexists. split; [done |]. simpl. by rewrite HA, HC, HN.
Qed.

(** ** The theorem *)

(** What a new process knows of the accounts [A]: nobody is live, and the audit log
    of refusals is gone. *)
Record resumes (A : gmap Z AccountState) (c : Digest128) (n : Z) e : Prop := {
  rs_accounts : e_accounts e = (fun a => demote_all (forget_refusals a)) <$> A;
  rs_chain : e_chain e = c;
  rs_next : e_next_sequence e = n;
  rs_recovered : e_recovered e = true;
}.

Section Crash.
Context (options : FileJournalOptions) (Hopt : options_wf options) (Htorn : fo_truncate_torn_tail options = true).

Lemma boots_resumes es e j e1 A c n :
  boots_to options es j -> e_limits e1 = e_limits e -> e_has_journal e1 = true ->
  e_journal e1 = mkSession (file_make options (fj_disk j)) [] ->
  (forall er, blank er (e_limits e) -> exists er', replay_list es er = (success, er') /\
     e_accounts er' = forget_refusals <$> A /\ e_chain er' = c /\ e_next_sequence er' = n) ->
  exists ef, recover (S (length (log_content j))) e1 = Some (success, ef) /\ resumes A c n ef.
Proof.
  intros Hb Hl Hh Hj Hrep. destruct (recover_file options es j e1 (forget_refusals <$> A) c n)
    as (ef & He & H1 & H2 & H3 & H4); try done; [by rewrite Hl |].
  exists ef. split; [done |]. constructor; try done. by rewrite H1, <-map_fmap_compose.
Qed.

(** A decision that is no refused binding is one whose record replays. *)
Lemma decision_binds_nothing e rq d c created x :
  ~ refused_binding e rq -> decision e rq d c created x ->
  rq_op rq = Issue -> o_applied d = false -> binds_nothing rq.
Proof.
  intros Hn Hd Hop Ho.
  destruct (decide (rq_producer rq = 0 /\ rq_consumer rq = 0 /\ rq_grant rq = 0)) as [|Hb]; [done |].
  destruct Hd as [a b Had Hv o c|r d a b Had Hv o c|Hop2]; [done | | congruence].
  destruct Hn. split; [done |]. split; [done |]. eexists a, r, d, b. split; [apply Had | done].
Qed.

(** A call whose records did not all get to the disk. *)
Lemma failed_resumes es m e rq o e' e1 :
  live options es m e -> request_wf 4096 rq -> Forall in_u8 (rq_note rq) -> ~ refused_binding e rq ->
  no_snapshot options (e_limits e) (2 * m + 2) -> 2 * m + 2 < 2 ^ 64 -> e_journal_failed e = false ->
  apply rq e = (o, e') -> e_journal_failed e' = true ->
  e_limits e1 = e_limits e -> e_has_journal e1 = true ->
  e_journal e1 = mkSession (file_make options (fj_disk (file_of e'))) [] ->
  exists ef, recover (S (length (log_content (file_of e')))) e1 = Some (success, ef) /\
    (resumes (e_accounts e) (e_chain e) (e_next_sequence e) ef \/
     resumes (alter (set_ambiguous [ambiguous_note rq (e_next_sequence e)]) (a_account (rq_authority rq)) (e_accounts e))
       (e_chain e) (e_next_sequence e) ef \/
     exists d c created x, decision e rq d c created x /\
       resumes (<[a_account (rq_authority rq) := x]> (e_accounts e))
         (commit_chain (e_chain e) (e_next_sequence e +% 1) rq d) (e_next_sequence e +% 1 +% 1) ef).
Proof.
  intros [Hb Hsv Hw Hrec] Hq Hnote Hpl Hns Hm Hf0 Hap Hf Hl Hh Hj.
  destruct (apply_logged _ _ _ _ Hap) as [o e' d c created x st e2 Hmf Hp Hst Hje _ Hdec|o e' _ Hacc Hc|o e' _ Hop Hr Hc|
    o e' c created x st e2 Hmf Hp Hst Hc Hacc Hdec].
  2, 3: rewrite (cr_failed _ _ Hc) in Hf; congruence.
  2: { rewrite (cr_failed _ _ Hc), (sc_failed _ _ (persist_core _ _ _ _ _ _ _ Hp)) in Hf. simpl in Hf. congruence. }
  destruct (booted_decision _ _ _ _ _ _ _ Hb Hq (decision_binds_nothing _ _ _ _ _ _ Hpl Hdec) Hmf Hdec) as (Hwf & _ & Hlog).
  destruct (persist_file options es (put_account (a_account (rq_authority rq)) c e) rq d c created st e2 (2 * m)
    Hsv Hopt Hw Hns Hrec Hm Hwf Hnote Hp) as [(-> & _)|(_ & k & Hk & Hboot)]; [done |].
  assert (Efile : file_of e2 = file_of e') by (unfold file_of; by rewrite Hje). rewrite Efile in Hboot.
  simpl e_chain in Hboot. simpl e_next_sequence in Hboot. simpl e_stats in Hboot.
  set (records := decision_records _ _ _ _ _) in *.
  destruct k as [|[|[|]]]; [| | | lia].
  - rewrite take_0, app_nil_r in Hboot.
    destruct (boots_resumes es e (file_of e') e1 (e_accounts e) (e_chain e) (e_next_sequence e))
      as (ef & He & Hres); try done; [| exists ef; auto].
    intros er Hbl. destruct (bt_log _ _ Hb er Hbl) as (er' & Hr & []). by exists er'.
  - destruct (boots_resumes (es ++ take 1 records) e (file_of e') e1 (alter
      (set_ambiguous [ambiguous_note rq (e_next_sequence e)]) (a_account (rq_authority rq)) (e_accounts e))
      (e_chain e) (e_next_sequence e)) as (ef & He & Hres); try done; [| exists ef; auto].
    intros er Hbl. destruct (bt_log _ _ Hb er Hbl) as (er' & Hr & Hmir). rewrite (replay_list_app _ _ _ _ Hr).
    apply malformed_none in Hmf as (_ & _ & _ & Hnl & _).
    destruct (replay_intent_marks er' _ _ _ _ (e_next_sequence e) (intent_chain (e_chain e) (e_next_sequence e) rq) rq
      Hmir) as (er1 & Hr1 & HA & HC & HN).
    { by apply request_wf_note. } { intros a Ha. by apply (ty_ambiguous _ (bt_typed _ _ Hb _ _ Ha)). }
    exists er1. split; [| done]. unfold records, decision_records. simpl take. simpl replay_list. by rewrite Hr1.
  - destruct (boots_resumes (es ++ records) e (file_of e') e1 (<[a_account (rq_authority rq) := x]> (e_accounts e))
      (commit_chain (e_chain e) (e_next_sequence e +% 1) rq d) (e_next_sequence e +% 1 +% 1))
      as (ef & He & Hres); try done.
    + intros er Hbl. destruct (Hlog er Hbl) as (er' & Hr & []). by exists er'.
    + exists ef. split; [done |]. right. right. eauto 10.
Qed.
End Crash.

(** C9: A crash leaves whole decisions.  Start an engine on a log file that does not
    exist yet and run any requests on it, with no snapshot coming due, no journal
    failure and neither of the refusals whose record does not describe the account
    they leave ([durable_outcome]: an [Issue] refused while naming identities, a
    [Fence] refused for budget).  Let one more request be cut off anywhere: the
    operating system may fail in any way while its records are appended and leave
    any part of them on the disk.  The request is neither an [Issue] that names
    identities and that the ledger refuses, nor a [Fence] refused for budget.
    The next process on that disk recovers.  If the
    last request was acknowledged, with or without a decision, every account is as
    the engine had it.  If its journaling failed, the accounts are as before it, or
    as before it with a note of the pending attempt, or as the decision it made
    would have left them: never anything in between, and no acknowledged decision
    is lost.  Nobody is live afterwards and the log of refusals is empty. *)
Theorem crash_leaves_whole_decisions options limits operator nonce script fuel e0 rqs rq o e' e1 :
  options_wf options -> fo_truncate_torn_tail options = true -> limits_ok (clamp_limits limits) ->
  let n := 2 * Z.of_nat (length rqs) + 2 in
  no_snapshot options (clamp_limits limits) n -> n < 2 ^ 64 ->
  recover (S fuel) (file_engine options limits operator nonce disk_empty script) = Some (success, e0) ->
  Forall (request_wf 4096) (rq :: rqs) -> Forall (fun rq => Forall in_u8 (rq_note rq)) (rq :: rqs) ->
  let r := run (CApply <$> rqs) e0 in
  let e := r.2 in
  Forall durable_outcome r.1 -> ~ refused_binding e rq ->
  (rq_op rq = Fence -> reason (o_status o) <> RBudgetExceeded) ->
  e_journal_failed e = false -> apply rq e = (o, e') ->
  e_limits e1 = clamp_limits limits -> e_has_journal e1 = true ->
  e_journal e1 = mkSession (file_make options (fj_disk (file_of e'))) [] ->
  exists ef, recover (S (length (log_content (file_of e')))) e1 = Some (success, ef) /\
    if e_journal_failed e' then
      let key := a_account (rq_authority rq) in
      let next := e_next_sequence e in
      resumes (e_accounts e) (e_chain e) next ef \/
      resumes (alter (set_ambiguous [ambiguous_note rq next]) key (e_accounts e)) (e_chain e) next ef \/
      exists d c created x, decision e rq d c created x /\
        resumes (<[key := x]> (e_accounts e)) (commit_chain (e_chain e) (next +% 1) rq d) (next +% 1 +% 1) ef
    else resumes (e_accounts e') (e_chain e') (e_next_sequence e') ef.
Proof.
  intros Hopt Ht Hl n Hns Hn Hb [Hq Hqs]%Forall_cons [Hnt Hnts]%Forall_cons r e Hd Hpl Hfe Hf Hap Hl1 Hh1 Hj1.
  destruct (first_file_boot _ _ _ _ _ _ _ Hb Hl) as [Hlive0 Hlim0]. destruct Hns as [Hns1 Hns2].
  assert (Hlim : e_limits e = clamp_limits limits) by (unfold e, r; by rewrite run_limits).
  destruct (run_live options Hopt rqs [] 0 e0 Hlive0 Hqs Hnts Hd) as (es & Hlive);
    [constructor; rewrite ?Hlim0; [lia | done] | lia | done |]. rewrite Z.add_0_l in Hlive. fold r e in Hlive.
  assert (Hns : no_snapshot options (e_limits e) (2 * Z.of_nat (length rqs) + 2)) by (rewrite Hlim; by constructor).
  destruct (e_journal_failed e') eqn:Hf'.
  - eapply (failed_resumes options Hopt Ht es (Z.of_nat (length rqs))); try done. by rewrite Hlim.
  - destruct (apply_live options Hopt es _ e rq o e' Hlive Hq Hnt
      (fun _ _ _ => decision_binds_nothing e rq o _ _ _ Hpl) Hfe Hns Hn Hap Hf') as (es' & [Hb' Hsv' _ _]).
    apply (boots_resumes options Hopt Ht es' e'); try done; [by apply serving_boots | |].
    + rewrite Hl1, <-Hlim. pose proof (run_limits [rq] e) as Hlr. rewrite run_apply_cons, Hap in Hlr. by rewrite <-Hlr.
    + intros er Hbl. destruct (bt_log _ _ Hb' er Hbl) as (er' & Hr & []). by exists er'.
Qed.

(** An account is opened, and the commit record of an issue is cut after 40 bytes. *)
Definition crash_options : FileJournalOptions := mkFileOptions "crash" 1048576 1000000 4096 true.

Definition crash_script : list OS :=
  replicate 7 healthy ++ [mkOS (fun c => match c with Stdio 55 => false | _ => true end) 40].

Definition crash_start : Engine FileSession :=
  file_engine crash_options default_limits operator sample_nonce disk_empty crash_script.

(** The process after the crash. *)
Definition next_process (e : Engine FileSession) : Engine FileSession :=
  file_engine crash_options default_limits operator (mkDigest 8 9) (fj_disk (file_of e)) [].

Definition crash_check (e : Engine FileSession) : bool :=
  let r := run (CApply <$> [open_request]) e in
  forallb (fun x => o_applied x.2) r.1 &&
  (forallb (fun x => negb (op_code (rq_op x.1) =? op_code Fence)) r.1 &&
   (negb (e_journal_failed r.2) && e_journal_failed (apply (issue_request 2 5) r.2).2)).

Lemma crash_checked : boots_with (recover 1 crash_start) crash_check = true.
Proof. vm_compute. reflexivity. Qed.

Lemma crash_options_wf : options_wf crash_options.
Proof. unfold options_wf. simpl. word_lia. Qed.

Lemma crash_leaves_whole_decisions_witness :
  exists e0 ef, recover 1 crash_start = Some (success, e0) /\
    let e := (run (CApply <$> [open_request]) e0).2 in
    let rq := issue_request 2 5 in
    let e' := (apply rq e).2 in
    let next := e_next_sequence e in
    e_journal_failed e' = true /\
    recover (S (length (log_content (file_of e')))) (next_process e') = Some (success, ef) /\
    (resumes (e_accounts e) (e_chain e) next ef \/
     resumes (alter (set_ambiguous [ambiguous_note rq next]) 2 (e_accounts e)) (e_chain e) next ef \/
     exists d c created x, decision e rq d c created x /\
       resumes (<[2 := x]> (e_accounts e)) (commit_chain (e_chain e) (next +% 1) rq d) (next +% 1 +% 1) ef).
Proof.
  destruct (boots_with_some _ _ crash_checked) as (e0 & Hb & Hc). unfold crash_check in Hc.
  apply andb_prop in Hc as [Ha Hc]. apply andb_prop in Hc as [Hn Hc]. apply andb_prop in Hc as [Hh Hf].
  apply negb_true_iff in Hh.
  destruct (crash_leaves_whole_decisions crash_options default_limits operator sample_nonce crash_script 0 e0
    [open_request] (issue_request 2 5)
    (apply (issue_request 2 5) (run (CApply <$> [open_request]) e0).2).1
    (apply (issue_request 2 5) (run (CApply <$> [open_request]) e0).2).2
    (next_process (apply (issue_request 2 5) (run (CApply <$> [open_request]) e0).2).2)
    crash_options_wf eq_refl default_limits_ok ltac:(constructor; reflexivity) eq_refl Hb) as (ef & H1 & H2).
  - constructor; [exact (Forall_inv (Forall_inv_tail restart_requests_wf)) |].
    constructor; [exact (Forall_inv restart_requests_wf) | constructor].
  - repeat constructor.
  - exact (durable_applied _ Ha Hn).
  - intros (_ & Hb2 & _). apply Hb2. repeat split.
  - discriminate.
  - exact Hh.
  - apply surjective_pairing.
  - reflexivity.
  - reflexivity.
  - reflexivity.
  - rewrite Hf in H2. exists e0, ef. split; [exact Hb |]. split; [exact Hf |]. split; [exact H1 | exact H2].
Defined.
