(* ===== verification/Transport.v ===== *)
(** * The transport (include/creditfabric/transport.hpp, src/transport.cpp)

    Sockets deliver bytes in pieces, stall and fail.  What the system calls
    answer is a list of events, one for each iteration of a loop, consumed as the
    loops run; a loop that runs out of events is still waiting, which is [None].
    A socket also carries the bytes its peer sends it during its life and the
    bytes it has sent. *)

From S2P Require Import Prelude Status Digest Bytes Crc32c Wire Platform.
Local Open Scope Z_scope.

(** One iteration of a transfer loop: the wait expired or the call would block;
    the socket was ready and moves up to [n] bytes; it failed; or the stop flag
    is found set. *)
Inductive IoEvent : Set := Idle | Ready (n : nat) | Failed | StopSeen.

Record Socket := mkSocket {
  so_valid : bool;
  so_rx : list Z;
  so_tx : list Z;
  so_events : list IoEvent;
}.

Definition set_rx (rx : list Z) (events : list IoEvent) (s : Socket) : Socket :=
  mkSocket (so_valid s) rx (so_tx s) events.

Definition set_tx (tx : list Z) (events : list IoEvent) (s : Socket) : Socket :=
  mkSocket (so_valid s) (so_rx s) tx events.

(** How many of the [want] bytes one ready call moves, out of what is there. *)
Definition chunk (n want : nat) (available : list Z) : list Z := take (Nat.max 1 n `min` want) available.

(** The bytes read, [closed], what is left of the stream and of the events.
    [recv] returning zero is the end of the stream. *)
Fixpoint read_exact (events : list IoEvent) (stop : bool) (count : nat) (bytes rx : list Z)
    : option (Status * bool * list Z * list Z * list IoEvent) :=
  if (count <=? length bytes)%nat then Some (success, false, bytes, rx, events) else
  let offset := Z.of_nat (length bytes) in
  match events with
  | [] => None
  | StopSeen :: events =>
      if stop then Some (refused_status RShutdownInProgress offset, false, bytes, rx, events)
      else read_exact events stop count bytes rx
  | Idle :: events => read_exact events stop count bytes rx
  | Failed :: events => Some (refused_status RTransportError 1, false, bytes, rx, events)
  | Ready n :: events =>
      match chunk n (count - length bytes) rx with
      | [] =>
          let closed := (length bytes =? 0)%nat in
          Some (if closed then success else refused_status RTruncatedInput offset, closed, bytes, rx, events)
      | received => read_exact events stop count (bytes ++ received) (drop (length received) rx)
      end
  end.

(** [rest] is what is left to send, [offset] how much is sent. *)
Fixpoint write_all (events : list IoEvent) (stop : bool) (offset : nat) (rest tx : list Z)
    : option (Status * list Z * list IoEvent) :=
  if (length rest =? 0)%nat then Some (success, tx, events) else
  match events with
  | [] => None
  | StopSeen :: events =>
      if stop then Some (refused_status RShutdownInProgress (Z.of_nat offset), tx, events)
      else write_all events stop offset rest tx
  | Idle :: events => write_all events stop offset rest tx
  | Failed :: events => Some (refused_status RTransportError 2, tx, events)
  | Ready n :: events =>
      let sent := chunk n (length rest) rest in
      write_all events stop (offset + length sent) (drop (length sent) rest) (tx ++ sent)
  end.

(** ** Socket operations *)

Definition socket_close (s : Socket) : Status * Socket :=
  (success, mkSocket false (so_rx s) (so_tx s) (so_events s)).

(** What is sent stays sent: the half-close has no effect on the bytes. *)
Definition shutdown_send (s : Socket) : Status * Socket := (success, s).

Definition send_all (data : list Z) (stop : bool) (s : Socket) : option (Status * Socket) :=
  if negb (so_valid s) then Some (refused_status RInvalidState 1, s) else
  match write_all (so_events s) stop 0 data (so_tx s) with
  | None => None
  | Some (status, tx, events) => Some (status, set_tx tx events s)
  end.

(** The bytes of a failed read are lost. *)
Definition recv_all (count : nat) (stop : bool) (s : Socket) : option (Status * bool * list Z * Socket) :=
  if negb (so_valid s) then Some (refused_status RInvalidState 2, false, [], s) else
  match read_exact (so_events s) stop count [] (so_rx s) with
  | None => None
  | Some (status, closed, bytes, rx, events) => Some (status, closed, bytes, set_rx rx events s)
  end.

Definition send_frame (type : MessageType) (payload : list Z) (stop : bool) (s : Socket)
    : option (Status * Socket) :=
  match encode_frame type payload with
  | inl encoded => Some (encoded, s)
  | inr frame => send_all frame stop s
  end.

(** The checks of a frame header before the payload is waited for: the length
    of the payload. *)
Definition check_frame_header (max_payload : Z) (frame : list Z) : Status + Z :=
  if negb (read_u32 frame 0 =? kWireMagic) then inl (refused_status RMalformedMessage 1) else
  if negb (byte_at frame 4 =? kFormatVersion)
  then inl (refused_status RUnsupportedVersion (byte_at frame 4)) else
  let flags := Z.lor (byte_at frame 6) (Z.shiftl (byte_at frame 7) 8) in
  if negb (flags =? 0) then inl (refused_status RMalformedMessage 2) else
  let len := read_u32 frame 8 in
  if len >? max_payload then inl (refused_status ROversizedFrame len) else
  inr len.

(** What [recv_frame] hands back: its status, [closed], and the message when
    there is one; [type] and [payload] are not assigned otherwise. *)
Record Received := mkReceived {
  rc_status : Status;
  rc_closed : bool;
  rc_message : option (MessageType * list Z);
}.

Definition recv_frame (max_payload : Z) (stop : bool) (s : Socket) : option (Received * Socket) :=
  if negb (so_valid s) then Some (mkReceived (refused_status RInvalidState 3) false None, s) else
  match read_exact (so_events s) stop (Z.to_nat kFrameHeaderBytes) [] (so_rx s) with
  | None => None
  | Some (status, peer_closed, header, rx, events) =>
      let s := set_rx rx events s in
      if negb (status_ok status) then Some (mkReceived status false None, s) else
      if peer_closed then Some (mkReceived success true None, s) else
      match check_frame_header max_payload header with
      | inl status => Some (mkReceived status false None, s)
      | inr len =>
          match read_exact (so_events s) stop (Z.to_nat (len + kFrameTrailerBytes)) [] (so_rx s) with
          | None => None
          | Some (status, peer_closed, body, rx, events) =>
              let s := set_rx rx events s in
              if negb (status_ok status) then Some (mkReceived status false None, s) else
              if peer_closed then Some (mkReceived success true None, s) else
              match decode_frame (header ++ body) max_payload with
              | inl status => Some (mkReceived status false None, s)
              | inr view =>
                  Some (mkReceived success false (Some (fh_type (fv_header view), fv_payload view)), s)
              end
          end
      end
  end.

Definition peer_description (s : Socket) : string := if so_valid s then "loopback" else "closed".

(** [connect_to]: which call fails, and the connection the peer answers on. *)
Definition connect_to (os : OS) (connection : Socket) : Status * option Socket :=
  let '(status, _) := initialize_sockets false false true in
  if negb (status_ok status) then (status, None) else
  if negb (os_ok os (Stdio 20)) then (refused_status RTransportError 20, None) else
  if negb (os_ok os (Stdio 21)) then (refused_status RTransportError 21, None) else
  if negb (os_ok os (Stdio 22)) then (refused_status RTransportError 22, None) else
  (success, Some connection).

(** ** The listener *)

Record Listener := mkListener { li_valid : bool; li_port : Z; li_stopping : bool }.

Definition listener_make : Listener := mkListener false 0 false.

(** [port] is the one [getsockname] reports. *)
Definition bind_loopback (os : OS) (port : Z) (l : Listener) : Status * Listener :=
  let '(status, _) := initialize_sockets false false true in
  if negb (status_ok status) then (status, l) else
  if li_valid l then (refused_status RInvalidState 4, l) else
  if negb (os_ok os (Stdio 10)) then (refused_status RTransportError 10, l) else
  if negb (os_ok os (Stdio 11)) then (refused_status RTransportError 11, l) else
  if negb (os_ok os (Stdio 12)) then (refused_status RTransportError 12, l) else
  if negb (os_ok os (Stdio 13)) then (refused_status RTransportError 13, l) else
  if negb (os_ok os (Stdio 14)) then (refused_status RTransportError 14, l) else
  (success, mkListener true port (li_stopping l)).

(** One iteration of the accept loop. *)
Inductive AcceptEvent := AcceptIdle | AcceptStop | SelectFailed | AcceptFailed | Accepted (s : Socket).

(** The socket accepted, or [closed], and the remaining events. *)
Fixpoint accept (events : list AcceptEvent) (l : Listener)
    : option (Status * option Socket * bool * list AcceptEvent) :=
  if negb (li_valid l) then Some (refused_status RInvalidState 5, None, false, events) else
  if li_stopping l then Some (success, None, true, events) else
  match events with
  | [] => None
  | AcceptIdle :: events => accept events l
  | AcceptStop :: events => Some (success, None, true, events)
  | SelectFailed :: events => Some (refused_status RTransportError 15, None, false, events)
  | AcceptFailed :: events => Some (refused_status RTransportError 16, None, false, events)
  | Accepted s :: events => Some (success, Some s, false, events)
  end.

Definition stop_accepting (l : Listener) : Listener := mkListener (li_valid l) (li_port l) true.

Definition listener_close (l : Listener) : Status * Listener :=
  (success, mkListener false (li_port l) (li_stopping l)).

(** ** Reading and writing exact amounts *)

(** Events of a connection that stalls at will but neither fails nor is stopped. *)
Definition benign (events : list IoEvent) : Prop :=
  Forall (fun ev => match ev with Idle | Ready _ => True | Failed | StopSeen => False end) events.

Definition is_ready (ev : IoEvent) : bool := match ev with Ready _ => true | _ => false end.

(** How often the socket will be ready. *)
Definition readiness (events : list IoEvent) : nat := length (List.filter is_ready events).

Lemma readiness_ready n events : readiness (Ready n :: events) = S (readiness events).
Proof. done. Qed.

Lemma chunk_length n want available :
  length (chunk n want available) = ((Nat.max 1 n `min` want) `min` length available)%nat.
Proof. unfold chunk. rewrite length_take. lia. Qed.

Lemma chunk_drop n want available :
  chunk n want available ++ drop (length (chunk n want available)) available = available.
Proof.
  unfold chunk. set (m := (Nat.max 1 n `min` want)%nat). rewrite length_take.
  destruct (decide (m <= length available)%nat).
  - rewrite Nat.min_l by done. apply take_drop.
  - rewrite Nat.min_r, take_ge, drop_all, app_nil_r by lia. done.
Qed.

(** Whatever happens, the bytes read come off the front of the stream. *)
Lemma read_exact_stream events stop count bytes rx st closed bytes' rx' events' :
  read_exact events stop count bytes rx = Some (st, closed, bytes', rx', events') ->
  bytes' ++ rx' = bytes ++ rx /\
  (status_ok st = true -> closed = false -> (length bytes <= count)%nat -> length bytes' = count) /\
  (closed = true -> status_ok st = true /\ bytes' = []).
Proof.
  revert bytes rx. induction events as [|ev events IH]; intros bytes rx; simpl;
    (destruct (Nat.leb_spec count (length bytes));
     [intros [= <- <- <- <- <-]; split_and!; try done; lia |]); [done |].
  destruct ev as [|n| |].
  - apply IH.
  - destruct (chunk n (count - length bytes) rx) as [|b bs] eqn:E.
    + intros [= <- <- <- <- <-]. destruct bytes; simpl; split_and!; done.
    + pose proof (chunk_drop n (count - length bytes) rx) as Hcd.
      pose proof (chunk_length n (count - length bytes) rx) as Hcl. rewrite E in Hcd, Hcl.
      intros Hr. apply IH in Hr as (H1 & H2 & H3). simpl in Hcd. rewrite H1, <-app_assoc. simpl. rewrite Hcd.
      split_and!; try done. intros Ho Hc Hl. apply H2; try done. rewrite length_app. lia.
  - by intros [= <- <- <- <- <-].
  - destruct stop; [by intros [= <- <- <- <- <-] | apply IH].
Qed.

(** A benign connection on which enough bytes arrive delivers them. *)
Lemma read_exact_delivers events stop count bytes rx :
  benign events -> (length bytes <= count)%nat -> (count - length bytes <= length rx)%nat ->
  (count - length bytes <= readiness events)%nat ->
  exists events', read_exact events stop count bytes rx =
    Some (success, false, bytes ++ take (count - length bytes) rx, drop (count - length bytes) rx, events') /\
    benign events' /\ (readiness events - (count - length bytes) <= readiness events')%nat.
Proof.
  revert bytes rx. induction events as [|ev events IH]; intros bytes rx Hb Hc Hrx Hr; cbn [read_exact];
    (destruct (Nat.leb_spec count (length bytes)) as [Hd|Hd];
     [replace (count - length bytes)%nat with 0%nat by lia; rewrite take_0, drop_0, app_nil_r;
      eexists; split_and!; [done | done | simpl; lia] |]);
    [unfold readiness in Hr; simpl in Hr; lia |].
  apply Forall_cons in Hb as [Hev Hb]. destruct ev as [|n| |]; try done.
  - by apply IH.
  - rewrite readiness_ready in Hr.
    pose proof (chunk_length n (count - length bytes) rx) as Hl.
    destruct (chunk n (count - length bytes) rx) as [|b bs] eqn:E; [simpl in Hl; lia |].
    rewrite <-E in Hl |- *. clear E. set (received := chunk n (count - length bytes) rx) in *.
    destruct (IH (bytes ++ received) (drop (length received) rx)) as (ev' & Hrd & Hb' & Hrr);
      rewrite ?length_app, ?length_drop; try done; [lia .. |].
    rewrite length_app in Hrd, Hrr. exists ev'. rewrite Hrd.
    assert (Hrec : received = take (length received) rx).
    { pose proof (chunk_drop n (count - length bytes) rx) as Hcd. fold received in Hcd.
      rewrite <-Hcd at 1. by rewrite take_app_length. }
    set (m := (count - (length bytes + length received))%nat) in *.
    replace (count - length bytes)%nat with (length received + m)%nat in * by lia.
    split_and!; [| done | rewrite readiness_ready; lia].
    by rewrite <-take_take_drop, <-Hrec, <-drop_drop, <-app_assoc.
Qed.

Lemma write_all_delivers events stop offset rest tx :
  benign events -> (length rest <= readiness events)%nat ->
  exists events', write_all events stop offset rest tx = Some (success, tx ++ rest, events') /\
    benign events' /\ (readiness events - length rest <= readiness events')%nat.
Proof.
  revert offset rest tx. induction events as [|ev events IH]; intros offset rest tx Hb Hr; simpl;
    (destruct (Nat.eqb_spec (length rest) 0) as [Hd|Hd];
     [apply length_zero_iff_nil in Hd as ->; rewrite app_nil_r; eexists; split_and!;
      [done | done | simpl; lia] |]);
    [unfold readiness in Hr; simpl in Hr; lia |].
  apply Forall_cons in Hb as [Hev Hb]. destruct ev as [|n| |]; try done.
  - by apply IH.
  - rewrite readiness_ready in Hr.
    pose proof (chunk_length n (length rest) rest) as Hl. pose proof (chunk_drop n (length rest) rest) as Hcd.
    set (sent := chunk n (length rest) rest) in *.
    destruct (IH (offset + length sent)%nat (drop (length sent) rest) (tx ++ sent)) as (ev' & Hw & Hb' & Hrr);
      rewrite ?length_drop; try done; [lia |].
    rewrite length_drop in Hrr. exists ev'. rewrite Hw, <-app_assoc, Hcd. split_and!; try done.
    rewrite readiness_ready. lia.
Qed.

(** ** Transfers and the stop flag *)

(** The flag is found set when there is nothing else left to do. *)
Definition flagged (events : list IoEvent) : Prop := exists pre, events = pre ++ [StopSeen].

(** A transfer that looks at the flag ends, and has used the flag up only by failing. *)
Lemma read_exact_flagged events count bytes rx :
  flagged events -> exists st closed bytes' rx' events',
    read_exact events true count bytes rx = Some (st, closed, bytes', rx', events') /\
    (status_ok st = true -> flagged events').
Proof.
  intros [pre ->]. revert bytes rx. induction pre as [|ev pre IH]; intros bytes rx; cbn [app read_exact].
  - destruct (count <=? length bytes)%nat; [| by eexists _, _, _, _, _].
    eexists _, _, _, _, _. split; [done |]. intros _. by exists [].
  - destruct (count <=? length bytes)%nat.
    { eexists _, _, _, _, _. split; [done |]. intros _. by exists (ev :: pre). }
    destruct ev as [|n| |]; [apply IH | | by eexists _, _, _, _, _ | by eexists _, _, _, _, _].
    destruct (chunk n _ rx); [| apply IH].
    eexists _, _, _, _, _. split; [done |]. intros _. by exists pre.
Qed.

Lemma write_all_flagged events offset rest tx :
  flagged events -> exists st tx' events',
    write_all events true offset rest tx = Some (st, tx', events') /\
    (status_ok st = true -> flagged events').
Proof.
  intros [pre ->]. revert offset rest tx.
  induction pre as [|ev pre IH]; intros offset rest tx; cbn [app write_all].
  - destruct (length rest =? 0)%nat; [| by eexists _, _, _].
    eexists _, _, _. split; [done |]. intros _. by exists [].
  - destruct (length rest =? 0)%nat.
    { eexists _, _, _. split; [done |]. intros _. by exists (ev :: pre). }
    destruct ev as [|n| |]; [apply IH | apply IH | by eexists _, _, _ | by eexists _, _, _].
Qed.

Lemma send_frame_flagged type payload s :
  flagged (so_events s) -> exists st s2, send_frame type payload true s = Some (st, s2) /\
    (status_ok st = true -> flagged (so_events s2)).
Proof.
  intros Hf. unfold send_frame, send_all. destruct (encode_frame type payload) as [st|frame]; [by exists st, s |].
  destruct (so_valid s); simpl; [| by eexists _, s].
  destruct (write_all_flagged (so_events s) 0 frame (so_tx s) Hf) as (st & tx & ev & -> & Hev).
  by exists st, (set_tx tx ev s).
Qed.

Lemma recv_frame_flagged max_payload s :
  flagged (so_events s) -> exists r s2, recv_frame max_payload true s = Some (r, s2) /\
    (is_Some (rc_message r) -> flagged (so_events s2)).
Proof.
  intros Hf. unfold recv_frame. destruct (so_valid s); simpl; [| by eexists _, _; split; [| intros [? ?]]].
  destruct (read_exact_flagged (so_events s) (Z.to_nat kFrameHeaderBytes) [] (so_rx s) Hf)
    as (st & closed & header & rx & ev & E & Hev).
  simpl in E. rewrite E.
  destruct (status_ok st); simpl; [| by eexists _, _; split; [| intros [? ?]]].
  destruct closed; [by eexists _, _; split; [| intros [? ?]] |].
  destruct (check_frame_header max_payload header) as [st2|len]; [by eexists _, _; split; [| intros [? ?]] |].
  destruct (read_exact_flagged ev (Z.to_nat (len + kFrameTrailerBytes)) [] rx (Hev eq_refl))
    as (st2 & closed & body & rx2 & ev2 & E2 & Hev2).
  rewrite E2. destruct (status_ok st2); simpl; [| by eexists _, _; split; [| intros [? ?]]].
  destruct closed; [by eexists _, _; split; [| intros [? ?]] |].
  destruct (decode_frame (header ++ body) max_payload); [by eexists _, _; split; [| intros [? ?]] |].
  eexists _, _. split; [done |]. intros _. by apply Hev2.
Qed.

(** Nothing is received from a peer that sends nothing. *)
Definition silent (events : list IoEvent) : Prop := Forall (fun ev => is_ready ev = false) events.

Lemma recv_frame_silent max_payload stop s r s2 :
  silent (so_events s) -> recv_frame max_payload stop s = Some (r, s2) -> status_ok (rc_status r) = false.
Proof.
  assert (Hr : forall events stop count rx st closed bytes rx' ev', silent events -> (0 < count)%nat ->
    read_exact events stop count [] rx = Some (st, closed, bytes, rx', ev') -> status_ok st = false).
  { clear. intros events stop count rx st closed bytes rx' ev' Hs Hc.
    induction Hs as [|ev events Hev Hs IH]; simpl; (destruct (Nat.leb_spec count 0); [lia |]); [done |].
    destruct ev; [exact IH | done | by intros [= <- _ _ _ _] |].
    destruct stop; [by intros [= <- _ _ _ _] | exact IH]. }
  intros Hs. unfold recv_frame. destruct (so_valid s); simpl; [| by intros [= <- <-]].
  destruct (read_exact _ _ _ _ _) as [[[[[st closed] header] rx] ev]|] eqn:E; [| done].
  apply Hr in E; [| done | unfold kFrameHeaderBytes; lia]. rewrite E. by intros [= <- <-].
Qed.

(** ** Frames *)

Lemma check_written_header t n max_payload :
  in_u32 n -> check_frame_header max_payload (write_header t 0 n) =
    if n >? max_payload then inl (refused_status ROversizedFrame n) else inr n.
Proof.
  intros Hn. unfold check_frame_header.
  rewrite <-(app_nil_r (write_header t 0 n)), read_header_magic, read_header_length, !byte_at_header by (done || lia).
  done.
Qed.

(** The bytes of a frame split where [recv_frame] splits them. *)
Lemma frame_split t payload bytes :
  encode_frame t payload = inr bytes ->
  in_u32 (Z.of_nat (length payload)) /\ exists body,
    bytes = write_header t 0 (Z.of_nat (length payload)) ++ body /\
    length body = Z.to_nat (Z.of_nat (length payload) + kFrameTrailerBytes).
Proof.
  intros H. pose proof (length_frame _ _ _ H) as Hl. apply encode_frame_inv in H as [Hn ->].
  split; [done |]. eexists. split; [done |]. rewrite length_app, length_header in Hl.
  unfold kFrameTrailerBytes. lia.
Qed.

Record sendable (max_payload : Z) (m : MessageType * list Z) : Prop := {
  sd_bytes : Forall in_u8 m.2;
  sd_size : Z.of_nat (length m.2) <= Z.min max_payload 0xFFFFFFFF;
}.

Definition frame_bytes (m : MessageType * list Z) : list Z :=
  match encode_frame m.1 m.2 with inl _ => [] | inr bytes => bytes end.

Lemma sendable_encodes max_payload m :
  sendable max_payload m -> encode_frame m.1 m.2 = inr (frame_bytes m).
Proof.
  intros [_ Hs]. unfold frame_bytes, encode_frame.
  destruct (Z.gtb_spec (Z.of_nat (length m.2)) 0xFFFFFFFF); [lia | done].
Qed.

Lemma length_frame_bytes max_payload m :
  sendable max_payload m -> length (frame_bytes m) = (16 + length m.2)%nat.
Proof. intros Hm. by eapply length_frame, sendable_encodes. Qed.

(** A whole frame at the front of a benign stream is received. *)
Lemma recv_frame_delivers max_payload stop m rest s :
  sendable max_payload m -> so_valid s = true -> so_rx s = frame_bytes m ++ rest ->
  benign (so_events s) -> (length (frame_bytes m) <= readiness (so_events s))%nat ->
  exists events, recv_frame max_payload stop s =
    Some (mkReceived success false (Some m), set_rx rest events s) /\ benign events /\
    (readiness (so_events s) - length (frame_bytes m) <= readiness events)%nat.
Proof.
  intros Hm Hv Hrx Hb Hr. pose proof (sendable_encodes _ _ Hm) as Henc.
  destruct (frame_split _ _ _ Henc) as (Hn & body & Hf & Hbody).
  pose proof (sd_size _ _ Hm) as Hsz. pose proof (length_header m.1 (Z.of_nat (length m.2))) as Hh.
  unfold recv_frame. rewrite Hv, Hrx, Hf in *. cbn [negb]. rewrite length_app, Hh in Hr.
  change (Z.to_nat kFrameHeaderBytes) with 12%nat.
  destruct (read_exact_delivers (so_events s) stop 12 []
    ((write_header m.1 0 (Z.of_nat (length m.2)) ++ body) ++ rest)) as (ev1 & Hr1 & Hb1 & Hrr1);
    rewrite ?length_app, ?Hh; try done; try (simpl; lia). simpl minus in *. rewrite Hr1.
  rewrite <-app_assoc, take_app_exact, drop_app_exact by done. simpl status_ok. cbn [negb app].
  rewrite check_written_header by done.
  destruct (Z.gtb_spec (Z.of_nat (length m.2)) max_payload); [lia |]. cbn [so_events so_rx set_rx].
  destruct (read_exact_delivers ev1 stop (Z.to_nat (Z.of_nat (length m.2) + kFrameTrailerBytes)) []
    (body ++ rest)) as (ev2 & Hr2 & Hb2 & Hrr2);
    rewrite ?length_app; try done; try (simpl; lia). rewrite Nat.sub_0_r in *. rewrite Hr2.
  rewrite take_app_exact, drop_app_exact by done. simpl status_ok. cbn [negb app].
  pose proof (frame_decodes m.1 m.2 _ [] max_payload (sd_bytes _ _ Hm) Henc ltac:(lia)) as Hd.
  rewrite app_nil_r in Hd. rewrite Hd. simpl.
  exists ev2. split; [by destruct m |]. split; [done |]. lia.
Qed.

(** Any stream that is cut off somewhere, on any connection: a message that is
    received is the one whose frame is at the front. *)
Lemma recv_frame_front max_payload max_sent stop m rest (k : nat) s r s' :
  sendable max_sent m -> so_rx s = take k (frame_bytes m ++ rest) ->
  recv_frame max_payload stop s = Some (r, s') ->
  rc_message r = None \/
  rc_message r = Some m /\ so_rx s' = take (k - length (frame_bytes m)) rest.
Proof.
  intros Hm Hrx. pose proof (sendable_encodes _ _ Hm) as Henc.
  destruct (frame_split _ _ _ Henc) as (Hn & body & Hf & Hbody).
  pose proof (length_header m.1 (Z.of_nat (length m.2))) as Hh.
  unfold recv_frame. destruct (so_valid s); cbn [negb]; [| intros [= <- <-]; by left].
  change (Z.to_nat kFrameHeaderBytes) with 12%nat.
  destruct (read_exact _ _ _ _ _) as [[[[[st1 c1] header] rx1] ev1]|] eqn:E1; [| done].
  apply read_exact_stream in E1 as (H1 & L1 & _). simpl in H1.
  destruct (status_ok st1); cbn [negb]; [| intros [= <- <-]; by left].
  destruct c1; [intros [= <- <-]; by left |]. specialize (L1 eq_refl eq_refl ltac:(simpl; lia)).
  rewrite Hrx, Hf, <-app_assoc in H1.
  assert (Hk : (12 <= k)%nat).
  { pose proof (f_equal length H1) as Hlen. rewrite length_app, L1, length_take in Hlen. lia. }
  rewrite take_app_ge in H1 by lia. rewrite Hh in H1. apply app_inj_1 in H1 as [-> ->]; [| by rewrite Hh].
  rewrite check_written_header by done.
  destruct (Z.gtb_spec (Z.of_nat (length m.2)) max_payload); [intros [= <- <-]; by left |].
  cbn [so_events so_rx set_rx].
  destruct (read_exact ev1 _ _ _ _) as [[[[[st2 c2] body'] rx2] ev2]|] eqn:E2; [| done].
  apply read_exact_stream in E2 as (H2 & L2 & _). simpl in H2.
  destruct (status_ok st2); cbn [negb]; [| intros [= <- <-]; by left].
  destruct c2; [intros [= <- <-]; by left |]. specialize (L2 eq_refl eq_refl ltac:(simpl; lia)).
  assert (Hk2 : (length body <= k - 12)%nat).
  { pose proof (f_equal length H2) as Hlen. rewrite length_app, L2, length_take in Hlen. lia. }
  rewrite take_app_ge in H2 by lia. apply app_inj_1 in H2 as [-> ->]; [| by rewrite L2].
  pose proof (frame_decodes m.1 m.2 (frame_bytes m) [] max_payload (sd_bytes _ _ Hm) Henc ltac:(lia)) as Hd.
  rewrite app_nil_r, Hf in Hd. rewrite Hd. intros [= <- <-]. right. simpl. split; [by destruct m |].
  rewrite Hf, length_app, Hh. f_equal. lia.
Qed.

(** ** Streams of messages *)

(** The bytes of a sequence of messages. *)
Definition stream_of (msgs : list (MessageType * list Z)) : list Z := concat (frame_bytes <$> msgs).

(** Sending one message after the other, until one is refused or waits. *)
Fixpoint send_frames (msgs : list (MessageType * list Z)) (stop : bool) (s : Socket)
    : option (Status * Socket) :=
  match msgs with
  | [] => Some (success, s)
  | m :: msgs =>
      match send_frame m.1 m.2 stop s with
      | None => None
      | Some (status, s) => if status_ok status then send_frames msgs stop s else Some (status, s)
      end
  end.

(** Receiving up to [n] messages: those received until one call waits, fails or
    reports the end. *)
Fixpoint recv_frames (n : nat) (max_payload : Z) (stop : bool) (s : Socket)
    : list (MessageType * list Z) * Socket :=
  match n with
  | O => ([], s)
  | S n =>
      match recv_frame max_payload stop s with
      | None => ([], s)
      | Some (r, s) =>
          match rc_message r with
          | None => ([], s)
          | Some m => let '(ms, s) := recv_frames n max_payload stop s in (m :: ms, s)
          end
      end
  end.

Lemma stream_of_cons m msgs : stream_of (m :: msgs) = frame_bytes m ++ stream_of msgs.
Proof. done. Qed.

Lemma send_frame_delivers max_payload m stop s :
  sendable max_payload m -> so_valid s = true -> benign (so_events s) ->
  (length (frame_bytes m) <= readiness (so_events s))%nat ->
  exists events, send_frame m.1 m.2 stop s = Some (success, set_tx (so_tx s ++ frame_bytes m) events s) /\
    benign events /\ (readiness (so_events s) - length (frame_bytes m) <= readiness events)%nat.
Proof.
  intros Hm Hv Hb Hr. unfold send_frame, send_all. rewrite (sendable_encodes _ _ Hm), Hv. cbn [negb].
  destruct (write_all_delivers (so_events s) stop 0 (frame_bytes m) (so_tx s) Hb Hr) as (ev & -> & ? & ?).
  by exists ev.
Qed.

Lemma send_frames_delivers max_payload msgs stop s :
  Forall (sendable max_payload) msgs -> so_valid s = true -> benign (so_events s) ->
  (length (stream_of msgs) <= readiness (so_events s))%nat ->
  exists events, send_frames msgs stop s = Some (success, set_tx (so_tx s ++ stream_of msgs) events s).
Proof.
  intros Hm. revert s. induction Hm as [|m msgs Hm Hms IH]; intros s Hv Hb Hr; simpl.
  { exists (so_events s). unfold set_tx. rewrite app_nil_r. by destruct s. }
  rewrite stream_of_cons in *.
  rewrite length_app in Hr.
  destruct (send_frame_delivers _ m stop s Hm Hv Hb) as (ev & -> & Hb' & Hr'); [lia |]. simpl.
  destruct (IH (set_tx (so_tx s ++ frame_bytes m) ev s)) as (ev2 & ->); simpl; try done; [lia |].
  exists ev2. unfold set_tx. simpl. by rewrite <-app_assoc.
Qed.

Lemma recv_frames_delivers max_payload msgs stop rest s :
  Forall (sendable max_payload) msgs -> so_valid s = true -> so_rx s = stream_of msgs ++ rest ->
  benign (so_events s) -> (length (stream_of msgs) <= readiness (so_events s))%nat ->
  exists events, recv_frames (length msgs) max_payload stop s = (msgs, set_rx rest events s).
Proof.
  intros Hm. revert s. induction Hm as [|m msgs Hm Hms IH]; intros s Hv Hrx Hb Hr; simpl.
  { exists (so_events s). unfold set_rx. simpl in Hrx. rewrite <-Hrx. by destruct s. }
  rewrite stream_of_cons in *.
  rewrite length_app in Hr. rewrite <-app_assoc in Hrx.
  destruct (recv_frame_delivers max_payload stop m _ s Hm Hv Hrx Hb) as (ev & -> & Hb' & Hr'); [lia |].
  simpl. destruct (IH (set_rx (stream_of msgs ++ rest) ev s)) as (ev2 & ->); simpl; try done; [lia |].
  by exists ev2.
Qed.

(** ** Properties *)

(** C25: Messages get through, whatever the chunking.  Two ends of a connection
    whose socket calls move any number of bytes at a time and stall any number of
    times, but are ready often enough: sending a sequence of messages of any
    types succeeds, and the other end receives exactly these messages, in order,
    leaving the bytes that follow them untouched. *)
Theorem messages_get_through max_payload msgs stop stop' sender receiver rest :
  Forall (sendable max_payload) msgs -> so_valid sender = true -> so_valid receiver = true ->
  benign (so_events sender) -> benign (so_events receiver) -> so_tx sender = [] ->
  (length (stream_of msgs) <= readiness (so_events sender))%nat ->
  (length (stream_of msgs) <= readiness (so_events receiver))%nat ->
  exists sent, send_frames msgs stop sender = Some (success, sent) /\
    (so_rx receiver = so_tx sent ++ rest ->
     exists events, recv_frames (length msgs) max_payload stop' receiver = (msgs, set_rx rest events receiver)).
Proof.
  intros Hm Hv1 Hv2 Hb1 Hb2 Htx Hr1 Hr2.
  destruct (send_frames_delivers max_payload msgs stop sender Hm Hv1 Hb1 Hr1) as (ev & ->).
  eexists. split; [done |]. simpl. rewrite Htx. intros Hrx.
  by apply (recv_frames_delivers max_payload msgs stop' rest receiver).
Qed.

Definition sample_messages : list (MessageType * list Z) := [(Bye, []); (MRequest, [1; 2])].

Lemma sample_messages_sendable : Forall (sendable 64) sample_messages.
Proof. repeat constructor; simpl; word_lia. Qed.

Lemma length_sample_stream : length (stream_of sample_messages) = 34%nat.
Proof.
  unfold stream_of, sample_messages. cbn [fmap list_fmap concat].
  rewrite !length_app, (length_frame_bytes 64), (length_frame_bytes 64); [done | |];
    constructor; simpl; repeat constructor; word_lia.
Qed.

(** Three bytes at a time, stalling between. *)
Definition slow_events : list IoEvent := concat (replicate 40 [Idle; Ready 3]).

Lemma messages_get_through_witness :
  exists sent, send_frames sample_messages false (mkSocket true [] [] slow_events) = Some (success, sent) /\
    exists s, recv_frames 2 64 false (mkSocket true (so_tx sent) [] slow_events) = (sample_messages, s).
Proof.
  assert (Hb : benign slow_events) by (unfold slow_events; simpl; repeat constructor).
  assert (Hr : readiness slow_events = 40%nat) by reflexivity.
  destruct (send_frames_delivers 64 sample_messages false (mkSocket true [] [] slow_events)) as (ev & Hs);
    [exact sample_messages_sendable | reflexivity | exact Hb
    | simpl so_events; rewrite Hr, length_sample_stream; lia |].
  eexists. split; [exact Hs |].
  destruct (messages_get_through 64 sample_messages false false (mkSocket true [] [] slow_events)
    (mkSocket true (stream_of sample_messages) [] slow_events) []) as (sent & Hsent & Hrecv);
    [exact sample_messages_sendable | reflexivity | reflexivity | exact Hb | exact Hb | reflexivity
    | simpl so_events; rewrite Hr, length_sample_stream; lia
    | simpl so_events; rewrite Hr, length_sample_stream; lia |].
  rewrite Hs in Hsent. injection Hsent as <-.
  destruct Hrecv as (ev2 & H2); [simpl; rewrite app_nil_r; reflexivity |].
  eexists. exact H2.
Defined.

(** C28: Nothing is received that was not sent.  Let a stream of messages be cut
    off after any number of bytes, and let the connection stall, fail, close or
    be stopped anywhere: what a sequence of [recv_frame] calls receives, up to
    the first that does not return a message, is a prefix of what was sent, each
    message whole. *)
Theorem received_is_prefix max_payload max_sent msgs (k n : nat) stop s :
  Forall (sendable max_sent) msgs -> so_rx s = take k (stream_of msgs) ->
  (recv_frames n max_payload stop s).1 `prefix_of` msgs.
Proof.
  intros Hm. revert k n s. induction Hm as [|m msgs Hm Hms IH]; intros k n s Hrx.
  - destruct n as [|n]; simpl; [done |].
    destruct (recv_frame max_payload stop s) as [[r s']|] eqn:E; [| done].
    assert (Hnone : rc_message r = None); [| by rewrite Hnone].
    unfold recv_frame in E. destruct (so_valid s); cbn [negb] in E; [| by simplify_eq].
    destruct (read_exact _ _ _ _ _) as [[[[[st c] header] rx] ev]|] eqn:E1; [| done].
    apply read_exact_stream in E1 as (H1 & L1 & _).
    destruct (status_ok st); cbn [negb] in E; [| by simplify_eq].
    destruct c; [by simplify_eq |]. specialize (L1 eq_refl eq_refl ltac:(simpl; lia)).
    apply (f_equal length) in H1. rewrite length_app, L1, Hrx, length_app, length_take in H1. simpl in H1. lia.
  - destruct n as [|n]; simpl; [apply prefix_nil |].
    destruct (recv_frame max_payload stop s) as [[r s']|] eqn:E; [| apply prefix_nil].
    destruct (recv_frame_front _ _ _ _ _ _ _ _ _ Hm Hrx E) as [Hr|[Hr Hrx']]; rewrite Hr;
      [apply prefix_nil |].
    specialize (IH _ n s' Hrx'). destruct (recv_frames n max_payload stop s') as [ms s2].
    by apply prefix_cons.
Qed.

Lemma received_is_prefix_witness :
  (recv_frames 5 64 true (mkSocket true (take 20 (stream_of sample_messages)) []
    [Ready 9; Idle; Ready 9; Ready 9; StopSeen])).1 `prefix_of` sample_messages.
Proof.
  apply (received_is_prefix 64 64 sample_messages 20 5 true);
    [exact sample_messages_sendable | reflexivity].
Defined.
