(* ===== verification/SocketCalls.v ===== *)
(** * Sockets and the calls under them (src/transport.cpp)

    [Transport] runs its loops on one event for an iteration.  This file has the
    loops as they are written, over what [select], [recv], [send] and [accept]
    answer and the error codes the program looks at, shows that they are the loops of
    [Transport], and that interruptions do not break a transfer; and it has the life
    of the native handles behind the socket objects, which are moved, assigned, closed
    and destroyed. *)

From S2P Require Import Prelude Status Digest Bytes Crc32c Wire Platform Transport.
Local Open Scope Z_scope.

(** ** What the calls answer *)

Inductive Errno : Set := EWOULDBLOCK | EAGAIN | EINTR | EOther.

Definition would_block (errno : Errno) : bool :=
  match errno with EWOULDBLOCK | EAGAIN | EINTR => true | EOther => false end.

(** [select]: positive, zero, negative. *)
Inductive Selected : Set := Signalled | TimedOut | SelectError (errno : Errno).

(** [recv] and [send]: at most so many bytes, or negative. *)
Inductive Moved : Set := Moves (n : nat) | MoveError (errno : Errno).

(** One call of [wait_ready], given what [select] answers in turn. *)
Fixpoint wait_ready (answers : list Selected) : option Z :=
  match answers with
  | [] => None
  | Signalled :: _ => Some 1
  | TimedOut :: _ => Some 0
  | SelectError errno :: answers => if would_block errno then wait_ready answers else Some (-1)
  end.

(** One iteration of a transfer loop: what the stop flag holds when it is loaded,
    what [select] answers while waiting, and what the transfer answers. *)
Record Iteration := mkIteration {
  it_stop : bool;
  it_select : list Selected;
  it_move : Moved;
}.

(** ** The loops as written *)

(** [stop] says whether the caller supplied a flag. *)
Fixpoint read_exact_calls (its : list Iteration) (stop : bool) (count : nat) (bytes rx : list Z)
    : option (Status * bool * list Z * list Z * list Iteration) :=
  if (count <=? length bytes)%nat then Some (success, false, bytes, rx, its) else
  let offset := Z.of_nat (length bytes) in
  match its with
  | [] => None
  | it :: its =>
      if stop && it_stop it
      then Some (refused_status RShutdownInProgress offset, false, bytes, rx, its) else
      match wait_ready (it_select it) with
      | None => None
      | Some ready =>
          if ready =? 0 then read_exact_calls its stop count bytes rx else
          if ready <? 0 then Some (refused_status RTransportError 1, false, bytes, rx, its) else
          match it_move it with
          | MoveError errno =>
              if would_block errno then read_exact_calls its stop count bytes rx
              else Some (refused_status RTransportError 1, false, bytes, rx, its)
          | Moves n =>
              let received := chunk n (count - length bytes) rx in
              if (length received =? 0)%nat then
                let closed := (length bytes =? 0)%nat in
                Some (if closed then success else refused_status RTruncatedInput offset, closed, bytes, rx, its)
              else read_exact_calls its stop count (bytes ++ received) (drop (length received) rx)
          end
      end
  end.

(** A [send] that takes no byte is a failure. *)
Fixpoint write_all_calls (its : list Iteration) (stop : bool) (offset : nat) (rest tx : list Z)
    : option (Status * list Z * list Iteration) :=
  if (length rest =? 0)%nat then Some (success, tx, its) else
  match its with
  | [] => None
  | it :: its =>
      if stop && it_stop it
      then Some (refused_status RShutdownInProgress (Z.of_nat offset), tx, its) else
      match wait_ready (it_select it) with
      | None => None
      | Some ready =>
          if ready =? 0 then write_all_calls its stop offset rest tx else
          if ready <? 0 then Some (refused_status RTransportError 2, tx, its) else
          match it_move it with
          | MoveError errno =>
              if would_block errno then write_all_calls its stop offset rest tx
              else Some (refused_status RTransportError 2, tx, its)
          | Moves O => Some (refused_status RTransportError 2, tx, its)
          | Moves (S n) =>
              let sent := chunk (S n) (length rest) rest in
              write_all_calls its stop (offset + length sent) (drop (length sent) rest) (tx ++ sent)
          end
      end
  end.

(** One iteration of the accept loop, which calls [select] itself. *)
Record AcceptIteration := mkAcceptIteration {
  ai_stop : bool;
  ai_select : Selected;
  ai_accept : Errno + Socket;
}.

Fixpoint accept_calls (its : list AcceptIteration) (l : Listener)
    : option (Status * option Socket * bool * list AcceptIteration) :=
  if negb (li_valid l) then Some (refused_status RInvalidState 5, None, false, its) else
  if li_stopping l then Some (success, None, true, its) else
  match its with
  | [] => None
  | it :: its =>
      if ai_stop it then Some (success, None, true, its) else
      match ai_select it with
      | SelectError errno =>
          if would_block errno then accept_calls its l
          else Some (refused_status RTransportError 15, None, false, its)
      | TimedOut => accept_calls its l
      | Signalled =>
          match ai_accept it with
          | inl errno =>
              if would_block errno then accept_calls its l
              else Some (refused_status RTransportError 16, None, false, its)
          | inr s => Some (success, Some s, false, its)
          end
      end
  end.

(** ** They are the loops on events *)

Definition moved_event (sending : bool) (m : Moved) : IoEvent :=
  match m with
  | MoveError errno => if would_block errno then Idle else Failed
  | Moves n => if sending && (n =? 0)%nat then Failed else Ready n
  end.

(** The event of an iteration, unless its wait does not end. *)
Definition io_event (sending stop : bool) (it : Iteration) : option IoEvent :=
  if stop && it_stop it then Some StopSeen else
  match wait_ready (it_select it) with
  | None => None
  | Some ready =>
      Some (if ready =? 0 then Idle else if ready <? 0 then Failed else moved_event sending (it_move it))
  end.

(** The events of a loop, up to a wait that does not end. *)
Fixpoint io_events (sending stop : bool) (its : list Iteration) : list IoEvent :=
  match its with
  | [] => []
  | it :: its => match io_event sending stop it with None => [] | Some ev => ev :: io_events sending stop its end
  end.

Definition accept_event (it : AcceptIteration) : AcceptEvent :=
  if ai_stop it then AcceptStop else
  match ai_select it with
  | SelectError errno => if would_block errno then AcceptIdle else SelectFailed
  | TimedOut => AcceptIdle
  | Signalled =>
      match ai_accept it with
      | inl errno => if would_block errno then AcceptIdle else AcceptFailed
      | inr s => Accepted s
      end
  end.

(** The same result with what is left of the script seen as events. *)
Definition seen_as {A X Y} (f : X -> Y) (r : option (A * X)) : option (A * Y) :=
  match r with Some (a, x) => Some (a, f x) | None => None end.

Lemma wait_ready_cases answers : wait_ready answers = None \/ exists z, wait_ready answers = Some z /\ (z = 1 \/ z = 0 \/ z = -1).
Proof.
  induction answers as [|[| |errno] answers IH]; simpl; [by left | right; eauto.. |].
  destruct (would_block errno); [done | right; eauto].
Qed.

Lemma read_exact_full events stop count bytes rx :
  (count <=? length bytes)%nat = true ->
  read_exact events stop count bytes rx = Some (success, false, bytes, rx, events).
Proof. destruct events; simpl; by intros ->. Qed.

Lemma write_all_full events stop offset rest tx :
  (length rest =? 0)%nat = true -> write_all events stop offset rest tx = Some (success, tx, events).
Proof. destruct events; simpl; by intros ->. Qed.

Lemma read_exact_events its stop count bytes rx :
  seen_as (io_events false stop) (read_exact_calls its stop count bytes rx) =
  read_exact (io_events false stop its) stop count bytes rx.
Proof.
  revert bytes rx. induction its as [|it its IH]; intros bytes rx;
    (destruct (count <=? length bytes)%nat eqn:Ec;
     [rewrite read_exact_full by done; simpl; by rewrite Ec |]); simpl; rewrite Ec; [done |].
  unfold io_event. destruct (stop && it_stop it) eqn:Es.
  { apply andb_true_iff in Es as [-> _]. simpl. by rewrite Ec. }
  destruct (wait_ready_cases (it_select it)) as [->|(z & -> & [->|[->| ->]])]; simpl; rewrite ?Ec; try done.
  destruct (it_move it) as [n|errno]; simpl.
  - destruct (chunk n (count - length bytes) rx) as [|b received]; simpl; [done | apply IH].
  - by destruct (would_block errno).
Qed.

Lemma write_all_events its stop offset rest tx :
  seen_as (io_events true stop) (write_all_calls its stop offset rest tx) =
  write_all (io_events true stop its) stop offset rest tx.
Proof.
  revert offset rest tx. induction its as [|it its IH]; intros offset rest tx;
    (destruct (length rest =? 0)%nat eqn:Ec; [rewrite write_all_full by done; simpl; by rewrite Ec |]);
    simpl; rewrite Ec; [done |].
  unfold io_event. destruct (stop && it_stop it) eqn:Es.
  { apply andb_true_iff in Es as [-> _]. simpl. by rewrite Ec. }
  destruct (wait_ready_cases (it_select it)) as [->|(z & -> & [->|[->| ->]])]; simpl; rewrite ?Ec; try done.
  destruct (it_move it) as [[|n]|errno]; simpl; rewrite ?Ec; [done | apply IH |]. by destruct (would_block errno).
Qed.

Lemma accept_events its l :
  seen_as (fmap accept_event) (accept_calls its l) = accept (accept_event <$> its) l.
Proof.
  induction its as [|it its IH]; simpl; (destruct (li_valid l); simpl; [| done]); (destruct (li_stopping l); [done |]);
    [done |].
  unfold accept_event at 2. destruct (ai_stop it); [done |]. destruct (ai_select it) as [| |errno].
  - destruct (ai_accept it) as [errno|s]; [by destruct (would_block errno) | done].
  - exact IH.
  - by destruct (would_block errno).
Qed.

(** The transfer and accept loops as written, over whatever [select], [recv], [send]
    and [accept] answer and whichever error codes they leave, are the event loops
    that every theorem about the transport is about. *)
Theorem transfer_loops_are_event_loops :
  (forall its stop count bytes rx,
     seen_as (io_events false stop) (read_exact_calls its stop count bytes rx) =
     read_exact (io_events false stop its) stop count bytes rx) /\
  (forall its stop offset rest tx,
     seen_as (io_events true stop) (write_all_calls its stop offset rest tx) =
     write_all (io_events true stop its) stop offset rest tx) /\
  (forall its l, seen_as (fmap accept_event) (accept_calls its l) = accept (accept_event <$> its) l).
Proof. split_and!; [apply read_exact_events | apply write_all_events | apply accept_events]. Qed.

(** ** Interruptions *)

(** What [select] finally answers, the interruptions skipped: the error codes after
    which a call is to be made again. *)
Fixpoint first_answer (answers : list Selected) : option Selected :=
  match answers with
  | SelectError EINTR :: answers | SelectError EAGAIN :: answers
  | SelectError EWOULDBLOCK :: answers => first_answer answers
  | answer :: _ => Some answer
  | [] => None
  end.

(** An iteration in which nothing is wrong: the stop flag is clear, the wait ends,
    and the transfer moves something or is to be tried again. *)
Definition patient (stop : bool) (it : Iteration) : Prop :=
  stop && it_stop it = false /\
  (first_answer (it_select it) = Some Signalled \/ first_answer (it_select it) = Some TimedOut) /\
  match it_move it with
  | Moves n => (0 < n)%nat
  | MoveError EINTR | MoveError EAGAIN | MoveError EWOULDBLOCK => True
  | MoveError EOther => False
  end.

(** It moves at least a byte. *)
Definition productive (it : Iteration) : bool :=
  match first_answer (it_select it), it_move it with Some Signalled, Moves _ => true | _, _ => false end.

(** The connection is broken: waiting or moving fails for good. *)
Definition broken (stop : bool) (it : Iteration) : Prop :=
  stop && it_stop it = false /\
  (first_answer (it_select it) = Some (SelectError EOther) \/
   first_answer (it_select it) = Some Signalled /\ it_move it = MoveError EOther).

Lemma wait_ready_first answers :
  wait_ready answers =
  match first_answer answers with
  | None => None | Some Signalled => Some 1 | Some TimedOut => Some 0 | Some (SelectError _) => Some (-1)
  end.
Proof. induction answers as [|[| |[| | |]] answers IH]; simpl; done. Qed.

Lemma patient_event sending stop it :
  patient stop it -> exists ev, io_event sending stop it = Some ev /\
    match ev with Idle => productive it = false | Ready _ => productive it = true | _ => False end.
Proof.
  intros (Hs & Hw & Hm). unfold io_event, productive. rewrite Hs, wait_ready_first.
  destruct Hw as [-> | ->]; simpl; [| by eexists].
  destruct (it_move it) as [n|[| | |]]; simpl in *; try done; try by eexists.
  destruct n; [lia |]. rewrite andb_false_r. by eexists.
Qed.

Lemma patient_events sending stop its :
  Forall (patient stop) its ->
  benign (io_events sending stop its) /\
  readiness (io_events sending stop its) = length (List.filter productive its).
Proof.
  induction 1 as [|it its Hit _ [IH1 IH2]]; [by split; [constructor |] |]. simpl.
  destruct (patient_event sending stop it Hit) as (ev & -> & Hev).
  destruct ev; rewrite ?Hev; try done.
  - split; [by constructor |]. exact IH2.
  - split; [by constructor |]. rewrite readiness_ready, IH2. done.
Qed.

Lemma broken_event sending stop it : broken stop it -> io_event sending stop it = Some Failed.
Proof.
  intros (Hs & Hw). unfold io_event. rewrite Hs, wait_ready_first.
  by destruct Hw as [-> | [-> ->]].
Qed.

Lemma patient_events_app sending stop pre its :
  Forall (patient stop) pre ->
  io_events sending stop (pre ++ its) = io_events sending stop pre ++ io_events sending stop its.
Proof.
  induction 1 as [|it pre Hit _ IH]; [done |]. simpl.
  destruct (patient_event sending stop it Hit) as (ev & -> & _). by rewrite IH.
Qed.

Lemma take_pieces (piece l : list Z) m :
  piece ++ drop (length piece) l = l ->
  take (length piece + m) l = piece ++ take m (drop (length piece) l).
Proof. intros Hp. rewrite <-take_take_drop. f_equal. rewrite <-Hp at 1. by rewrite take_app_length. Qed.

(** On a connection that stalls at will and then breaks, a transfer is complete or
    ends with the break, and the bytes not moved stay where they are. *)
Lemma read_exact_breaks pre post stop count bytes rx :
  benign pre -> (count - length bytes <= length rx)%nat -> (length bytes <= count)%nat ->
  exists st n ev, read_exact (pre ++ Failed :: post) stop count bytes rx =
    Some (st, false, bytes ++ take n rx, drop n rx, ev) /\
    (st = success /\ n = (count - length bytes)%nat \/ st = refused_status RTransportError 1).
Proof.
  revert bytes rx. induction pre as [|ev pre IH]; intros bytes rx Hb Hrx Hc; cbn [app read_exact];
    (destruct (Nat.leb_spec count (length bytes)) as [Hd|Hd];
     [exists success, 0%nat; rewrite take_0, drop_0, app_nil_r; eexists; split; [done | left; split; [done | lia]] |]).
  - exists (refused_status RTransportError 1), 0%nat. rewrite take_0, drop_0, app_nil_r. by eexists; split; [| right].
  - apply Forall_cons in Hb as [Hev Hb]. destruct ev as [|n| |]; try done; [by apply IH |].
    pose proof (chunk_length n (count - length bytes) rx) as Hl.
    pose proof (chunk_drop n (count - length bytes) rx) as Hcd.
    destruct (chunk n (count - length bytes) rx) as [|b bs] eqn:E; [simpl in Hl; lia |].
    rewrite <-E in Hl, Hcd |- *. clear E. set (received := chunk n (count - length bytes) rx) in *.
    destruct (IH (bytes ++ received) (drop (length received) rx)) as (st & m & ev & Hrd & Hm);
      rewrite ?length_app, ?length_drop; try done; [lia.. |].
    exists st, (length received + m)%nat, ev. rewrite Hrd, <-drop_drop, <-app_assoc.
    rewrite (take_pieces received) by done. split; [done |].
    rewrite length_app in Hm. destruct Hm as [[-> ->]| ->]; [left; split; [done | lia] | by right].
Qed.

Lemma write_all_breaks pre post stop offset rest tx :
  benign pre -> exists st n ev, write_all (pre ++ Failed :: post) stop offset rest tx =
    Some (st, tx ++ take n rest, ev) /\
    (st = success /\ take n rest = rest \/ st = refused_status RTransportError 2).
Proof.
  revert offset rest tx. induction pre as [|ev pre IH]; intros offset rest tx Hb; cbn [app write_all];
    (destruct (Nat.eqb_spec (length rest) 0) as [Hd|Hd];
     [apply length_zero_iff_nil in Hd as ->; exists success, 0%nat; eexists; rewrite app_nil_r; split; [done | by left] |]).
  - exists (refused_status RTransportError 2), 0%nat. rewrite take_0, app_nil_r. by eexists; split; [| right].
  - apply Forall_cons in Hb as [Hev Hb]. destruct ev as [|n| |]; try done; [by apply IH |].
    pose proof (chunk_drop n (length rest) rest) as Hcd. set (sent := chunk n (length rest) rest) in *.
    destruct (IH (offset + length sent)%nat (drop (length sent) rest) (tx ++ sent) Hb) as (st & m & ev & Hw & Hm).
    exists st, (length sent + m)%nat, ev. rewrite Hw, <-app_assoc.
    rewrite (take_pieces sent) by done. split; [done |]. destruct Hm as [[-> ->]| ->]; [left | by right]. by rewrite Hcd.
Qed.

Lemma seen_as_inv {A X Y} (f : X -> Y) (r : option (A * X)) a y :
  seen_as f r = Some (a, y) -> exists x, r = Some (a, x).
Proof. destruct r as [[a2 x]|]; [| done]. intros [= <- _]. by exists x. Qed.

(** C26: Transfers survive interruptions.  Over calls of [select], [recv] and [send]
    that are interrupted any number of times ([EINTR], [EAGAIN], [EWOULDBLOCK]), time
    out, and move any positive number of bytes at a time, with at least as many
    productive iterations as there are bytes: [read_exact] returns success with
    exactly the first [count] bytes and leaves the rest unread, and [write_all] sends
    exactly its data.  When, after any such iterations, a call fails with any other
    error, the transfer was complete before or it ends there with [TransportError] 1
    or 2, what was moved being a prefix and the rest untouched. *)
Theorem transfers_survive_interruptions its stop count rx data tx :
  Forall (patient stop) its -> (count <= length rx)%nat ->
  ((count <= length (List.filter productive its))%nat -> exists its',
     read_exact_calls its stop count [] rx = Some (success, false, take count rx, drop count rx, its')) /\
  ((length data <= length (List.filter productive its))%nat -> exists its',
     write_all_calls its stop 0 data tx = Some (success, tx ++ data, its')) /\
  (forall it post, broken stop it ->
     (exists st n its', read_exact_calls (its ++ it :: post) stop count [] rx =
        Some (st, false, take n rx, drop n rx, its') /\
        (st = success /\ n = count \/ st = refused_status RTransportError 1)) /\
     (exists st n its', write_all_calls (its ++ it :: post) stop 0 data tx =
        Some (st, tx ++ take n data, its') /\
        (st = success /\ take n data = data \/ st = refused_status RTransportError 2))).
Proof.
  intros Hp Hrx. destruct (patient_events false stop its Hp) as [Hb1 Hr1].
  destruct (patient_events true stop its Hp) as [Hb2 Hr2]. split_and!.
  - intros Hc. destruct (read_exact_delivers (io_events false stop its) stop count [] rx)
      as (ev & Hrd & _); simpl; [done | lia | lia | lia |].
    rewrite <-read_exact_events in Hrd. simpl in Hrd. rewrite Nat.sub_0_r in Hrd.
    by apply seen_as_inv in Hrd.
  - intros Hc. destruct (write_all_delivers (io_events true stop its) stop 0 data tx)
      as (ev & Hw & _); [done | lia |].
    rewrite <-write_all_events in Hw. by apply seen_as_inv in Hw.
  - intros it post Hbr. split.
    + destruct (read_exact_breaks (io_events false stop its) (io_events false stop post) stop count [] rx)
        as (st & n & ev & Hrd & Hst); simpl; [done | lia | lia |].
      assert (E : io_events false stop (its ++ it :: post) =
        io_events false stop its ++ Failed :: io_events false stop post)
        by (rewrite patient_events_app by done; simpl; by rewrite (broken_event _ _ _ Hbr)).
      rewrite <-E, <-read_exact_events in Hrd. apply seen_as_inv in Hrd as [its' Hrd].
      exists st, n, its'. split; [exact Hrd |]. simpl in Hst. by rewrite Nat.sub_0_r in Hst.
    + destruct (write_all_breaks (io_events true stop its) (io_events true stop post) stop 0 data tx Hb2)
        as (st & n & ev & Hw & Hst).
      assert (E : io_events true stop (its ++ it :: post) =
        io_events true stop its ++ Failed :: io_events true stop post)
        by (rewrite patient_events_app by done; simpl; by rewrite (broken_event _ _ _ Hbr)).
      rewrite <-E, <-write_all_events in Hw. apply seen_as_inv in Hw as [its' Hw].
      by exists st, n, its'.
Qed.

(** A signal arrives in each of the calls, and then two bytes come one at a time. *)
Lemma transfers_survive_interruptions_witness :
  let its := [mkIteration false [SelectError EINTR; TimedOut] (Moves 1);
              mkIteration false [SelectError EINTR; Signalled] (MoveError EINTR);
              mkIteration false [Signalled] (Moves 1); mkIteration false [SelectError EAGAIN; Signalled] (Moves 1)] in
  exists its', read_exact_calls its true 2 [] [7; 8; 9] = Some (success, false, [7; 8], [9], its').
Proof.
  intros its. refine (proj1 (transfers_survive_interruptions its true 2 [7; 8; 9] [] [] _ _) _).
  - unfold its, patient. repeat first [apply Forall_cons_2 | apply Forall_nil_2 | split]; simpl; auto.
  - simpl. lia.
  - reflexivity.
Defined.

(** ** The handles behind socket objects *)

(** The socket objects that exist, each with its handle or [kInvalid], and the
    handles the system has given out and taken back, in order. *)
Record Handles := mkHandles {
  hd_sockets : gmap nat (option Z);
  hd_opened : list Z;
  hd_closed : list Z;
}.

Definition handles_zero : Handles := mkHandles ∅ [] [].

Definition put_handle (s : nat) (v : option Z) (h : Handles) : Handles :=
  mkHandles (<[s := v]> (hd_sockets h)) (hd_opened h) (hd_closed h).

(** [handle_.load()] of an object. *)
Definition handle_of (s : nat) (h : Handles) : option Z := mjoin (hd_sockets h !! s).

(** [close_native]. *)
Definition close_native (v : Z) (h : Handles) : Handles :=
  mkHandles (hd_sockets h) (hd_opened h) (hd_closed h ++ [v]).

(** [Socket::close]: exchange the handle with [kInvalid], then close what was there. *)
Definition close_socket (s : nat) (h : Handles) : Handles :=
  let cleared := put_handle s None h in
  match handle_of s h with None => cleared | Some v => close_native v cleared end.

(** [Socket(Socket&& other)]. *)
Definition move_construct (s other : nat) (h : Handles) : Handles :=
  put_handle other None (put_handle s (handle_of other h) h).

(** [operator=(Socket&& other)]. *)
Definition move_assign (s other : nat) (h : Handles) : Handles :=
  if (s =? other)%nat then h else
  let h := close_socket s h in
  put_handle other None (put_handle s (handle_of other h) h).

(** [~Socket()]. *)
Definition destroy (s : nat) (h : Handles) : Handles :=
  let h := close_socket s h in
  mkHandles (delete s (hd_sockets h)) (hd_opened h) (hd_closed h).

(** [out = Socket(from_native(v))] on a handle the system has just given out: a
    temporary is constructed around it, assigned and destroyed. *)
Definition adopt (out temporary : nat) (v : Z) (h : Handles) : Handles :=
  let h := mkHandles (<[temporary := Some v]> (hd_sockets h)) (hd_opened h ++ [v]) (hd_closed h) in
  destroy temporary (move_assign out temporary h).

(** A handle that was given out and could not be used ([connect_to], [bind_loopback]). *)
Definition abandon (v : Z) (h : Handles) : Handles :=
  close_native v (mkHandles (hd_sockets h) (hd_opened h ++ [v]) (hd_closed h)).

Definition exists_socket (s : nat) (h : Handles) : Prop := is_Some (hd_sockets h !! s).

Definition owns (h : Handles) (s : nat) (v : Z) : Prop := hd_sockets h !! s = Some (Some v).

(** What a program can do with its sockets.  The system never gives out a handle
    that is still open. *)
Inductive handle_step (h : Handles) : Handles -> Prop :=
| hs_construct s : hd_sockets h !! s = None -> handle_step h (put_handle s None h)
| hs_move_construct s other :
    hd_sockets h !! s = None -> exists_socket other h -> handle_step h (move_construct s other h)
| hs_move_assign s other : exists_socket s h -> exists_socket other h -> handle_step h (move_assign s other h)
| hs_close s : exists_socket s h -> handle_step h (close_socket s h)
| hs_destroy s : exists_socket s h -> handle_step h (destroy s h)
| hs_adopt out temporary v :
    exists_socket out h -> hd_sockets h !! temporary = None -> (forall s, ~ owns h s v) ->
    handle_step h (adopt out temporary v h)
| hs_abandon v : (forall s, ~ owns h s v) -> handle_step h (abandon v h).

Inductive handles_reachable : Handles -> Prop :=
| hr_zero : handles_reachable handles_zero
| hr_step h h' : handles_reachable h -> handle_step h h' -> handles_reachable h'.

(** How often a handle occurs in a log. *)
Definition times (v : Z) (log : list Z) : nat := length (List.filter (Z.eqb v) log).

Lemma times_app v l k : times v (l ++ k) = (times v l + times v k)%nat.
Proof. unfold times. by rewrite List.filter_app, length_app. Qed.

Lemma times_one v w : times v [w] = if Z.eqb v w then 1%nat else 0%nat.
Proof. unfold times. simpl. by destruct (Z.eqb v w). Qed.

(** Each open handle has one owner, and is closed once less than it was opened. *)
Record conserved (h : Handles) : Prop := {
  cv_one : forall s t v, owns h s v -> owns h t v -> s = t;
  cv_open : forall s v, owns h s v -> times v (hd_opened h) = S (times v (hd_closed h));
  cv_closed : forall v, (forall s, ~ owns h s v) -> times v (hd_opened h) = times v (hd_closed h);
}.

Lemma handle_of_owns s v h : handle_of s h = Some v <-> owns h s v.
Proof. unfold handle_of, owns. destruct (hd_sockets h !! s) as [[w|]|]; simpl; split; congruence. Qed.

Lemma owns_set s v h t w : owns (put_handle s v h) t w <-> (t = s /\ v = Some w) \/ (t <> s /\ owns h t w).
Proof.
  unfold owns. simpl. destruct (decide (t = s)) as [->|Ht].
  - rewrite lookup_insert_eq. split; [intros [= ->]; auto | intros [[_ ->]|[? _]]; done].
  - rewrite lookup_insert_ne by done. split; [auto | intros [[-> _]|[_ ?]]; done].
Qed.

Lemma owns_cleared s h t w : owns (put_handle s None h) t w <-> t <> s /\ owns h t w.
Proof. rewrite owns_set. split; [intros [[_ ?]|?]; done | auto]. Qed.

Lemma owns_none s h w : handle_of s h = None -> ~ owns h s w.
Proof. intros Hs Hn%handle_of_owns. congruence. Qed.

(** An object without a handle is constructed, forgotten or left as it is. *)
Lemma conserved_empty s h h' :
  conserved h -> handle_of s h = None -> hd_opened h' = hd_opened h -> hd_closed h' = hd_closed h ->
  (forall t w, owns h' t w <-> t <> s /\ owns h t w) -> conserved h'.
Proof.
  intros [C1 C2 C3] Hs Ho Hc Hw.
  pose proof (fun w => owns_none s h w Hs) as Hsn.
  constructor; rewrite ?Ho, ?Hc.
  - intros t u v [_ H1]%Hw [_ H2]%Hw. by eapply C1.
  - intros t v [_ H1]%Hw. by eapply C2.
  - intros v Hn. apply C3. intros t Ht. apply (Hn t), Hw. split; [| done]. intros ->. by eapply Hsn.
Qed.

Lemma conserved_close s h : conserved h -> conserved (close_socket s h) /\ handle_of s (close_socket s h) = None.
Proof.
  intros Hc. unfold close_socket. destruct (handle_of s h) as [v|] eqn:Hs;
    (split; [| unfold handle_of; simpl; by rewrite lookup_insert_eq]).
  2: { eapply (conserved_empty s h); try done. apply owns_cleared. }
  apply handle_of_owns in Hs. destruct Hc as [C1 C2 C3].
  pose proof (owns_cleared s h : forall t w, owns (close_native v (put_handle s None h)) t w <-> _) as Hw.
  constructor.
  - intros t u w [_ H1]%Hw [_ H2]%Hw. by eapply C1.
  - intros t w [Ht H1]%Hw. simpl. rewrite times_app, times_one, (C2 t w H1).
    destruct (Z.eqb_spec w v) as [->|]; [by destruct Ht; eapply C1 | lia].
  - intros w Hn. simpl. rewrite times_app, times_one. destruct (Z.eqb_spec w v) as [->|Hne].
    + rewrite (C2 s v Hs). lia.
    + rewrite C3; [lia |]. intros t Ht. apply (Hn t), Hw. split; [| done]. intros ->. unfold owns in *. congruence.
Qed.

(** A handle moves from one object to an object that has none. *)
Lemma conserved_transfer s other h :
  conserved h -> handle_of s h = None -> s <> other ->
  conserved (put_handle other None (put_handle s (handle_of other h) h)).
Proof.
  intros [C1 C2 C3] Hs Hne.
  assert (Hw : forall t w, owns (put_handle other None (put_handle s (handle_of other h) h)) t w <->
    t = s /\ owns h other w \/ t <> s /\ t <> other /\ owns h t w).
  { intros t w. rewrite owns_cleared, owns_set, handle_of_owns. split.
    - intros [? [[-> ?]|[? ?]]]; auto.
    - intros [[-> ?]|(? & ? & ?)]; auto. }
  constructor; simpl.
  - intros t u v H1%Hw H2%Hw. destruct H1 as [[-> H1]|(? & ? & H1)], H2 as [[-> H2]|(? & ? & H2)];
      pose proof (C1 _ _ _ H1 H2); congruence.
  - intros t v [[-> H1]|(_ & _ & H1)]%Hw; by eapply C2.
  - intros v Hn. apply C3. intros t Ht. destruct (decide (t = other)) as [->|Hto].
    + apply (Hn s), Hw. by left.
    + apply (Hn t), Hw. right. split_and!; try done. intros ->. by eapply (owns_none s h v).
Qed.

Lemma conserved_assign s other h : conserved h -> conserved (move_assign s other h).
Proof.
  intros Hc. unfold move_assign. destruct (Nat.eqb_spec s other) as [->|Hne]; [done |].
  destruct (conserved_close s h Hc) as [Hc' Hs]. by apply conserved_transfer.
Qed.

Lemma conserved_destroy s h : conserved h -> conserved (destroy s h).
Proof.
  intros Hc. destruct (conserved_close s h Hc) as [Hc' Hs]. eapply (conserved_empty s _ _ Hc' Hs); try done.
  intros t w. unfold destroy, owns. simpl. destruct (decide (t = s)) as [->|Ht].
  - rewrite lookup_delete_eq. by split; [| intros [? _]].
  - rewrite lookup_delete_ne by done. by split; [| intros [_ ?]].
Qed.

(** A handle is given out to an object that was not there, or to nobody. *)
Lemma conserved_open s v h :
  conserved h -> hd_sockets h !! s = None -> (forall t, ~ owns h t v) ->
  conserved (mkHandles (<[s := Some v]> (hd_sockets h)) (hd_opened h ++ [v]) (hd_closed h)).
Proof.
  intros [C1 C2 C3] Hs Hv.
  pose proof (owns_set s (Some v) h : forall t w, owns (mkHandles (<[s := Some v]> (hd_sockets h)) (hd_opened h ++ [v])
    (hd_closed h)) t w <-> _) as Hw.
  constructor; simpl.
  - intros t u w H1%Hw H2%Hw. destruct H1 as [[-> [= <-]]|[? H1]], H2 as [[-> H2]|[? H2]]; try done.
    + by destruct (Hv u).
    + injection H2 as <-. by destruct (Hv t).
    + by eapply C1.
  - intros t w [[-> [= <-]]|[? H1]]%Hw; rewrite times_app, times_one.
    + rewrite Z.eqb_refl, (C3 v Hv). lia.
    + destruct (Z.eqb_spec w v) as [->|]; [by destruct (Hv t) | rewrite (C2 t w H1); lia].
  - intros w Hn. rewrite times_app, times_one. destruct (Z.eqb_spec w v) as [->|].
    + destruct (Hn s). apply Hw. by left.
    + rewrite C3; [lia |]. intros t Ht. apply (Hn t), Hw. right. split; [| done]. intros ->. unfold owns in Ht. congruence.
Qed.

Lemma conserved_step h h' : conserved h -> handle_step h h' -> conserved h'.
Proof.
  intros Hc [s Hs|s other Hs [x Ho]|s other _ _|s _|s _|out temporary v Ho Ht Hv|v Hv].
  - eapply (conserved_empty s h); try done; [unfold handle_of; by rewrite Hs | apply owns_cleared].
  - apply conserved_transfer; [done | unfold handle_of; by rewrite Hs | intros ->; congruence].
  - by apply conserved_assign.
  - by apply conserved_close.
  - by apply conserved_destroy.
  - by apply conserved_destroy, conserved_assign, conserved_open.
  - destruct Hc as [C1 C2 C3]. constructor; simpl; [done | |].
    + intros s w Hw. rewrite !times_app, times_one, (C2 s w Hw). lia.
    + intros w Hn. rewrite !times_app, (C3 w Hn). lia.
Qed.

(** C27: No handle leaks and none is closed twice: in every state that constructing,
    moving, assigning, closing and destroying sockets can reach, with handles given
    out by the system at will, a handle has at most one owner; it was opened once
    more than it was closed while it has one, and exactly as often as it was closed
    once it has none. *)
Theorem socket_handles_are_conserved h v :
  handles_reachable h ->
  (forall s t, owns h s v -> owns h t v -> s = t) /\
  (forall s, owns h s v -> times v (hd_opened h) = S (times v (hd_closed h))) /\
  ((forall s, ~ owns h s v) -> times v (hd_opened h) = times v (hd_closed h)).
Proof.
  intros Hr. assert (Hc : conserved h).
  { induction Hr as [|h h' _ IH Hs]; [by constructor | by eapply conserved_step]. }
  split_and!; [intros s t; by apply (cv_one _ Hc) | intros s; by apply (cv_open _ Hc) | by apply (cv_closed _ Hc)].
Qed.

(** A socket is connected, moved into a worker's and closed by it twice. *)
Lemma socket_handles_are_conserved_witness :
  let h := close_socket 1 (close_socket 1 (move_construct 1 0 (adopt 0 9 7 (put_handle 0 None handles_zero)))) in
  hd_opened h = [7] /\ hd_closed h = [7] /\ times 7 (hd_opened h) = times 7 (hd_closed h).
Proof.
  intros h. split; [reflexivity |]. split; [reflexivity |].
  refine (proj2 (proj2 (socket_handles_are_conserved h 7 _)) _).
  - unfold h. eapply hr_step; [| apply hs_close; by eexists]. eapply hr_step; [| apply hs_close; by eexists].
    eapply hr_step; [| apply hs_move_construct; [reflexivity | by eexists]].
    eapply hr_step; [| apply hs_adopt; [by eexists | reflexivity | intros s]].
    + eapply hr_step; [apply hr_zero | by apply hs_construct].
    + unfold owns. simpl. rewrite lookup_insert. by case_decide.
  - intros s. unfold owns. vm_compute. by repeat case_match.
Defined.
