(* ===== verification/Coordinator.v ===== *)
(** * The coordinator service (include/creditfabric/coordinator.hpp,
      src/coordinator.cpp, server side)

    One engine served to many connections.  The accept loop and the worker of a
    connection are cut into the stretches that run between two looks at shared
    state: one iteration of the accept loop, the handshake, one iteration of the
    request loop.  Inside such a stretch a worker touches the engine at most once,
    in [apply], under the mutex of the engine, so threads interleave as sequences
    of these actions.  A stretch may also be taken up past the look at the stop
    flag it begins with, as one that was waiting when the flag was set. *)

From S2P Require Import Prelude Status Digest Authority Request Bytes Wire Journal Engine Safety.
From S2P Require Import Platform Transport.
Local Open Scope word_scope.
Local Open Scope Z_scope.

Definition refusal_outcome (r : Reason) (d : Z) : CreditOutcome :=
  mkOutcome (refused_status r d) (o_op outcome_zero) (o_sequence outcome_zero) (o_applied outcome_zero)
    (o_duplicate outcome_zero) (o_decided outcome_zero) (o_authority outcome_zero) (o_view outcome_zero)
    (o_state_digest outcome_zero) (o_ambiguous_pending outcome_zero).

Record CoordinatorOptions := mkCoordinatorOptions {
  co_host : string;
  co_port : Z;
  co_max_frame_payload : Z;
  co_max_note : Z;
  co_server_label : list Z;
  co_max_requests_per_connection : Z;
  co_max_connections : Z;
}.

(** The constructor's clamps; of the limits only two are used. *)
Definition clamp_options (o : CoordinatorOptions) : CoordinatorOptions :=
  mkCoordinatorOptions (co_host o) (co_port o) (clamp (co_max_frame_payload o) 1024)
    (clamp (co_max_note o) 1) (co_server_label o) (co_max_requests_per_connection o)
    (clamp (co_max_connections o) 1).

(** Where the worker of a connection is.  [PSending] is inside the [send_frame] of a
    response: of a decided request, with the count of requests served here, or of
    the last answer on the connection. *)
Inductive Phase :=
| PHello | PServing (served_here : Z)
| PSending (response : list Z) (served_here : option Z) | PClosed.

Record Connection := mkConnection {
  cn_socket : Socket;
  cn_session : Z;
  cn_phase : Phase;
}.

Section WithJournal.
Context {J : Type} `{Journal J}.

(** [workers_] is the list of the connections that were ever handed to a worker. *)
Record CoordinatorServer := mkServer {
  sv_engine : Engine J;
  sv_options : CoordinatorOptions;
  sv_listener : Listener;
  sv_workers : list Connection;
  sv_running : bool;
  sv_stopping : bool;
  sv_accepted : Z;
  sv_served : Z;
  sv_malformed : Z;
  sv_next_session : Z;
  sv_port : Z;
}.

Definition server_make (engine : Engine J) (options : CoordinatorOptions) : CoordinatorServer :=
  mkServer engine (clamp_options options) listener_make [] false false 0 0 0 1 0.

Definition incr_malformed (s : CoordinatorServer) : CoordinatorServer :=
  mkServer (sv_engine s) (sv_options s) (sv_listener s) (sv_workers s) (sv_running s) (sv_stopping s)
    (sv_accepted s) (sv_served s) (sv_malformed s +% 1) (sv_next_session s) (sv_port s).

(** [engine_.apply] and the count of served requests. *)
Definition serve_apply (request : CreditRequest) (s : CoordinatorServer)
    : CreditOutcome * CoordinatorServer :=
  let '(outcome, engine) := apply request (sv_engine s) in
  (outcome,
   mkServer engine (sv_options s) (sv_listener s) (sv_workers s) (sv_running s) (sv_stopping s)
     (sv_accepted s) (sv_served s +% 1) (sv_malformed s) (sv_next_session s) (sv_port s)).

Definition set_workers (workers : list Connection) (s : CoordinatorServer) : CoordinatorServer :=
  mkServer (sv_engine s) (sv_options s) (sv_listener s) workers (sv_running s) (sv_stopping s)
    (sv_accepted s) (sv_served s) (sv_malformed s) (sv_next_session s) (sv_port s).

(** ** Starting and stopping *)

(** [port] is the one the system assigns. *)
Definition start (os : OS) (port : Z) (s : CoordinatorServer) : Status * CoordinatorServer :=
  if sv_running s then (success, s) else
  let '(bound, listener) := bind_loopback os port (sv_listener s) in
  if negb (status_ok bound)
  then (bound, mkServer (sv_engine s) (sv_options s) listener (sv_workers s) (sv_running s)
                 (sv_stopping s) (sv_accepted s) (sv_served s) (sv_malformed s) (sv_next_session s)
                 (sv_port s)) else
  (success,
   mkServer (sv_engine s) (sv_options s) listener (sv_workers s) true false (sv_accepted s)
     (sv_served s) (sv_malformed s) (sv_next_session s) (li_port listener)).

(** The first half of [stop]: the flags that the threads poll. *)
Definition stop_begin (s : CoordinatorServer) : CoordinatorServer :=
  mkServer (sv_engine s) (sv_options s) (stop_accepting (sv_listener s)) (sv_workers s) (sv_running s)
    true (sv_accepted s) (sv_served s) (sv_malformed s) (sv_next_session s) (sv_port s).

Definition is_closed (c : Connection) : bool := match cn_phase c with PClosed => true | _ => false end.

(** The second half, past the joins: it returns once every worker has finished. *)
Definition stop_end (s : CoordinatorServer) : option (Status * CoordinatorServer) :=
  if forallb is_closed (sv_workers s)
  then Some (success,
    mkServer (sv_engine s) (sv_options s) ((listener_close (sv_listener s)).2) [] false
      (sv_stopping s) (sv_accepted s) (sv_served s) (sv_malformed s) (sv_next_session s) (sv_port s))
  else None.

Definition active_connections (s : CoordinatorServer) : Z := Z.of_nat (length (sv_workers s)).

(** ** Accepting *)

(** One iteration of [accept_loop] past its look at the stop flag; [false] leaves the
    loop. *)
Definition accept_once (events : list AcceptEvent) (s : CoordinatorServer)
    : option (bool * CoordinatorServer) :=
  match accept events (sv_listener s) with
  | None => None
  | Some (status, socket, closed, _) =>
      match socket with
      | Some socket =>
          if negb (status_ok status) || closed then Some (false, s) else
          if active_connections s >=? co_max_connections (sv_options s) then
            match send_frame Bye [] false socket with
            | None => None
            | Some (_, socket) => Some (true, s)
            end
          else
            let session := sv_next_session s in
            let worker := mkConnection socket session PHello in
            Some (true,
              mkServer (sv_engine s) (sv_options s) (sv_listener s) (sv_workers s ++ [worker])
                (sv_running s) (sv_stopping s) (sv_accepted s +% 1) (sv_served s) (sv_malformed s)
                (wrap32 (session + 1)) (sv_port s))
      | None => Some (false, s)
      end
  end.

(** One iteration of [accept_loop]. *)
Definition accept_iteration (events : list AcceptEvent) (s : CoordinatorServer)
    : option (bool * CoordinatorServer) :=
  if sv_stopping s then Some (false, s) else accept_once events s.

(** ** Serving *)

(** The end of [serve_connection]. *)
Definition finish_connection (c : Connection) (socket : Socket) : Connection :=
  mkConnection (socket_close (shutdown_send socket).2).2 (cn_session c) PClosed.

(** From the first frame to the acknowledgement. *)
Definition serve_hello (c : Connection) (s : CoordinatorServer)
    : option (Connection * CoordinatorServer) :=
  let max_payload := co_max_frame_payload (sv_options s) in
  let drop socket := mkConnection (socket_close socket).2 (cn_session c) PClosed in
  match recv_frame max_payload true (cn_socket c) with
  | None => None
  | Some (r, socket) =>
      match rc_message r with
      | Some (Hello, payload) =>
          match decode_hello payload with
          | inl _ => Some (drop socket, incr_malformed s)
          | inr hello =>
              let ack := mkHelloAck (cn_session c) (e_challenge (sv_engine s))
                           (co_server_label (sv_options s)) (wrap32 max_payload) kFormatVersion in
              match encode_hello_ack ack with
              | inl _ => Some (drop socket, s)
              | inr ack_payload =>
                  match send_frame HelloAck ack_payload true socket with
                  | None => None
                  | Some (status, socket) =>
                      if negb (status_ok status) then Some (drop socket, s) else
                      Some (mkConnection socket (cn_session c) (PServing 0), s)
                  end
              end
          end
      | _ => Some (drop socket, incr_malformed s)
      end
  end.

(** [socket.send_frame] of a response and what follows it: the next iteration, unless
    it failed, it was the last answer or the connection has been served enough. *)
Definition send_response (response : list Z) (served_here : option Z) (c : Connection)
    (socket : Socket) (s : CoordinatorServer) : Connection :=
  match send_frame MResponse response true socket with
  | None => mkConnection socket (cn_session c) (PSending response served_here)
  | Some (sent, socket) =>
      match served_here with
      | None => finish_connection c socket
      | Some served_here =>
          let limit := co_max_requests_per_connection (sv_options s) in
          if negb (status_ok sent) || (negb (limit =? 0) && (served_here >=? limit))
          then finish_connection c socket
          else mkConnection socket (cn_session c) (PServing served_here)
      end
  end.

(** A refusal in answer to something that is not a request, and the end. *)
Definition answer_malformed (r : Reason) (d : Z) (c : Connection) (socket : Socket)
    (s : CoordinatorServer) : Connection * CoordinatorServer :=
  (send_response (encode_response_message (refusal_outcome r d)) None c socket s, incr_malformed s).

(** The requests a stretch of a worker has decided, with their outcomes. *)
Definition Served : Type := list (CreditRequest * CreditOutcome).

(** One iteration of the request loop past its look at the stop flag. *)
Definition serve_request (served_here : Z) (c : Connection) (s : CoordinatorServer)
    : option (Served * Connection * CoordinatorServer) :=
  let silent (x : Connection * CoordinatorServer) := Some ([], x.1, x.2) in
  match recv_frame (co_max_frame_payload (sv_options s)) true (cn_socket c) with
  | None => None
  | Some (r, socket) =>
      if rc_closed r then Some ([], finish_connection c socket, s) else
      if negb (status_ok (rc_status r)) then Some ([], finish_connection c socket, incr_malformed s) else
      match rc_message r with
      | None | Some (Bye, _) => Some ([], finish_connection c socket, s)
      | Some (MRequest, payload) =>
          match decode_request_message payload (co_max_note (sv_options s)) with
          | inl status => silent (answer_malformed (reason status) (detail status) c socket s)
          | inr request =>
              let '(outcome, s) := serve_apply request s in
              Some ([(request, outcome)],
                    send_response (encode_response_message outcome) (Some (served_here +% 1)) c socket s, s)
          end
      | Some _ => silent (answer_malformed RMalformedMessage 20 c socket s)
      end
  end.

(** One iteration of the request loop. *)
Definition serve_iteration (served_here : Z) (c : Connection) (s : CoordinatorServer)
    : option (Served * Connection * CoordinatorServer) :=
  if sv_stopping s then Some ([], finish_connection c (cn_socket c), s) else serve_request served_here c s.

(** One stretch of the worker of a connection. *)
Definition serve_step (c : Connection) (s : CoordinatorServer)
    : option (Served * Connection * CoordinatorServer) :=
  match cn_phase c with
  | PHello =>
      match serve_hello c s with None => None | Some (c, s) => Some ([], c, s) end
  | PServing n => serve_iteration n c s
  | PSending response n => Some ([], send_response response n c (cn_socket c) s, s)
  | PClosed => Some ([], c, s)
  end.

(** A stretch that was waiting inside its transfer runs on: the look at the stop flag
    with which it begins is behind it. *)
Definition serve_resume (c : Connection) (s : CoordinatorServer)
    : option (Served * Connection * CoordinatorServer) :=
  match cn_phase c with PServing n => serve_request n c s | _ => serve_step c s end.

(** ** The service as a whole *)

(** What the threads of the service do next: the accept thread runs one
    iteration, the worker of one connection one stretch, either takes up the
    iteration it was waiting in, or another thread asks to stop.  A stretch that
    waits leaves everything as it is. *)
Inductive Action :=
| AAccept (events : list AcceptEvent) | AAcceptOn (events : list AcceptEvent)
| AServe (i : nat) | AServeOn (i : nat) | AStop.

Definition accept_action (r : option (bool * CoordinatorServer)) (s : CoordinatorServer)
    : Served * CoordinatorServer :=
  ([], match r with None => s | Some (_, s) => s end).

(** Once the flag is set, a transfer that has nothing else to do finds it at its next
    look. *)
Definition flag_seen (s : CoordinatorServer) (c : Connection) : Connection :=
  if sv_stopping s
  then mkConnection (set_rx (so_rx (cn_socket c)) (so_events (cn_socket c) ++ [StopSeen]) (cn_socket c))
         (cn_session c) (cn_phase c)
  else c.

Definition serve_action (step : Connection -> CoordinatorServer -> option (Served * Connection * CoordinatorServer))
    (i : nat) (s : CoordinatorServer) : Served * CoordinatorServer :=
  match sv_workers s !! i with
  | None => ([], s)
  | Some c =>
      match step (flag_seen s c) s with
      | None => ([], s)
      | Some (served, c, s) => (served, set_workers (<[i := c]> (sv_workers s)) s)
      end
  end.

Definition service_step (a : Action) (s : CoordinatorServer) : Served * CoordinatorServer :=
  match a with
  | AAccept events => accept_action (accept_iteration events s) s
  | AAcceptOn events => accept_action (accept_once events s) s
  | AServe i => serve_action serve_step i s
  | AServeOn i => serve_action serve_resume i s
  | AStop => ([], stop_begin s)
  end.

Fixpoint service_run (actions : list Action) (s : CoordinatorServer) : Served * CoordinatorServer :=
  match actions with
  | [] => ([], s)
  | a :: actions =>
      let '(served, s) := service_step a s in
      let '(more, s) := service_run actions s in
      (served ++ more, s)
  end.

End WithJournal.

Arguments CoordinatorServer J : clear implicits.
