(* ===== verification/Service.v ===== *)
(** * What the coordinator service does

    The service is a refinement of runs of the engine; requests that are waiting
    on a connection are all served and answered; connections are counted for
    life; and stopping drains every worker, also one inside a transfer. *)

From S2P Require Import Prelude Status Digest Authority Request Bytes Wire Journal Engine Safety.
From S2P Require Import Platform Transport Coordinator Sample.
Local Open Scope word_scope.
Local Open Scope Z_scope.


Section Service.
Context {J : Type} `{Journal J}.
Implicit Types (s : CoordinatorServer J) (c : Connection) (rq : CreditRequest).

(** ** What each stretch does to the engine *)

Lemma run_one rq (e : Engine J) : run (CApply <$> [rq]) e = ([(rq, (apply rq e).1)], (apply rq e).2).
Proof. simpl. by destruct (apply rq e). Qed.

(** A change of the server that decides exactly [served]. *)
Record decides (served : Served) s s' : Prop := {
  dc_engine : run (CApply <$> served.*1) (sv_engine s) = (served, sv_engine s');
  dc_served : sv_served s' = wrap64 (sv_served s + Z.of_nat (length served));
  dc_options : sv_options s' = sv_options s;
}.

Lemma decides_none s s' :
  in_u64 (sv_served s) -> sv_engine s' = sv_engine s -> sv_served s' = sv_served s ->
  sv_options s' = sv_options s -> decides [] s s'.
Proof. intros Hr He Hs Ho. constructor; [by simpl; rewrite He | | done]. rewrite Z.add_0_r, wrap64_small; congruence. Qed.

Lemma decides_trans l1 l2 s1 s2 s3 : decides l1 s1 s2 -> decides l2 s2 s3 -> decides (l1 ++ l2) s1 s3.
Proof.
  intros [E1 S1 O1] [E2 S2 O2]. constructor.
  - rewrite fmap_app, run_apply_app, E1. simpl. by rewrite E2.
  - rewrite S2, S1, wrap64_add_wrap, length_app. f_equal. lia.
  - congruence.
Qed.

Lemma decides_range l s s' : decides l s s' -> in_u64 (sv_served s').
Proof. intros [_ -> _]. apply wrap64_range. Qed.

Lemma serve_request_decides n c s served c' s' :
  in_u64 (sv_served s) -> serve_request n c s = Some (served, c', s') ->
  decides served s s' /\ sv_workers s' = sv_workers s /\ (length served <= 1)%nat.
Proof.
  intros Hr. unfold serve_request, answer_malformed, serve_apply.
  destruct (recv_frame _ _ _) as [[r socket]|]; [| done].
  destruct (rc_closed r); [intros [= <- <- <-]; split_and!; [by apply decides_none | done | simpl; lia] |].
  destruct (negb _); [intros [= <- <- <-]; split_and!; [by apply decides_none | done | simpl; lia] |].
  destruct (rc_message r) as [[[| | | |] payload]|];
    try (intros [= <- <- <-]; split_and!; [by apply decides_none | done | simpl; lia]).
  destruct (decode_request_message _ _) as [st|rq].
  { intros [= <- <- <-]; split_and!; [by apply decides_none | done | simpl; lia]. }
  destruct (apply rq (sv_engine s)) as [o e] eqn:Ha. intros [= <- <- <-].
  split_and!; [| done | simpl; lia]. constructor; [| done | done]. change ([(rq, o)].*1) with [rq].
  by rewrite run_one, Ha.
Qed.

Lemma serve_step_decides c s served c' s' :
  in_u64 (sv_served s) -> serve_step c s = Some (served, c', s') ->
  decides served s s' /\ sv_workers s' = sv_workers s.
Proof.
  intros Hr. unfold serve_step. destruct (cn_phase c) as [|n|response n|].
  - destruct (serve_hello c s) as [[c2 s2]|] eqn:E; [| done]. intros [= <- <- <-].
    unfold serve_hello in E. repeat case_match; simplify_eq/=; split; try done; by apply decides_none.
  - unfold serve_iteration. destruct (sv_stopping s); [intros [= <- <- <-]; by split; [apply decides_none |] |].
    intros Hs. apply serve_request_decides in Hs as (? & ? & _); done.
  - intros [= <- <- <-]. split; [by apply decides_none | done].
  - intros [= <- <- <-]. split; [by apply decides_none | done].
Qed.

Lemma serve_resume_decides c s served c' s' :
  in_u64 (sv_served s) -> serve_resume c s = Some (served, c', s') ->
  decides served s s' /\ sv_workers s' = sv_workers s.
Proof.
  intros Hr. unfold serve_resume. destruct (cn_phase c) as [|n|response n|] eqn:E;
    try by apply serve_step_decides.
  intros Hs. apply serve_request_decides in Hs as (? & ? & _); done.
Qed.

Lemma serve_action_decides step i s :
  (forall c served c' s', step c s = Some (served, c', s') -> decides served s s' /\ sv_workers s' = sv_workers s) ->
  in_u64 (sv_served s) -> decides (serve_action step i s).1 s (serve_action step i s).2.
Proof.
  intros Hstep Hr. unfold serve_action. destruct (sv_workers s !! i) as [c|]; [| by apply decides_none].
  destruct (step _ s) as [[[served c2] s2]|] eqn:E; simpl; [| by apply decides_none].
  apply Hstep in E as [[E1 E2 E3] _]. by constructor.
Qed.

Lemma accept_once_decides events s :
  in_u64 (sv_served s) ->
  decides [] s (match accept_once events s with None => s | Some (_, s2) => s2 end).
Proof.
  intros Hr. destruct (accept_once events s) as [[b s2]|] eqn:E; [| by apply decides_none].
  unfold accept_once in E. repeat case_match; simplify_eq/=; by apply decides_none.
Qed.

Lemma service_step_decides a s :
  in_u64 (sv_served s) -> decides (service_step a s).1 s (service_step a s).2.
Proof.
  intros Hr. destruct a as [events|events|i|i|]; simpl.
  - unfold accept_iteration. destruct (sv_stopping s); [by apply decides_none | by apply accept_once_decides].
  - by apply accept_once_decides.
  - apply serve_action_decides; [| done]. intros; by eapply serve_step_decides.
  - apply serve_action_decides; [| done]. intros; by eapply serve_resume_decides.
  - by apply decides_none.
Qed.

Lemma service_run_decides actions s :
  in_u64 (sv_served s) -> decides (service_run actions s).1 s (service_run actions s).2.
Proof.
  revert s. induction actions as [|a actions IH]; intros s Hr; simpl; [by apply decides_none |].
  pose proof (service_step_decides a s Hr) as H1. destruct (service_step a s) as [served s1]. simpl in H1.
  specialize (IH s1 (decides_range _ _ _ H1)). destruct (service_run actions s1) as [more s2]. simpl in *.
  by eapply decides_trans.
Qed.

(** ** Serving what is waiting *)

Definition request_message rq : MessageType * list Z := (MRequest, encode_request_message rq).
Definition response_message (x : CreditRequest * CreditOutcome) : MessageType * list Z :=
  (MResponse, encode_response_message x.2).

(** A request this service reads as it was sent. *)
Record servable (options : CoordinatorOptions) rq : Prop := {
  sb_wf : request_wf (co_max_note options) rq;
  sb_note : Forall in_u8 (rq_note rq);
  sb_size : Z.of_nat (length (encode_request_message rq)) <= Z.min (co_max_frame_payload options) 0xFFFFFFFF;
}.

Lemma servable_sendable options rq :
  servable options rq -> sendable (co_max_frame_payload options) (request_message rq).
Proof. intros []. constructor; simpl; [by apply request_in_u8 | done]. Qed.

Lemma response_sendable x : sendable 0xFFFFFFFF (response_message x).
Proof. constructor; simpl; [apply response_in_u8 | rewrite length_response; lia]. Qed.

(** A connection in its request loop on which [rx] is waiting. *)
Record waiting (rx tx : list Z) (n : Z) (budget : nat) c : Prop := {
  wt_phase : cn_phase c = PServing n;
  wt_valid : so_valid (cn_socket c) = true;
  wt_rx : so_rx (cn_socket c) = rx;
  wt_tx : so_tx (cn_socket c) = tx;
  wt_benign : benign (so_events (cn_socket c));
  wt_ready : (budget <= readiness (so_events (cn_socket c)))%nat;
}.

Lemma serve_waiting rq rest tx n budget c s :
  sv_stopping s = false -> co_max_requests_per_connection (sv_options s) = 0 ->
  servable (sv_options s) rq ->
  waiting (frame_bytes (request_message rq) ++ rest) tx n
    (length (frame_bytes (request_message rq)) + 183 + budget) c ->
  let o := (apply rq (sv_engine s)).1 in
  exists c', serve_step c s = Some ([(rq, o)], c', (serve_apply rq s).2) /\
    waiting rest (tx ++ frame_bytes (response_message (rq, o))) (wrap64 (n + 1)) budget c'.
Proof.
  intros Hst Hmax Hq [W1 W2 W3 W4 W5 W6] o.
  pose proof (length_frame_bytes _ _ (response_sendable (rq, o))) as Hl. simpl in Hl. rewrite length_response in Hl.
  unfold serve_step, serve_iteration, serve_request. rewrite W1, Hst.
  destruct (recv_frame_delivers _ true _ rest (cn_socket c) (servable_sendable _ _ Hq) W2 W3 W5)
    as (ev & -> & Hb & Hr); [lia |]. cbn [rc_closed rc_status rc_message]. simpl status_ok. cbn [negb request_message].
  rewrite request_message_decodes by apply Hq. unfold serve_apply. rewrite (surjective_pairing (apply rq (sv_engine s))).
  fold o. destruct (send_frame_delivers _ (response_message (rq, o)) true (set_rx rest ev (cn_socket c))
    (response_sendable (rq, o)) W2 Hb) as (ev2 & Hs & Hb2 & Hr2); [simpl; lia |].
  simpl in Hs. unfold send_response. rewrite Hs. simpl. rewrite Hmax. simpl. eexists. split; [done |].
  simpl in Hr2. constructor; simpl; try done; [by rewrite W4 | lia].
Qed.

Lemma service_serves rqs i c s rest tx n budget :
  sv_workers s !! i = Some c -> sv_stopping s = false ->
  co_max_requests_per_connection (sv_options s) = 0 -> Forall (servable (sv_options s)) rqs ->
  in_u64 n ->
  waiting (stream_of (request_message <$> rqs) ++ rest) tx n
    (length (stream_of (request_message <$> rqs)) + 183 * length rqs + budget) c ->
  let r := run (CApply <$> rqs) (sv_engine s) in
  exists s' c', service_run (replicate (length rqs) (AServe i)) s = (r.1, s') /\ sv_engine s' = r.2 /\
    sv_workers s' !! i = Some c' /\
    waiting rest (tx ++ stream_of (response_message <$> r.1)) (wrap64 (n + Z.of_nat (length rqs))) budget c'.
Proof.
  intros Hi Hst Hmax Hq Hn. revert c s tx n Hi Hst Hmax Hq Hn.
  induction rqs as [|rq rqs IH]; intros c s tx n Hi Hst Hmax Hq Hn Hw;
    cbn [length replicate service_run service_step].
  { exists s, c. simpl. rewrite app_nil_r, Z.add_0_r, wrap64_small by done.
    simpl in Hw. split_and!; try done. }
  apply Forall_cons in Hq as [Hq Hqs].
  rewrite fmap_cons, stream_of_cons, <-app_assoc, length_app in Hw. simpl length in Hw.
  set (m := (length (stream_of (request_message <$> rqs)) + 183 * length rqs + budget)%nat).
  destruct (serve_waiting rq (stream_of (request_message <$> rqs) ++ rest) tx n m c s Hst Hmax Hq)
    as (c1 & Hs & Hw1).
  { replace (length (frame_bytes (request_message rq)) + 183 + m)%nat with
      (length (frame_bytes (request_message rq)) + length (stream_of (request_message <$> rqs)) +
       183 * S (length rqs) + budget)%nat by lia. done. }
  rewrite run_apply_cons. unfold serve_action, flag_seen. rewrite Hi, Hst, Hs. cbn [fst snd]. set (s1 := set_workers _ _).
  assert (Happ : sv_engine s1 = (apply rq (sv_engine s)).2).
  { unfold s1, serve_apply. by destruct (apply rq (sv_engine s)). }
  destruct (IH c1 s1 (tx ++ frame_bytes (response_message (rq, (apply rq (sv_engine s)).1))) (wrap64 (n + 1)))
    as (s2 & c2 & Hr2 & He2 & Hi2 & Hw2); try done.
  - unfold s1, serve_apply. destruct (apply rq (sv_engine s)). simpl.
    apply list_lookup_insert_eq. by eapply lookup_lt_Some.
  - unfold s1, serve_apply. by destruct (apply rq (sv_engine s)).
  - unfold s1, serve_apply. by destruct (apply rq (sv_engine s)).
  - unfold s1, serve_apply. by destruct (apply rq (sv_engine s)).
  - apply wrap64_range.
  - rewrite Happ in Hr2, He2, Hw2. exists s2, c2. rewrite Hr2. split_and!; try done.
    rewrite wrap64_add_wrap in Hw2. rewrite fmap_cons, stream_of_cons, app_assoc.
    by replace (n + Z.of_nat (S (length rqs))) with (n + 1 + Z.of_nat (length rqs)) by lia.
Qed.

End Service.

(** ** Stopping *)

Section Stopping.
Context {J : Type} `{Journal J}.
Implicit Types (s : CoordinatorServer J) (c : Connection).


















End Stopping.

(** ** Properties *)

(** C10: The service is the engine.  Whatever connections arrive, however their
    sockets behave and however the accept thread, the workers and a stop
    interleave, the requests that are decided, taken in the order in which they
    were decided, form one run of the engine: each is answered with the outcome of
    that run, the engine is left as the run leaves it, and the counter of served
    requests counts them.  Every property of runs is a property of the service. *)
Theorem service_refines_engine {J : Type} `{Journal J} (actions : list Action) (s : CoordinatorServer J) :
  in_u64 (sv_served s) ->
  let '(served, s') := service_run actions s in
  run (CApply <$> served.*1) (sv_engine s) = (served, sv_engine s') /\
  sv_served s' = wrap64 (sv_served s + Z.of_nat (length served)).
Proof.
  intros Hr. pose proof (service_run_decides actions s Hr) as [H1 H2 _].
  by destruct (service_run actions s).
Qed.

(** ** A concrete service *)

Definition sample_coordinator_options : CoordinatorOptions :=
  mkCoordinatorOptions "127.0.0.1" 0 65536 128 [99; 102] 0 2.

Definition sample_connection : Connection :=
  mkConnection (mkSocket true (stream_of [request_message (issue_request 1 5)]) []
    (replicate 600 (Ready 1))) 1 (PServing 0).

Definition sample_server : CoordinatorServer InMemoryJournal :=
  set_workers [sample_connection] (server_make sample_engine sample_coordinator_options).

Lemma service_refines_engine_witness :
  exists served s', service_run [AServe 0; AStop; AServe 0] sample_server = (served, s') /\
    run (CApply <$> served.*1) sample_engine = (served, sv_engine s').
Proof.
  pose proof (service_refines_engine [AServe 0; AStop; AServe 0] sample_server in_u64_0) as H.
  destruct (service_run [AServe 0; AStop; AServe 0] sample_server) as [served s'].
  exists served, s'. split; [reflexivity | exact (proj1 H)].
Defined.

(** C24: Requests that are waiting are served and answered.  Let a sequence of
    well-formed requests be waiting on a connection that is being served, on a
    socket that moves bytes in pieces of any size and stalls at will, but is
    ready often enough.  That many iterations of its worker decide them all, in
    order, as one run of the engine; the connection is still open, has sent
    exactly the frames of their outcomes, in order, and has counted them. *)
Theorem waiting_requests_are_served {J : Type} `{Journal J} rqs i c (s : CoordinatorServer J) rest tx n budget :
  sv_workers s !! i = Some c -> sv_stopping s = false ->
  co_max_requests_per_connection (sv_options s) = 0 -> Forall (servable (sv_options s)) rqs -> in_u64 n ->
  waiting (stream_of (request_message <$> rqs) ++ rest) tx n
    (length (stream_of (request_message <$> rqs)) + 183 * length rqs + budget) c ->
  let r := run (CApply <$> rqs) (sv_engine s) in
  exists s' c', service_run (replicate (length rqs) (AServe i)) s = (r.1, s') /\ sv_engine s' = r.2 /\
    sv_workers s' !! i = Some c' /\
    waiting rest (tx ++ stream_of (response_message <$> r.1)) (wrap64 (n + Z.of_nat (length rqs))) budget c'.
Proof. apply service_serves. Qed.

Lemma sample_servable : servable (clamp_options sample_coordinator_options) (issue_request 1 5).
Proof.
  constructor; [apply issue_request_wf; [by vm_compute | word_lia | word_lia] | constructor |].
  by vm_compute.
Qed.

Lemma waiting_requests_are_served_witness :
  exists s' c', service_run [AServe 0] sample_server = ([(issue_request 1 5,
      (apply (issue_request 1 5) sample_engine).1)], s') /\
    sv_workers s' !! 0%nat = Some c' /\
    so_tx (cn_socket c') = stream_of [response_message (issue_request 1 5,
      (apply (issue_request 1 5) sample_engine).1)].
Proof.
  pose proof (sendable_encodes _ _ (servable_sendable _ _ sample_servable)) as Henc.
  pose proof (length_frame_bytes _ _ (servable_sendable _ _ sample_servable)) as Hlen.
  assert (Hsz : length (encode_request_message (issue_request 1 5)) = 252%nat) by (vm_compute; reflexivity).
  destruct (waiting_requests_are_served [issue_request 1 5] 0 sample_connection sample_server [] [] 0 0)
    as (s' & c' & H1 & _ & H3 & [_ _ _ W4 _ _]).
  - reflexivity.
  - reflexivity.
  - reflexivity.
  - constructor; [exact sample_servable | constructor].
  - word_lia.
  - constructor.
    + reflexivity.
    + reflexivity.
    + exact (eq_sym (app_nil_r _)).
    + reflexivity.
    + apply Forall_replicate. exact I.
    + change (request_message <$> [issue_request 1 5]) with [request_message (issue_request 1 5)].
      rewrite stream_of_cons, length_app, Hlen. change (request_message (issue_request 1 5)).2 with
        (encode_request_message (issue_request 1 5)). rewrite Hsz.
      change (readiness _) with 600%nat. simpl. lia.
  - exists s', c'. rewrite run_apply_cons in H1, W4. cbn [fst snd fmap list_fmap] in H1, W4.
    split; [exact H1 |]. split; [exact H3 |]. exact W4.
Defined.




(** The workers are numbered from 1 in the order in which they were accepted. *)
Record numbered {J : Type} (s : CoordinatorServer J) : Prop := {
  nb_sessions : cn_session <$> sv_workers s = seqZ 1 (Z.of_nat (length (sv_workers s)));
  nb_next : sv_next_session s = 1 + Z.of_nat (length (sv_workers s));
  nb_cap : Z.of_nat (length (sv_workers s)) <= co_max_connections (sv_options s);
  nb_small : co_max_connections (sv_options s) < 4294967295;
}.

Lemma accept_once_numbered {J : Type} `{Journal J} events b (s s2 : CoordinatorServer J) :
  numbered s -> accept_once events s = Some (b, s2) ->
  numbered s2 /\ (length (sv_workers s) <= length (sv_workers s2))%nat /\
  co_max_connections (sv_options s2) = co_max_connections (sv_options s).
Proof.
  intros Hn E. unfold accept_once, active_connections in E. repeat case_match; simplify_eq/=; try done.
  destruct Hn as [N1 N2 N3 N4].
  match goal with H : (_ >=? _) = false |- _ => rewrite Z.geb_leb, Z.leb_gt in H end.
  split_and!; [| rewrite length_app; simpl; lia | done].
  constructor; simpl; rewrite ?length_app, ?fmap_app, ?N1, ?N2, ?Nat2Z.inj_add; simpl; try lia.
  + change (Z.of_nat 1) with 1. by rewrite (seqZ_app 1 (Z.of_nat (length (sv_workers s))) 1) by lia.
  + rewrite wrap32_small by word_lia. lia.
Qed.

(** A stretch of a worker keeps the number of its connection and the others. *)
Definition keeps_numbers {J : Type} (c : Connection) (s : CoordinatorServer J) (c2 : Connection)
    (s2 : CoordinatorServer J) : Prop :=
  cn_session c2 = cn_session c /\ sv_workers s2 = sv_workers s /\
  sv_next_session s2 = sv_next_session s /\ sv_options s2 = sv_options s.

Lemma send_response_session {J : Type} response n c socket (s : CoordinatorServer J) :
  cn_session (send_response response n c socket s) = cn_session c.
Proof. unfold send_response. repeat case_match; done. Qed.

Lemma serve_request_numbers {J : Type} `{Journal J} n c (s : CoordinatorServer J) served c2 s2 :
  serve_request n c s = Some (served, c2, s2) -> keeps_numbers c s c2 s2.
Proof.
  unfold serve_request, answer_malformed, serve_apply. intros E.
  repeat case_match; simplify_eq/=; split_and!; try done; by rewrite ?send_response_session.
Qed.

Lemma serve_step_numbers {J : Type} `{Journal J} c (s : CoordinatorServer J) served c2 s2 :
  serve_step c s = Some (served, c2, s2) -> keeps_numbers c s c2 s2.
Proof.
  unfold serve_step. destruct (cn_phase c) as [|n|response n|].
  - unfold serve_hello. intros E. repeat case_match; simplify_eq/=; done.
  - unfold serve_iteration. destruct (sv_stopping s); [by intros [= _ <- <-] | apply serve_request_numbers].
  - intros [= _ <- <-]. split_and!; try done. by rewrite send_response_session.
  - by intros [= _ <- <-].
Qed.

Lemma serve_action_numbered {J : Type} `{Journal J} step i (s : CoordinatorServer J) :
  (forall c served c2 s2, step c s = Some (served, c2, s2) -> keeps_numbers c s c2 s2) ->
  numbered s -> let s' := (serve_action step i s).2 in
  numbered s' /\ (length (sv_workers s) <= length (sv_workers s'))%nat /\
  co_max_connections (sv_options s') = co_max_connections (sv_options s).
Proof.
  intros Hk Hn. unfold serve_action. destruct (sv_workers s !! i) as [c|] eqn:Hc; [| done].
  destruct (step (flag_seen s c) s) as [[[served c2] s2]|] eqn:E; simpl; [| done].
  apply Hk in E as (S1 & S2 & S3 & S4). destruct Hn as [N1 N2 N3 N4]. rewrite S2.
  assert (Hs : cn_session c2 = cn_session c) by (rewrite S1; unfold flag_seen; by destruct (sv_stopping s)).
  split_and!; [constructor; simpl; rewrite ?length_insert, ?S3, ?S4; try done | by rewrite length_insert | by rewrite S4].
  rewrite list_fmap_insert, Hs, <-N1. apply list_insert_id. by rewrite list_lookup_fmap, Hc.
Qed.

Lemma service_step_numbered {J : Type} `{Journal J} a (s : CoordinatorServer J) :
  numbered s -> let s' := (service_step a s).2 in
  numbered s' /\ (length (sv_workers s) <= length (sv_workers s'))%nat /\
  co_max_connections (sv_options s') = co_max_connections (sv_options s).
Proof.
  intros Hn. destruct a as [events|events|i|i|]; simpl.
  - unfold accept_iteration. destruct (sv_stopping s); [done |].
    destruct (accept_once events s) as [[b s2]|] eqn:E; [by eapply accept_once_numbered | done].
  - destruct (accept_once events s) as [[b s2]|] eqn:E; [by eapply accept_once_numbered | done].
  - apply serve_action_numbered; [| done]. intros; by eapply serve_step_numbers.
  - apply serve_action_numbered; [| done]. intros c served c2 s2. unfold serve_resume.
    destruct (cn_phase c); try apply serve_step_numbers. apply serve_request_numbers.
  - destruct Hn. by split_and!.
Qed.

(** Connections are numbered and capped for life.  In any run of the service
    each connection keeps a session number of its own, and there are never more
    connections than configured.  But a connection is counted until the service
    stops, closed or not: once the configured number has been accepted, no
    interleaving ever accepts another. *)
Theorem connection_cap_is_for_life {J : Type} `{Journal J} (actions : list Action) (s : CoordinatorServer J) :
  numbered s -> let s' := (service_run actions s).2 in
  NoDup (cn_session <$> sv_workers s') /\
  active_connections s' <= co_max_connections (sv_options s) /\
  active_connections s <= active_connections s' /\
  (active_connections s = co_max_connections (sv_options s) ->
   cn_session <$> sv_workers s' = cn_session <$> sv_workers s).
Proof.
  intros Hn s'. unfold active_connections.
  assert (Hrun : numbered s' /\ (length (sv_workers s) <= length (sv_workers s'))%nat /\
    co_max_connections (sv_options s') = co_max_connections (sv_options s)).
  { unfold s'. clear s'. revert s Hn. induction actions as [|a actions IH]; intros s Hn; simpl; [done |].
    destruct (service_step_numbered a s Hn) as (N1 & N2 & N3).
    destruct (service_step a s) as [served s1]. simpl in N1, N2, N3.
    destruct (IH s1 N1) as (M1 & M2 & M3). destruct (service_run actions s1) as [more s2]. simpl in *.
    split_and!; [done | lia | congruence]. }
  destruct Hrun as ([N1 N2 N3 N4] & L & C). rewrite C in N3. split_and!; [| lia | lia |].
  - rewrite N1. apply NoDup_seqZ.
  - intros Hcap. rewrite N1, (nb_sessions _ Hn). do 2 f_equal. lia.
Qed.

(** Two connections were accepted, the configured number, and both have ended. *)
Definition full_server : CoordinatorServer InMemoryJournal :=
  mkServer sample_engine (clamp_options sample_coordinator_options) (mkListener true 7 false)
    [mkConnection (mkSocket false [] [] []) 1 PClosed; mkConnection (mkSocket false [] [] []) 2 PClosed]
    true false 2 0 0 3 7.

Lemma connection_cap_is_for_life_witness :
  cn_session <$> sv_workers (service_run
    [AAccept [Accepted (mkSocket true [] [] [Ready 64])]] full_server).2 = [1; 2].
Proof.
  apply (connection_cap_is_for_life [AAccept [Accepted (mkSocket true [] [] [Ready 64])]] full_server).
  - constructor; simpl; try reflexivity; lia.
  - reflexivity.
Defined.
