(* ===== verification/Client.v ===== *)
(** * The coordinator client (include/creditfabric/coordinator.hpp,
      src/coordinator.cpp, client side)

    A client keeps a connection, the challenge of the coordinator, a sequence
    counter and the last authority vector the coordinator confirmed.  [submit]
    places its first attempt behind the watermark that a description reports, and
    reconciles once when the coordinator demands it.  The connection is a
    parameter through the class [Link]; the socket of [Transport] is an instance. *)

From S2P Require Import Prelude Status Digest Ledger Authority Request Bytes Wire Engine Platform Transport.
Local Open Scope word_scope.
Local Open Scope Z_scope.

(** ** The connection *)

(** [None] is a call that has not returned. *)
Class Link (L : Type) := {
  lk_valid : L -> bool;
  lk_connect : string -> Z -> L -> Status * L;
  lk_send : MessageType -> list Z -> L -> option (Status * L);
  lk_recv : Z -> L -> option (Received * L);
  lk_close : L -> L;
}.

(** A socket and the connections that later calls of [connect_to] open. *)
Record SocketLink := mkSocketLink { sl_socket : Socket; sl_next : list (OS * Socket) }.

Definition set_link_socket (s : Socket) (l : SocketLink) : SocketLink := mkSocketLink s (sl_next l).

#[global] Instance socket_link : Link SocketLink := {
  lk_valid l := so_valid (sl_socket l);
  lk_connect _ _ l :=
    match sl_next l with
    | [] => (refused_status RTransportError 22, l)
    | (os, s) :: next =>
        match connect_to os s with
        | (status, None) => (status, mkSocketLink (sl_socket l) next)
        | (status, Some s) => (status, mkSocketLink s next)
        end
    end;
  lk_send type payload l :=
    match send_frame type payload false (sl_socket l) with
    | None => None
    | Some (status, s) => Some (status, set_link_socket s l)
    end;
  lk_recv max_payload l :=
    match recv_frame max_payload false (sl_socket l) with
    | None => None
    | Some (r, s) => Some (r, set_link_socket s l)
    end;
  lk_close l := set_link_socket (socket_close (sl_socket l)).2 l;
}.

(** ** State *)

Record ClientOptions := mkClientOptions {
  cl_host : string;
  cl_port : Z;
  cl_domain : Z;
  cl_publisher : Z;
  cl_boot : Z;
  cl_label : list Z;
  cl_max_payload : Z;
}.

Record ClientStats := mkClientStats {
  cs_requests_sent : Z;
  cs_reconciliations : Z;
  cs_refusals : Z;
  cs_duplicates : Z;
  cs_retries : Z;
  cs_reconnects : Z;
}.

Definition client_stats_zero : ClientStats := mkClientStats 0 0 0 0 0 0.

Section WithLink.
Context {L : Type} `{Link L}.

Record CoordinatorClient := mkClient {
  ct_options : ClientOptions;
  ct_socket : L;
  ct_incarnation : Incarnation;
  ct_challenge : Digest128;
  ct_session : Z;
  ct_next_sequence : Z;
  ct_authority : AuthorityVector;
  ct_attempts : AttemptIdGenerator;
  ct_stats : ClientStats;
  ct_connected : bool;
  ct_placed : bool;
}.

(** The seed of the attempt identities comes from process entropy. *)
Definition client_make (options : ClientOptions) (socket : L) (entropy : Z) : CoordinatorClient :=
  mkClient options socket (incarnation_make (cl_publisher options) (cl_boot options)) digest_zero 0 1
    vector_zero (generator_make entropy 0) client_stats_zero false false.

Definition set_socket (v : L) (c : CoordinatorClient) : CoordinatorClient :=
  mkClient (ct_options c) v (ct_incarnation c) (ct_challenge c) (ct_session c) (ct_next_sequence c)
    (ct_authority c) (ct_attempts c) (ct_stats c) (ct_connected c) (ct_placed c).
Definition set_connected (v : bool) (c : CoordinatorClient) : CoordinatorClient :=
  mkClient (ct_options c) (ct_socket c) (ct_incarnation c) (ct_challenge c) (ct_session c)
    (ct_next_sequence c) (ct_authority c) (ct_attempts c) (ct_stats c) v (ct_placed c).
Definition set_client_sequence (v : Z) (c : CoordinatorClient) : CoordinatorClient :=
  mkClient (ct_options c) (ct_socket c) (ct_incarnation c) (ct_challenge c) (ct_session c) v
    (ct_authority c) (ct_attempts c) (ct_stats c) (ct_connected c) (ct_placed c).
Definition set_client_authority (v : AuthorityVector) (c : CoordinatorClient) : CoordinatorClient :=
  mkClient (ct_options c) (ct_socket c) (ct_incarnation c) (ct_challenge c) (ct_session c)
    (ct_next_sequence c) v (ct_attempts c) (ct_stats c) (ct_connected c) (ct_placed c).
Definition set_client_stats (v : ClientStats) (c : CoordinatorClient) : CoordinatorClient :=
  mkClient (ct_options c) (ct_socket c) (ct_incarnation c) (ct_challenge c) (ct_session c)
    (ct_next_sequence c) (ct_authority c) (ct_attempts c) v (ct_connected c) (ct_placed c).
Definition set_placed (v : bool) (c : CoordinatorClient) : CoordinatorClient :=
  mkClient (ct_options c) (ct_socket c) (ct_incarnation c) (ct_challenge c) (ct_session c)
    (ct_next_sequence c) (ct_authority c) (ct_attempts c) (ct_stats c) (ct_connected c) v.
(** [challenge_ = ...; session_ = ...; connected_ = true; placed_ = false]. *)
Definition set_session (challenge : Digest128) (session : Z) (c : CoordinatorClient) : CoordinatorClient :=
  mkClient (ct_options c) (ct_socket c) (ct_incarnation c) challenge session (ct_next_sequence c)
    (ct_authority c) (ct_attempts c) (ct_stats c) true false.

(** [attempts_.next()]. *)
Definition next_attempt (c : CoordinatorClient) : Digest128 * CoordinatorClient :=
  let '(id, attempts) := generator_next (ct_attempts c) in
  (id, mkClient (ct_options c) (ct_socket c) (ct_incarnation c) (ct_challenge c) (ct_session c)
         (ct_next_sequence c) (ct_authority c) attempts (ct_stats c) (ct_connected c) (ct_placed c)).

Definition incr_sent (s : ClientStats) : ClientStats :=
  mkClientStats (cs_requests_sent s +% 1) (cs_reconciliations s) (cs_refusals s) (cs_duplicates s)
    (cs_retries s) (cs_reconnects s).
Definition incr_reconciliations (s : ClientStats) : ClientStats :=
  mkClientStats (cs_requests_sent s) (cs_reconciliations s +% 1) (cs_refusals s) (cs_duplicates s)
    (cs_retries s) (cs_reconnects s).
Definition incr_retries (s : ClientStats) : ClientStats :=
  mkClientStats (cs_requests_sent s) (cs_reconciliations s) (cs_refusals s) (cs_duplicates s)
    (cs_retries s +% 1) (cs_reconnects s).
(** [if (!outcome.status.ok()) ++refusals; if (outcome.duplicate) ++duplicates]. *)
Definition count_answer (o : CreditOutcome) (s : ClientStats) : ClientStats :=
  mkClientStats (cs_requests_sent s) (cs_reconciliations s)
    (if negb (status_ok (o_status o)) then cs_refusals s +% 1 else cs_refusals s)
    (if o_duplicate o then cs_duplicates s +% 1 else cs_duplicates s)
    (cs_retries s) (cs_reconnects s).

(** An operation of the client: it may wait forever, and changes the client. *)
Definition Op (A : Type) : Type := CoordinatorClient -> option (A * CoordinatorClient).

Definition op_ret {A} (a : A) : Op A := fun c => Some (a, c).
Definition op_bind {A B} (m : Op A) (k : A -> Op B) : Op B :=
  fun c => match m c with None => None | Some (a, c) => k a c end.
Definition op_get {A} (f : CoordinatorClient -> A) : Op A := fun c => Some (f c, c).
Definition op_set (f : CoordinatorClient -> CoordinatorClient) : Op unit := fun c => Some (tt, f c).
Definition op_step {A} (f : CoordinatorClient -> A * CoordinatorClient) : Op A := fun c => Some (f c).

Definition send (type : MessageType) (payload : list Z) : Op Status := fun c =>
  match lk_send type payload (ct_socket c) with
  | None => None
  | Some (status, s) => Some (status, set_socket s c)
  end.

Definition recv : Op Received := fun c =>
  match lk_recv (cl_max_payload (ct_options c)) (ct_socket c) with
  | None => None
  | Some (r, s) => Some (r, set_socket s c)
  end.

End WithLink.

Arguments CoordinatorClient L : clear implicits.
Arguments Op L A : clear implicits.

Declare Scope op_scope.
Delimit Scope op_scope with op.
Notation "x <~ m ;; k" := (op_bind m (fun x => k)) (at level 100, m at next level, right associativity)
  : op_scope.
Notation "m ;~ k" := (op_bind m (fun _ => k)) (at level 100, right associativity) : op_scope.

Definition set_status (s : Status) (o : CreditOutcome) : CreditOutcome :=
  mkOutcome s (o_op o) (o_sequence o) (o_applied o) (o_duplicate o) (o_decided o) (o_authority o)
    (o_view o) (o_state_digest o) (o_ambiguous_pending o).

(** The outcome of a request that has not been answered. *)
Definition unanswered (request : CreditRequest) : CreditOutcome :=
  mkOutcome success (rq_op request) (rq_sequence request) false false false (rq_authority request)
    view_zero digest_zero 0.

(** The authority vector after an answer. *)
Definition confirmed_authority (incarnation : Z) (confirmed old : AuthorityVector) : AuthorityVector :=
  if is_set (a_account confirmed)
  then mkVector (a_domain confirmed) (a_account confirmed)
         (if is_set (a_epoch confirmed) then a_epoch confirmed else a_epoch old)
         (if is_set (a_generation confirmed) then a_generation confirmed else a_generation old)
         incarnation
  else old.

(** The first frames of a session, from [HelloMessage hello{}] on.  Labels are
    cut to 64 bytes. *)
Definition hello_label (label : list Z) : list Z := take 64 label.

Section Operations.
Context {L : Type} `{Link L}.

(** A response that does not decode leaves in the outcome the fields read before
    the error; which ones, no operation looks at. *)
Context (partly_decoded : list Z -> CreditOutcome -> CreditOutcome).

Local Open Scope op_scope.

Definition handshake : Op L Status :=
  options <~ op_get ct_options;;
  match encode_hello (mkHello (cl_publisher options) (cl_boot options) (hello_label (cl_label options))) with
  | inl status => op_ret status
  | inr payload =>
      status <~ send Hello payload;;
      if negb (status_ok status) then op_ret status else
      r <~ recv;;
      if negb (status_ok (rc_status r)) then op_ret (rc_status r) else
      match rc_message r with
      | Some (HelloAck, payload) =>
          if rc_closed r then op_ret (refused_status RTransportError 20) else
          match decode_hello_ack payload with
          | inl status => op_ret status
          | inr ack =>
              op_set (set_session (ha_challenge ack) (ha_session ack));~
              op_ret success
          end
      | _ => op_ret (refused_status RTransportError 20)
      end
  end.

Definition client_close : Op L unit :=
  valid <~ op_get (fun c => lk_valid (ct_socket c));;
  (if valid
   then _ <~ send Bye [];;
        op_set (fun c => set_socket (lk_close (ct_socket c)) c)
   else op_ret tt);~
  op_set (set_connected false).

Definition client_connect : Op L Status :=
  client_close;~
  opened <~ op_step (fun c =>
    let '(status, s) := lk_connect (cl_host (ct_options c)) (cl_port (ct_options c)) (ct_socket c) in
    (status, set_socket s c));;
  if negb (status_ok opened) then op_ret opened else
  status <~ handshake;;
  if negb (status_ok status) then client_close;~ op_ret status else op_ret status.

(** What a delivered answer changes. *)
Definition absorb (request : CreditRequest) (outcome : CreditOutcome) (c : CoordinatorClient L)
    : CoordinatorClient L :=
  let c := set_client_stats (count_answer outcome (ct_stats c)) c in
  let c := if o_decided outcome then set_client_sequence (rq_sequence request +% 1) c else c in
  set_client_authority
    (confirmed_authority (i_id (ct_incarnation c)) (o_authority outcome) (ct_authority c)) c.

Definition exchange (request : CreditRequest) : Op L CreditOutcome :=
  let outcome := unanswered request in
  connected <~ op_get ct_connected;;
  if negb connected then op_ret (set_status (refused_status RTransportError 21) outcome) else
  status <~ send MRequest (encode_request_message request);;
  if negb (status_ok status)
  then op_set (set_connected false);~ op_ret (set_status status outcome) else
  op_set (fun c => set_client_stats (incr_sent (ct_stats c)) c);~
  r <~ recv;;
  let lost :=
    op_set (set_connected false);~
    op_ret (set_status (if status_ok (rc_status r) then refused_status RTransportError 22
                        else rc_status r) outcome) in
  if negb (status_ok (rc_status r)) || rc_closed r then lost else
  match rc_message r with
  | Some (MResponse, payload) =>
      match decode_response_message payload with
      | inl status =>
          op_set (set_connected false);~
          op_ret (set_status status (partly_decoded payload outcome))
      | inr outcome => op_set (absorb request outcome);~ op_ret outcome
      end
  | _ => lost
  end.

(** A request with every field at its default. *)
Definition request_zero : CreditRequest :=
  mkRequest digest_zero Describe 0 vector_zero (mkIncarnation 0 0 0) 0 0 0 0 0 0 0 digest_zero
    digest_zero config_zero DecisionNone RUnknownState [].

(** The fields that [describe], [reconcile] and [submit] fill in. *)
Definition fill (op : OpKind) (attempt : Digest128) (sequence : Z) (authority : AuthorityVector)
    (presenter : Incarnation) (proof : Digest128) (rq : CreditRequest) : CreditRequest :=
  mkRequest attempt op sequence authority presenter (rq_resource rq) (rq_producer rq) (rq_consumer rq)
    (rq_grant rq) (rq_target rq) (rq_count rq) (rq_new_capacity rq) proof (rq_expected_state rq)
    (rq_config rq) (rq_decision rq) (rq_fence_cause rq) (rq_note rq).

Definition describe (account : Z) : Op L CreditOutcome :=
  sequence <~ op_get ct_next_sequence;;
  attempt <~ op_step next_attempt;;
  incarnation <~ op_get ct_incarnation;;
  domain <~ op_get (fun c => cl_domain (ct_options c));;
  exchange (fill Describe attempt sequence (mkVector domain account 0 0 (i_id incarnation)) incarnation
              digest_zero request_zero).

Definition reconcile (account : Z) : Op L CreditOutcome :=
  description <~ describe account;;
  if negb (status_ok (o_status description)) then op_ret description else
  op_set (set_client_sequence (o_sequence description +% 1));~
  c <~ op_get id;;
  let incarnation := ct_incarnation c in
  let authority := mkVector (cl_domain (ct_options c)) account (a_epoch (o_authority description))
                     (a_generation (o_authority description)) (i_id incarnation) in
  attempt <~ op_step next_attempt;;
  outcome <~ exchange (fill Reconcile attempt (ct_next_sequence c) authority incarnation
    (challenge_compute (ct_challenge c) incarnation authority) request_zero);;
  if status_ok (o_status outcome) then
    op_set (fun c => set_client_stats (incr_reconciliations (ct_stats c))
                       (set_placed true (set_client_authority authority c)));~
    op_ret outcome
  else op_ret outcome.

(** A demand to reconcile. *)
Definition demands_reconciliation (o : CreditOutcome) : bool :=
  match reason (o_status o) with
  | RReconciliationRequired | RStaleAuthority | RUnknownIncarnation => true
  | _ => false
  end.

(** Finding the place of the first attempt; [Some] is the refusal of the description. *)
Definition place (account : Z) : Op L (option CreditOutcome) :=
  c <~ op_get id;;
  if negb (ct_placed c) || negb (is_set (a_account (ct_authority c)))
     || negb (a_account (ct_authority c) =? account)
  then
    description <~ describe account;;
    if negb (status_ok (o_status description)) then op_ret (Some description) else
    op_set (fun c =>
      set_client_authority
        (mkVector (cl_domain (ct_options c)) (a_account (o_authority description))
           (a_epoch (o_authority description)) (a_generation (o_authority description))
           (i_id (ct_incarnation c))) c);~
    op_set (fun c => if o_sequence description +% 1 >? ct_next_sequence c
                     then set_client_sequence (o_sequence description +% 1) c else c);~
    op_set (set_placed true);~
    op_ret None
  else op_ret None.

(** An attempt at the client's sequence, under its authority. *)
Definition attempt_at (attempt : Digest128) (rq : CreditRequest) (c : CoordinatorClient L) : CreditRequest :=
  fill (rq_op rq) attempt (ct_next_sequence c) (ct_authority c) (ct_incarnation c) (rq_proof rq) rq.

Definition submit (rq : CreditRequest) : Op L CreditOutcome :=
  incarnation <~ op_get ct_incarnation;;
  attempt <~ op_step next_attempt;;
  c <~ op_get id;;
  match rq_op rq with
  | Open =>
      let authority := mkVector (c_domain (rq_config rq)) (c_account (rq_config rq)) 1 1 (i_id incarnation) in
      exchange (fill Open attempt 1 authority incarnation
                  (challenge_compute (ct_challenge c) incarnation authority) rq)
  | Describe =>
      let a := rq_authority rq in
      exchange (fill Describe attempt (ct_next_sequence c)
                  (mkVector (cl_domain (ct_options c)) (a_account a) (a_epoch a) (a_generation a)
                     (i_id incarnation)) incarnation (rq_proof rq) rq)
  | _ =>
      let account := a_account (rq_authority rq) in
      refused <~ place account;;
      match refused with
      | Some description => op_ret description
      | None =>
          request <~ op_get (attempt_at attempt rq);;
          outcome <~ exchange request;;
          if negb (demands_reconciliation outcome) then op_ret outcome else
          revalidated <~ reconcile (a_account (rq_authority request));;
          if negb (status_ok (o_status revalidated)) then op_ret revalidated else
          attempt <~ op_step next_attempt;;
          op_set (fun c => set_client_stats (incr_retries (ct_stats c)) c);~
          request <~ op_get (attempt_at attempt rq);;
          exchange request
      end
  end.

End Operations.

(** [connects] is what each try to connect meets; a successful one is closed. *)
Fixpoint wait_for_listener (last : Status) (connects : list OS) : Status :=
  match connects with
  | [] => last
  | os :: connects =>
      let '(status, _) := connect_to os (mkSocket true [] [] []) in
      if status_ok status then success else wait_for_listener status connects
  end.
