(* ===== verification/Consumer.v ===== *)
(** * The example consumer (examples/consumer/main.cpp)

    A program written against the public headers alone: it opens an account on an
    engine of its own, issues, consumes and returns credit, and checks the
    account's books.  The theorem says that it ends well whatever nonce its engine
    drew. *)

From Stdlib Require Import Ascii String.
From S2P Require Import Prelude Checked Status Digest Ledger Authority Request Bytes Wire.
From S2P Require Import Record Journal Window Account Engine Recovery Steps Invariant.
From S2P Require Import Safety Sample Explain Restart Client.
Local Open Scope word_scope.
Local Open Scope Z_scope.

(** ** The program *)

Definition consumer_fail (message : string) : Z * string := (1, "consumer: " +:+ message +:+ newline).

Definition consumer_me : Incarnation := incarnation_make 0x1000 0x2000.

Definition consumer_config : AccountConfig :=
  mkConfig 0xC0DE 0xFEED 1 1 1000 1000 Synthetic
    (mkPolicy (min_issue policy_default) 1000 (allow_protect policy_default) (allow_return policy_default)
       (allow_capacity_growth policy_default)).

Definition consumer_authority : AuthorityVector := mkVector 0xC0DE 0xFEED 1 1 (i_id consumer_me).

(** The engine, the attempt generator and [sequence], which [submit] captures. *)
Record Consumer := mkConsumer {
  cn_engine : Engine InMemoryJournal;
  cn_attempts : AttemptIdGenerator;
  cn_sequence : Z;
}.

(** [default_limits] are those of an [EngineLimits] left as it is made. *)
Definition consumer_engine (nonce : Digest128) : Engine InMemoryJournal :=
  engine_make default_limits true (memory_make 67108864) consumer_me nonce.

Definition consumer_request (op : OpKind) (count : Z) (attempt : Digest128) (sequence : Z) (proof : Digest128)
    (config : AccountConfig) : CreditRequest :=
  mkRequest attempt op sequence consumer_authority consumer_me 0 0 0 0 0 count 0 proof digest_zero config
    DecisionNone RUnknownState [].

(** The lambda [submit]. *)
Definition consumer_submit (op : OpKind) (count : Z) (c : Consumer) : CreditOutcome * Consumer :=
  let '(attempt, attempts) := generator_next (cn_attempts c) in
  let request := consumer_request op count attempt (cn_sequence c) digest_zero config_zero in
  let '(outcome, engine) := apply request (cn_engine c) in
  (outcome, mkConsumer engine attempts
     (if o_decided outcome then rq_sequence request +% 1 else cn_sequence c)).

(** The opening attempt; [sequence] is 2 afterwards. *)
Definition consumer_open (engine : Engine InMemoryJournal) : CreditOutcome * Consumer :=
  let '(attempt, attempts) := generator_next (generator_make 0 0x1234) in
  let proof := challenge_compute (e_challenge engine) consumer_me consumer_authority in
  let '(opened, engine) := apply (consumer_request Open 0 attempt 1 proof consumer_config) engine in
  (opened, mkConsumer engine attempts 2).

Definition consumer_checks (explanation : Explanation) : Z * string :=
  let view := ex_view explanation in
  if negb (v_closed view) then consumer_fail "accounting does not close" else
  if negb (v_in_flight view =? 0) then consumer_fail "credit is still in flight after the round trip" else
  if negb (v_available view =? v_capacity view) then consumer_fail "capacity was not recycled" else
  if negb (v_consumed view =? 150) then consumer_fail "consumed total is wrong" else
  (0, "consumer: OK" +:+ newline).

Definition consumer_rounds (c : Consumer) : Z * string :=
  let '(o, c) := consumer_submit Issue 400 c in
  if negb (status_ok (o_status o)) then consumer_fail "issue refused" else
  let '(o, c) := consumer_submit Consume 150 c in
  if negb (status_ok (o_status o)) then consumer_fail "consume refused" else
  let '(o, c) := consumer_submit Return 400 c in
  if negb (status_ok (o_status o)) then consumer_fail "return refused" else
  let explanation := explain 0xFEED (cn_engine c) in
  let '(code, text) := consumer_checks explanation in
  (code, render explanation +:+ text).

(** The exit code and what is printed; [fuel] is that of the recovery. *)
Definition consumer_main (fuel : nat) (ndebug : bool) (nonce : Digest128) : option (Z * string) :=
  let banner := "creditfabric version " +:+ version_string +:+ " (" +:+ build_profile ndebug +:+ ")" +:+ newline in
  let printed '(code, text) := (code : Z, banner +:+ text) in
  match recover fuel (consumer_engine nonce) with
  | None => None
  | Some (status, engine) =>
      Some (printed (
        if negb (status_ok status) then consumer_fail "recovery refused" else
        let '(opened, c) := consumer_open engine in
        if negb (status_ok (o_status opened)) then consumer_fail "open refused" else consumer_rounds c))
  end.

(** ** It ends well *)

(** What it prints between the banner and the verdict. *)
Definition consumer_report : string := Eval vm_compute in
  match consumer_open (first_boot default_limits 67108864 consumer_me sample_nonce) with
  | (_, c) =>
      let c := (consumer_submit Return 400 (consumer_submit Consume 150 (consumer_submit Issue 400 c).2).2).2 in
      render (explain 0xFEED (cn_engine c))
  end.

Lemma consumer_opens nonce proof :
  challenge_verify nonce consumer_me consumer_authority proof = true ->
  let '(attempt, attempts) := generator_next (generator_make 0 0x1234) in
  let '(opened, engine) := apply (consumer_request Open 0 attempt 1 proof consumer_config)
     (first_boot default_limits 67108864 consumer_me nonce) in
  status_ok (o_status opened) = true /\
  consumer_rounds (mkConsumer engine attempts 2) = (0, consumer_report +:+ "consumer: OK" +:+ newline).
Proof.
  intros V. unfold apply, apply_locked, create_account_locked, open_refusal. 
  cbn [first_boot e_recovered e_journal_failed negb rq_op consumer_request e_challenge rq_presenter rq_authority rq_proof].
  rewrite V. vm_compute. by split.
Qed.

(** The example ends well: whatever nonce its engine draws, it recovers the empty
    journal, every attempt it makes is applied, the account's books close with all
    capacity back, and it prints its report and exits with 0. *)
Theorem consumer_ends_well fuel ndebug nonce :
  consumer_main (S fuel) ndebug nonce =
  Some (0, ("creditfabric version 1.0.0 (" +:+ build_profile ndebug +:+ ")" +:+ newline) +:+
           consumer_report +:+ "consumer: OK" +:+ newline).
Proof.
  pose proof (consumer_opens nonce (challenge_compute nonce consumer_me consumer_authority)
    (challenge_verify_prove _ _ _)) as H.
  unfold consumer_main.
  change (recover (S fuel) (consumer_engine nonce)) with
    (Some (success, first_boot default_limits 67108864 consumer_me nonce)).
  change (status_ok success) with true. cbv beta iota zeta delta [negb]. unfold consumer_open.
  change (e_challenge (first_boot default_limits 67108864 consumer_me nonce)) with nonce.
  destruct (generator_next (generator_make 0 0x1234)) as [attempt attempts].
  destruct (apply _ _) as [opened engine]. destruct H as [-> ->]. by destruct ndebug.
Qed.
