(* ===== verification/ClientProps.v ===== *)
(** * What a client sends

    A link that records what goes through it, around any link, and the theorem
    that no two requests of a client share an attempt identity. *)

From S2P Require Import Prelude Status Digest Ledger Authority Request Bytes Wire Engine Platform.
From S2P Require Import Transport Client.
Local Open Scope Z_scope.

(** ** A link that records what is sent *)

Record Spy (L : Type) := mkSpy { sp_link : L; sp_sent : list (MessageType * list Z) }.
Arguments mkSpy {L}.
Arguments sp_link {L}.
Arguments sp_sent {L}.

#[global] Instance spy_link {L} `{Link L} : Link (Spy L) := {
  lk_valid l := lk_valid (sp_link l);
  lk_connect host port l :=
    let '(status, k) := lk_connect host port (sp_link l) in (status, mkSpy k (sp_sent l));
  lk_send type payload l :=
    match lk_send type payload (sp_link l) with
    | None => None
    | Some (status, k) => Some (status, mkSpy k (sp_sent l ++ [(type, payload)]))
    end;
  lk_recv max_payload l :=
    match lk_recv max_payload (sp_link l) with
    | None => None
    | Some (r, k) => Some (r, mkSpy k (sp_sent l))
    end;
  lk_close l := mkSpy (lk_close (sp_link l)) (sp_sent l);
}.

(** The sixteen bytes of the attempt identity at the front of each request sent. *)
Definition is_request (m : MessageType * list Z) : bool :=
  match m.1 with MRequest => true | _ => false end.

Definition sent_attempts (sent : list (MessageType * list Z)) : list (list Z) :=
  (fun m => take 16 m.2) <$> List.filter is_request sent.

Lemma sent_attempts_snoc sent m :
  sent_attempts (sent ++ [m]) = sent_attempts sent ++ (if is_request m then [take 16 m.2] else []).
Proof.
  unfold sent_attempts. rewrite List.filter_app, fmap_app. simpl. by destruct (is_request m).
Qed.

(** ** Attempt identities *)

(** The identity a generator produces at a counter. *)
Definition id_at (seed k : Z) : Digest128 :=
  let id := attempt_raw seed k in if is_zero id then mkDigest 1 (hi id) else id.

(** What stands in for an identity that would be zero. *)
Definition substitute : Digest128 := mkDigest 1 0.

Lemma attempt_raw_range seed k : digest_range (attempt_raw seed k).
Proof. split; simpl; [apply mix64_range | apply avalanch64_range]. Qed.

Lemma id_at_range seed k : digest_range (id_at seed k).
Proof.
  unfold id_at. destruct (is_zero _); [| apply attempt_raw_range].
  split; [simpl; word_lia | apply attempt_raw_range].
Qed.

Lemma id_at_inj seed k j :
  in_u64 seed -> in_u64 k -> in_u64 j -> id_at seed k = id_at seed j -> k = j \/ id_at seed k = substitute.
Proof.
  intros Hs Hk Hj. unfold id_at. cbv zeta.
  destruct (is_zero (attempt_raw seed k)) eqn:Ek, (is_zero (attempt_raw seed j)) eqn:Ej; intros E.
  - right. apply is_zero_iff in Ek. rewrite Ek. done.
  - right. apply is_zero_iff in Ek. rewrite Ek. done.
  - right. apply is_zero_iff in Ej. rewrite E, Ej. done.
  - left. apply (attempt_raw_lo_inj seed); [done | done | done | exact (f_equal lo E)].
Qed.

(** The length of a request's first field. *)
Lemma request_attempt rq :
  take 16 (encode_request_message rq) = w_digest (rq_attempt rq).
Proof.
  destruct (encode_request_attempt rq) as [rest ->]. apply take_app_exact. reflexivity.
Qed.

Lemma w_digest_inj d e : digest_range d -> digest_range e -> w_digest d = w_digest e -> d = e.
Proof.
  intros Hd He H. pose proof (reads_digest d 16 [] Hd) as H1. pose proof (reads_digest e 16 [] He) as H2.
  rewrite H in H1. congruence.
Qed.

(** ** The invariant *)

Section Fresh.
Context {L : Type} `{Link L} (partly_decoded : list Z -> CreditOutcome -> CreditOutcome) (seed : Z).
Implicit Types (c : CoordinatorClient (Spy L)).

(** The requests sent carry the identities of distinct counters, none of which
    is pending: drawn from the generator but not sent yet. *)
Record fresh (pending : list Z) (n : Z) c : Prop := {
  fr_seed : stream_seed (ct_attempts c) = seed;
  fr_counter : counter (ct_attempts c) = n;
  fr_sent : exists ks, sent_attempts (sp_sent (ct_socket c)) = (fun k => w_digest (id_at seed k)) <$> ks /\
    NoDup (ks ++ pending) /\ Forall (fun k => 0 < k <= n) (ks ++ pending);
}.

Lemma op_bind_inv {A B} (m : Op (Spy L) A) (k : A -> Op (Spy L) B) c b c' :
  op_bind m k c = Some (b, c') -> exists a c1, m c = Some (a, c1) /\ k a c1 = Some (b, c').
Proof. unfold op_bind. destruct (m c) as [[a c1]|]; [| done]. by exists a, c1. Qed.

(** What an operation does to the pending identities and the counter. *)
Definition keeps {A} (m : Op (Spy L) A) (before : list Z) (cost : Z) (after : list Z) : Prop :=
  forall n c a c', 0 <= n -> n + cost < 18446744073709551616 -> fresh before n c -> m c = Some (a, c') ->
    exists n', n <= n' <= n + cost /\ fresh after n' c'.

Lemma keeps_ret {A} (a : A) p : keeps (op_ret a) p 0 p.
Proof. intros n c x c' _ _ Hf [= <- <-]. exists n. split; [lia | done]. Qed.

Lemma keeps_get {A} (f : CoordinatorClient (Spy L) -> A) p : keeps (op_get f) p 0 p.
Proof. intros n c x c' _ _ Hf [= <- <-]. exists n. split; [lia | done]. Qed.

Lemma keeps_set f p :
  (forall c, ct_attempts (f c) = ct_attempts c /\ sp_sent (ct_socket (f c)) = sp_sent (ct_socket c)) ->
  keeps (op_set f) p 0 p.
Proof.
  intros Hs n c x c' _ _ [F1 F2 F3] [= <- <-]. destruct (Hs c) as [H1 H2]. exists n. split; [lia |].
  constructor; rewrite ?H1, ?H2; done.
Qed.

Lemma keeps_bind {A B} (m : Op (Spy L) A) (k : A -> Op (Spy L) B) p q r x y :
  0 <= x -> 0 <= y -> keeps m p x q -> (forall a, keeps (k a) q y r) -> keeps (op_bind m k) p (x + y) r.
Proof.
  intros Hx Hy Hm Hk n c b c' Hn Hb Hf (a & c1 & H1 & H2)%op_bind_inv.
  destruct (Hm n c a c1 Hn ltac:(lia) Hf H1) as (n1 & Hn1 & Hf1).
  destruct (Hk a n1 c1 b c' ltac:(lia) ltac:(lia) Hf1 H2) as (n2 & Hn2 & Hf2).
  exists n2. split; [lia | done].
Qed.

Lemma keeps_more {A} (m : Op (Spy L) A) p q x y : x <= y -> keeps m p x q -> keeps m p y q.
Proof.
  intros Hxy Hm n c a c' Hn Hb Hf Hr. destruct (Hm n c a c' Hn ltac:(lia) Hf Hr) as (n' & ? & ?).
  exists n'. split; [lia | done].
Qed.

(** A step that draws no identity. *)
Lemma keeps_then {A B} (m : Op (Spy L) A) (k : A -> Op (Spy L) B) p q r y :
  0 <= y -> keeps m p 0 q -> (forall a, keeps (k a) q y r) -> keeps (op_bind m k) p y r.
Proof. intros Hy. apply (keeps_bind _ _ _ _ _ 0 y); lia. Qed.

(** A pending identity may be dropped. *)
Lemma fresh_drop k p n c : fresh (k :: p) n c -> fresh p n c.
Proof.
  intros [F1 F2 (ks & H1 & H2 & H3)]. constructor; [done | done |]. exists ks. split; [done |].
  rewrite <-Permutation_middle in H2, H3. apply NoDup_cons in H2 as [_ ?]. by apply Forall_cons in H3 as [_ ?].
Qed.

Lemma keeps_drop {A} (m : Op (Spy L) A) k p x q : keeps m p x q -> keeps m (k :: p) x q.
Proof. intros Hm n c a c' Hn Hb Hf. eapply Hm; [done | done | by eapply fresh_drop]. Qed.

(** Drawing an identity makes it pending. *)
Lemma keeps_next {B} (k : Digest128 -> Op (Spy L) B) p y r :
  0 <= y -> (forall j, keeps (k (id_at seed j)) (j :: p) y r) ->
  keeps (op_bind (op_step next_attempt) k) p (1 + y) r.
Proof.
  intros Hy Hk n c b c' Hn Hb [F1 F2 (ks & H1 & H2 & H3)] (a & c1 & Ha & Hr)%op_bind_inv.
  unfold op_step, next_attempt, generator_next in Ha. rewrite F1, F2 in Ha.
  rewrite wrap64_small in Ha by word_lia. cbv zeta in Ha.
  change (if is_zero (attempt_raw seed (n + 1)) then _ else _) with (id_at seed (n + 1)) in Ha.
  injection Ha as <- <-.
  match type of Hr with k _ ?c1 = _ => assert (Hf1 : fresh (n + 1 :: p) (n + 1) c1) end.
  { constructor; [done | done |]. exists ks. split; [exact H1 |].
    rewrite <-Permutation_middle. rewrite Forall_forall in H3. split.
    + apply NoDup_cons. split; [| done]. intros Hin. apply H3 in Hin. lia.
    + apply Forall_cons. split; [lia |]. apply Forall_forall. intros x Hx. apply H3 in Hx. lia. }
  destruct (Hk (n + 1) (n + 1) _ b c' ltac:(lia) ltac:(lia) Hf1 Hr) as (n' & Hn' & Hf').
  exists n'. split; [lia | done].
Qed.

Lemma keeps_send_other t payload p : t <> MRequest -> keeps (send t payload) p 0 p.
Proof.
  intros Ht n c a c' _ _ [F1 F2 F3]. unfold send. simpl.
  destruct (lk_send t payload (sp_link (ct_socket c))) as [[st l]|]; [| done]. intros [= <- <-].
  exists n. split; [lia |]. constructor; [done | done |]. simpl. rewrite sent_attempts_snoc.
  unfold is_request. simpl. destruct t; try done; by rewrite app_nil_r.
Qed.

Lemma keeps_send_request rq j p :
  rq_attempt rq = id_at seed j -> keeps (send MRequest (encode_request_message rq)) (j :: p) 0 p.
Proof.
  intros Hj n c a c' _ _ [F1 F2 (ks & H1 & H2 & H3)]. unfold send. simpl.
  destruct (lk_send _ _ (sp_link (ct_socket c))) as [[st l]|]; [| done]. intros [= <- <-].
  exists n. split; [lia |]. constructor; [done | done |]. simpl. rewrite sent_attempts_snoc. simpl.
  rewrite request_attempt, Hj, H1. exists (ks ++ [j]). rewrite fmap_app, <-app_assoc. by split_and!.
Qed.

Lemma keeps_recv p : keeps recv p 0 p.
Proof.
  intros n c a c' _ _ [F1 F2 F3]. unfold recv. simpl.
  destruct (lk_recv _ (sp_link (ct_socket c))) as [[r l]|]; [| done]. intros [= <- <-].
  exists n. split; [lia |]. by constructor.
Qed.

(** An attempt takes its identity from its argument, whatever the client. *)
Lemma keeps_attempt {B} id rq (k : CreditRequest -> Op (Spy L) B) p y r :
  (forall request, rq_attempt request = id -> keeps (k request) p y r) ->
  keeps (op_bind (op_get (attempt_at id rq)) k) p y r.
Proof. intros Hk n c b c' Hn Hb Hf Hr. exact (Hk (attempt_at id rq c) eq_refl n c b c' Hn Hb Hf Hr). Qed.

(** ** The operations *)

(** What is written to the client is neither the generator nor the log of requests. *)
Ltac settle := intros []; unfold absorb; simpl; repeat case_match.

Ltac keep :=
  match goal with
  | |- keeps (op_ret _) _ _ _ => eapply keeps_more; [| apply keeps_ret]; lia
  | |- keeps (op_set _) _ _ _ => eapply keeps_more; [| apply keeps_set; by settle]; lia
  | |- keeps (op_bind (op_set _) _) _ _ _ =>
      eapply keeps_then; [lia | apply keeps_set; by settle | intros _]
  | |- keeps (op_bind (op_get _) _) _ _ _ => eapply keeps_then; [lia | apply keeps_get | intros ?]
  | |- keeps (op_bind (send _ _) _) _ _ _ =>
      eapply keeps_then; [lia | by apply keeps_send_other | intros ?]
  | |- keeps (op_bind recv _) _ _ _ => eapply keeps_then; [lia | apply keeps_recv | intros ?]
  | |- keeps (if ?b then _ else _) _ _ _ => destruct b
  | |- keeps (match ?x with _ => _ end) _ _ _ => destruct x
  | |- keeps (let _ := _ in _) _ _ _ => cbv zeta
  end.

Lemma keeps_handshake p : keeps handshake p 0 p.
Proof. unfold handshake. repeat keep. Qed.

Lemma keeps_exchange rq j p :
  rq_attempt rq = id_at seed j -> keeps (exchange partly_decoded rq) (j :: p) 0 p.
Proof.
  intros Hj. unfold exchange. cbv zeta. keep. keep; [apply keeps_drop; keep |].
  eapply keeps_then; [lia | by apply keeps_send_request | intros status].
  repeat keep.
Qed.
Lemma keeps_close p : keeps client_close p 0 p.
Proof.
  unfold client_close. keep. apply (keeps_then _ _ p p); [lia | repeat keep | intros _; keep].
Qed.

Lemma keeps_connect p : keeps client_connect p 0 p.
Proof.
  unfold client_connect. eapply keeps_then; [lia | apply keeps_close | intros _].
  eapply keeps_then; [lia | | intros opened].
  - intros n c a c' _ _ [F1 F2 F3]. unfold op_step. simpl.
    destruct (lk_connect _ _ (sp_link (ct_socket c))) as [st l]. intros [= <- <-].
    exists n. split; [lia |]. by constructor.
  - keep; [keep |]. eapply keeps_then; [lia | apply keeps_handshake | intros status].
    keep; [| keep]. eapply keeps_then; [lia | apply keeps_close | intros _; keep].
Qed.

Lemma keeps_describe account p : keeps (describe partly_decoded account) p 1 p.
Proof.
  unfold describe. keep. apply (keeps_next _ p 0); [lia | intros j]. keep. keep. by apply keeps_exchange.
Qed.

Lemma keeps_reconcile account p : keeps (reconcile partly_decoded account) p 2 p.
Proof.
  unfold reconcile. apply (keeps_bind _ _ p p p 1 1); [lia | lia | apply keeps_describe | intros description].
  keep; [keep |]. keep. keep. cbv zeta. apply (keeps_next _ p 0); [lia | intros j].
  eapply keeps_then; [lia | by apply keeps_exchange | intros outcome]. repeat keep.
Qed.

Lemma keeps_place account p : keeps (place partly_decoded account) p 1 p.
Proof.
  unfold place. keep. keep; [| keep].
  apply (keeps_bind _ _ p p p 1 0); [lia | lia | apply keeps_describe | intros description].
  repeat keep.
Qed.

(** A submission draws at most five identities: its own, one to find its place,
    two to reconcile, and one to try again. *)
Lemma keeps_submit rq p : keeps (submit partly_decoded rq) p 5 p.
Proof.
  unfold submit. keep. apply (keeps_next _ p 4); [lia | intros j]. keep. cbv zeta.
  set (m := op_bind (place _ _) _).
  assert (Hrest : keeps m (j :: p) 4 p).
  { subst m.
    apply (keeps_bind _ _ _ (j :: p) p 1 3); [lia | lia | apply keeps_place | intros [description|]].
    { apply keeps_drop. keep. }
    apply keeps_attempt. intros request Hrequest.
    eapply keeps_then; [lia | by apply keeps_exchange | intros outcome]. keep; [keep |].
    apply (keeps_bind _ _ p p p 2 1); [lia | lia | apply keeps_reconcile | intros revalidated].
    keep; [keep |]. apply (keeps_next _ p 0); [lia | intros i]. keep.
    apply keeps_attempt. intros retry Hretry. by apply keeps_exchange. }
  destruct (rq_op rq); try exact Hrest; (eapply keeps_more; [| by apply keeps_exchange]; lia).
Qed.

End Fresh.

(** ** Runs of a client *)

Inductive ClientCall :=
| CallConnect
| CallClose
| CallDescribe (account : Z)
| CallReconcile (account : Z)
| CallSubmit (rq : CreditRequest).

Section Calls.
Context {L : Type} `{Link L} (partly_decoded : list Z -> CreditOutcome -> CreditOutcome).
Local Open Scope op_scope.

Definition client_call (call : ClientCall) : Op L unit :=
  match call with
  | CallConnect => client_connect;~ op_ret tt
  | CallClose => client_close
  | CallDescribe account => describe partly_decoded account;~ op_ret tt
  | CallReconcile account => reconcile partly_decoded account;~ op_ret tt
  | CallSubmit rq => submit partly_decoded rq;~ op_ret tt
  end.

Fixpoint client_calls (calls : list ClientCall) : Op L unit :=
  match calls with
  | [] => op_ret tt
  | call :: calls => client_call call;~ client_calls calls
  end.

End Calls.

Lemma keeps_call {L} `{Link L} pd seed call p : keeps (L := L) seed (client_call pd call) p 5 p.
Proof.
  destruct call as [| | account | account | rq]; unfold client_call.
  - apply (keeps_more _ _ _ _ 0); [lia |].
    apply (keeps_then _ _ _ _ p); [lia | apply keeps_connect | intros; apply keeps_ret].
  - apply (keeps_more _ _ _ _ 0); [lia |]. apply keeps_close.
  - apply (keeps_more _ _ _ _ (1 + 0)); [lia |]. apply (keeps_bind _ _ _ _ p); [lia | lia | |].
    + apply keeps_describe.
    + intros. apply keeps_ret.
  - apply (keeps_more _ _ _ _ (2 + 0)); [lia |]. apply (keeps_bind _ _ _ _ p); [lia | lia | |].
    + apply keeps_reconcile.
    + intros. apply keeps_ret.
  - apply (keeps_more _ _ _ _ (5 + 0)); [lia |]. apply (keeps_bind _ _ _ _ p); [lia | lia | |].
    + apply keeps_submit.
    + intros. apply keeps_ret.
Qed.

Lemma keeps_calls {L} `{Link L} pd seed calls p :
  keeps (L := L) seed (client_calls pd calls) p (5 * Z.of_nat (length calls)) p.
Proof.
  induction calls as [|call calls IH]; [apply keeps_ret |].
  apply (keeps_more _ _ _ _ (5 + 5 * Z.of_nat (length calls))); [simpl; lia |].
  apply (keeps_bind _ _ _ _ p); [lia | lia | apply keeps_call | intros []; exact IH].
Qed.

Lemma fresh_start {L} `{Link L} options (l : L) entropy :
  fresh entropy [] 0 (client_make options (mkSpy l []) entropy).
Proof.
  constructor; [done | done |]. exists []. split_and!; [done | constructor | constructor].
Qed.

(** C29: Whatever the coordinator, the network and the order of the calls, no two
    requests that a client sends carry the same attempt identity, however often it
    reconnects, reconciles and tries again; the only value that could repeat is
    the one that stands in for an identity of zero. *)
Theorem attempts_are_fresh {L} `{Link L} pd options (l : L) entropy calls c' i j id :
  in_u64 entropy -> 5 * Z.of_nat (length calls) < 18446744073709551616 ->
  client_calls pd calls (client_make options (mkSpy l []) entropy) = Some (tt, c') ->
  sent_attempts (sp_sent (ct_socket c')) !! i = Some id ->
  sent_attempts (sp_sent (ct_socket c')) !! j = Some id ->
  i = j \/ id = w_digest substitute.
Proof.
  intros Hs Hn Hr. destruct (keeps_calls pd entropy calls [] 0 _ tt c' ltac:(lia) Hn
    (fresh_start options l entropy) Hr) as (n & Hle & [_ _ (ks & -> & Hnd & Hb)]).
  rewrite app_nil_r in Hnd, Hb. rewrite !list_lookup_fmap. intros Hi Hj.
  destruct (ks !! i) as [x|] eqn:Ei; [| done]. destruct (ks !! j) as [y|] eqn:Ej; [| done].
  apply (inj Some) in Hi, Hj. rewrite <-Hi in Hj.
  apply w_digest_inj in Hj; [| apply id_at_range ..].
  rewrite Forall_lookup in Hb. pose proof (Hb i x Ei). pose proof (Hb j y Ej).
  destruct (id_at_inj entropy y x) as [Hxy | Hxy]; try done; try word_lia.
  - left. subst y. by eapply NoDup_lookup.
  - right. rewrite <-Hi. f_equal. congruence.
Qed.

(** A coordinator that greets and then closes the connection. *)
Definition greeting : list Z :=
  match encode_hello_ack (mkHelloAck 1 (mkDigest 7 9) [] 65536 1) with
  | inl _ => []
  | inr payload => match encode_frame HelloAck payload with inl _ => [] | inr frame => frame end
  end.

Definition sample_link : SocketLink :=
  mkSocketLink (mkSocket false [] [] [])
    (replicate 2 (healthy, mkSocket true greeting [] (replicate 8 (Ready 4096)))).

Definition sample_client_options : ClientOptions := mkClientOptions "localhost" 7 1 2 3 [] 65536.

(** It connects, asks, is cut off, connects again and asks again. *)
Definition sample_calls : list ClientCall := [CallConnect; CallDescribe 5; CallConnect; CallDescribe 5].

Lemma attempts_are_fresh_witness :
  exists c', client_calls (fun _ o => o) sample_calls
      (client_make sample_client_options (mkSpy sample_link []) 11) = Some (tt, c') /\
    length (sent_attempts (sp_sent (ct_socket c'))) = 2%nat /\
    sent_attempts (sp_sent (ct_socket c')) !! 0%nat <> sent_attempts (sp_sent (ct_socket c')) !! 1%nat.
Proof.
  assert (Hrun : exists c', client_calls (fun _ o => o) sample_calls
      (client_make sample_client_options (mkSpy sample_link []) 11) = Some (tt, c') /\
    length (sent_attempts (sp_sent (ct_socket c'))) = 2%nat /\
    sent_attempts (sp_sent (ct_socket c')) !! 0%nat <> Some (w_digest substitute)).
  { destruct (client_calls (fun _ o => o) sample_calls
      (client_make sample_client_options (mkSpy sample_link []) 11)) as [[[] c']|] eqn:E.
    - exists c'. split; [reflexivity |]. vm_compute in E. injection E as <-. by vm_compute.
    - exfalso. vm_compute in E. discriminate E. }
  destruct Hrun as (c' & Hrun & Hlen & Hsub). exists c'. split; [exact Hrun |]. split; [exact Hlen |].
  intros Heq. destruct (sent_attempts (sp_sent (ct_socket c'))) as [|x [|y [|]]] eqn:Hs; try discriminate Hlen.
  injection Heq as Heq.
  assert (Hx : sent_attempts (sp_sent (ct_socket c')) !! 0%nat = Some x) by (rewrite Hs; reflexivity).
  assert (Hy : sent_attempts (sp_sent (ct_socket c')) !! 1%nat = Some x) by (rewrite Hs, Heq; reflexivity).
  destruct (attempts_are_fresh (fun _ o => o) sample_client_options sample_link 11 sample_calls c' 0 1 x)
    as [E|E]; try assumption.
  - split; vm_compute; done.
  - reflexivity.
  - discriminate E.
  - apply Hsub. cbn [lookup list_lookup]. by rewrite E.
Defined.
