(* ===== verification/Dialogue.v ===== *)
(** * A client in conversation with the service

    A client whose connection leads to a worker of a coordinator, over sockets
    that move bytes in pieces of any size.  An exchange of the client is then a
    call of the engine, and what a client can count on follows from what the
    engine does. *)

From S2P Require Import Prelude Checked Status Digest Ledger Authority Request Bytes Wire.
From S2P Require Import Record Journal Window Account Engine Steps Invariant Verdicts.
From S2P Require Import Safety Sample Guarantees Durability Restart Typing.
From S2P Require Import Platform Transport Coordinator Service Client.
Local Open Scope word_scope.
Local Open Scope Z_scope.

(** ** Refusals that are not demands *)

(** What makes a client reconcile. *)
Definition is_demand (r : Reason) : bool :=
  match r with RReconciliationRequired | RStaleAuthority | RUnknownIncarnation => true | _ => false end.

Lemma demands_is_demand o : demands_reconciliation o = is_demand (reason (o_status o)).
Proof. done. Qed.

Lemma commit_reason t p p' :
  status_ok (lp_status p) = true -> plan_commit t p = (p', false) -> is_demand (reason (lp_status p')) = false.
Proof.
  unfold plan_commit, check_invariants. intros ->. simpl. repeat (case_match; simpl); by intros [= <-].
Qed.

Lemma run_op_reason op p p' :
  status_ok (lp_status p) = true -> run_op op p = (p', false) -> is_demand (reason (lp_status p')) = false.
Proof.
  intros Hst. destruct op; simpl; unfold plan_issue, plan_consume, plan_give_back, plan_protect, plan_unprotect,
    plan_retire_stale, plan_quarantine_in_flight, plan_revalidate_to_returned,
    plan_revalidate_to_consumed, plan_set_capacity, plan_refuse; rewrite Hst; simpl.
  all: repeat case_match; simplify_eq/=; try (by intros [= <-]); try by apply commit_reason.
Qed.

(** A ledger operation of a known incarnation is decided, and never by a demand. *)
Lemma data_verdict_decides limits rq a r :
  account_ok limits a -> op_is_ledger (rq_op rq) = true ->
  find_incarnation (a_incarnation (rq_authority rq)) a = Some r ->
  match data_verdict rq a with
  | VApplied _ => True | VDecided c _ _ => is_demand c = false | VRefused _ _ _ => False
  end.
Proof.
  intros Ha Hop Hr. unfold data_verdict. rewrite Hop. cbn [negb].
  assert (HL : forall b, account_plan b = account_plan a ->
    match ledger_verdict rq b with
    | VApplied _ => True | VDecided c _ _ => is_demand c = false | VRefused _ _ _ => False end).
  { intros b Hb. unfold ledger_verdict. rewrite ledger_apply_op, Hb.
    pose proof (account_plan_ok a (li_ok _ _ _ (ao_ledger _ _ Ha))) as [Hst _].
    destruct (ledger_op _ rq) as [op|] eqn:E.
    - unfold plan_verdict. destruct (run_op op (account_plan a)) as [p ok] eqn:Ep. destruct ok; simpl; [done |].
      destruct (status_ok (lp_status p)); [exact I |]. by eapply run_op_reason.
    - by destruct (rq_op rq). }
  destruct (_ && _); [done |]. destruct (op_eqb (rq_op rq) Issue); [| by apply HL]. rewrite Hr.
  destruct (bind_issue rq r) as [[[c d] x]|x] eqn:Eb; [| by apply HL].
  unfold bind_issue in Eb. repeat case_match; by simplify_eq.
Qed.

(** ** Calls of a healthy engine *)

Lemma find_by_attempt_none id w :
  window_wf w -> window_find_by_attempt id w = None <-> aw_by_attempt w !! id = None.
Proof.
  intros Hw. unfold window_find_by_attempt. destruct (aw_by_attempt w !! id) as [k|] eqn:E; [| done].
  destruct (ww_attempt _ Hw _ _ E) as (x & Hx & _). unfold window_find. rewrite Hx. done.
Qed.

Lemma insert_by_attempt id x w :
  window_wf w -> window_find (we_key x) w = None -> id <> we_attempt x ->
  window_find_by_attempt id w = None -> window_find_by_attempt id (window_insert x w) = None.
Proof.
  intros Hw Hk Hne Hid. apply find_by_attempt_none in Hid; [| done].
  apply find_by_attempt_none; [by apply window_insert_wf |]. destruct (window_full w) eqn:Hf.
  - destruct (window_insert_full w x Hw Hk Hf) as (o & r & d & _ & _ & _ & ->). simpl.
    apply lookup_delete_None. right. by rewrite lookup_insert_ne.
  - rewrite window_insert_room by done. simpl. by rewrite lookup_insert_ne.
Qed.

(** An incarnation that says who it is. *)
Record presents (inc : Incarnation) : Prop := {
  pr_set : is_set (i_id inc) = true;
  pr_id : make_incarnation_id (i_publisher inc) (i_boot inc) = i_id inc;
  pr_wf : incarnation_wf inc;
}.

(** An incarnation the account would let prove itself. *)
Definition may_reconcile (limits : EngineLimits) (id : Z) (a : AccountState) : Prop :=
  is_fenced id a = false /\
  match find_incarnation id a with
  | Some r => ir_state r <> Retired
  | None => Z.of_nat (size (ac_incarnations a)) < max_incarnations_per_account limits
  end.

Section Calls.
Context {J : Type} `{Journal J}.
Implicit Types (e : Engine J) (rq : CreditRequest).

Record healthy_engine e : Prop := {
  he_typed : engine_typed e;
  he_recovered : e_recovered e = true;
  he_running : e_journal_failed e = false;
}.

(** A request in the shape the engine expects, under the current authority of an account. *)
Record addressed (limits : EngineLimits) (inc : Incarnation) (a : AccountState) rq : Prop := {
  dr_presenter : rq_presenter rq = inc;
  dr_authority : rq_authority rq =
    mkVector (ac_domain a) (ac_account a) (ac_epoch a) (ac_generation a) (i_id inc);
  dr_names : is_set (ac_domain a) = true /\ is_set (ac_account a) = true;
  dr_sequence : rq_sequence rq <> 0;
  dr_note : Z.of_nat (length (rq_note rq)) <= max_note_bytes limits;
  dr_count : op_requires_count (rq_op rq) = true -> rq_count rq <> 0;
}.

Lemma well_formed limits inc rq :
  presents inc -> rq_presenter rq = inc -> a_incarnation (rq_authority rq) = i_id inc ->
  is_set (a_domain (rq_authority rq)) = true -> is_set (a_account (rq_authority rq)) = true ->
  rq_sequence rq <> 0 -> Z.of_nat (length (rq_note rq)) <= max_note_bytes limits ->
  (op_requires_count (rq_op rq) = true -> rq_count rq <> 0) -> malformed limits rq = None.
Proof.
  intros [H1 H2 _] Hp Hi Hd Ha Hs Hn Hc. unfold malformed. rewrite Hp, Hi, H1, H2, Z.eqb_refl, Hd, Ha. simpl.
  destruct (Z.eqb_spec (rq_sequence rq) 0); [done |].
  destruct (Z.gtb_spec (Z.of_nat (length (rq_note rq))) (max_note_bytes limits)); [lia |].
  destruct (op_requires_count (rq_op rq)); [| done].
  destruct (Z.eqb_spec (rq_count rq) 0); [by destruct Hc | done].
Qed.

Lemma addressed_well_formed limits inc a rq :
  presents inc -> addressed limits inc a rq -> malformed limits rq = None.
Proof. intros Hp [E1 E2 [E3 E4] E5 E6 E7]. apply (well_formed _ inc); rewrite ?E2; done. Qed.

Lemma apply_describe e rq a :
  healthy_engine e -> rq_op rq = Describe -> malformed (e_limits e) rq = None ->
  e_accounts e !! a_account (rq_authority rq) = Some a -> a_domain (rq_authority rq) = ac_domain a ->
  apply rq e = (describe_outcome (a_incarnation (rq_authority rq)) a (initial_outcome rq), e).
Proof.
  intros [_ Hr Hf] Hop Hm Ha Hd. unfold apply. rewrite Hr, Hf. simpl. unfold apply_locked.
  by rewrite Hm, Hop, Ha, Hd, Z.eqb_refl.
Qed.

Lemma apply_decide e rq a :
  healthy_engine e -> rq_op rq <> Open -> rq_op rq <> Describe -> malformed (e_limits e) rq = None ->
  e_accounts e !! a_account (rq_authority rq) = Some a ->
  apply rq e = decide_locked (a_account (rq_authority rq)) a rq (initial_outcome rq) e.
Proof.
  intros [_ Hr Hf] Ho Hd Hm Ha. unfold apply. rewrite Hr, Hf. simpl. unfold apply_locked. rewrite Hm, Ha.
  by destruct (rq_op rq).
Qed.

(** A request at the next sequence with an identity not seen before is taken up. *)
Lemma apply_taken e rq a :
  healthy_engine e -> rq_op rq <> Open -> rq_op rq <> Describe -> malformed (e_limits e) rq = None ->
  e_accounts e !! a_account (rq_authority rq) = Some a ->
  unauthorized (e_limits e) (i_id (e_operator e)) rq a = None ->
  rq_sequence rq = watermark_in (ac_incarnations a) (a_incarnation (rq_authority rq)) + 1 ->
  in_u64 (rq_sequence rq) -> window_find_by_attempt (rq_attempt rq) (ac_window a) = None ->
  settle_case e rq a (a_account (rq_authority rq)) (set_outcome_era a (initial_outcome rq))
    (verdict (e_challenge e) (e_limits e) rq a) (apply rq e).1 (apply rq e).2.
Proof.
  intros He Ho Hd Hm Ha Hu Hs Hr Hw. destruct (eo_accounts _ (en_ok _ (he_typed _ He)) _ _ Ha) as [Hok _].
  assert (Hk : known_attempt rq a (initial_outcome rq) = None).
  { unfold known_attempt. destruct (window_find (_, _) _) as [x|] eqn:E; [| by rewrite Hw].
    apply (wi_below _ _ (ao_window _ _ Hok)) in E. lia. }
  assert (Hp : misplaced rq a = None).
  { unfold misplaced. change (caller_watermark _ a) with (watermark_in (ac_incarnations a) (a_incarnation (rq_authority rq))).
    pose proof (wi_range _ _ (ao_window _ _ Hok) (a_incarnation (rq_authority rq))) as Hwr.
    destruct (Z.leb_spec (rq_sequence rq) (watermark_in (ac_incarnations a) (a_incarnation (rq_authority rq)))); [lia |].
    destruct (add_overflow_cases (watermark_in (ac_incarnations a) (a_incarnation (rq_authority rq))) 1)
      as [[? ->]|[? ->]]; [done | word_lia | | word_lia].
    rewrite <-Hs. destruct (Z.gtb_spec (rq_sequence rq) (rq_sequence rq)); [lia | done]. }
  apply decide_settled; [done |]. rewrite (apply_decide e rq a) by done.
  unfold decide_locked. rewrite Hu, Hk, Hp. apply surjective_pairing.
Qed.

Lemma apply_not_admitted e rq a r d :
  healthy_engine e -> rq_op rq <> Open -> rq_op rq <> Describe -> malformed (e_limits e) rq = None ->
  e_accounts e !! a_account (rq_authority rq) = Some a ->
  unauthorized (e_limits e) (i_id (e_operator e)) rq a = Some (r, d) ->
  apply rq e = (refused r d (initial_outcome rq), e).
Proof.
  intros He Ho Hd Hm Ha Hu. rewrite (apply_decide e rq a) by done. unfold decide_locked. by rewrite Hu.
Qed.

(** Under the current authority, a reconciliation is admitted, and a ledger
    operation is admitted or answered by a demand to reconcile. *)
Lemma reconcile_authorized limits operator inc a rq :
  addressed limits inc a rq -> may_reconcile limits (i_id inc) a -> rq_op rq = Reconcile ->
  unauthorized limits operator rq a = None.
Proof.
  intros [_ E _ _ _ _] [Hf Hm] Hop. unfold unauthorized. rewrite E, Hop. simpl. rewrite !Z.eqb_refl. simpl.
  rewrite Hf. destruct (find_incarnation (i_id inc) a) as [r|].
  - destruct (state_eqb (ir_state r) Retired) eqn:Es; [by apply state_eqb_eq in Es | done].
  - destruct (Z.geb_spec (Z.of_nat (size (ac_incarnations a))) (max_incarnations_per_account limits)); [lia | done].
Qed.

Lemma ledger_authorized limits operator inc a rq :
  account_ok limits a -> addressed limits inc a rq -> may_reconcile limits (i_id inc) a ->
  op_is_ledger (rq_op rq) = true ->
  (exists r, find_incarnation (i_id inc) a = Some r /\ unauthorized limits operator rq a = None) \/
  (exists c d, unauthorized limits operator rq a = Some (c, d) /\ is_demand c = true).
Proof.
  intros Ha [_ E _ _ _ _] [Hf Hm] Hop. unfold unauthorized. rewrite E. simpl. rewrite !Z.eqb_refl. simpl.
  assert (Hnr : op_eqb (rq_op rq) Reconcile = false) by (by destruct (rq_op rq)).
  assert (Hcl : classify (rq_op rq) = OpData) by (by destruct (rq_op rq)). rewrite Hnr, Hcl.
  destruct (find_incarnation (i_id inc) a) as [r|] eqn:Hr; [| right; by eexists _, _].
  destruct (state_eqb (ir_state r) Fenced) eqn:Es.
  { apply state_eqb_eq in Es. assert (is_fenced (i_id inc) a = true); [| congruence].
    apply is_fenced_elem, (si_fenced _ _ _ _ _ (ao_standing _ _ Ha)). eauto. }
  destruct (state_eqb (ir_state r) Retired) eqn:Et; [by apply state_eqb_eq in Et |].
  destruct (is_live _ _ r); simpl; [left; by exists r | right; by eexists _, _].
Qed.

(** The account after an applied reconciliation. *)
Lemma reconciled_account limits inc a rq o :
  addressed limits inc a rq ->
  let b := committed_account rq o (reconcile_account rq a) in
  ac_domain b = ac_domain a /\ ac_account b = ac_account a /\ ac_epoch b = ac_epoch a /\
  ac_generation b = ac_generation a /\ ac_fences b = ac_fences a /\
  (exists r, find_incarnation (i_id inc) b = Some r /\ is_live (ac_epoch a) (ac_generation a) r = true) /\
  watermark_in (ac_incarnations b) (i_id inc) = rq_sequence rq /\
  ac_window b = window_insert (window_entry rq (applied_outcome (count_commit (i_id inc) (reconcile_account rq a)) o)) (ac_window a).
Proof.
  intros [_ E _ _ _ _] b. subst b. unfold committed_account, reconcile_account. rewrite E. simpl.
  unfold find_incarnation, watermark_in. simpl. set (id := i_id inc).
  destruct (ac_incarnations a !! id) as [r|] eqn:Hr; simpl; rewrite E; simpl; fold id;
    rewrite ?lookup_alter_eq, ?lookup_insert_eq, ?Hr; simpl.
  all: split_and!; try done; eexists; (split; [done |]); unfold is_live; simpl; by rewrite !Z.eqb_refl.
Qed.

(** A ledger operation that is admitted is decided, unless the journal fails. *)
Lemma ledger_taken e rq a r :
  healthy_engine e -> malformed (e_limits e) rq = None -> op_is_ledger (rq_op rq) = true ->
  e_accounts e !! a_account (rq_authority rq) = Some a ->
  unauthorized (e_limits e) (i_id (e_operator e)) rq a = None ->
  find_incarnation (a_incarnation (rq_authority rq)) a = Some r ->
  rq_sequence rq = watermark_in (ac_incarnations a) (a_incarnation (rq_authority rq)) + 1 ->
  in_u64 (rq_sequence rq) -> window_find_by_attempt (rq_attempt rq) (ac_window a) = None ->
  e_journal_failed (apply rq e).2 = false ->
  o_decided (apply rq e).1 = true /\ demands_reconciliation (apply rq e).1 = false.
Proof.
  intros He Hm Hop Ha Hu Hr Hs Hsr Hw Hf.
  assert (Hop1 : rq_op rq <> Open /\ rq_op rq <> Describe) by (by destruct (rq_op rq)).
  destruct (eo_accounts _ (en_ok _ (he_typed _ He)) _ _ Ha) as [Hok _].
  pose proof (apply_taken e rq a He (proj1 Hop1) (proj2 Hop1) Hm Ha Hu Hs Hsr Hw) as Hc.
  pose proof (data_verdict_decides (e_limits e) rq a r Hok Hop Hr) as Hd.
  assert (Hv : verdict (e_challenge e) (e_limits e) rq a = data_verdict rq a)
    by (unfold verdict; by destruct (rq_op rq)).
  rewrite Hv in Hc. rewrite demands_is_demand.
  destruct Hc as [c d b e' S|c d b o' e' -> S|c d b o' st e' -> _ S|b o' e' -> S|b o' st e' -> _ S]; try done.
  all: destruct S as [_ _ _ _ _ _ Sf]; congruence.
Qed.

(** A request that is taken up and applied, unless the journal fails. *)
Lemma applied_taken e rq a b :
  healthy_engine e -> request_wf 4096 rq -> malformed (e_limits e) rq = None ->
  rq_op rq <> Open -> rq_op rq <> Describe ->
  e_accounts e !! a_account (rq_authority rq) = Some a ->
  unauthorized (e_limits e) (i_id (e_operator e)) rq a = None ->
  verdict (e_challenge e) (e_limits e) rq a = VApplied b ->
  rq_sequence rq = watermark_in (ac_incarnations a) (a_incarnation (rq_authority rq)) + 1 ->
  in_u64 (rq_sequence rq) -> window_find_by_attempt (rq_attempt rq) (ac_window a) = None ->
  e_journal_failed (apply rq e).2 = false ->
  let o := set_outcome_era a (initial_outcome rq) in
  status_ok (o_status (apply rq e).1) = true /\ o_decided (apply rq e).1 = true /\
  healthy_engine (apply rq e).2 /\
  e_limits (apply rq e).2 = e_limits e /\ e_challenge (apply rq e).2 = e_challenge e /\
  e_accounts (apply rq e).2 !! a_account (rq_authority rq) = Some (committed_account rq o b) /\
  (apply rq e).1 = applied_outcome (count_commit (a_incarnation (rq_authority rq)) b) o.
Proof.
  intros He Hq Hm Ho Hd Ha Hu Hv Hs Hsr Hw Hf o.
  pose proof (apply_taken e rq a He Ho Hd Hm Ha Hu Hs Hsr Hw) as Hc.
  pose proof (apply_typed e rq _ _ (he_typed _ He) Hq (surjective_pairing _)) as Ht.
  rewrite Hv in Hc. pose proof (he_recovered _ He) as Hrec.
  inversion Hc as [| | |b' o' e' Ho' S Hb|b' o' st e' Ho' Hst S Hb]; subst.
  - destruct S as [Sl _ _ Sc Sr Sa Sf]. rewrite Sl, Sc, Sa, lookup_insert_eq, Ho'. split_and!; try done.
    constructor; [done | congruence | done].
  - destruct S as [_ _ _ _ _ _ Sf]. congruence.
Qed.

(** A reconciliation that is admitted with a valid proof is applied, unless the
    journal fails. *)
Lemma reconcile_taken e rq a :
  healthy_engine e -> request_wf 4096 rq -> malformed (e_limits e) rq = None -> rq_op rq = Reconcile ->
  e_accounts e !! a_account (rq_authority rq) = Some a ->
  unauthorized (e_limits e) (i_id (e_operator e)) rq a = None ->
  challenge_verify (e_challenge e) (rq_presenter rq) (rq_authority rq) (rq_proof rq) = true ->
  rq_sequence rq = watermark_in (ac_incarnations a) (a_incarnation (rq_authority rq)) + 1 ->
  in_u64 (rq_sequence rq) -> window_find_by_attempt (rq_attempt rq) (ac_window a) = None ->
  e_journal_failed (apply rq e).2 = false ->
  let o := set_outcome_era a (initial_outcome rq) in
  status_ok (o_status (apply rq e).1) = true /\ o_decided (apply rq e).1 = true /\
  healthy_engine (apply rq e).2 /\
  e_limits (apply rq e).2 = e_limits e /\ e_challenge (apply rq e).2 = e_challenge e /\
  e_accounts (apply rq e).2 !! a_account (rq_authority rq) = Some (committed_account rq o (reconcile_account rq a)).
Proof.
  intros He Hq Hm Hop Ha Hu Hv Hs Hsr Hw Hf o.
  destruct (applied_taken e rq a (reconcile_account rq a)) as (T1 & T2 & T3 & T4 & T5 & T6 & _); try done;
    try (by rewrite Hop).
  unfold verdict. rewrite Hop. simpl. by rewrite Hv.
Qed.
End Calls.

(** ** The connection *)

(** The far end is a worker of a server.  The client's end has no buffers of its
    own: what it sends is at once in the worker's socket, and what the worker has
    sent and the client not yet read is there too. *)
Record Loopback (J : Type) := mkLoop {
  lb_server : CoordinatorServer J;
  lb_worker : nat;
  lb_pieces : nat;
  lb_open : bool;
}.
Arguments mkLoop {J}.
Arguments lb_server {J}.
Arguments lb_worker {J}.
Arguments lb_pieces {J}.
Arguments lb_open {J}.

Section Loop.
Context {J : Type} `{Journal J}.

Definition on_socket (f : Socket -> Socket) (c : Connection) : Connection :=
  mkConnection (f (cn_socket c)) (cn_session c) (cn_phase c).

(** Sockets that are ready often enough to move [n] bytes. *)
Definition pieces (p n : nat) : list IoEvent := replicate n (Ready p).

(** A frame arrives and the worker runs one stretch: it can read what there is
    and answer (183 bytes are the frame of a response). *)
Definition arrive (frame : list Z) (p : nat) (s : Socket) : Socket :=
  set_rx (so_rx s ++ frame) (pieces p (length (so_rx s ++ frame) + 183)) s.

Definition set_server (s : CoordinatorServer J) (l : Loopback J) : Loopback J :=
  mkLoop s (lb_worker l) (lb_pieces l) (lb_open l).

Definition put_connection (c : Connection) (l : Loopback J) : CoordinatorServer J :=
  set_workers (<[lb_worker l := c]> (sv_workers (lb_server l))) (lb_server l).

#[global] Instance loopback_link : Link (Loopback J) := {
  lk_valid := lb_open;
  lk_connect _ _ l := (refused_status RTransportError 22, l);
  lk_send type payload l :=
    match encode_frame type payload, sv_workers (lb_server l) !! lb_worker l with
    | inl status, _ => Some (status, l)
    | inr _, None => Some (refused_status RTransportError 2, l)
    | inr frame, Some c =>
        let s := put_connection (on_socket (arrive frame (lb_pieces l)) c) l in
        Some (success, set_server (service_step (AServe (lb_worker l)) s).2 l)
    end;
  lk_recv max_payload l :=
    match sv_workers (lb_server l) !! lb_worker l with
    | None => Some (mkReceived (refused_status RTransportError 1) false None, l)
    | Some c =>
        let tx := so_tx (cn_socket c) in
        match recv_frame max_payload false (mkSocket true tx [] (pieces (lb_pieces l) (length tx + 1))) with
        | None => None
        | Some (r, s) =>
            Some (r, set_server (put_connection
                       (on_socket (fun x => mkSocket (so_valid x) (so_rx x) (so_rx s) (so_events x)) c) l) l)
        end
    end;
  lk_close l := mkLoop (lb_server l) (lb_worker l) (lb_pieces l) false;
}.

End Loop.

(** ** An exchange is a call *)

Lemma readiness_pieces p n : readiness (pieces p n) = n.
Proof. induction n as [|n IH]; [done |]. unfold pieces in *. simpl. by rewrite readiness_ready, IH. Qed.

Lemma benign_pieces p n : benign (pieces p n).
Proof. apply Forall_replicate. exact I. Qed.

Section Dialogue.
Context {J : Type} `{Journal J} (partly_decoded : list Z -> CreditOutcome -> CreditOutcome).
Implicit Types (c : CoordinatorClient (Loopback J)) (rq : CreditRequest).

Definition engine_of c : Engine J := sv_engine (lb_server (ct_socket c)).
Definition options_of c : CoordinatorOptions := sv_options (lb_server (ct_socket c)).

(** A session between two exchanges: connected, its worker in the request loop
    with nothing under way, the service running without a limit on requests. *)
Record session c : Prop := {
  ss_connected : ct_connected c = true;
  ss_worker : exists n w, sv_workers (lb_server (ct_socket c)) !! lb_worker (ct_socket c) = Some w /\
                waiting [] [] n 0 w;
  ss_stopping : sv_stopping (lb_server (ct_socket c)) = false;
  ss_limit : co_max_requests_per_connection (options_of c) = 0;
  ss_payload : 167 <= cl_max_payload (ct_options c);
}.

(** What an exchange does to a client when the answer [o] is delivered. *)
Record exchanged rq c o c' : Prop := {
  xc_session : session c';
  xc_outcome : o = (apply rq (engine_of c)).1;
  xc_engine : engine_of c' = (apply rq (engine_of c)).2;
  xc_options : options_of c' = options_of c /\ ct_options c' = ct_options c;
  xc_client : ct_incarnation c' = ct_incarnation c /\ ct_challenge c' = ct_challenge c /\
              ct_attempts c' = ct_attempts c /\ ct_placed c' = ct_placed c;
  xc_sequence : ct_next_sequence c' = (if o_decided o then rq_sequence rq +% 1 else ct_next_sequence c);
  xc_authority : ct_authority c' =
    confirmed_authority (i_id (ct_incarnation c)) (o_authority o) (ct_authority c);
}.

Lemma op_bind_step {A B} (m : Op (Loopback J) A) (k : A -> Op (Loopback J) B) c a c1 :
  m c = Some (a, c1) -> op_bind m k c = k a c1.
Proof. unfold op_bind. by intros ->. Qed.

Lemma send_step t payload c st l :
  lk_send t payload (ct_socket c) = Some (st, l) -> send t payload c = Some (st, set_socket l c).
Proof. unfold send. by intros ->. Qed.

Lemma recv_step c r l :
  lk_recv (cl_max_payload (ct_options c)) (ct_socket c) = Some (r, l) -> recv c = Some (r, set_socket l c).
Proof. unfold recv. by intros ->. Qed.

(** The worker decides a request that arrives, and its answer waits to be read. *)
Lemma loopback_decides rq (l : Loopback J) n w :
  sv_stopping (lb_server l) = false -> co_max_requests_per_connection (sv_options (lb_server l)) = 0 ->
  servable (sv_options (lb_server l)) rq -> sv_workers (lb_server l) !! lb_worker l = Some w ->
  waiting [] [] n 0 w ->
  let e := sv_engine (lb_server l) in
  let s := (service_step (AServe (lb_worker l))
              (put_connection (on_socket (arrive (frame_bytes (request_message rq)) (lb_pieces l)) w) l)).2 in
  sv_engine s = (apply rq e).2 /\ sv_options s = sv_options (lb_server l) /\ sv_stopping s = false /\
  exists w', sv_workers s !! lb_worker l = Some w' /\
    waiting [] (frame_bytes (response_message (rq, (apply rq e).1))) (n +% 1) 0 w'.
Proof.
  intros Hst Hmax Hq Hw [W1 W2 W3 W4 _ _] e s. subst s.
  set (w1 := on_socket _ w). set (s1 := put_connection w1 l).
  assert (Hi : (lb_worker l < length (sv_workers (lb_server l)))%nat) by (by eapply lookup_lt_Some).
  destruct (serve_waiting rq [] [] n 0 w1 s1) as (w' & Hs & Hw'); try done.
  - constructor; simpl; try done.
    + by rewrite W3, app_nil_r.
    + apply benign_pieces.
    + rewrite W3, readiness_pieces. simpl. lia.
  - assert (Hstep : (service_step (AServe (lb_worker l)) s1).2 =
      set_workers (<[lb_worker l := w']> (sv_workers (serve_apply rq s1).2)) (serve_apply rq s1).2).
    { cbn [service_step]. unfold serve_action, flag_seen.
      replace (sv_workers s1 !! lb_worker l) with (Some w1) by (symmetry; by apply list_lookup_insert_eq).
      change (sv_stopping s1) with (sv_stopping (lb_server l)). by rewrite Hst, Hs. }
    rewrite Hstep. unfold serve_apply. change (sv_engine s1) with e in *.
    destruct (apply rq e) as [o e']. simpl in *.
    split_and!; try done. exists w'. split; [| done].
    rewrite list_lookup_insert_eq; [done |]. by rewrite length_insert.
Qed.

(** The client reads what waits. *)
Lemma loopback_reads max m (l : Loopback J) n w :
  sendable max m -> sv_workers (lb_server l) !! lb_worker l = Some w -> waiting [] (frame_bytes m) n 0 w ->
  exists l' w', lk_recv max l = Some (mkReceived success false (Some m), l') /\
    lb_worker l' = lb_worker l /\ sv_engine (lb_server l') = sv_engine (lb_server l) /\
    sv_options (lb_server l') = sv_options (lb_server l) /\
    sv_stopping (lb_server l') = sv_stopping (lb_server l) /\
    sv_workers (lb_server l') !! lb_worker l = Some w' /\ waiting [] [] n 0 w'.
Proof.
  intros Hm Hw [W1 W2 W3 W4 W5 W6]. simpl. rewrite Hw, W4.
  destruct (recv_frame_delivers max false m []
    (mkSocket true (frame_bytes m) [] (pieces (lb_pieces l) (length (frame_bytes m) + 1))) Hm)
    as (ev & -> & _ & _); [done | by rewrite app_nil_r | apply benign_pieces | |].
  - simpl. rewrite readiness_pieces. lia.
  - eexists _, _. split; [reflexivity |]. simpl. split_and!; try done.
    + apply list_lookup_insert_eq. by eapply lookup_lt_Some.
    + by constructor.
Qed.

Lemma absorb_keeps rq o c :
  ct_socket (absorb rq o c) = ct_socket c /\ ct_connected (absorb rq o c) = ct_connected c /\
  ct_options (absorb rq o c) = ct_options c /\ ct_incarnation (absorb rq o c) = ct_incarnation c /\
  ct_challenge (absorb rq o c) = ct_challenge c /\ ct_attempts (absorb rq o c) = ct_attempts c /\
  ct_placed (absorb rq o c) = ct_placed c /\
  ct_next_sequence (absorb rq o c) = (if o_decided o then rq_sequence rq +% 1 else ct_next_sequence c) /\
  ct_authority (absorb rq o c) =
    confirmed_authority (i_id (ct_incarnation c)) (o_authority o) (ct_authority c).
Proof. unfold absorb. by destruct (o_decided o). Qed.

Lemma exchange_runs rq c :
  session c -> servable (options_of c) rq ->
  exists o c', exchange partly_decoded rq c = Some (o, c') /\ engine_of c' = (apply rq (engine_of c)).2 /\
    (outcome_wf (apply rq (engine_of c)).1 -> exchanged rq c o c').
Proof.
  intros [Hc (n & w & Hw & Hwait) Hst Hmax Hpay] Hq.
  pose proof (sendable_encodes _ _ (servable_sendable _ _ Hq)) as Henc. simpl in Henc.
  destruct (loopback_decides rq (ct_socket c) n w) as (E1 & E2 & E3 & w1 & Hw1 & Hwait1); try done.
  fold (engine_of c) in E1, Hwait1. set (o := (apply rq (engine_of c)).1) in *.
  set (s1 := (service_step _ _).2) in *. set (l1 := set_server s1 (ct_socket c)).
  assert (Hm : sendable (cl_max_payload (ct_options c)) (response_message (rq, o))).
  { destruct (response_sendable (rq, o)) as [Hb Hs]. constructor; [done |]. simpl in *.
    rewrite length_response in *. lia. }
  destruct (loopback_reads _ _ l1 _ w1 Hm Hw1 Hwait1) as (l2 & w2 & Hrecv & F1 & F2 & F3 & F4 & Hw2 & Hwait2).
  assert (Hsend : lk_send MRequest (encode_request_message rq) (ct_socket c) = Some (success, l1)).
  { simpl. by rewrite Henc, Hw. }
  unfold exchange. cbv zeta. erewrite (op_bind_step (op_get _)) by reflexivity. rewrite Hc. cbn [negb].
  erewrite op_bind_step by (apply send_step; exact Hsend). change (status_ok success) with true. cbn [negb].
  erewrite (op_bind_step (op_set _)) by reflexivity. erewrite op_bind_step by (apply recv_step; exact Hrecv).
  cbn [rc_status rc_closed rc_message]. change (status_ok success) with true. cbn [negb orb response_message snd].
  assert (He : sv_engine (lb_server l2) = (apply rq (engine_of c)).2) by (by rewrite F2).
  destruct (decode_response_message (encode_response_message o)) as [st|o'] eqn:Ed.
  { eexists _, _. split; [reflexivity |]. split; [done |]. intros Ho.
    rewrite response_message_decodes in Ed by done. done. }
  eexists o', _. split; [reflexivity |]. split; [unfold engine_of, absorb; simpl; by destruct (o_decided o') |].
  intros Ho. rewrite response_message_decodes in Ed by done. injection Ed as <-.
  assert (G2 : sv_options (lb_server l2) = options_of c) by (rewrite F3; exact E2).
  assert (G4 : sv_stopping (lb_server l2) = false) by (rewrite F4; exact E3).
  set (c1 := set_socket l2 _). destruct (absorb_keeps rq o c1) as (K1 & K2 & K3 & K4 & K5 & K6 & K7 & K8 & K9).
  change (ct_socket c1) with l2 in K1.
  constructor.
  - constructor.
    + by rewrite K2.
    + rewrite K1, F1. exists (n +% 1), w2. by split.
    + by rewrite K1, G4.
    + unfold options_of. by rewrite K1, G2.
    + by rewrite K3.
  - done.
  - unfold engine_of. by rewrite K1, F2.
  - split; [unfold options_of; by rewrite K1, G2 | by rewrite K3].
  - by rewrite K4, K5, K6, K7.
  - by rewrite K8.
  - by rewrite K9.
Qed.

(** ** Every operation returns, and a stopped engine stays stopped *)

Definition served_of c : Z := sv_served (lb_server (ct_socket c)).

Definition responsive {A} (m : Op (Loopback J) A) : Prop :=
  forall c, in_u64 (served_of c) -> exists a c', m c = Some (a, c') /\ in_u64 (served_of c') /\
    (e_journal_failed (engine_of c) = true -> e_journal_failed (engine_of c') = true).

Lemma responsive_ret {A} (a : A) : responsive (op_ret a).
Proof. intros c Hc. by eexists _, c. Qed.

Lemma responsive_get {A} (f : CoordinatorClient (Loopback J) -> A) : responsive (op_get f).
Proof. intros c Hc. by eexists _, c. Qed.

Lemma responsive_set f : (forall c, ct_socket (f c) = ct_socket c) -> responsive (op_set f).
Proof.
  intros Hf c Hc. eexists _, (f c). split; [reflexivity |]. unfold served_of, engine_of in *. by rewrite Hf.
Qed.

Lemma responsive_next : responsive (op_step next_attempt).
Proof. intros c Hc. eexists _, _. split; [reflexivity |]. by split. Qed.

Lemma responsive_bind {A B} (m : Op (Loopback J) A) (k : A -> Op (Loopback J) B) :
  responsive m -> (forall a, responsive (k a)) -> responsive (op_bind m k).
Proof.
  intros Hm Hk c Hc. destruct (Hm c Hc) as (a & c1 & E1 & Hc1 & H1).
  destruct (Hk a c1 Hc1) as (b & c2 & E2 & Hc2 & H2). exists b, c2. rewrite (op_bind_step _ _ _ _ _ E1).
  split_and!; [done | done | by auto].
Qed.

Lemma responsive_send t payload : responsive (send t payload).
Proof.
  intros c Hc. unfold send. simpl. destruct (encode_frame t payload) as [st|frame].
  { eexists _, _. split; [reflexivity |]. by split. }
  destruct (sv_workers _ !! _) as [w|].
  2: { eexists _, _. split; [reflexivity |]. by split. }
  eexists _, _. split; [reflexivity |]. unfold served_of, engine_of. cbn [ct_socket set_socket lb_server set_server].
  set (s := put_connection _ _). set (a := AServe (lb_worker (ct_socket c))).
  destruct (service_step_decides a s) as [D1 D2 _]; [exact Hc |].
  set (r := service_step a s) in *. change (in_u64 (sv_served r.2) /\
    (e_journal_failed (sv_engine s) = true -> e_journal_failed (sv_engine r.2) = true)).
  split; [rewrite D2; apply wrap64_range |].
  intros Hf. pose proof (run_latched (CApply <$> r.1.*1) (sv_engine s) Hf) as Hl.
  by rewrite D1 in Hl.
Qed.

(** Enough readiness for a read to end one way or another. *)
Lemma read_exact_ends p n stop count bytes rx :
  (length rx < n)%nat ->
  exists st closed bytes' rx' m, read_exact (pieces p n) stop count bytes rx =
    Some (st, closed, bytes', rx', pieces p m) /\
    (status_ok st = true -> closed = false -> (length rx' < m)%nat).
Proof.
  revert bytes rx. induction n as [|n IH]; intros bytes rx Hn; [lia |]. unfold pieces in *. simpl.
  destruct (Nat.leb_spec count (length bytes)).
  { eexists _, _, _, _, (S n). split; [reflexivity |]. intros _ _. done. }
  destruct (chunk p (count - length bytes) rx) as [|x received] eqn:E.
  - eexists _, _, _, _, n. split; [reflexivity |]. destruct bytes; simpl; done.
  - apply IH. pose proof (chunk_length p (count - length bytes) rx) as Hl. rewrite E in Hl.
    rewrite length_drop. simpl in *. lia.
Qed.

Lemma responsive_recv : responsive recv.
Proof.
  intros c Hc. unfold recv. simpl. destruct (sv_workers _ !! _) as [w|].
  2: { eexists _, _. split; [reflexivity |]. by split. }
  set (tx := so_tx (cn_socket w)). set (p := lb_pieces _). set (mx := cl_max_payload _).
  assert (Hr : is_Some (recv_frame mx false (mkSocket true tx [] (pieces p (length tx + 1))))).
  { unfold recv_frame. simpl so_valid. cbn [negb]. simpl so_events. simpl so_rx.
    destruct (read_exact_ends p (length tx + 1) false (Z.to_nat kFrameHeaderBytes) [] tx)
      as (st & cl & bs & rx' & m & -> & Hm); [lia |].
    destruct (status_ok st); simpl; [| by eexists]. destruct cl; [by eexists |].
    destruct (check_frame_header mx bs) as [|len]; [by eexists |].
    destruct (read_exact_ends p m false (Z.to_nat (len + kFrameTrailerBytes)) [] rx')
      as (st2 & cl2 & bs2 & rx2 & m2 & -> & _); [by apply Hm |].
    destruct (status_ok st2); simpl; [| by eexists]. destruct cl2; [by eexists |].
    destruct (decode_frame _ _); by eexists. }
  destruct Hr as [[r sk] ->]. eexists _, _. split; [reflexivity |]. by split.
Qed.

End Dialogue.

(** Decomposes an operation into the steps that are known to return. *)
Ltac respond :=
  repeat match goal with
  | |- responsive (op_bind _ _) => apply responsive_bind; [| intros ?]
  | |- responsive (op_ret _) => apply responsive_ret
  | |- responsive (op_get _) => apply responsive_get
  | |- responsive (op_set _) => apply responsive_set; intros []; unfold absorb; simpl; by repeat case_match
  | |- responsive (op_step next_attempt) => apply responsive_next
  | |- responsive (send _ _) => apply responsive_send
  | |- responsive recv => apply responsive_recv
  | |- responsive (if ?b then _ else _) => destruct b
  | |- responsive (match ?x with _ => _ end) => destruct x
  | |- responsive (let _ := _ in _) => cbv zeta
  end.

Section Answers.
Context {J : Type} `{Journal J} (partly_decoded : list Z -> CreditOutcome -> CreditOutcome).
Implicit Types (rq : CreditRequest).

Lemma responsive_exchange rq : responsive (exchange partly_decoded rq).
Proof. unfold exchange. respond. Qed.

Lemma responsive_describe account : responsive (describe partly_decoded account).
Proof. unfold describe. respond. apply responsive_exchange. Qed.

Lemma responsive_reconcile account : responsive (reconcile partly_decoded account).
Proof. unfold reconcile. respond; first [apply responsive_describe | apply responsive_exchange]. Qed.

Lemma responsive_place account : responsive (place partly_decoded account).
Proof. unfold place. respond; apply responsive_describe. Qed.

Lemma responsive_submit rq : responsive (submit partly_decoded rq).
Proof.
  unfold submit. respond; first [apply responsive_exchange | apply responsive_place | apply responsive_reconcile].
Qed.
End Answers.
