(* ===== verification/Submission.v ===== *)
(** * What becomes of a submission

    [describe], [place], [reconcile] and [submit] of a client in a running
    session, from what the engine answers: a fresh client's submission is decided,
    and a client that moves to an account it has used less waits in vain. *)

From S2P Require Import Prelude Checked Status Digest Ledger Authority Request Bytes Wire.
From S2P Require Import Record Journal Window Account Engine Steps Invariant Verdicts.
From S2P Require Import Safety Sample Guarantees Durability Restart Typing.
From S2P Require Import Platform Transport Coordinator Service Client ClientProps Dialogue.
Local Open Scope word_scope.
Local Open Scope Z_scope.

Lemma request_wf_4096 m rq : request_wf m rq -> request_wf 4096 rq.
Proof. intros []. constructor; try done. lia. Qed.

Lemma request_zero_wf : request_wf 0 request_zero.
Proof. constructor; try (constructor; simpl; word_lia); try (split; simpl; word_lia); simpl; word_lia. Qed.

(** The request a caller brings, which the client completes. *)
Record askable (limits : EngineLimits) (options : CoordinatorOptions) rq : Prop := {
  ak_wf : request_wf (co_max_note options) rq;
  ak_bytes : Forall in_u8 (rq_note rq);
  ak_note : Z.of_nat (length (rq_note rq)) <= max_note_bytes limits;
  ak_frame : Z.of_nat (252 + length (rq_note rq)) <= co_max_frame_payload options;
  ak_count : op_requires_count (rq_op rq) = true -> rq_count rq <> 0;
}.

Lemma fill_wf m op attempt sequence authority presenter proof rq :
  request_wf m rq -> digest_range attempt -> in_u64 sequence -> vector_wf authority ->
  incarnation_wf presenter -> digest_range proof ->
  request_wf m (fill op attempt sequence authority presenter proof rq).
Proof. intros []. by constructor. Qed.

Lemma fill_servable limits options op attempt sequence authority presenter proof rq :
  askable limits options rq -> digest_range attempt -> in_u64 sequence -> vector_wf authority ->
  incarnation_wf presenter -> digest_range proof ->
  servable options (fill op attempt sequence authority presenter proof rq).
Proof.
  intros [Hw Hb Hn Hf _] Ha Hs Hv Hp Hd. constructor; [by apply fill_wf | done |]. destruct Hw.
  rewrite length_request by (simpl; lia). simpl rq_note. lia.
Qed.

Lemma zero_askable limits options :
  0 <= max_note_bytes limits -> 0 <= co_max_note options -> 252 <= co_max_frame_payload options ->
  askable limits options request_zero.
Proof.
  intros. pose proof request_zero_wf as []. constructor; simpl; try done.
  constructor; try done. simpl. lia.
Qed.

(** A step of a client that does not talk. *)
Ltac client_step := erewrite op_bind_step by reflexivity.

Section Submission.
Context {J : Type} `{Journal J} (partly_decoded : list Z -> CreditOutcome -> CreditOutcome).
Context (inc : Incarnation) (seed : Z) (limits : EngineLimits) (options : CoordinatorOptions).
Implicit Types (c : CoordinatorClient (Loopback J)) (a : AccountState) (rq : CreditRequest).

(** The current vector and the watermark of this incarnation on an account. *)
Definition vector_on a : AuthorityVector :=
  mkVector (ac_domain a) (ac_account a) (ac_epoch a) (ac_generation a) (i_id inc).
Definition watermark_on a : Z := watermark_in (ac_incarnations a) (i_id inc).

Lemma engine_vector_wf (e : Engine J) a :
  healthy_engine e -> e_accounts e !! ac_account a = Some a -> presents inc -> vector_wf (vector_on a).
Proof.
  intros [He _ _] Ha [_ _ []]. destruct (eo_accounts _ (en_ok _ He) _ _ Ha) as [Hok _].
  destruct (ao_era _ _ Hok), (en_accounts _ He _ _ Ha) as [[] [N1 N2] _ _ _ _ _ _].
  constructor; simpl; try done; [by rewrite N1 | by rewrite N2].
Qed.

(** A client of incarnation [inc] that has drawn [n] identities, in a running
    session with a healthy engine on which [a] is an account of its domain. *)
Record talking (n : Z) a c : Prop := {
  tk_session : session c;
  tk_served : in_u64 (served_of c);
  tk_healthy : healthy_engine (engine_of c);
  tk_incarnation : ct_incarnation c = inc /\ presents inc;
  tk_challenge : ct_challenge c = e_challenge (engine_of c);
  tk_attempts : ct_attempts c = mkGenerator seed n /\ 0 <= n;
  tk_account : e_accounts (engine_of c) !! ac_account a = Some a;
  tk_domain : cl_domain (ct_options c) = ac_domain a;
  tk_names : is_set (ac_domain a) = true /\ is_set (ac_account a) = true;
  tk_limits : e_limits (engine_of c) = limits /\ options_of c = options;
  tk_room : 0 <= max_note_bytes limits /\ 0 <= co_max_note options /\ 252 <= co_max_frame_payload options;
  tk_sequence : 1 <= ct_next_sequence c < 18446744073709551616;
}.

Definition set_attempts (g : AttemptIdGenerator) c : CoordinatorClient (Loopback J) :=
  mkClient (ct_options c) (ct_socket c) (ct_incarnation c) (ct_challenge c) (ct_session c)
    (ct_next_sequence c) (ct_authority c) g (ct_stats c) (ct_connected c) (ct_placed c).

Definition drew (n : Z) c := set_attempts (mkGenerator seed n) c.

Lemma next_draws n a c :
  talking n a c -> n + 1 < 18446744073709551616 ->
  next_attempt c = (id_at seed (n + 1), drew (n + 1) c) /\ talking (n + 1) a (drew (n + 1) c).
Proof.
  intros [] Hn. destruct tk_attempts0 as [Ha H0]. split.
  - unfold next_attempt, generator_next. rewrite Ha. cbn [stream_seed counter].
    rewrite wrap64_small by word_lia. unfold drew, id_at. cbv zeta. f_equal.
  - destruct tk_session0. constructor; try assumption; [by constructor |]. split; [reflexivity | lia].
Qed.

Lemma vector_on_wf n a c : talking n a c -> vector_wf (vector_on a).
Proof. intros []. apply (engine_vector_wf (engine_of c)); [done | done | apply tk_incarnation0]. Qed.

Lemma named_wf n a c : talking n a c -> vector_wf (mkVector (ac_domain a) (ac_account a) 0 0 (i_id inc)).
Proof. intros Ht. destruct (vector_on_wf _ _ _ Ht). constructor; simpl in *; done || word_lia. Qed.

Lemma watermark_word n a c : talking n a c -> in_u64 (watermark_on a).
Proof.
  intros []. destruct (eo_accounts _ (en_ok _ (he_typed _ tk_healthy0)) _ _ tk_account0) as [Hok _].
  apply (wi_range _ _ (ao_window _ _ Hok)).
Qed.

Lemma talking_account n a c : talking n a c -> account_ok limits a.
Proof.
  intros []. destruct tk_limits0 as [<- _].
  by destruct (eo_accounts _ (en_ok _ (he_typed _ tk_healthy0)) _ _ tk_account0).
Qed.

(** An exchange delivers the engine's answer, unless the journal fails in it. *)
Lemma talk_exchange n a c rq :
  talking n a c -> servable options rq ->
  exists o c', exchange partly_decoded rq c = Some (o, c') /\ in_u64 (served_of c') /\
    engine_of c' = (apply rq (engine_of c)).2 /\
    (e_journal_failed (apply rq (engine_of c)).2 = false -> exchanged rq c o c').
Proof.
  intros Ht Hq. destruct Ht. destruct tk_limits0 as [_ Ho]. rewrite <-Ho in Hq.
  destruct (exchange_runs partly_decoded rq c tk_session0 Hq) as (o & c' & Hx & He & Hd).
  exists o, c'. split; [done |]. destruct (responsive_exchange partly_decoded rq c tk_served0) as (o2 & c2 & Hx2 & Hs & _).
  rewrite Hx in Hx2. injection Hx2 as <- <-. split_and!; try done. intros Hf. apply Hd.
  eapply (apply_answer (engine_of c) rq); [apply tk_healthy0 | by eapply request_wf_4096, sb_wf | apply surjective_pairing | by left].
Qed.

(** What remains true when an answer left the accounts in [b]. *)
Lemma exchanged_talking n a b c rq o c' :
  talking n a c -> exchanged rq c o c' -> in_u64 (served_of c') ->
  healthy_engine (engine_of c') -> e_challenge (engine_of c') = e_challenge (engine_of c) ->
  e_limits (engine_of c') = e_limits (engine_of c) ->
  e_accounts (engine_of c') !! ac_account b = Some b ->
  ac_domain b = ac_domain a -> ac_account b = ac_account a -> 1 <= ct_next_sequence c' < 18446744073709551616 ->
  talking n b c'.
Proof.
  intros [] [Hs Ho He [Hp1 Hp2] [Hc1 [Hc2 [Hc3 _]]] _ _] Hsv Hh Hch Hl Ha Hd Hn Hseq.
  constructor; try done; try congruence.
Qed.

Lemma talk_describe n a c :
  talking n a c -> n + 1 < 18446744073709551616 ->
  exists o c', describe partly_decoded (ac_account a) c = Some (o, c') /\ talking (n + 1) a c' /\
    engine_of c' = engine_of c /\ ct_next_sequence c' = ct_next_sequence c /\ ct_placed c' = ct_placed c /\
    status_ok (o_status o) = true /\ o_sequence o = watermark_on a /\ o_authority o = vector_on a.
Proof.
  intros Ht Hn. destruct (next_draws _ _ _ Ht Hn) as [Hd Ht1]. set (c1 := drew (n + 1) c) in *.
  set (rq := fill Describe (id_at seed (n + 1)) (ct_next_sequence c)
    (mkVector (ac_domain a) (ac_account a) 0 0 (i_id inc)) inc digest_zero request_zero).
  assert (E : describe partly_decoded (ac_account a) c = exchange partly_decoded rq c1).
  { unfold describe. client_step. rewrite (op_bind_step _ _ _ _ _ (f_equal Some Hd)). do 2 client_step.
    destruct Ht1. destruct tk_incarnation0 as [-> _]. by rewrite tk_domain0. }
  pose proof (named_wf _ _ _ Ht) as Hv. destruct Ht1. destruct tk_incarnation0 as [Hi Hp]. destruct tk_limits0 as [Hl Ho]. destruct tk_room0 as (R1 & R2 & R3).
  assert (Ha : apply rq (engine_of c1) = (describe_outcome (i_id inc) a (initial_outcome rq), engine_of c1)).
  { apply apply_describe; try done. apply (well_formed _ inc); try done; [apply tk_names0 | apply tk_names0 | |].
    - simpl. change (ct_next_sequence c) with (ct_next_sequence c1). lia.
    - rewrite Hl. simpl. lia. }
  destruct (talk_exchange (n + 1) a c1 rq) as (o & c' & Hx & Hs & He & Hd'); [by constructor | |].
  { apply (fill_servable limits); [by apply zero_askable | apply id_at_range | | done | apply Hp | split; simpl; word_lia].
    change (in_u64 (ct_next_sequence c1)). word_lia. }
  rewrite Ha in He, Hd'. simpl in He, Hd'. specialize (Hd' (he_running _ tk_healthy0)). pose proof Hd' as [_ X2 _ _ [_ [_ [_ X5]]] X6 _].
  assert (Hq : ct_next_sequence c' = ct_next_sequence c1) by (rewrite X6, X2, Ha; done).
  exists o, c'. rewrite E. split; [done |]. split.
  { eapply (exchanged_talking (n + 1) a a c1); try done; rewrite ?He, ?Hq; done. }
  rewrite X2, X5, Ha. by split_and!.
Qed.

(** ** Placing the first attempt *)

Definition unplaced a c : bool :=
  negb (ct_placed c) || negb (is_set (a_account (ct_authority c)))
  || negb (a_account (ct_authority c) =? ac_account a).

Record placed (n : Z) a c : Prop := {
  pl_talking : talking n a c;
  pl_authority : ct_authority c = vector_on a;
  pl_placed : ct_placed c = true;
}.

Lemma talk_place n a c :
  talking n a c -> n + 1 < 18446744073709551616 -> watermark_on a + 1 < 18446744073709551616 ->
  unplaced a c = true ->
  exists c', place partly_decoded (ac_account a) c = Some (None, c') /\ placed (n + 1) a c' /\
    engine_of c' = engine_of c /\ ct_next_sequence c' = Z.max (ct_next_sequence c) (watermark_on a + 1).
Proof.
  intros Ht Hn Hw Hu. pose proof (watermark_word _ _ _ Ht) as Hww.
  destruct (talk_describe _ _ _ Ht Hn) as (o & c1 & Hd & Ht1 & He & Hs & _ & Hok & Ho & Ha).
  eexists. split; [| split].
  - unfold place. client_step. unfold unplaced in Hu. unfold id. rewrite Hu.
    erewrite op_bind_step by exact Hd. rewrite Hok. cbn [negb]. do 3 client_step. reflexivity.
  - rewrite Ha, Ho, wrap64_small by word_lia. pose proof Ht1 as [].
    destruct (Z.gtb_spec (watermark_on a + 1) (ct_next_sequence (set_client_authority
      (mkVector (cl_domain (ct_options c1)) (a_account (vector_on a)) (a_epoch (vector_on a))
         (a_generation (vector_on a)) (i_id (ct_incarnation c1))) c1))) as [Hg|Hg]; simpl in Hg.
    all: destruct tk_session0; constructor; [constructor; try done | |]; try done; try (by constructor).
    1: simpl; word_lia.
    all: simpl; unfold vector_on; rewrite tk_domain0; by destruct tk_incarnation0 as [-> _].
  - split.
    + destruct (_ >? _); exact He.
    + rewrite Ha, Ho, wrap64_small by word_lia. rewrite <-Hs.
      destruct (Z.gtb_spec (watermark_on a + 1) (ct_next_sequence (set_client_authority
        (mkVector (cl_domain (ct_options c1)) (a_account (vector_on a)) (a_epoch (vector_on a))
           (a_generation (vector_on a)) (i_id (ct_incarnation c1))) c1))) as [Hg|Hg]; simpl in *; lia.
Qed.

Lemma placed_stays n a c : placed n a c -> place partly_decoded (ac_account a) c = Some (None, c).
Proof.
  intros [[] Ha Hp]. unfold place. client_step. unfold id. rewrite Hp, Ha. simpl.
  destruct tk_names0 as [_ ->]. by rewrite Z.eqb_refl.
Qed.

(** ** One attempt *)

Lemma attempt_addressed n a c id rq :
  placed n a c -> askable limits options rq -> addressed limits inc a (attempt_at id rq c).
Proof.
  intros [[] Ha Hp] []. constructor; try done; simpl; [apply tk_incarnation0 | lia].
Qed.

Lemma attempt_servable n a c id rq :
  placed n a c -> askable limits options rq -> digest_range id -> servable options (attempt_at id rq c).
Proof.
  intros [Ht Ha Hp] Hq Hid. pose proof (vector_on_wf _ _ _ Ht) as Hv. destruct Ht.
  destruct tk_incarnation0 as [Hi Hpr]. unfold attempt_at. rewrite Ha, Hi.
  apply (fill_servable limits); try done; [word_lia | apply Hpr | apply (rwf_proof _ _ (ak_wf _ _ _ Hq))].
Qed.

(** The rest of [submit] after the first attempt. *)
Definition settle_attempt rq (request : CreditRequest) (o : CreditOutcome) : Op (Loopback J) CreditOutcome :=
  (if negb (demands_reconciliation o) then op_ret o else
   revalidated <~ reconcile partly_decoded (a_account (rq_authority request));;
   if negb (status_ok (o_status revalidated)) then op_ret revalidated else
   attempt <~ op_step next_attempt;;
   op_set (fun c => set_client_stats (incr_retries (ct_stats c)) c);~
   request <~ op_get (attempt_at attempt rq);;
   exchange partly_decoded request)%op.

Lemma submit_attempts n a c c1 rq o c2 :
  talking n a c -> n + 1 < 18446744073709551616 -> op_is_ledger (rq_op rq) = true ->
  a_account (rq_authority rq) = ac_account a ->
  place partly_decoded (ac_account a) (drew (n + 1) c) = Some (None, c1) ->
  let request := attempt_at (id_at seed (n + 1)) rq c1 in
  exchange partly_decoded request c1 = Some (o, c2) ->
  submit partly_decoded rq c = settle_attempt rq request o c2.
Proof.
  intros Ht Hn Hop Ha Hp request Hx. destruct (next_draws _ _ _ Ht Hn) as [Hd _].
  unfold submit. client_step. rewrite (op_bind_step _ _ _ _ _ (f_equal Some Hd)). client_step.
  destruct (rq_op rq) eqn:Ho; try done; rewrite Ha.
  all: rewrite (op_bind_step _ _ _ _ _ Hp); client_step; rewrite (op_bind_step _ _ _ _ _ Hx); reflexivity.
Qed.

(** ** An account the client is ahead of *)

Definition live_on a : Prop :=
  is_fenced (i_id inc) a = false /\
  exists r, find_incarnation (i_id inc) a = Some r /\ is_live (ac_epoch a) (ac_generation a) r = true.

Lemma live_authorized operator a rq :
  addressed limits inc a rq -> live_on a -> op_is_ledger (rq_op rq) = true ->
  unauthorized limits operator rq a = None.
Proof.
  intros [_ E _ _ _ _] [Hf (r & Hr & Hl)] Hop. unfold unauthorized. rewrite E. simpl. rewrite !Z.eqb_refl. simpl.
  assert (Hnr : op_eqb (rq_op rq) Reconcile = false) by (by destruct (rq_op rq)).
  assert (Hcl : classify (rq_op rq) = OpData) by (by destruct (rq_op rq)). rewrite Hnr, Hcl, Hr, Hl.
  unfold is_live in Hl. by destruct (ir_state r).
Qed.

Lemma apply_gap e a rq :
  healthy_engine e -> addressed (e_limits e) inc a rq -> presents inc -> op_is_ledger (rq_op rq) = true ->
  e_accounts e !! ac_account a = Some a -> unauthorized (e_limits e) (i_id (e_operator e)) rq a = None ->
  watermark_on a + 1 < rq_sequence rq < 18446744073709551616 ->
  window_find_by_attempt (rq_attempt rq) (ac_window a) = None ->
  apply rq e = (refused RSequenceGap (watermark_on a + 1) (initial_outcome rq), e).
Proof.
  intros He Had Hp Hop Ha Hu Hs Hw. pose proof (addressed_well_formed _ _ _ _ Hp Had) as Hm.
  destruct (eo_accounts _ (en_ok _ (he_typed _ He)) _ _ Ha) as [Hok _]. destruct (ao_window _ _ Hok) as [_ Wb Wr].
  specialize (Wr (i_id inc)). fold (watermark_on a) in Wr. destruct Had as [_ Hau _ _ _ _].
  rewrite (apply_decide e rq a); [| done | by destruct (rq_op rq) | by destruct (rq_op rq) | done | by rewrite Hau].
  unfold decide_locked. rewrite Hu.
  replace (known_attempt rq a (initial_outcome rq)) with (@None (CreditOutcome * bool)).
  2: { unfold known_attempt. destruct (window_find (_, _) _) as [x|] eqn:E; [| by rewrite Hw].
       rewrite Hau in E. apply Wb in E. change (rq_sequence rq <= watermark_on a) in E. lia. }
  replace (misplaced rq a) with (Some (RSequenceGap, watermark_on a + 1)); [done |]. unfold misplaced. rewrite Hau.
  change (caller_watermark _ a) with (watermark_on a).
  destruct (Z.leb_spec (rq_sequence rq) (watermark_on a)); [lia |].
  destruct (add_overflow_cases (watermark_on a) 1) as [[? ->]|[? ->]]; [done | word_lia | | word_lia].
  destruct (Z.gtb_spec (rq_sequence rq) (watermark_on a + 1)); [done | lia].
Qed.

(** A placed client that is ahead of the account is refused and stays where it is. *)
Lemma attempt_gap n a c id rq :
  placed n a c -> live_on a -> askable limits options rq -> op_is_ledger (rq_op rq) = true ->
  watermark_on a + 1 < ct_next_sequence c -> digest_range id ->
  window_find_by_attempt id (ac_window a) = None ->
  exists o c', exchange partly_decoded (attempt_at id rq c) c = Some (o, c') /\
    o = refused RSequenceGap (watermark_on a + 1) (initial_outcome (attempt_at id rq c)) /\
    placed n a c' /\ engine_of c' = engine_of c /\ ct_next_sequence c' = ct_next_sequence c.
Proof.
  intros Hpl Hlive Hq Hop Hs Hid Hw. pose proof Hpl as [Ht Hau Hp].
  pose proof (attempt_addressed _ _ _ id rq Hpl Hq) as Had. set (request := attempt_at id rq c) in *.
  destruct (talk_exchange _ _ _ request Ht (attempt_servable _ _ _ _ _ Hpl Hq Hid)) as (o & c' & Hx & Hsv & He & Hd).
  pose proof Ht as []. destruct tk_incarnation0 as [Hi Hpr], tk_limits0 as [Hl Ho].
  assert (Ha : apply request (engine_of c) =
    (refused RSequenceGap (watermark_on a + 1) (initial_outcome request), engine_of c)).
  { apply apply_gap; try done; [by rewrite Hl | rewrite Hl; by apply live_authorized | change (watermark_on a + 1 < ct_next_sequence c < 18446744073709551616); lia]. }
  rewrite Ha in He, Hd. simpl in He, Hd. specialize (Hd (he_running _ tk_healthy0)).
  pose proof Hd as [_ X2 _ _ (X1 & _ & _ & X5) X6 X7]. rewrite Ha in X2. simpl in X2. subst o.
  exists (refused RSequenceGap (watermark_on a + 1) (initial_outcome request)), c'. split; [done |].
  split; [done |]. simpl in X6. split; [| done]. constructor; [| | by rewrite X5].
  - eapply exchanged_talking; try done; rewrite ?He, ?X6; done.
  - rewrite X7. simpl. rewrite Hau, Hi. unfold confirmed_authority. simpl.
    repeat case_match; done.
Qed.

Lemma gap_submitted n a c c1 m rq :
  talking n a c -> n + 1 < 18446744073709551616 -> live_on a -> askable limits options rq ->
  op_is_ledger (rq_op rq) = true -> a_account (rq_authority rq) = ac_account a ->
  place partly_decoded (ac_account a) (drew (n + 1) c) = Some (None, c1) -> placed m a c1 ->
  watermark_on a + 1 < ct_next_sequence c1 ->
  window_find_by_attempt (id_at seed (n + 1)) (ac_window a) = None ->
  exists o c', submit partly_decoded rq c = Some (o, c') /\
    o_status o = refused_status RSequenceGap (watermark_on a + 1) /\ o_decided o = false /\
    placed m a c' /\ engine_of c' = engine_of c1 /\ ct_next_sequence c' = ct_next_sequence c1.
Proof.
  intros Ht Hn Hlive Hq Hop Ha Hp Hpl Hs Hw.
  destruct (attempt_gap _ _ _ (id_at seed (n + 1)) rq Hpl Hlive Hq Hop Hs (id_at_range _ _) Hw)
    as (o & c' & Hx & Ho & Hpl' & He & Hs').
  exists o, c'. rewrite (submit_attempts _ _ _ _ _ _ _ Ht Hn Hop Ha Hp Hx). subst o. by split_and!.
Qed.

Fixpoint submit_all (rqs : list CreditRequest) : Op (Loopback J) (list CreditOutcome) :=
  match rqs with
  | [] => op_ret []
  | rq :: rqs => (o <~ submit partly_decoded rq;; os <~ submit_all rqs;; op_ret (o :: os))%op
  end.

(** A ledger request of the caller's on this account. *)
Definition on_account a rq : Prop :=
  askable limits options rq /\ op_is_ledger (rq_op rq) = true /\ a_account (rq_authority rq) = ac_account a.

Definition refused_as_gap (expected : Z) (o : CreditOutcome) : Prop :=
  o_status o = refused_status RSequenceGap expected /\ o_decided o = false.

Lemma placed_gaps rqs n a c :
  placed n a c -> live_on a -> watermark_on a + 1 < ct_next_sequence c ->
  n + Z.of_nat (length rqs) < 18446744073709551616 -> Forall (on_account a) rqs ->
  (forall k, n < k <= n + Z.of_nat (length rqs) -> window_find_by_attempt (id_at seed k) (ac_window a) = None) ->
  exists os c', submit_all rqs c = Some (os, c') /\ length os = length rqs /\
    Forall (refused_as_gap (watermark_on a + 1)) os /\
    engine_of c' = engine_of c /\ ct_next_sequence c' = ct_next_sequence c.
Proof.
  revert n c. induction rqs as [|rq rqs IH]; intros n c Hpl Hlive Hs Hn Hrq Hw.
  { by eexists [], c. }
  apply Forall_cons in Hrq as [(Hq & Hop & Ha) Hrq]. cbn [length] in *. pose proof Hpl as [Ht Hau Hp].
  destruct (next_draws _ _ _ Ht ltac:(lia)) as [_ Ht1].
  assert (Hpl1 : placed (n + 1) a (drew (n + 1) c)) by (by constructor).
  destruct (gap_submitted n a c _ _ rq Ht ltac:(lia) Hlive Hq Hop Ha (placed_stays _ _ _ Hpl1) Hpl1 Hs)
    as (o & c1 & Hx & Ho & Hdec & Hpl2 & He & Hs1); [apply Hw; lia |].
  destruct (IH (n + 1) c1 Hpl2 Hlive) as (os & c2 & Hx2 & Hl & Hos & He2 & Hs2); [| lia | done | |].
  { rewrite Hs1. exact Hs. }
  { intros k Hk. apply Hw. lia. }
  exists (o :: os), c2. simpl. rewrite (op_bind_step _ _ _ _ _ Hx), (op_bind_step _ _ _ _ _ Hx2).
  split; [done |]. rewrite He2, He, Hs2, Hs1, Hl. split_and!; try done. by apply Forall_cons.
Qed.

(** ** Reconciling *)

(** Placed behind the watermark of an account that has just reconciled it. *)
Record settled_on (n : Z) a c : Prop := {
  st_placed : placed n a c;
  st_live : live_on a;
  st_sequence : ct_next_sequence c = watermark_on a + 1;
}.

(** Two accounts that agree on credit and rules. *)
Definition same_books a b : Prop :=
  ac_totals b = ac_totals a /\ ac_capacity b = ac_capacity a /\ ac_config b = ac_config a /\
  ac_hard_exhausted b = ac_hard_exhausted a.

Lemma reconciled_on a rq o :
  account_ok limits a -> addressed limits inc a rq -> is_fenced (i_id inc) a = false ->
  rq_sequence rq = watermark_on a + 1 ->
  let b := committed_account rq o (reconcile_account rq a) in
  live_on b /\ vector_on b = vector_on a /\ watermark_on b = watermark_on a + 1 /\ same_books a b /\
  (forall id, id <> rq_attempt rq -> window_find_by_attempt id (ac_window a) = None ->
     window_find_by_attempt id (ac_window b) = None).
Proof.
  intros Hok Had Hf Hs b. subst b.
  destruct (reconciled_account limits inc a rq o Had) as (E1 & E2 & E3 & E4 & E5 & (r & E6 & E7) & E8 & E9).
  set (b := committed_account _ _ _) in *. destruct (ao_window _ _ Hok) as [Ww Wb _].
  destruct Had as [_ Hau _ _ _ _]. split_and!.
  - split; [unfold is_fenced; by rewrite E5 |]. exists r. by rewrite E3, E4.
  - unfold vector_on. by rewrite E1, E2, E3, E4.
  - unfold watermark_on at 1. by rewrite E8.
  - subst b. unfold same_books, committed_account, reconcile_account. by destruct (find_incarnation _ a).
  - intros id Hid Hw. rewrite E9. apply insert_by_attempt; [done | | done | done]. simpl.
    destruct (window_find (_, _) _) as [x|] eqn:E; [| done]. rewrite Hau in E. apply Wb in E.
    change (rq_sequence rq <= watermark_on a) in E. lia.
Qed.

(** The request of a reconciliation, and the client that sends it. *)
Definition reconcile_request (n : Z) a c : CreditRequest :=
  fill Reconcile (id_at seed n) (watermark_on a + 1) (vector_on a) inc
    (challenge_compute (ct_challenge c) inc (vector_on a)) request_zero.

Lemma reconcile_asks n a c :
  talking n a c -> n + 2 < 18446744073709551616 -> watermark_on a + 2 < 18446744073709551616 ->
  exists c3, let rq := reconcile_request (n + 2) a c3 in
    talking (n + 2) a c3 /\ servable options rq /\ addressed (e_limits (engine_of c3)) inc a rq /\
    reconcile partly_decoded (ac_account a) c =
    (outcome <~ exchange partly_decoded rq;;
     if status_ok (o_status outcome) then
       op_set (fun c => set_client_stats (incr_reconciliations (ct_stats c))
                          (set_placed true (set_client_authority (vector_on a) c)));~
       op_ret outcome
     else op_ret outcome)%op c3.
Proof.
  intros Ht Hn Hwm. pose proof (watermark_word _ _ _ Ht) as Hww.
  destruct (talk_describe _ _ _ Ht ltac:(lia)) as (d & c1 & Hd & Ht1 & He1 & Hs1 & _ & Hok & Hdo & Hda).
  set (c2 := set_client_sequence (watermark_on a + 1) c1).
  assert (Ht2 : talking (n + 1) a c2).
  { destruct Ht1. destruct tk_session0. constructor; try done; try (by constructor). simpl. word_lia. }
  destruct (next_draws _ _ _ Ht2 ltac:(lia)) as [Hdr Ht3]. replace (n + 1 + 1) with (n + 2) in * by lia.
  set (c3 := drew (n + 2) c2) in *. exists c3. cbv zeta. set (rq := reconcile_request (n + 2) a c3).
  pose proof Ht3 as []. destruct tk_incarnation0 as [Hi Hpr], tk_limits0 as [Hl Ho], tk_room0 as (R1 & R2 & R3).
  assert (Hz : askable limits options request_zero) by (by apply zero_askable).
  split; [done |]. split; [| split].
  - apply (fill_servable limits); [done | apply id_at_range | word_lia | by eapply vector_on_wf | apply Hpr |].
    apply db_finish_range.
  - constructor; try done; simpl; [word_lia | rewrite Hl; lia].
  - unfold reconcile. rewrite (op_bind_step _ _ _ _ _ Hd), Hok, Hdo, Hda. cbn [negb].
    rewrite wrap64_small by word_lia. client_step. fold c2. client_step.
    rewrite (op_bind_step _ _ _ _ _ (f_equal Some Hdr)). cbv zeta.
    change (ct_incarnation (id c2)) with (ct_incarnation c3). rewrite Hi.
    change (cl_domain (ct_options (id c2))) with (cl_domain (ct_options c3)). rewrite tk_domain0. done.
Qed.

Lemma talk_reconcile n a c :
  talking n a c -> n + 2 < 18446744073709551616 -> may_reconcile limits (i_id inc) a ->
  watermark_on a + 2 < 18446744073709551616 ->
  window_find_by_attempt (id_at seed (n + 2)) (ac_window a) = None ->
  exists o c', reconcile partly_decoded (ac_account a) c = Some (o, c') /\ in_u64 (served_of c') /\
    (e_journal_failed (engine_of c') = true \/
     status_ok (o_status o) = true /\ exists b, settled_on (n + 2) b c' /\ ac_account b = ac_account a /\
       watermark_on b = watermark_on a + 1 /\ same_books a b /\
       (forall id, id <> id_at seed (n + 2) -> window_find_by_attempt id (ac_window a) = None ->
          window_find_by_attempt id (ac_window b) = None)).
Proof.
  intros Ht Hn Hmay Hwm Hw. pose proof (watermark_word _ _ _ Ht) as Hww.
  destruct (reconcile_asks n a c Ht Hn Hwm) as (c3 & Ht3 & Hq & Had & E). set (rq := reconcile_request (n + 2) a c3) in *.
  pose proof Ht3 as []. destruct tk_incarnation0 as [Hi Hpr], tk_limits0 as [Hl Ho], tk_room0 as (R1 & R2 & R3).
  destruct (talk_exchange (n + 2) a c3 rq Ht3 Hq) as (o & c4 & Hx & Hsv & He & Hd').
  rewrite E, (op_bind_step _ _ _ _ _ Hx). clear E.
  destruct (e_journal_failed (apply rq (engine_of c3)).2) eqn:Hf.
  { assert (Hf4 : e_journal_failed (engine_of c4) = true) by (by rewrite He).
    destruct (status_ok (o_status o)); eexists o, _; (split; [reflexivity |]); by split; [| left]. }
  specialize (Hd' eq_refl). destruct (eo_accounts _ (en_ok _ (he_typed _ tk_healthy0)) _ _ tk_account0) as [Haok _].
  destruct (reconcile_taken (engine_of c3) rq a) as (T1 & T2 & T3 & T4 & T5 & T6); try done.
  - by eapply request_wf_4096, sb_wf.
  - by apply (addressed_well_formed _ inc a).
  - eapply reconcile_authorized; [done | by rewrite Hl | done].
  - unfold rq. simpl. rewrite <-tk_challenge0. apply challenge_verify_prove.
  - simpl. word_lia.
  - destruct (reconciled_on a rq (set_outcome_era a (initial_outcome rq))) as (B1 & B2 & B3 & B5 & B4); try done.
    { by rewrite Hl in *. } { by rewrite Hl in *. } { apply Hmay. }
    set (b := committed_account _ _ _) in *. pose proof Hd' as [_ X2 _ _ _ X6 _].
    assert (BD : ac_domain b = ac_domain a) by exact (f_equal a_domain B2).
    assert (BA : ac_account b = ac_account a) by exact (f_equal a_account B2).
    assert (Hs4 : ct_next_sequence c4 = watermark_on b + 1).
    { rewrite X6, X2, T2, B3. simpl. by rewrite wrap64_small by word_lia. }
    assert (Ht4 : talking (n + 2) b c4).
    { eapply (exchanged_talking (n + 2) a b c3); try done; rewrite ?He; try done; [by rewrite BA |].
      rewrite Hs4, B3. word_lia. }
    rewrite X2, T1. eexists _, _. split; [reflexivity |]. split; [done |]. right. split; [done |].
    exists b. split; [| by split_and!]. constructor; [| done | done]. constructor; [| by rewrite B2 | done].
    destruct Ht4 as [[]]. constructor; try done; by constructor.
Qed.

(** ** A submission behind the watermark *)

(** A placed attempt of an incarnation that is admitted gets a decision. *)
Lemma attempt_decided m a c id rq r :
  placed m a c -> ct_next_sequence c = watermark_on a + 1 -> on_account a rq -> digest_range id ->
  find_incarnation (i_id inc) a = Some r ->
  unauthorized limits (i_id (e_operator (engine_of c))) (attempt_at id rq c) a = None ->
  window_find_by_attempt id (ac_window a) = None ->
  exists o c', exchange partly_decoded (attempt_at id rq c) c = Some (o, c') /\ in_u64 (served_of c') /\
    (e_journal_failed (engine_of c') = true \/ o_decided o = true /\ demands_reconciliation o = false).
Proof.
  intros Hpl Hs (Hq & Hop & _) Hid Hr Hu Hw. pose proof Hpl as [Ht Hau _].
  pose proof (attempt_addressed _ _ _ id rq Hpl Hq) as Had.
  destruct (talk_exchange _ _ _ _ Ht (attempt_servable _ _ _ _ _ Hpl Hq Hid)) as (o & c' & Hx & Hsv & He & Hd).
  exists o, c'. split; [done |]. split; [done |]. set (request := attempt_at id rq c) in *.
  pose proof (vector_on_wf _ _ _ Ht). destruct Ht. destruct tk_incarnation0 as [Hi Hpr], tk_limits0 as [Hl Ho].
  pose proof (dr_authority _ _ _ _ Had) as Ea.
  destruct (e_journal_failed (apply request (engine_of c)).2) eqn:Hf; [left; by rewrite He | right].
  rewrite (xc_outcome _ _ _ _ (Hd eq_refl)). rewrite <-Hl in Hu, Had.
  apply (ledger_taken _ _ a r); try done; try (by rewrite Ea).
  - by apply (addressed_well_formed _ inc a).
  - change (in_u64 (ct_next_sequence c)). word_lia.
Qed.

(** One of an incarnation the account does not know, or has demoted, is answered
    by a demand, and nothing changes. *)
Lemma attempt_demanded m a c id rq r d :
  placed m a c -> on_account a rq -> digest_range id ->
  unauthorized limits (i_id (e_operator (engine_of c))) (attempt_at id rq c) a = Some (r, d) -> is_demand r = true ->
  exists o c', exchange partly_decoded (attempt_at id rq c) c = Some (o, c') /\
    demands_reconciliation o = true /\ talking m a c'.
Proof.
  intros Hpl (Hq & Hop & _) Hid Hu Hr. pose proof Hpl as [Ht Hau _].
  pose proof (attempt_addressed _ _ _ id rq Hpl Hq) as Had.
  destruct (talk_exchange _ _ _ _ Ht (attempt_servable _ _ _ _ _ Hpl Hq Hid)) as (o & c' & Hx & Hsv & He & Hd).
  exists o, c'. split; [done |]. set (request := attempt_at id rq c) in *.
  pose proof Ht as []. destruct tk_incarnation0 as [Hi Hpr], tk_limits0 as [Hl Ho].
  pose proof (dr_authority _ _ _ _ Had) as Ea. rewrite <-Hl in Hu, Had.
  assert (Ha : apply request (engine_of c) = (refused r d (initial_outcome request), engine_of c)).
  { assert (Hops : rq_op request <> Open /\ rq_op request <> Describe)
      by (change (rq_op request) with (rq_op rq); by destruct (rq_op rq)).
    apply (apply_not_admitted _ _ a); try done; try (apply Hops); try (by rewrite Ea).
    by apply (addressed_well_formed _ inc a). }
  rewrite Ha in He, Hd. simpl in He, Hd. specialize (Hd (he_running _ tk_healthy0)).
  pose proof Hd as [_ X2 _ _ _ X6 _]. rewrite Ha in X2. simpl in X2. subst o. simpl in X6.
  split; [by rewrite demands_is_demand |].
  eapply exchanged_talking; try done; rewrite ?He, ?X6; done.
Qed.

(** The retry after the reconciliation. *)
Lemma retry_decided n a c rq request o :
  talking n a c -> on_account a rq -> may_reconcile limits (i_id inc) a -> a_account (rq_authority request) = ac_account a ->
  demands_reconciliation o = true ->
  n + 3 < 18446744073709551616 -> watermark_on a + 2 < 18446744073709551616 ->
  window_find_by_attempt (id_at seed (n + 2)) (ac_window a) = None ->
  window_find_by_attempt (id_at seed (n + 3)) (ac_window a) = None ->
  id_at seed (n + 3) <> id_at seed (n + 2) ->
  exists o' c', settle_attempt rq request o c = Some (o', c') /\
    (e_journal_failed (engine_of c') = true \/ o_decided o' = true).
Proof.
  intros Ht (Hq & Hop & Ha) Hmay Hra Hdem Hn Hwm Hw2 Hw3 Hne. unfold settle_attempt. rewrite Hdem, Hra. cbn [negb].
  destruct (talk_reconcile n a c Ht ltac:(lia) Hmay Hwm Hw2) as (d & c1 & Hx & Hsv & Hrec).
  rewrite (op_bind_step _ _ _ _ _ Hx). destruct Hrec as [Hf | (Hok & b & [Hpl Hl Hs] & Hb & Hwb & _ & Hfresh)].
  - match goal with |- exists o' c', ?m c1 = _ /\ _ => assert (Hresp : responsive m) end.
    { respond. apply responsive_exchange. }
    destruct (Hresp c1 Hsv) as (o' & c' & Hm & _ & Hlatch). exists o', c'. split; [exact Hm |]. left. by apply Hlatch.
  - rewrite Hok. cbn [negb]. pose proof Hpl as [Ht1 Hau Hp]. destruct (next_draws _ _ _ Ht1 ltac:(lia)) as [Hdr Ht2].
    replace (n + 2 + 1) with (n + 3) in * by lia. rewrite (op_bind_step _ _ _ _ _ (f_equal Some Hdr)). do 2 client_step.
    set (c2 := set_client_stats _ _).
    assert (Hpl2 : placed (n + 3) b c2).
    { constructor; [| done | done]. destruct Ht2 as [[]]. constructor; try done; by constructor. }
    pose proof (attempt_addressed _ _ _ (id_at seed (n + 3)) rq Hpl2 Hq) as Had. pose proof Hl as [Hfe (r & Hr & Hlive)].
    destruct (attempt_decided (n + 3) b c2 (id_at seed (n + 3)) rq r) as (o' & c' & Hx' & _ & Hd); try done.
    + split_and!; [done | done | by rewrite Ha].
    + apply id_at_range.
    + by apply live_authorized.
    + by apply Hfresh.
    + exists o', c'. split; [exact Hx' |]. destruct Hd as [Hd | [Hd _]]; [by left | by right].
Qed.

End Submission.

(** ** What a client can count on *)

(** C30: A submission is decided.  A client in a running session that has not placed
    itself on an account yet, and whose counter is not ahead of the sequence due
    there, submits a ledger request of an incarnation that the account knows or has
    demoted, or has room for, and has neither fenced nor retired.  The client is
    alone on a connection that moves bytes in pieces of one size, any size, and does
    not stall, and the attempt identities it draws are fresh.  The submission
    returns, after at most one reconciliation, with an outcome that the coordinator
    has decided; unless its journal has failed. *)
Theorem submission_is_decided {J : Type} `{Journal J} partly_decoded inc seed limits options n a
    (c : CoordinatorClient (Loopback J)) rq :
  talking inc seed limits options n a c -> unplaced a c = true ->
  ct_next_sequence c <= watermark_on inc a + 1 -> on_account limits options a rq ->
  may_reconcile limits (i_id inc) a -> n + 5 < 18446744073709551616 ->
  watermark_on inc a + 2 < 18446744073709551616 ->
  (forall k, n < k <= n + 5 -> window_find_by_attempt (id_at seed k) (ac_window a) = None) ->
  id_at seed (n + 5) <> id_at seed (n + 4) ->
  exists o c', submit partly_decoded rq c = Some (o, c') /\
    (e_journal_failed (engine_of c') = true \/ o_decided o = true).
Proof.
  intros Ht Hu Hseq Hrq Hmay Hn Hwm Hw Hne. pose proof Hrq as (Hq & Hop & Ha).
  destruct (next_draws _ _ _ _ _ _ _ Ht ltac:(lia)) as [_ Ht1].
  destruct (talk_place partly_decoded _ _ _ _ _ _ _ Ht1 ltac:(lia) ltac:(lia) Hu) as (c1 & Hp & Hpl & He1 & Hs1).
  change (ct_next_sequence (drew seed (n + 1) c)) with (ct_next_sequence c) in Hs1.
  rewrite Z.max_r in Hs1 by lia. replace (n + 1 + 1) with (n + 2) in * by lia.
  pose proof (attempt_addressed _ _ _ _ _ _ _ (id_at seed (n + 1)) rq Hpl Hq) as Had. pose proof Hpl as [Ht2 _ _].
  assert (Haok : account_ok limits a)
    by (by eapply talking_account).
  destruct (ledger_authorized limits (i_id (e_operator (engine_of c1))) inc a _ Haok Had Hmay Hop)
    as [(r & Hr & Hau) | (x & d & Hau & Hx)].
  - destruct (attempt_decided partly_decoded _ _ _ _ _ a c1 (id_at seed (n + 1)) rq r Hpl Hs1 Hrq (id_at_range _ _) Hr Hau)
      as (o & c2 & Hx & Hsv & Hd); [apply Hw; lia |].
    pose proof (submit_attempts partly_decoded _ _ _ _ _ a c c1 rq o c2 Ht ltac:(lia) Hop Ha Hp Hx) as ->.
    destruct Hd as [Hf | [Hd Hdem]].
    + assert (Hresp : responsive (settle_attempt partly_decoded rq (attempt_at (id_at seed (n + 1)) rq c1) o)).
      { unfold settle_attempt. respond; first [apply responsive_reconcile | apply responsive_exchange]. }
      destruct (Hresp c2 Hsv) as (o' & c' & Hm & _ & Hl). exists o', c'. split; [exact Hm |]. left. by apply Hl.
    + unfold settle_attempt. rewrite Hdem. exists o, c2. split; [done |]. by right.
  - destruct (attempt_demanded partly_decoded _ _ _ _ _ a c1 (id_at seed (n + 1)) rq x d Hpl Hrq (id_at_range _ _) Hau Hx)
      as (o & c2 & Hx2 & Hdem & Ht3).
    pose proof (submit_attempts partly_decoded _ _ _ _ _ a c c1 rq o c2 Ht ltac:(lia) Hop Ha Hp Hx2) as ->.
    pose proof (pl_authority _ _ _ _ _ _ _ Hpl) as Hau1.
    apply (retry_decided partly_decoded inc seed limits options (n + 2) a c2); try done; try lia.
    + simpl. by rewrite Hau1.
    + apply Hw. lia.
    + apply Hw. lia.
    + by replace (n + 2 + 3) with (n + 5) by lia; replace (n + 2 + 2) with (n + 4) by lia.
Qed.

(** C31: A client that moves to an account where it has decided less is stuck.  The
    sequence counter is one for all accounts and moving to an account never lowers
    it: an incarnation that is live on the account, with a watermark there more than
    one below the counter, has every ledger request it submits refused as a sequence
    gap, however many it submits, on the connection of [submission_is_decided] and
    under fresh attempt identities.  Nothing is decided, the engine does not change,
    and the counter stays where it is; no demand to reconcile, which would lower it,
    is ever answered. *)
Theorem lagging_account_refuses_forever {J : Type} `{Journal J} partly_decoded inc seed limits options n a
    (c : CoordinatorClient (Loopback J)) rq rqs :
  talking inc seed limits options n a c -> unplaced a c = true -> live_on inc a ->
  watermark_on inc a + 1 < ct_next_sequence c -> Forall (on_account limits options a) (rq :: rqs) ->
  n + 2 + Z.of_nat (length rqs) < 18446744073709551616 ->
  (forall k, n < k <= n + 2 + Z.of_nat (length rqs) ->
     window_find_by_attempt (id_at seed k) (ac_window a) = None) ->
  exists os c', submit_all partly_decoded (rq :: rqs) c = Some (os, c') /\
    length os = S (length rqs) /\ Forall (refused_as_gap (watermark_on inc a + 1)) os /\
    engine_of c' = engine_of c /\ ct_next_sequence c' = ct_next_sequence c.
Proof.
  intros Ht Hu Hl Hseq [(Hq & Hop & Ha) Hrqs]%Forall_cons Hn Hw.
  destruct (next_draws _ _ _ _ _ _ _ Ht ltac:(lia)) as [_ Ht1].
  pose proof (tk_sequence _ _ _ _ _ _ _ Ht).
  destruct (talk_place partly_decoded _ _ _ _ _ _ _ Ht1 ltac:(lia) ltac:(lia) Hu) as (c1 & Hp & Hpl & He1 & Hs1).
  change (ct_next_sequence (drew seed (n + 1) c)) with (ct_next_sequence c) in Hs1.
  rewrite Z.max_l in Hs1 by lia. replace (n + 1 + 1) with (n + 2) in * by lia.
  destruct (gap_submitted partly_decoded _ _ _ _ _ a c c1 (n + 2) rq Ht ltac:(lia) Hl Hq Hop Ha Hp Hpl)
    as (o & c2 & Hx & Ho & Hdec & Hpl2 & He2 & Hs2); [lia | apply Hw; lia |].
  destruct (placed_gaps partly_decoded _ _ _ _ rqs (n + 2) a c2 Hpl2 Hl) as (os & c3 & Hx3 & Hlen & Hos & He3 & Hs3);
    [lia | lia | done | intros k Hk; apply Hw; lia |].
  exists (o :: os), c3. simpl. rewrite (op_bind_step _ _ _ _ _ Hx), (op_bind_step _ _ _ _ _ Hx3).
  split; [done |]. split; [by rewrite Hlen |]. split; [by apply Forall_cons |].
  split; [by rewrite He3, He2, He1 | lia].
Qed.

(** ** A client of the sample engine *)

Lemma sample_account_typed : account_typed sample_account.
Proof.
  constructor; simpl; try done.
  - intros i r [[-> ->]|[[-> ->]|[-> ->]]]%sample_map_cases; pose proof operator_id_range.
    all: constructor; try (split; simpl); simpl; word_lia.
  - constructor; [| constructor]. constructor; simpl; word_lia.
Qed.

Lemma sample_engine_healthy : healthy_engine sample_engine.
Proof.
  constructor; [constructor | reflexivity | reflexivity].
  - apply sample_engine_ok.
  - apply default_limits_typed.
  - intros k a. simpl. intros [<- <-]%lookup_singleton_Some. apply sample_account_typed.
Qed.

(** A new process, which the sample account does not know. *)
Definition newcomer : Incarnation := Eval vm_compute in incarnation_make 9 10.

Lemma newcomer_presents : presents newcomer.
Proof. constructor; [reflexivity | vm_compute; reflexivity |]. constructor; simpl; word_lia. Qed.

Lemma operator_presents : presents operator.
Proof.
  constructor; [reflexivity | apply operator_id_eq |]. pose proof operator_id_range. constructor; simpl; word_lia.
Qed.

Definition talking_client (inc : Incarnation) (next : Z) : CoordinatorClient (Loopback InMemoryJournal) :=
  mkClient (mkClientOptions "localhost" 7 1 2 3 [] 65536)
    (mkLoop (set_workers [mkConnection (mkSocket true [] [] []) 1 (PServing 0)]
               (server_make sample_engine sample_coordinator_options)) 0 1 true)
    inc sample_nonce 1 next vector_zero (mkGenerator 11 0) client_stats_zero true false.

Lemma sample_talking inc next :
  presents inc -> 1 <= next < 18446744073709551616 ->
  talking inc 11 default_limits (clamp_options sample_coordinator_options) 0 sample_account (talking_client inc next).
Proof.
  intros Hp Hn. constructor; try done; [| apply sample_engine_healthy].
  constructor; try done.
  exists 0, (mkConnection (mkSocket true [] [] []) 1 (PServing 0)). split; [done |].
  constructor; try done; constructor.
Qed.

Lemma sample_on_account sequence count :
  in_u64 sequence -> in_u64 count -> count <> 0 ->
  on_account default_limits (clamp_options sample_coordinator_options) sample_account (issue_request sequence count).
Proof.
  intros Hs Hc H0. split_and!; [| done | done]. constructor; try done.
Qed.

Lemma sample_unknown id : window_find_by_attempt id (ac_window sample_account) = None.
Proof. reflexivity. Qed.

Lemma submission_is_decided_witness :
  exists o c', submit (fun _ o => o) (issue_request 1 5) (talking_client newcomer 1) = Some (o, c') /\
    (e_journal_failed (engine_of c') = true \/ o_decided o = true).
Proof.
  apply (submission_is_decided (fun _ o => o) newcomer 11 default_limits (clamp_options sample_coordinator_options)
    0 sample_account).
  - apply sample_talking; [apply newcomer_presents | lia].
  - reflexivity.
  - vm_compute. discriminate.
  - apply sample_on_account; [word_lia | word_lia | lia].
  - split; vm_compute; reflexivity.
  - lia.
  - vm_compute. reflexivity.
  - intros k _. apply sample_unknown.
  - vm_compute. discriminate.
Defined.

Lemma operator_live : live_on operator sample_account.
Proof. split; [by vm_compute |]. exists (live_record operator_id 7 8). split; [by vm_compute | done]. Qed.

(** The operator has decided nothing on this account, and six attempts elsewhere. *)
Lemma lagging_account_refuses_forever_witness :
  exists os c', submit_all (fun _ o => o) [issue_request 1 5; issue_request 2 5] (talking_client operator 7) = Some (os, c') /\
    length os = 2%nat /\ Forall (refused_as_gap 1) os /\
    engine_of c' = sample_engine /\ ct_next_sequence c' = 7.
Proof.
  apply (lagging_account_refuses_forever (fun _ o => o) operator 11 default_limits
    (clamp_options sample_coordinator_options) 0 sample_account (talking_client operator 7)).
  - apply sample_talking; [apply operator_presents | lia].
  - reflexivity.
  - apply operator_live.
  - vm_compute. reflexivity.
  - repeat constructor; try (apply sample_on_account; [word_lia | word_lia | lia]).
  - simpl. lia.
  - intros k _. apply sample_unknown.
Defined.
