(* ===== verification/Args.v ===== *)
(** * Command-line arguments (apps/args.hpp)

    The reader of flags and numbers that the programs share.  [number] threads
    the caller's [ok] through a sequence of options; what such a sequence accepts
    is characterised here. *)

From Stdlib Require Import Ascii String.
From S2P Require Import Prelude Digest.
Local Open Scope Z_scope.

(** The values of [Args]: what follows the name of the program. *)
Definition args_make (argv : list string) : list string := tail argv.

Definition has (flag : string) (values : list string) : bool := existsb (String.eqb flag) values.

Fixpoint get (flag fallback : string) (values : list string) : string :=
  match values with
  | value :: ((next :: _) as rest) => if String.eqb value flag then next else get flag fallback rest
  | _ => fallback
  end.

(** The value of a numeric option and the new [ok]. *)
Definition number (flag : string) (fallback : Z) (values : list string) (ok : bool) : Z * bool :=
  let text := get flag "" values in
  if String.eqb text "" then (fallback, ok)
  else match parse_u64 (list_ascii_of_string text) with
       | Some value => (value, true)
       | None => (fallback, false)
       end.

Definition substr_from (n : nat) (s : string) : string := String.substring n (String.length s - n) s.

Definition flag_value (name : string) (fallback : bool) (values : list string) : bool :=
  if has name values then true else
  if has ("--no-" +:+ substr_from 2 name) values then false else fallback.

(** A computation that threads [ok], and its notation. *)
Definition Parsed (A : Type) : Type := bool -> A * bool.
Definition p_ret {A} (a : A) : Parsed A := fun ok => (a, ok).
Definition p_bind {A B} (m : Parsed A) (k : A -> Parsed B) : Parsed B :=
  fun ok => let '(a, ok) := m ok in k a ok.

Declare Scope parsed_scope.
Delimit Scope parsed_scope with parsed.
Notation "x <# m ;; k" := (p_bind m (fun x => k)) (at level 100, m at next level, right associativity)
  : parsed_scope.

(** ** Lookups *)

Lemma has_elem flag values : has flag values = true <-> flag ∈ values.
Proof.
  unfold has. rewrite existsb_exists. split.
  - intros (x & Hx & ->%String.eqb_eq). by apply list_elem_of_In.
  - intros Hx. exists flag. split; [by apply list_elem_of_In | apply String.eqb_refl].
Qed.

(** [get] returns what follows the first occurrence of the flag. *)
Lemma get_first flag fallback before value rest :
  flag ∉ before -> get flag fallback (before ++ flag :: value :: rest) = value.
Proof.
  induction before as [|x before IH]; intros Hn.
  - simpl. by rewrite String.eqb_refl.
  - apply not_elem_of_cons in Hn as [Hx Hn]. specialize (IH Hn). simpl.
    destruct (before ++ flag :: value :: rest) as [|y l] eqn:E; [by destruct before |].
    destruct (String.eqb_spec x flag); [by subst | done].
Qed.

Lemma get_absent flag fallback values : flag ∉ values -> get flag fallback values = fallback.
Proof.
  induction values as [|x values IH]; intros Hn; [done |]. apply not_elem_of_cons in Hn as [Hx Hn].
  simpl. destruct values; [done |]. destruct (String.eqb_spec x flag); [by subst | by apply IH].
Qed.

(** ** Sequences of numeric options *)

(** The text of a numeric option, when one is given. *)
Definition given (values : list string) (flag : string) : option string :=
  let text := get flag "" values in if String.eqb text "" then None else Some text.

Definition well_formed_number (text : string) : bool :=
  match parse_u64 (list_ascii_of_string text) with Some _ => true | None => false end.

(** [ok] after the options [flags] have been read in this order. *)
Definition ok_after (values flags : list string) (ok : bool) : bool :=
  match List.last (omap (given values) flags) "" with
  | "" => ok
  | text => well_formed_number text
  end%string.

Lemma given_nonempty values flag text : given values flag = Some text -> text <> ""%string.
Proof. unfold given. destruct (String.eqb_spec (get flag "" values) ""); [done |]. by intros [= <-]. Qed.

Lemma number_ok flag fallback values ok :
  (number flag fallback values ok).2 =
  match given values flag with None => ok | Some text => well_formed_number text end.
Proof.
  unfold number, given, well_formed_number. destruct (String.eqb (get flag "" values) ""); [done |].
  by destruct (parse_u64 _).
Qed.

Lemma ok_after_nil values ok : ok_after values [] ok = ok.
Proof. done. Qed.

Lemma ok_after_snoc values flags flag ok :
  ok_after values (flags ++ [flag]) ok =
  match given values flag with None => ok_after values flags ok | Some text => well_formed_number text end.
Proof.
  unfold ok_after. rewrite omap_app. simpl. destruct (given values flag) as [text|] eqn:E.
  - rewrite List.last_last. apply given_nonempty in E. by destruct text.
  - by rewrite app_nil_r.
Qed.

(** Reading one more option. *)
Lemma number_after flag fallback values flags ok :
  (number flag fallback values (ok_after values flags ok)).2 = ok_after values (flags ++ [flag]) ok.
Proof. by rewrite number_ok, ok_after_snoc. Qed.
