(* ===== verification/LocalSession.v ===== *)
(** * An in-process session (apps/local_session.hpp)

    What the programs that own an engine put in front of it: an incarnation that
    reconciles itself, finds its sequence and retries.  The theorem at the end says
    that one reconciliation and one attempt are enough. *)

From Stdlib Require Import Ascii String.
From S2P Require Import Prelude Checked Status Digest Ledger Authority Request Bytes Wire.
From S2P Require Import Record Journal Window Account Engine Steps Invariant Verdicts.
From S2P Require Import Safety Sample Guarantees Durability Explain Restart Typing.
From S2P Require Import Platform Transport Coordinator Service Client ClientProps Dialogue Submission.
Local Open Scope word_scope.
Local Open Scope Z_scope.

Definition text_bytes (text : string) : list Z := char_code <$> list_ascii_of_string text.

(** The identity of the operator of a deployment. *)
Definition durable_operator (deployment : string) : Incarnation :=
  let digest := db_keyed (mkDigest 0x0CF0BEEFCAFE0001 0x0CF0BEEFCAFE0002)
                |> db_text (text_bytes deployment) |> db_finish in
  incarnation_make 0x0CF0BEEFCAFE (lo digest ^^ hi digest).

Section Session.
Context {J : Type} `{Journal J}.

(** The engine is held by reference: every operation returns it changed. *)
Record LocalSession := mkLocal {
  ls_engine : Engine J;
  ls_me : Incarnation;
  ls_domain : Z;
  ls_account : Z;
  ls_authority : AuthorityVector;
  ls_attempts : AttemptIdGenerator;
  ls_sequence : Z;
  ls_reconciled : bool;
}.

Definition local_make (engine : Engine J) (me : Incarnation) (domain account entropy : Z) : LocalSession :=
  mkLocal engine me domain account vector_zero (generator_make entropy 0) 1 false.

Definition set_local_sequence (v : Z) (s : LocalSession) : LocalSession :=
  mkLocal (ls_engine s) (ls_me s) (ls_domain s) (ls_account s) (ls_authority s) (ls_attempts s) v
    (ls_reconciled s).
Definition set_local_authority (v : AuthorityVector) (s : LocalSession) : LocalSession :=
  mkLocal (ls_engine s) (ls_me s) (ls_domain s) (ls_account s) v (ls_attempts s) (ls_sequence s)
    (ls_reconciled s).
Definition set_local_reconciled (s : LocalSession) : LocalSession :=
  mkLocal (ls_engine s) (ls_me s) (ls_domain s) (ls_account s) (ls_authority s) (ls_attempts s)
    (ls_sequence s) true.

(** [attempts_.next()]. *)
Definition local_next (s : LocalSession) : Digest128 * LocalSession :=
  let '(id, attempts) := generator_next (ls_attempts s) in
  (id, mkLocal (ls_engine s) (ls_me s) (ls_domain s) (ls_account s) (ls_authority s) attempts
         (ls_sequence s) (ls_reconciled s)).

(** [engine_.apply(request)]. *)
Definition local_apply (request : CreditRequest) (s : LocalSession) : CreditOutcome * LocalSession :=
  let '(outcome, engine) := apply request (ls_engine s) in
  (outcome, mkLocal engine (ls_me s) (ls_domain s) (ls_account s) (ls_authority s) (ls_attempts s)
              (ls_sequence s) (ls_reconciled s)).

(** A default request of this operation with the configuration of an account to open. *)
Definition opening_request (config : AccountConfig) : CreditRequest :=
  mkRequest digest_zero Open 0 vector_zero (mkIncarnation 0 0 0) 0 0 0 0 0 0 0 digest_zero digest_zero
    config DecisionNone RUnknownState [].

Definition local_open (config : AccountConfig) (s : LocalSession) : CreditOutcome * LocalSession :=
  let authority := mkVector (c_domain config) (c_account config) 1 1 (i_id (ls_me s)) in
  let '(attempt, s) := local_next s in
  let proof := challenge_compute (e_challenge (ls_engine s)) (ls_me s) authority in
  let '(outcome, s) := local_apply (fill Open attempt 1 authority (ls_me s) proof (opening_request config)) s in
  let s := if o_decided outcome then set_local_sequence 2 s else s in
  (outcome, if status_ok (o_status outcome) then set_local_reconciled (set_local_authority authority s) else s).

(** Where a refusal says the sequence is. *)
Definition misplaced_at (status : Status) : option Z :=
  match reason status with
  | RSequenceGap => Some (detail status)
  | RStaleReplay => Some (detail status +% 1)
  | _ => None
  end.

(** The loop of [reconcile]. *)
Fixpoint reconcile_loop (retries : nat) (s : LocalSession) : Status * LocalSession :=
  match retries with
  | O => (refused_status RBudgetExceeded 1, s)
  | S retries =>
      let '(attempt, s) := local_next s in
      let proof := challenge_compute (e_challenge (ls_engine s)) (ls_me s) (ls_authority s) in
      let request := fill Reconcile attempt (ls_sequence s) (ls_authority s) (ls_me s) proof request_zero in
      let '(outcome, s) := local_apply request s in
      if status_ok (o_status outcome)
      then (success, set_local_reconciled (set_local_sequence (rq_sequence request +% 1) s)) else
      match misplaced_at (o_status outcome) with
      | Some sequence => reconcile_loop retries (set_local_sequence sequence s)
      | None => (o_status outcome, s)
      end
  end.

Definition local_reconcile (s : LocalSession) : Status * LocalSession :=
  let explanation := explain (ls_account s) (ls_engine s) in
  if negb (ex_found explanation) then (refused_status RAccountUnknown 1, s) else
  let authority := mkVector (ls_domain s) (ls_account s) (a_epoch (ex_authority explanation))
                     (a_generation (ex_authority explanation)) (i_id (ls_me s)) in
  let s := set_local_authority authority s in
  let '(described, s) :=
    local_apply (fill Describe digest_zero 1 authority (ls_me s) digest_zero request_zero) s in
  if negb (status_ok (o_status described)) then (o_status described, s) else
  reconcile_loop 8 (set_local_sequence (o_sequence described +% 1) s).

(** The loop of [call]. *)
Fixpoint call_loop (retries : nat) (request : CreditRequest) (s : LocalSession) : CreditOutcome * LocalSession :=
  match retries with
  | O => (set_status (refused_status RBudgetExceeded 2) outcome_zero, s)
  | S retries =>
      let '(attempt, s) := local_next s in
      let request := fill (rq_op request) attempt (ls_sequence s) (ls_authority s) (ls_me s)
                       (rq_proof request) request in
      let '(outcome, s) := local_apply request s in
      if o_decided outcome then (outcome, set_local_sequence (rq_sequence request +% 1) s) else
      match misplaced_at (o_status outcome) with
      | Some sequence => call_loop retries request (set_local_sequence sequence s)
      | None =>
          if demands_reconciliation outcome then
            let '(status, s) := local_reconcile s in
            if negb (status_ok status) then (set_status status outcome, s) else call_loop retries request s
          else (outcome, s)
      end
  end.

Definition local_call (request : CreditRequest) (s : LocalSession) : CreditOutcome * LocalSession :=
  if ls_reconciled s then call_loop 8 request s else
  let '(status, s) := local_reconcile s in
  if negb (status_ok status) then (set_status status outcome_zero, s) else call_loop 8 request s.

(** [call] with the fields of a default request given one by one. *)
Definition local_call_op (op : OpKind) (count new_capacity : Z) (decision : RevalidationDecision)
    (target : Z) (cause : Reason) (expected_state : Digest128) (s : LocalSession)
    : CreditOutcome * LocalSession :=
  local_call (mkRequest digest_zero op 0 vector_zero (mkIncarnation 0 0 0) 0 0 0 0 target count new_capacity
    digest_zero expected_state config_zero decision cause []) s.

End Session.

Arguments LocalSession J : clear implicits.

(** ** A call of a session is decided *)

Section Calls.
Context {J : Type} `{Journal J}.
Implicit Types (s : LocalSession J) (rq : CreditRequest).

Definition stopped s : Prop := e_journal_failed (ls_engine s) = true.

Lemma local_apply_stopped rq s : stopped s -> stopped (local_apply rq s).2.
Proof.
  intros Hs. pose proof (run_latched [CApply rq] (ls_engine s) Hs) as Hl. unfold stopped, local_apply in *.
  simpl in Hl. by destruct (apply rq (ls_engine s)).
Qed.

Lemma local_next_stopped s : stopped s -> stopped (local_next s).2.
Proof. done. Qed.

(** One step of a session's operation, for goals that it stays stopped. *)
Ltac stopped_step :=
  match goal with
  | |- context [local_apply ?rq ?s] =>
      let H := fresh in pose proof (local_apply_stopped rq s) as H;
      destruct (local_apply rq s) as [? ?]; simpl in H
  end.

Lemma reconcile_loop_stopped k s : stopped s -> stopped (reconcile_loop k s).2.
Proof.
  revert s. induction k as [|k IH]; intros s Hs; [done |]. simpl. stopped_step.
  destruct (status_ok _); [by auto |]. destruct (misplaced_at _); [| by auto]. apply IH. by auto.
Qed.

Lemma local_reconcile_stopped s : stopped s -> stopped (local_reconcile s).2.
Proof.
  intros Hs. unfold local_reconcile. destruct (negb (ex_found _)); [done |]. stopped_step.
  destruct (negb _); [by auto |]. apply reconcile_loop_stopped. by auto.
Qed.

Lemma call_loop_stopped k rq s : stopped s -> stopped (call_loop k rq s).2.
Proof.
  revert rq s. induction k as [|k IH]; intros rq s Hs; [done |]. simpl. stopped_step.
  destruct (o_decided _); [by auto |]. destruct (misplaced_at _); [apply IH; by auto |].
  destruct (demands_reconciliation _); [| by auto].
  pose proof (local_reconcile_stopped l) as Hr. destruct (local_reconcile l) as [st s']. simpl in Hr.
  destruct (negb _); [by auto | apply IH; by auto].
Qed.

(** A session on the account [a] that has drawn [n] identities. *)
Record on_local (seed n : Z) (a : AccountState) s : Prop := {
  ol_healthy : healthy_engine (ls_engine s);
  ol_presents : presents (ls_me s);
  ol_attempts : ls_attempts s = mkGenerator seed n /\ 0 <= n;
  ol_account : e_accounts (ls_engine s) !! ac_account a = Some a;
  ol_names : ls_account s = ac_account a /\ ls_domain s = ac_domain a;
  ol_set : is_set (ac_domain a) = true /\ is_set (ac_account a) = true;
  ol_notes : 0 <= max_note_bytes (e_limits (ls_engine s));
}.

Lemma local_next_draws seed n a s :
  on_local seed n a s -> n + 1 < 18446744073709551616 ->
  exists s1, local_next s = (id_at seed (n + 1), s1) /\ on_local seed (n + 1) a s1 /\
    ls_engine s1 = ls_engine s /\ ls_me s1 = ls_me s /\ ls_authority s1 = ls_authority s /\
    ls_sequence s1 = ls_sequence s.
Proof.
  intros [] Hn. destruct ol_attempts0 as [Ha H0]. eexists. split.
  - unfold local_next, generator_next. rewrite Ha. cbn [stream_seed counter].
    rewrite wrap64_small by word_lia. unfold id_at. cbv zeta. reflexivity.
  - split; [| done]. constructor; try done. split; [done | simpl; lia].
Qed.

(** Asking for the description changes nothing. *)
Lemma local_describes seed n a s :
  on_local seed n a s -> ls_authority s = vector_on (ls_me s) a ->
  exists o, local_apply (fill Describe digest_zero 1 (ls_authority s) (ls_me s) digest_zero request_zero) s = (o, s) /\
    status_ok (o_status o) = true /\ o_sequence o = watermark_on (ls_me s) a.
Proof.
  intros [] Hau. rewrite Hau. unfold local_apply. erewrite apply_describe; try done.
  - eexists. split; [by destruct s | done].
  - apply (well_formed _ (ls_me s)); simpl; try done; apply ol_set0.
Qed.

(** What a reconciliation leaves: [b] is the account [a] after it. *)
Record reconciled_to seed n a b s s' : Prop := {
  rt_local : on_local seed n b s';
  rt_me : ls_me s' = ls_me s;
  rt_limits : e_limits (ls_engine s') = e_limits (ls_engine s);
  rt_live : live_on (ls_me s) b;
  rt_authority : ls_authority s' = vector_on (ls_me s) b;
  rt_sequence : ls_sequence s' = watermark_on (ls_me s) b + 1;
  rt_watermark : watermark_on (ls_me s) b = watermark_on (ls_me s) a + 1;
  rt_account : ac_account b = ac_account a;
  rt_reconciled : ls_reconciled s' = true;
  rt_fresh : forall id, id <> id_at seed n -> window_find_by_attempt id (ac_window a) = None ->
    window_find_by_attempt id (ac_window b) = None;
}.

(** The reconciliation succeeds in the first round of the loop. *)
Lemma reconcile_round k seed n a s :
  on_local seed n a s -> n + 1 < 18446744073709551616 ->
  may_reconcile (e_limits (ls_engine s)) (i_id (ls_me s)) a ->
  ls_authority s = vector_on (ls_me s) a -> ls_sequence s = watermark_on (ls_me s) a + 1 ->
  watermark_on (ls_me s) a + 2 < 18446744073709551616 ->
  window_find_by_attempt (id_at seed (n + 1)) (ac_window a) = None ->
  stopped (reconcile_loop (S k) s).2 \/
  (reconcile_loop (S k) s).1 = success /\
  exists b, reconciled_to seed (n + 1) a b s (reconcile_loop (S k) s).2.
Proof.
  intros Hs Hn Hmay Hau Hseq Hwm Hw. pose proof Hs as [Hh Hp _ Hacc Hnm Hset Hnote].
  destruct (local_next_draws _ _ _ _ Hs Hn) as (s1 & Hd & Hs1 & E1 & E2 & E3 & E4).
  destruct (eo_accounts _ (en_ok _ (he_typed _ Hh)) _ _ Hacc) as [Haok _].
  pose proof (wi_range _ _ (ao_window _ _ Haok) (i_id (ls_me s))) as Hwr. fold (watermark_on (ls_me s) a) in Hwr.
  cbn [reconcile_loop]. rewrite Hd, E1, E2, E3, E4, Hau, Hseq. cbv zeta.
  set (rq := fill Reconcile (id_at seed (n + 1)) (watermark_on (ls_me s) a + 1) (vector_on (ls_me s) a) (ls_me s)
    (challenge_compute (e_challenge (ls_engine s)) (ls_me s) (vector_on (ls_me s) a)) request_zero).
  assert (Hq : request_wf 4096 rq).
  { apply fill_wf; [eapply request_wf_4096, request_zero_wf | apply id_at_range | word_lia | | apply Hp | apply db_finish_range].
    by apply (engine_vector_wf _ (ls_engine s)). }
  assert (Had : addressed (e_limits (ls_engine s)) (ls_me s) a rq).
  { constructor; try done; simpl; word_lia. }
  destruct (apply rq (ls_engine s)) as [o e'] eqn:Ea.
  assert (El : local_apply rq s1 = (o, mkLocal e' (ls_me s1) (ls_domain s1) (ls_account s1) (ls_authority s1)
    (ls_attempts s1) (ls_sequence s1) (ls_reconciled s1))) by (unfold local_apply; by rewrite E1, Ea).
  destruct (e_journal_failed e') eqn:Hf.
  { left. pose proof (reconcile_loop_stopped k) as Hk. rewrite El. destruct (status_ok (o_status o)); [exact Hf |].
    destruct (misplaced_at (o_status o)); [by apply Hk | exact Hf]. }
  right. pose proof (reconcile_taken (ls_engine s) rq a) as Ht. rewrite Ea in Ht. simpl in Ht.
  destruct Ht as (T1 & T2 & T3 & T4 & T5 & T6); try done.
  - by apply (addressed_well_formed _ (ls_me s) a).
  - by eapply reconcile_authorized.
  - apply challenge_verify_prove.
  - word_lia.
  - destruct (reconciled_on (ls_me s) (e_limits (ls_engine s)) a rq (set_outcome_era a (initial_outcome rq)))
      as (B1 & B2 & B3 & _ & B4); try done; [apply Hmay |].
    set (b := committed_account _ _ _) in *.
    assert (BD : ac_domain b = ac_domain a) by exact (f_equal a_domain B2).
    assert (BA : ac_account b = ac_account a) by exact (f_equal a_account B2).
    clearbody b. rewrite El, T1. split; [done |]. exists b. destruct Hs1 as [_ _ A1 _ A2 _ _].
    constructor; simpl; try done.
    + constructor; simpl; rewrite ?E2, ?BD, ?BA, ?T4; done.
    + by rewrite E3, Hau, B2.
    + rewrite B3, wrap64_small; [lia | word_lia].
Qed.

Lemma local_reconciles seed n a s :
  on_local seed n a s -> n + 1 < 18446744073709551616 ->
  may_reconcile (e_limits (ls_engine s)) (i_id (ls_me s)) a ->
  watermark_on (ls_me s) a + 2 < 18446744073709551616 ->
  window_find_by_attempt (id_at seed (n + 1)) (ac_window a) = None ->
  stopped (local_reconcile s).2 \/
  (local_reconcile s).1 = success /\
  exists b, reconciled_to seed (n + 1) a b s (local_reconcile s).2.
Proof.
  intros Hs Hn Hmay Hwm Hw. pose proof Hs as [Hh Hp _ Hacc [Hn1 Hn2] Hset Hnote].
  destruct (eo_accounts _ (en_ok _ (he_typed _ Hh)) _ _ Hacc) as [Haok _].
  pose proof (wi_range _ _ (ao_window _ _ Haok) (i_id (ls_me s))) as Hwr. fold (watermark_on (ls_me s) a) in Hwr.
  unfold local_reconcile, explain. rewrite Hn1, Hn2, Hacc. cbv zeta. cbn [negb ex_found ex_authority explain_account
    a_epoch a_generation]. fold (vector_on (ls_me s) a).
  set (s1 := set_local_authority (vector_on (ls_me s) a) s).
  assert (Hs1 : on_local seed n a s1) by (destruct Hs; by constructor).
  destruct (local_describes _ _ _ s1 Hs1 eq_refl) as (o & Hd & Ho & Hseq).
  change (vector_on (ls_me s) a) with (ls_authority s1). change (ls_me s) with (ls_me s1) in Hd |- *.
  rewrite Hd, Ho, Hseq. cbn [negb].
  set (s2 := set_local_sequence (watermark_on (ls_me s1) a +% 1) s1).
  destruct (reconcile_round 7 seed n a s2) as [Hst | (Hok & b & [])]; try done.
  - destruct Hs1. by constructor.
  - simpl. rewrite wrap64_small; [done | word_lia].
  - by left.
  - right. split; [done |]. exists b. by constructor.
Qed.
(** A request a caller of the session brings. *)
Record callable (limits : EngineLimits) rq : Prop := {
  cb_wf : request_wf 4096 rq;
  cb_ledger : op_is_ledger (rq_op rq) = true;
  cb_note : Z.of_nat (length (rq_note rq)) <= max_note_bytes limits;
  cb_count : op_requires_count (rq_op rq) = true -> rq_count rq <> 0;
}.

(** An attempt of a live incarnation behind its watermark is decided in the first
    round of the loop. *)
Lemma call_round k seed n a s rq :
  on_local seed n a s -> n + 1 < 18446744073709551616 -> live_on (ls_me s) a ->
  ls_authority s = vector_on (ls_me s) a -> ls_sequence s = watermark_on (ls_me s) a + 1 ->
  watermark_on (ls_me s) a + 1 < 18446744073709551616 -> callable (e_limits (ls_engine s)) rq ->
  window_find_by_attempt (id_at seed (n + 1)) (ac_window a) = None ->
  let r := call_loop (S k) rq s in
  stopped r.2 \/ o_decided r.1 = true /\ ls_attempts r.2 = mkGenerator seed (n + 1).
Proof.
  intros Hs Hn Hl Hau Hseq Hwm [Hq Hop Hnote Hcount] Hw r. subst r. pose proof Hl as [Hfe (x & Hx & _)].
  pose proof Hs as [Hh Hp _ Hacc Hnm Hset _].
  destruct (local_next_draws _ _ _ _ Hs Hn) as (s1 & Hd & Hs1 & E1 & E2 & E3 & E4).
  destruct (eo_accounts _ (en_ok _ (he_typed _ Hh)) _ _ Hacc) as [Haok _].
  pose proof (wi_range _ _ (ao_window _ _ Haok) (i_id (ls_me s))) as Hwr. fold (watermark_on (ls_me s) a) in Hwr.
  cbn [call_loop]. rewrite Hd, E2, E3, E4, Hau, Hseq. cbv zeta.
  set (q := fill (rq_op rq) (id_at seed (n + 1)) (watermark_on (ls_me s) a + 1) (vector_on (ls_me s) a) (ls_me s)
    (rq_proof rq) rq).
  assert (Had : addressed (e_limits (ls_engine s)) (ls_me s) a q) by (constructor; try done; simpl; word_lia).
  destruct (apply q (ls_engine s)) as [o e'] eqn:Ea.
  assert (El : local_apply q s1 = (o, mkLocal e' (ls_me s1) (ls_domain s1) (ls_account s1) (ls_authority s1)
    (ls_attempts s1) (ls_sequence s1) (ls_reconciled s1))) by (unfold local_apply; by rewrite E1, Ea).
  set (s2 := mkLocal e' _ _ _ _ _ _ _) in El. rewrite El. destruct (e_journal_failed e') eqn:Hf.
  { left. assert (Hst : stopped s2) by exact Hf. clearbody s2 q. destruct (o_decided o); [done |].
    destruct (misplaced_at (o_status o)); [by apply call_loop_stopped |].
    destruct (demands_reconciliation o); [| done].
    pose proof (local_reconcile_stopped s2 Hst) as Hr. destruct (local_reconcile s2) as [st s3].
    destruct (negb (status_ok st)); [done | by apply call_loop_stopped]. }
  right. pose proof (ledger_taken (ls_engine s) q a x Hh (addressed_well_formed _ _ _ _ Hp Had) Hop Hacc) as Ht.
  rewrite Ea in Ht. destruct Ht as [T1 _]; try done.
  - by apply (live_authorized (ls_me s)).
  - simpl. word_lia.
  - cbn [fst] in T1. rewrite T1. split; [done |]. apply Hs1.
Qed.

End Calls.

(** C33: A new session on an account gets its ledger request decided with one
    reconciliation and one attempt.  The account exists, it has neither fenced nor
    retired the session's incarnation and has room for it if it does not know it, the
    two attempt identities drawn are fresh and distinct, and the counters do not
    overflow.  Then [call] returns an outcome that is decided, having drawn two
    attempt identities, so neither loop of eight retries ever turns; unless the
    journal has failed. *)
Theorem local_call_is_decided {J : Type} `{Journal J} seed n a (s : LocalSession J) rq :
  on_local seed n a s -> ls_reconciled s = false ->
  may_reconcile (e_limits (ls_engine s)) (i_id (ls_me s)) a -> callable (e_limits (ls_engine s)) rq ->
  n + 2 < 18446744073709551616 -> watermark_on (ls_me s) a + 2 < 18446744073709551616 ->
  window_find_by_attempt (id_at seed (n + 1)) (ac_window a) = None ->
  window_find_by_attempt (id_at seed (n + 2)) (ac_window a) = None ->
  id_at seed (n + 2) <> id_at seed (n + 1) ->
  let r := local_call rq s in
  e_journal_failed (ls_engine r.2) = true \/
  o_decided r.1 = true /\ ls_attempts r.2 = mkGenerator seed (n + 2).
Proof.
  intros Hs Hrec Hmay Hrq Hn Hwm Hw1 Hw2 Hne r. subst r. unfold local_call. rewrite Hrec.
  pose proof (local_reconciles seed n a s Hs ltac:(lia) Hmay Hwm Hw1) as Hr.
  destruct (local_reconcile s) as [st s1]. cbn [fst snd] in Hr. destruct Hr as [Hst | (-> & b & [])].
  - left. destruct (negb (status_ok st)); [exact Hst | by apply call_loop_stopped].
  - cbn [negb status_ok]. change (negb (status_ok success)) with false. cbv iota.
    pose proof (call_round 7 seed (n + 1) b s1 rq rt_local0) as Hc.
    rewrite rt_me0, rt_limits0, rt_authority0, rt_sequence0 in Hc. replace (n + 1 + 1) with (n + 2) in Hc by lia.
    destruct Hc as [Hc | Hc]; try done; try lia; [by apply rt_fresh0 | by left | by right].
Qed.

Definition sample_session : LocalSession InMemoryJournal := local_make sample_engine newcomer 1 2 11.

Lemma sample_on_local : on_local 11 0 sample_account sample_session.
Proof. pose proof sample_engine_healthy. pose proof newcomer_presents. by constructor. Qed.

Lemma local_call_is_decided_witness :
  let r := local_call (issue_request 1 5) sample_session in
  e_journal_failed (ls_engine r.2) = true \/
  o_decided r.1 = true /\ ls_attempts r.2 = mkGenerator 11 2.
Proof.
  apply (local_call_is_decided 11 0 sample_account sample_session (issue_request 1 5)).
  - apply sample_on_local.
  - reflexivity.
  - split; vm_compute; reflexivity.
  - constructor; [apply issue_request_wf; word_lia | reflexivity | vm_compute; discriminate | discriminate].
  - lia.
  - vm_compute. reflexivity.
  - apply sample_unknown.
  - apply sample_unknown.
  - vm_compute. discriminate.
Defined.
