(* ===== verification/Bench.v ===== *)
(** * The synthetic benchmark (bench.hpp, bench.cpp)

    A population of wallets drives an engine with a deterministic stream of
    attempts, some of them presented twice, and hands everything back at the end.
    The clock and the boot identities are arguments. *)

From Stdlib Require Import Ascii String.
From stdpp Require Import pretty.
From S2P Require Import Prelude Checked Status Digest Ledger Authority Request Bytes Wire.
From S2P Require Import Record Journal Window Account Engine Recovery Steps Invariant Verdicts.
From S2P Require Import Safety Sample Explain Platform FileJournal Transport Client.
Local Open Scope word_scope.
Local Open Scope Z_scope.

(** ** Configuration and result *)

Record BenchConfig := mkBenchConfig {
  bc_scenario : string;
  bc_operations : Z;
  bc_capacity : Z;
  bc_producers : Z;
  bc_consumers : Z;
  bc_resources : Z;
  bc_seed : Z;
  bc_durable : bool;
  bc_journal_prefix : string;
}.

Definition bench_config_default : BenchConfig :=
  mkBenchConfig "synthetic-ledger" 200000 4194304 8 8 4 0xC0FFEE false "".

(** The two floating-point fields are what [std::to_string] prints for them. *)
Record BenchResult := mkBenchResult {
  br_scenario : string;
  br_provenance : string;
  br_completed : Z;
  br_attempted : Z;
  br_duplicates : Z;
  br_refusals : Z;
  br_issued : Z;
  br_consumed : Z;
  br_returned : Z;
  br_seconds : string;
  br_rate : string;
  br_closure_ok : bool;
  br_final_view : CreditView;
  br_journal : string;
  br_reasons : list (string * Z);
}.

Definition bench_result_zero : BenchResult :=
  mkBenchResult "" "SYNTHETIC" 0 0 0 0 0 0 0 "0.000000" "0.000000" false view_zero "" [].

Definition set_scenario (v : string) (r : BenchResult) : BenchResult :=
  mkBenchResult v (br_provenance r) (br_completed r) (br_attempted r) (br_duplicates r) (br_refusals r)
    (br_issued r) (br_consumed r) (br_returned r) (br_seconds r) (br_rate r) (br_closure_ok r)
    (br_final_view r) (br_journal r) (br_reasons r).

(** [operations_attempted], [operations_completed], [duplicates_absorbed] and
    [refusals] go up by these amounts. *)
Definition count_operation (attempted completed duplicates refusals : Z) (r : BenchResult) : BenchResult :=
  mkBenchResult (br_scenario r) (br_provenance r) (br_completed r +% completed) (br_attempted r +% attempted)
    (br_duplicates r +% duplicates) (br_refusals r +% refusals)
    (br_issued r) (br_consumed r) (br_returned r) (br_seconds r) (br_rate r) (br_closure_ok r)
    (br_final_view r) (br_journal r) (br_reasons r).

(** [issued], [consumed] and [returned] go up by these amounts. *)
Definition count_credit (issued consumed returned : Z) (r : BenchResult) : BenchResult :=
  mkBenchResult (br_scenario r) (br_provenance r) (br_completed r) (br_attempted r) (br_duplicates r)
    (br_refusals r) (br_issued r +% issued) (br_consumed r +% consumed) (br_returned r +% returned)
    (br_seconds r) (br_rate r) (br_closure_ok r) (br_final_view r) (br_journal r) (br_reasons r).

Definition set_reasons (v : list (string * Z)) (r : BenchResult) : BenchResult :=
  mkBenchResult (br_scenario r) (br_provenance r) (br_completed r) (br_attempted r) (br_duplicates r)
    (br_refusals r) (br_issued r) (br_consumed r) (br_returned r) (br_seconds r) (br_rate r)
    (br_closure_ok r) (br_final_view r) (br_journal r) v.

(** ** The tally of refusals *)

Fixpoint bump (name : string) (reasons : list (string * Z)) : option (list (string * Z)) :=
  match reasons with
  | [] => None
  | (n, k) :: rest =>
      if String.eqb n name then Some ((n, k +% 1) :: rest)
      else match bump name rest with Some rest => Some ((n, k) :: rest) | None => None end
  end.

Definition tally_refusal (reason : Reason) (r : BenchResult) : BenchResult :=
  let name := reason_to_string reason in
  match bump name (br_reasons r) with
  | Some reasons => set_reasons reasons r
  | None => if (16 <=? length (br_reasons r))%nat then r else set_reasons (br_reasons r ++ [(name, 1)]) r
  end.

(** ** Wallets *)

Record Wallet := mkWallet {
  w_incarnation : Incarnation;
  w_sequence : Z;
  w_credits : Z;
  w_in_flight : Z;
  w_last_attempt : Digest128;
  w_last_sequence : Z;
  w_last_op : OpKind;
  w_last_count : Z;
}.

Definition wallet_make (incarnation : Incarnation) (sequence : Z) : Wallet :=
  mkWallet incarnation sequence 0 0 digest_zero 0 Issue 0.

Definition set_w_sequence (v : Z) (w : Wallet) : Wallet :=
  mkWallet (w_incarnation w) v (w_credits w) (w_in_flight w) (w_last_attempt w) (w_last_sequence w)
    (w_last_op w) (w_last_count w).
Definition set_w_books (credits in_flight : Z) (w : Wallet) : Wallet :=
  mkWallet (w_incarnation w) (w_sequence w) credits in_flight (w_last_attempt w) (w_last_sequence w)
    (w_last_op w) (w_last_count w).
Definition remember (attempt : Digest128) (op : OpKind) (count : Z) (w : Wallet) : Wallet :=
  mkWallet (w_incarnation w) (w_sequence w) (w_credits w) (w_in_flight w) attempt (w_sequence w) op count.

(** A default request with a count. *)
Definition counted (count : Z) : CreditRequest :=
  mkRequest digest_zero Describe 0 vector_zero (mkIncarnation 0 0 0) 0 0 0 0 0 count 0 digest_zero
    digest_zero config_zero DecisionNone RUnknownState [].

Section Benchmark.
Context {J : Type} `{Journal J}.

(** [submit] of a wallet, with the engine and the source of attempt identities. *)
Definition wallet_submit (op : OpKind) (count : Z) (authority : AuthorityVector) (duplicate : bool)
    (w : Wallet) (attempts : AttemptIdGenerator) (e : Engine J)
    : CreditOutcome * Wallet * AttemptIdGenerator * Engine J :=
  let '(request, w, attempts) :=
    if duplicate && negb (w_last_sequence w =? 0)
    then (fill (w_last_op w) (w_last_attempt w) (w_last_sequence w) authority (w_incarnation w) digest_zero
            (counted (w_last_count w)), w, attempts)
    else let '(attempt, attempts) := generator_next attempts in
         (fill op attempt (w_sequence w) authority (w_incarnation w) digest_zero (counted count),
          remember attempt op count w, attempts) in
  let '(outcome, e) := apply request e in
  let w := if o_decided outcome && negb (o_duplicate outcome) then set_w_sequence (rq_sequence request +% 1) w
           else w in
  (outcome, w, attempts, e).

(** ** The run *)

Record BenchState := mkBenchState {
  bs_engine : Engine J;
  bs_wallets : list Wallet;
  bs_attempts : AttemptIdGenerator;
  bs_random : Z;
  bs_result : BenchResult;
}.

(** The xorshift generator: the number drawn and the new state are the same. *)
Definition next_random (state : Z) : Z :=
  let state := state ^^ wrap64 (Z.shiftl state 13) in
  let state := state ^^ Z.shiftr state 7 in
  state ^^ wrap64 (Z.shiftl state 17).

Definition bench_authority (incarnation : Z) : AuthorityVector := mkVector 0x1D0A1D 0xACC 1 1 incarnation.

(** A refused operation. *)
Definition refuse_operation (outcome : CreditOutcome) (r : BenchResult) : BenchResult :=
  tally_refusal (reason (o_status outcome)) (count_operation 0 0 0 1 r).

(** The bodies of the loop: each gets the wallet [i] and the result with the
    operation counted as attempted. *)
Definition replay_operation (outcome : CreditOutcome) (r : BenchResult) : BenchResult :=
  if o_duplicate outcome && status_ok (o_status outcome) then count_operation 0 1 1 0 r
  else if status_ok (o_status outcome) then count_operation 0 1 0 0 r
  else refuse_operation outcome r.

Definition issue_operation (count : Z) (outcome : CreditOutcome) (w : Wallet) (r : BenchResult)
    : Wallet * BenchResult :=
  if negb (status_ok (o_status outcome)) then (w, refuse_operation outcome r)
  else (set_w_books (w_credits w +% count) (w_in_flight w +% count) w,
        count_operation 0 1 0 0 (count_credit count 0 0 r)).

Definition return_operation (amount : Z) (outcome : CreditOutcome) (w : Wallet) (r : BenchResult)
    : Wallet * BenchResult :=
  if negb (status_ok (o_status outcome)) then (w, refuse_operation outcome r)
  else (set_w_books (w_credits w -% amount) (w_in_flight w -% amount) w,
        count_operation 0 1 0 0 (count_credit 0 0 amount r)).

(** A refused consumption is counted but not tallied. *)
Definition consume_operation (outcome : CreditOutcome) (w : Wallet) (r : BenchResult) : Wallet * BenchResult :=
  if negb (status_ok (o_status outcome)) then (w, count_operation 0 0 0 1 r)
  else (set_w_books (w_credits w -% 1) (w_in_flight w) w,
        count_operation 0 1 0 0 (count_credit 0 1 0 r)).

Definition bench_step (grant : Z) (s : BenchState) : BenchState :=
  let random := next_random (bs_random s) in
  let i := Z.to_nat (random mod Z.of_nat (length (bs_wallets s))) in
  match bs_wallets s !! i with
  | None => s
  | Some w =>
      let authority := bench_authority (i_id (w_incarnation w)) in
      let draw := next_random random in
      let r := count_operation 1 0 0 0 (bs_result s) in
      let finish random '(w, attempts, e, r) :=
        mkBenchState e (<[i := w]> (bs_wallets s)) attempts random r in
      if negb (w_last_sequence w =? 0) && (draw mod 97 =? 0) then
        let '(outcome, w, attempts, e) :=
          wallet_submit (w_last_op w) (w_last_count w) authority true w (bs_attempts s) (bs_engine s) in
        finish draw (w, attempts, e, replay_operation outcome r)
      else if w_credits w =? 0 then
        let random := next_random draw in
        let count := 1 + random mod grant in
        let '(outcome, w, attempts, e) :=
          wallet_submit Issue count authority false w (bs_attempts s) (bs_engine s) in
        let '(w, r) := issue_operation count outcome w r in finish random (w, attempts, e, r)
      else if draw mod 3 =? 0 then
        let random := next_random draw in
        let amount := 1 + random mod w_credits w in
        let '(outcome, w, attempts, e) :=
          wallet_submit Return amount authority false w (bs_attempts s) (bs_engine s) in
        let '(w, r) := return_operation amount outcome w r in finish random (w, attempts, e, r)
      else
        let '(outcome, w, attempts, e) :=
          wallet_submit Consume 1 authority false w (bs_attempts s) (bs_engine s) in
        let '(w, r) := consume_operation outcome w r in finish draw (w, attempts, e, r)
  end.

Fixpoint bench_loop (operations : nat) (grant : Z) (s : BenchState) : BenchState :=
  match operations with
  | O => s
  | S operations => bench_loop operations grant (bench_step grant s)
  end.

(** Wallet [i] hands back what is in flight. *)
Definition drain_step (i : nat) (s : BenchState) : BenchState :=
  match bs_wallets s !! i with
  | None => s
  | Some w =>
      if w_in_flight w =? 0 then s else
      let credits := w_in_flight w in
      let '(outcome, w, attempts, e) :=
        wallet_submit Return credits (bench_authority (i_id (w_incarnation w))) false w
          (bs_attempts s) (bs_engine s) in
      let '(w, r) :=
        if status_ok (o_status outcome) && negb (o_duplicate outcome)
        then (set_w_books 0 0 w, count_credit 0 0 credits (bs_result s))
        else (w, bs_result s) in
      mkBenchState e (<[i := w]> (bs_wallets s)) attempts (bs_random s) r
  end.

Definition drain_wallets (s : BenchState) : BenchState :=
  foldl (fun s i => drain_step i s) s (seq 0 (length (bs_wallets s))).

(** The loop that reconciles the wallets, from wallet [i]; [boots] are the answers
    of [make_boot_id].  The refusal of a reconciliation ends the benchmark. *)
Fixpoint make_wallets (i : Z) (boots : list Z) (wallets : list Wallet) (attempts : AttemptIdGenerator)
    (e : Engine J) : Reason + list Wallet * AttemptIdGenerator * Engine J :=
  match boots with
  | [] => inr (wallets, attempts, e)
  | boot :: boots =>
      let incarnation := incarnation_make (0x1000 +% i) boot in
      let authority := bench_authority (i_id incarnation) in
      let '(attempt, attempts) := generator_next attempts in
      let proof := challenge_compute (e_challenge e) incarnation authority in
      let '(outcome, e) := apply (fill Reconcile attempt 1 authority incarnation proof request_zero) e in
      if negb (status_ok (o_status outcome)) then inl (reason (o_status outcome))
      else make_wallets (i + 1) boots (wallets ++ [wallet_make incarnation 2]) attempts e
  end.

Definition worker_count (config : BenchConfig) : Z :=
  Z.max 1 (bc_producers config +% bc_consumers config).

(** The product is not zero for fewer than 2^62 workers. *)
Definition bench_grant (config : BenchConfig) : Z :=
  Z.max 1 (bc_capacity config / (worker_count config *% 4)).

Definition bench_account_config (config : BenchConfig) : AccountConfig :=
  mkConfig 0x1D0A1D 0xACC 0x2E50 1 (bc_capacity config) (bc_capacity config) Synthetic
    (mkPolicy 1 (bench_grant config) true true false).

Definition bench_open_request (operator : Incarnation) (e : Engine J) (config : BenchConfig) : CreditRequest :=
  let authority := bench_authority (i_id operator) in
  mkRequest (generator_next (generator_make 0 0x0F1CE)).1 Open 1 authority operator 0 0 0 0 0 0 0
    (challenge_compute (e_challenge e) operator authority) digest_zero (bench_account_config config)
    DecisionNone RUnknownState [].

(** The engine of a benchmark in memory, with the operator's boot identity and the
    nonce of the engine. *)
Definition bench_limits : EngineLimits :=
  mkLimits (max_accounts default_limits) (max_incarnations_per_account default_limits)
    (max_fences_per_account default_limits) 4096 (max_ambiguous_attempts default_limits)
    (max_refusal_log default_limits) (max_explanation_incarnations default_limits)
    (max_explanation_fences default_limits) (max_explanation_refusals default_limits)
    (max_note_bytes default_limits) (max_journal_record_bytes default_limits)
    (max_frame_payload_bytes default_limits) (max_connections default_limits)
    (max_journal_bytes default_limits) (journal_records_per_snapshot default_limits).

Definition bench_engine (boot : Z) (nonce : Digest128) : Engine InMemoryJournal :=
  engine_make bench_limits true (memory_make 4294967296) (incarnation_make 0xB00B boot) nonce.

(** The journal of a durable benchmark. *)
Definition bench_file_options (config : BenchConfig) : FileJournalOptions :=
  mkFileOptions (if String.eqb (bc_journal_prefix config) "" then "creditfabric-bench" else bc_journal_prefix config)
    (fo_max_record_bytes file_options_default) 4294967296 1048576 (fo_truncate_torn_tail file_options_default).

Definition bench_evidence (stats : EngineStats) : string :=
  "journal_records=" +:+ dec_string (st_journal_records stats)
  +:+ " applied=" +:+ dec_string (st_attempts_applied stats)
  +:+ " refused=" +:+ dec_string (st_attempts_refused stats)
  +:+ " duplicates=" +:+ dec_string (st_duplicates_absorbed stats)
  +:+ " snapshots=" +:+ dec_string (st_snapshots stats).

Definition closure_ok (v : CreditView) : bool :=
  v_closed v && (v_outstanding v =? 0) && (v_available v =? v_capacity v) && (v_protected v =? 0)
  && (v_stale v =? 0).

(** [std::sort] by count, descending; in which order equal counts end up is its
    choice. *)
Definition more_often (x y : string * Z) : Prop := y.2 <= x.2.
#[global] Instance more_often_dec x y : Decision (more_often x y) := decide (y.2 <= x.2).

(** What follows the drain; [timing] is how the two durations print. *)
Definition bench_finish (timing : string * string) (s : BenchState) : BenchResult :=
  let r := bs_result s in
  let view := ex_view (explain 0xACC (bs_engine s)) in
  mkBenchResult (br_scenario r) (br_provenance r) (br_completed r) (br_attempted r) (br_duplicates r)
    (br_refusals r) (br_issued r) (br_consumed r) (br_returned r) timing.1 timing.2 (closure_ok view) view
    (bench_evidence (e_stats (bs_engine s))) (merge_sort more_often (br_reasons r)).

(** The benchmark on a constructed engine.  [boots] are the boot identities of the
    wallets, at least one for each worker; [fuel] is for the recovery of the engine. *)
Definition run_synthetic_ledger_benchmark (fuel : nat) (config : BenchConfig) (boots : list Z)
    (timing : string * string) (e : Engine J) : option BenchResult :=
  let result := set_scenario (bc_scenario config) bench_result_zero in
  let ended what reason :=
    Some (set_scenario (bc_scenario config +:+ " (" +:+ what +:+ ": " +:+ reason_to_string reason +:+ ")") result) in
  match recover fuel e with
  | None => None
  | Some (recovered, e) =>
      if negb (status_ok recovered) then ended "recovery failed" (reason recovered) else
      let '(outcome, e) := apply (bench_open_request (e_operator e) e config) e in
      if negb (status_ok (o_status outcome)) then ended "open refused" (reason (o_status outcome)) else
      match make_wallets 0 (take (Z.to_nat (worker_count config)) boots) []
              (generator_make 0 0xBEEFCAFE) e with
      | inl reason => ended "reconcile refused" reason
      | inr (wallets, attempts, e) =>
          let s := mkBenchState e wallets attempts (Z.lor (bc_seed config) 1) result in
          Some (bench_finish timing (drain_wallets (bench_loop (Z.to_nat (bc_operations config)) (bench_grant config) s)))
      end
  end.

End Benchmark.

(** ** Rendering *)

Definition render_reasons (reasons : list (string * Z)) : string :=
  match reasons with
  | [] => "none"
  | (name, count) :: rest =>
      name +:+ ":" +:+ dec_string count
      +:+ join_lines (fun x => "," +:+ x.1 +:+ ":" +:+ dec_string x.2) rest
  end.

Definition bench_render (r : BenchResult) : string :=
  "scenario=" +:+ br_scenario r +:+ " provenance=" +:+ br_provenance r +:+ newline
  +:+ "  operations_completed=" +:+ dec_string (br_completed r) +:+ " attempted=" +:+ dec_string (br_attempted r)
    +:+ " refusals=" +:+ dec_string (br_refusals r) +:+ " duplicates=" +:+ dec_string (br_duplicates r) +:+ newline
  +:+ "  issued=" +:+ dec_string (br_issued r) +:+ " consumed=" +:+ dec_string (br_consumed r)
    +:+ " returned=" +:+ dec_string (br_returned r) +:+ newline
  +:+ "  seconds=" +:+ br_seconds r +:+ " completed_ops_per_second=" +:+ br_rate r +:+ newline
  +:+ "  final: " +:+ view_to_string (br_final_view r) +:+ " closure="
    +:+ (if br_closure_ok r then "closed" else "OPEN") +:+ newline
  +:+ "  refusal_reasons=" +:+ render_reasons (br_reasons r) +:+ newline
  +:+ "  evidence=" +:+ br_journal r +:+ newline.

(** ** The books of a run *)

Definition total {A} (f : A -> Z) (l : list A) : Z := foldr (fun x n => f x + n) 0 l.

Lemma total_app {A} (f : A -> Z) l k : total f (l ++ k) = total f l + total f k.
Proof. induction l as [|x l IH]; [done |]. simpl. lia. Qed.

Lemma total_insert {A} (f : A -> Z) l i x y :
  l !! i = Some x -> total f (<[i := y]> l) = total f l - f x + f y.
Proof.
  intros Hi. assert (Hl : (i < length l)%nat) by (by eapply lookup_lt_Some).
  pose proof (f_equal (total f) (take_drop_middle l i x Hi)) as E. rewrite total_app in E. simpl in E.
  rewrite insert_take_drop, total_app by done. simpl. lia.
Qed.

Lemma total_ge {A} (f : A -> Z) l i x :
  Forall (fun y => 0 <= f y) l -> l !! i = Some x -> 0 <= f x <= total f l.
Proof.
  intros Hl Hi. pose proof (f_equal (total f) (take_drop_middle l i x Hi)) as E. rewrite total_app in E. simpl in E.
  assert (Hp : forall k, Forall (fun y => 0 <= f y) k -> 0 <= total f k).
  { induction 1; simpl; [done | lia]. }
  assert (0 <= total f (take i l)) by (by apply Hp, Forall_take).
  assert (0 <= total f (drop (S i) l)) by (by apply Hp, Forall_drop).
  rewrite Forall_lookup in Hl. pose proof (Hl i x Hi). simpl in *. lia.
Qed.

Section Books.
Context {J : Type} `{Journal J}.
Implicit Types (s : BenchState (J := J)) (w : Wallet) (r : BenchResult).

Definition in_flights (ws : list Wallet) : Z := total w_in_flight ws.
Definition credits (ws : list Wallet) : Z := total w_credits ws.

Definition wallet_ok w : Prop := 0 <= w_credits w <= w_in_flight w.

(** After [n] operations of at most [grant] credits each. *)
Record books (n grant : Z) (ws : list Wallet) r : Prop := {
  bk_wallets : Forall wallet_ok ws;
  bk_attempted : br_attempted r = br_completed r + br_refusals r /\ br_attempted r = n;
  bk_counts : 0 <= br_duplicates r <= br_completed r /\ 0 <= br_refusals r;
  bk_issued : br_issued r = br_returned r + in_flights ws /\ br_issued r <= n * grant;
  bk_consumed : in_flights ws = credits ws + br_consumed r;
  bk_positive : 0 <= br_returned r /\ 0 <= br_consumed r;
}.

(** The counters of [r'] are those of [r] moved by an operation. *)
Record counted_as (c d f : Z) (issued consumed returned : Z) r r' : Prop := {
  ca_attempted : br_attempted r' = br_attempted r +% 1;
  ca_completed : br_completed r' = br_completed r +% c;
  ca_duplicates : br_duplicates r' = br_duplicates r +% d;
  ca_refusals : br_refusals r' = br_refusals r +% f;
  ca_issued : br_issued r' = br_issued r +% issued;
  ca_consumed : br_consumed r' = br_consumed r +% consumed;
  ca_returned : br_returned r' = br_returned r +% returned;
}.

Lemma books_move n grant ws r i w w' c d f iss con ret r' :
  books n grant ws r -> ws !! i = Some w -> counted_as c d f iss con ret r r' ->
  c + f = 1 -> 0 <= d <= c -> 0 <= f -> 0 <= iss <= grant -> 0 <= con -> 0 <= ret ->
  w_credits w' = w_credits w + iss - con - ret -> w_in_flight w' = w_in_flight w + iss - ret ->
  0 <= w_credits w' -> (n + 1) * grant < 18446744073709551616 -> n + 1 < 18446744073709551616 ->
  books (n + 1) grant (<[i := w']> ws) r'.
Proof.
  intros [B1 B2 B3 B4 B5 B6] Hi [E1 E2 E3 E4 E5 E6 E7] Hcf Hd Hf Hiss Hcon Hret Hc Hfl Hpos Hg Hn.
  pose proof (proj1 (Forall_lookup _ _) B1 i w Hi) as Hw. unfold wallet_ok in Hw.
  assert (Hci : 0 <= w_in_flight w <= in_flights ws).
  { apply (total_ge _ _ i); [| done]. eapply Forall_impl; [exact B1 |]. unfold wallet_ok. simpl. lia. }
  assert (Hcc : 0 <= w_credits w <= credits ws).
  { apply (total_ge _ _ i); [| done]. eapply Forall_impl; [exact B1 |]. unfold wallet_ok. simpl. lia. }
  assert (T1 : in_flights (<[i := w']> ws) = in_flights ws + iss - ret).
  { unfold in_flights. rewrite (total_insert _ _ _ w) by done. lia. }
  assert (T2 : credits (<[i := w']> ws) = credits ws + iss - con - ret).
  { unfold credits. rewrite (total_insert _ _ _ w) by done. lia. }
  assert (0 <= n * grant) by nia. assert (0 <= n) by lia.
  rewrite wrap64_small in E1, E2, E3, E4 by word_lia. rewrite wrap64_small in E5 by word_lia.
  rewrite wrap64_small in E6 by word_lia. rewrite wrap64_small in E7 by word_lia.
  constructor; rewrite ?E1, ?E2, ?E3, ?E4, ?E5, ?E6, ?E7, ?T1, ?T2; try lia.
  apply Forall_insert; [done |]. unfold wallet_ok. lia.
Qed.

(** Refusals are tallied by name beside the counters. *)
Lemma tally_counts reason r :
  let r' := tally_refusal reason r in
  br_attempted r' = br_attempted r /\ br_completed r' = br_completed r /\ br_duplicates r' = br_duplicates r /\
  br_refusals r' = br_refusals r /\ br_issued r' = br_issued r /\ br_consumed r' = br_consumed r /\
  br_returned r' = br_returned r.
Proof. unfold tally_refusal. destruct (bump _ _); [done |]. by destruct (_ <=? _)%nat. Qed.

Lemma wallet_submit_books op count authority duplicate w attempts (e : Engine J) o w' attempts' e' :
  wallet_submit op count authority duplicate w attempts e = (o, w', attempts', e') ->
  w_credits w' = w_credits w /\ w_in_flight w' = w_in_flight w.
Proof.
  unfold wallet_submit. destruct (duplicate && _); [| destruct (generator_next attempts) as [id g]].
  all: destruct (apply _ e) as [o1 e1]; destruct (_ && _); by intros [= _ <- _ _].
Qed.

Definition credit_words r : Prop := in_u64 (br_issued r) /\ in_u64 (br_consumed r) /\ in_u64 (br_returned r).

Lemma books_words n grant ws r :
  books n grant ws r -> n * grant < 18446744073709551616 -> credit_words r.
Proof.
  intros [B1 _ _ B4 B5 B6] Hn. assert (0 <= credits ws /\ 0 <= in_flights ws) as [].
  { unfold credits, in_flights. split; clear -B1; induction B1 as [|w ws Hw _ IH]; simpl; try done;
      unfold wallet_ok in Hw; lia. }
  split_and!; word_lia.
Qed.

Lemma books_in_flight n grant ws r i w :
  books n grant ws r -> ws !! i = Some w -> w_in_flight w <= n * grant.
Proof.
  intros [B1 _ _ B4 _ B6] Hi. assert (w_in_flight w <= in_flights ws); [| lia].
  apply (total_ge _ _ i); [| done]. eapply Forall_impl; [exact B1 |]. unfold wallet_ok. simpl. lia.
Qed.

Ltac counts := constructor; simpl; rewrite ?wrap64_add_wrap, ?Z.add_0_r, ?wrap64_small by done; reflexivity.

Lemma refused_as r o : credit_words r -> counted_as 0 0 1 0 0 0 r (refuse_operation o (count_operation 1 0 0 0 r)).
Proof.
  intros (R1 & R2 & R3). unfold refuse_operation.
  destruct (tally_counts (reason (o_status o)) (count_operation 0 0 0 1 (count_operation 1 0 0 0 r)))
    as (E1 & E2 & E3 & E4 & E5 & E6 & E7).
  constructor; rewrite ?E1, ?E2, ?E3, ?E4, ?E5, ?E6, ?E7; simpl;
    rewrite ?wrap64_add_wrap, ?Z.add_0_r, ?wrap64_small by done; reflexivity.
Qed.

Lemma replay_as r o :
  credit_words r ->
  exists c d f, c + f = 1 /\ 0 <= d <= c /\ 0 <= f /\
    counted_as c d f 0 0 0 r (replay_operation o (count_operation 1 0 0 0 r)).
Proof.
  intros Hr. pose proof Hr as (R1 & R2 & R3). unfold replay_operation.
  destruct (o_duplicate o && status_ok (o_status o)); [| destruct (status_ok (o_status o))].
  - exists 1, 1, 0. split_and!; try lia. counts.
  - exists 1, 0, 0. split_and!; try lia. counts.
  - exists 0, 0, 1. split_and!; try lia. by apply refused_as.
Qed.

(** One operation of the benchmark keeps the books, whatever the engine answers. *)
Lemma bench_step_books n grant s :
  books n grant (bs_wallets s) (bs_result s) -> 1 <= grant ->
  (n + 1) * grant < 18446744073709551616 -> n + 1 < 18446744073709551616 ->
  bs_wallets s <> [] ->
  books (n + 1) grant (bs_wallets (bench_step grant s)) (bs_result (bench_step grant s)).
Proof.
  intros Hb Hg Hng Hn Hne. unfold bench_step.
  set (random := next_random (bs_random s)). set (i := Z.to_nat _).
  assert (Hi : (i < length (bs_wallets s))%nat).
  { destruct (bs_wallets s) as [|w ws] eqn:E; [done |].
    pose proof (Z.mod_pos_bound random (Z.of_nat (length (w :: ws))) ltac:(simpl; lia)). subst i. lia. }
  destruct (lookup_lt_is_Some_2 _ _ Hi) as [w Hw]. rewrite Hw. cbv zeta.
  pose proof (proj1 (Forall_lookup _ _) (bk_wallets _ _ _ _ Hb) i w Hw) as Hwok. unfold wallet_ok in Hwok.
  assert (Hr : credit_words (bs_result s)) by (eapply books_words; [exact Hb | nia]). pose proof Hr as (R1 & R2 & R3).
  assert (Hfl : w_in_flight w <= n * grant) by (by eapply books_in_flight).
  destruct (negb (w_last_sequence w =? 0) && (next_random random mod 97 =? 0));
    [| destruct (Z.eqb_spec (w_credits w) 0) as [Hz|Hz]; [| destruct (next_random random mod 3 =? 0)]].
  all: destruct (wallet_submit _ _ _ _ _ _ _) as [[[o w'] at'] e'] eqn:E; apply wallet_submit_books in E as [E1 E2].
  - destruct (replay_as (bs_result s) o Hr) as (c & d & f & Hcf & Hd & Hf & Hc). cbn [bs_wallets bs_result].
    apply (books_move n grant _ (bs_result s) i w w' c d f 0 0 0); try done; lia.
  - set (count := 1 + _ mod grant) in *.
    assert (Hcount : 1 <= count <= grant) by (pose proof (Z.mod_pos_bound (next_random (next_random random)) grant); lia).
    unfold issue_operation. destruct (status_ok (o_status o)); cbn [negb bs_wallets bs_result].
    + apply (books_move n grant _ (bs_result s) i w _ 1 0 0 count 0 0); try done; try lia; [counts | ..].
      all: simpl; rewrite ?E1, ?E2, ?wrap64_small by word_lia; lia.
    + apply (books_move n grant _ (bs_result s) i w _ 0 0 1 0 0 0); try done; try lia. by apply refused_as.
  - set (amount := 1 + _ mod w_credits w) in *.
    assert (Ham : 1 <= amount <= w_credits w)
      by (pose proof (Z.mod_pos_bound (next_random (next_random random)) (w_credits w)); lia).
    unfold return_operation. destruct (status_ok (o_status o)); cbn [negb bs_wallets bs_result].
    + apply (books_move n grant _ (bs_result s) i w _ 1 0 0 0 0 amount); try done; try lia; [counts | ..].
      all: simpl; rewrite ?E1, ?E2, ?wrap64_small by word_lia; lia.
    + apply (books_move n grant _ (bs_result s) i w _ 0 0 1 0 0 0); try done; try lia. by apply refused_as.
  - unfold consume_operation. destruct (status_ok (o_status o)); cbn [negb bs_wallets bs_result].
    + apply (books_move n grant _ (bs_result s) i w _ 1 0 0 0 1 0); try done; try lia; [counts | ..].
      all: simpl; rewrite ?E1, ?E2, ?wrap64_small by word_lia; lia.
    + apply (books_move n grant _ (bs_result s) i w _ 0 0 1 0 0 0); try done; try lia. counts.
Qed.

Lemma bench_step_wallets grant s : length (bs_wallets (bench_step grant s)) = length (bs_wallets s).
Proof.
  unfold bench_step. destruct (bs_wallets s !! _) as [w|]; [| done]. cbv zeta.
  repeat match goal with
  | |- context [wallet_submit ?a ?b ?c ?d ?w ?g ?e] => destruct (wallet_submit a b c d w g e) as [[[? ?] ?] ?]
  | |- context [issue_operation ?a ?b ?c ?d] => destruct (issue_operation a b c d)
  | |- context [return_operation ?a ?b ?c ?d] => destruct (return_operation a b c d)
  | |- context [consume_operation ?a ?b ?c] => destruct (consume_operation a b c)
  | |- context [if ?b then _ else _] => destruct b
  end; simpl; by rewrite length_insert.
Qed.

Lemma bench_loop_books k n grant s :
  books n grant (bs_wallets s) (bs_result s) -> 1 <= grant ->
  (n + Z.of_nat k) * grant < 18446744073709551616 -> n + Z.of_nat k < 18446744073709551616 ->
  0 <= n -> bs_wallets s <> [] ->
  let s' := bench_loop k grant s in books (n + Z.of_nat k) grant (bs_wallets s') (bs_result s').
Proof.
  revert n s. induction k as [|k IH]; intros n s Hb Hg Hm Hn H0 Hne; cbv zeta; cbn [bench_loop].
  { by rewrite Z.add_0_r. }
  replace (n + Z.of_nat (S k)) with (n + 1 + Z.of_nat k) in * by lia. apply IH; try done; try lia.
  - apply bench_step_books; try done; nia.
  - intros E. apply Hne. apply (f_equal length) in E. rewrite bench_step_wallets in E. by apply length_zero_iff_nil.
Qed.

(** The drain moves what is in flight to the returned credit. *)
Definition drained ws r : Prop :=
  Forall (fun w => 0 <= w_in_flight w) ws /\ br_issued r = br_returned r + in_flights ws /\
  0 <= br_returned r /\ br_issued r < 18446744073709551616.

Lemma drain_step_books i s :
  drained (bs_wallets s) (bs_result s) ->
  let s' := drain_step i s in
  drained (bs_wallets s') (bs_result s') /\ br_issued (bs_result s') = br_issued (bs_result s).
Proof.
  intros Hd. unfold drain_step. destruct (bs_wallets s !! i) as [w|] eqn:Hw; [| done].
  destruct (w_in_flight w =? 0); [done |]. destruct Hd as (D1 & D2 & D3 & D4).
  pose proof (total_ge _ _ _ _ D1 Hw) as Hge. fold (in_flights (bs_wallets s)) in Hge.
  destruct (wallet_submit _ _ _ _ _ _ _) as [[[o w'] at'] e'] eqn:E. apply wallet_submit_books in E as [E1 E2].
  destruct (status_ok (o_status o) && negb (o_duplicate o)); cbn [bs_wallets bs_result]; unfold drained, in_flights;
    rewrite (total_insert _ _ _ _ _ Hw); fold (in_flights (bs_wallets s)); simpl.
  - rewrite Z.add_0_r, !wrap64_small by word_lia. split_and!; try lia. apply Forall_insert; [done | simpl; lia].
  - split_and!; try lia. apply Forall_insert; [done | simpl; lia].
Qed.

Lemma drain_books s :
  drained (bs_wallets s) (bs_result s) ->
  drained (bs_wallets (drain_wallets s)) (bs_result (drain_wallets s)) /\
  br_issued (bs_result (drain_wallets s)) = br_issued (bs_result s).
Proof.
  unfold drain_wallets. generalize (seq 0 (length (bs_wallets s))) as l. intros l. revert s.
  induction l as [|i l IH]; intros s Hd; [done |]. cbn [foldl].
  destruct (drain_step_books i s Hd) as [Hd1 <-]. by apply IH.
Qed.

Lemma make_wallets_fresh i boots ws g (e : Engine J) ws' g' e' :
  make_wallets i boots ws g e = inr (ws', g', e') ->
  Forall (fun w => w_credits w = 0 /\ w_in_flight w = 0) ws ->
  Forall (fun w => w_credits w = 0 /\ w_in_flight w = 0) ws' /\ length ws' = (length ws + length boots)%nat.
Proof.
  revert i ws g e. induction boots as [|b boots IH]; intros i ws g e.
  { intros [= <- <- <-] Hws. split; [done | simpl; lia]. }
  cbn [make_wallets]. destruct (generator_next g) as [id g1]. destruct (apply _ e) as [o e1].
  destruct (negb _); [done |]. intros Hm Hws. destruct (IH _ _ _ _ Hm) as [H1 H2].
  - apply Forall_app. split; [done |]. by repeat constructor.
  - split; [done |]. rewrite H2, length_app. simpl. lia.
Qed.

Lemma fresh_books grant ws r :
  Forall (fun w => w_credits w = 0 /\ w_in_flight w = 0) ws ->
  br_attempted r = 0 -> br_completed r = 0 -> br_duplicates r = 0 -> br_refusals r = 0 ->
  br_issued r = 0 -> br_consumed r = 0 -> br_returned r = 0 -> books 0 grant ws r.
Proof.
  intros Hws E1 E2 E3 E4 E5 E6 E7.
  assert (T : in_flights ws = 0 /\ credits ws = 0).
  { unfold in_flights, credits. induction Hws as [|w ws [Hc Hf] _ IH]; [done |]. simpl. lia. }
  constructor; rewrite ?E1, ?E2, ?E3, ?E4, ?E5, ?E6, ?E7; try lia.
  eapply Forall_impl; [exact Hws |]. unfold wallet_ok. simpl. lia.
Qed.

End Books.

(** C34: The books of the benchmark balance, whatever the engine answers.  After its
    operations every one of them has been counted as completed or refused; what was
    issued and not returned is exactly what the wallets hold in flight, and that is
    their spendable credit plus everything consumed: consumed credit stays in
    flight until the drain.  The drain only moves credit from in flight to returned. *)
Theorem bench_books_balance {J : Type} `{Journal J} i boots g (e : Engine J) ws g' e' name random operations grant :
  make_wallets i boots [] g e = inr (ws, g', e') -> boots <> [] -> 1 <= grant ->
  Z.of_nat operations * grant < 18446744073709551616 -> Z.of_nat operations < 18446744073709551616 ->
  let s := bench_loop operations grant (mkBenchState e' ws g' random (set_scenario name bench_result_zero)) in
  let r := bs_result s in
  br_attempted r = Z.of_nat operations /\ br_attempted r = br_completed r + br_refusals r /\
  br_issued r = br_returned r + in_flights (bs_wallets s) /\
  in_flights (bs_wallets s) = credits (bs_wallets s) + br_consumed r /\
  Forall wallet_ok (bs_wallets s) /\
  let d := drain_wallets s in
  br_issued (bs_result d) = br_issued r /\
  br_issued (bs_result d) = br_returned (bs_result d) + in_flights (bs_wallets d).
Proof.
  intros Hm Hne Hg Hog Ho s r. destruct (make_wallets_fresh _ _ _ _ _ _ _ _ Hm ltac:(constructor)) as [Hws Hl].
  pose proof (bench_loop_books operations 0 grant
    (mkBenchState e' ws g' random (set_scenario name bench_result_zero))) as Hb.
  rewrite Z.add_0_l in Hb. fold s in Hb. cbv zeta in Hb. fold r in Hb. destruct Hb as [B1 [B2 B2'] B3 B4 B5 B6]; try done.
  { by apply fresh_books. }
  { cbn [bs_wallets]. intros ->. by destruct boots. }
  split_and!; try done; try lia.
  all: destruct (drain_books s) as [(_ & D2 & _ & _) D5]; try done.
  all: split_and!; try lia; [eapply Forall_impl; [exact B1 |]; unfold wallet_ok; simpl; lia | fold r; lia ..].
Qed.

Definition bench_sample_config : BenchConfig :=
  mkBenchConfig "sample" 9 1000 1 1 4 77 false "".

(** The engine of a benchmark after the account was opened. *)
Definition bench_sample : Engine InMemoryJournal :=
  match recover 1 (bench_engine 8 sample_nonce) with
  | Some (_, e) => (apply (bench_open_request (e_operator e) e bench_sample_config) e).2
  | None => bench_engine 8 sample_nonce
  end.

Lemma bench_books_balance_witness :
  exists ws g' e', make_wallets 0 [5; 6] [] (mkGenerator 11 0) bench_sample = inr (ws, g', e') /\
    let s := bench_loop 9 4 (mkBenchState e' ws g' 77 (set_scenario "sample" bench_result_zero)) in
    br_attempted (bs_result s) = 9 /\
    br_issued (bs_result (drain_wallets s)) = br_returned (bs_result (drain_wallets s)) + in_flights (bs_wallets (drain_wallets s)).
Proof.
  destruct (make_wallets 0 [5; 6] [] (mkGenerator 11 0) bench_sample) as [r | [[ws g'] e']] eqn:E.
  { exfalso. vm_compute in E. discriminate E. }
  exists ws, g', e'. split; [reflexivity |].
  destruct (bench_books_balance 0 [5; 6] (mkGenerator 11 0) bench_sample ws g' e' "sample" 77 9 4 E)
    as (H1 & _ & _ & _ & _ & _ & H2); [done | lia | simpl; lia | simpl; lia |].
  split; [exact H1 | exact H2].
Defined.

(** Nothing is refused and the account closes. *)
Example bench_closes :
  (fun r => (br_refusals r, br_closure_ok r, br_issued r =? br_returned r)) <$>
    run_synthetic_ledger_benchmark 1 bench_sample_config [5; 6] ("0", "0") (bench_engine 8 sample_nonce) =
  Some (0, true, true).
Proof. vm_compute. reflexivity. Qed.
