(* ===== verification/Cfctl.v ===== *)
(** * The operator command line (apps/cfctl.cpp)

    Options, the request a command stands for, and the two modes: on a journal of
    its own and against a coordinator.  Each returns its exit code and what it
    printed.  The theorem says which command lines [parse_options] takes. *)

From Stdlib Require Import Ascii String.
From stdpp Require Import pretty.
From S2P Require Import Prelude Checked Status Digest Ledger Authority Request Bytes Wire.
From S2P Require Import Record Journal Window Account Engine Recovery Steps Invariant Verdicts.
From S2P Require Import Safety Sample Explain Platform FileJournal Transport Client Args LocalSession Bench.
Local Open Scope word_scope.
Local Open Scope Z_scope.

(** ** Parsing *)

Fixpoint parse_hex_loop (text : list ascii) (value : Z) : option Z :=
  match text with
  | [] => Some value
  | c :: rest =>
      let digit := hex_value c in
      if digit <? 0 then None else parse_hex_loop rest (value *% 16 +% digit)
  end.

Definition parse_hex_id (text : string) : option Z :=
  if String.eqb text "" || (16 <? String.length text)%nat then None
  else parse_hex_loop (list_ascii_of_string text) 0.

Definition parse_profile (name : string) : ProfileKind :=
  if String.eqb name "SYNTHETIC" then Synthetic else
  if String.eqb name "PHYSICAL-UNVALIDATED" then PhysicalUnvalidated else Abstract.

(** The reasons in the order of their codes. *)
Fixpoint find_reason (name : string) (reasons : list Reason) : Reason :=
  match reasons with
  | [] => RPolicyRefused
  | r :: rest => if String.eqb name (reason_to_string r) then r else find_reason name rest
  end.

Definition parse_reason (name : string) : Reason := find_reason name all_reasons.

Record Options := mkOptions {
  op_journal : string;
  op_command : string;
  op_domain : Z;
  op_account : Z;
  op_resource : Z;
  op_capacity : Z;
  op_max_capacity : Z;
  op_max_issue : Z;
  op_count : Z;
  op_value : Z;
  op_window : Z;
  op_port : Z;
  op_producer : Z;
  op_target : Z;
  op_allow_growth : bool;
  op_profile : ProfileKind;
  op_reason : Reason;
  op_decision : RevalidationDecision;
  op_host : string;
}.

(** [value.rfind("--", 0) == 0]. *)
Definition is_flag (value : string) : bool := String.prefix "--" value.

(** The first value that is not a flag or what follows one. *)
Fixpoint find_command (skip : bool) (values : list string) : string :=
  match values with
  | [] => ""
  | value :: rest =>
      if skip then find_command false rest
      else if is_flag value then find_command true rest else value
  end.

Definition parse_decision (values : list string) : RevalidationDecision :=
  if has "--as" values
  then if String.eqb (get "--as" "returned" values) "consumed" then ToConsumed else ToReturned
  else if String.eqb (get "--as" "returned" values) "consumed" then ToConsumed else DecisionNone.

Definition parse_target (values : list string) : option Z :=
  let text := get "--target" "" values in
  if String.eqb text "" then Some 0 else parse_hex_id text.

(** The numeric options, in the order they are read. *)
Definition parse_numbers (values : list string)
    : Parsed (Z * Z * Z * Z * Z * Z * Z * Z * Z * Z * Z) :=
  (domain <# number "--domain" 0xD0A1 values;;
   account <# number "--account" 0xACC values;;
   resource <# number "--resource" 0x2E50 values;;
   capacity <# number "--capacity" 1024 values;;
   max_capacity <# number "--max-capacity" capacity values;;
   max_issue <# number "--max-issue" capacity values;;
   count <# number "--count" 0 values;;
   count <# (if has "--to" values then number "--to" count values else p_ret count);;
   value <# number "--value" 0 values;;
   window <# number "--limit-window" 4096 values;;
   port <# number "--port" 0 values;;
   producer <# number "--producer" 0 values;;
   p_ret (domain, account, resource, capacity, max_capacity, max_issue, count, value, window, port,
          producer))%parsed.

Definition parse_options (values : list string) : option Options :=
  match parse_numbers values true with
  | (_, false) => None
  | ((domain, account, resource, capacity, max_capacity, max_issue, count, value, window, port, producer), true) =>
      match parse_target values with
      | None => None
      | Some target =>
          Some (mkOptions (get "--journal" "" values) (find_command false values) domain account resource
            capacity max_capacity max_issue count value window port producer target
            (has "--allow-growth" values) (parse_profile (get "--profile" "ABSTRACT" values))
            (parse_reason (get "--reason" "PolicyRefused" values)) (parse_decision values)
            (get "--host" "127.0.0.1" values))
      end
  end.

(** ** Commands *)

(** What [build_request] returns beside the two flags: whether the command is a
    single attempt, and the request. *)
Record Built := mkBuilt { bt_attempt : bool; bt_request : CreditRequest; bt_describe : bool; bt_snapshot : bool }.

Definition base_of (o : Options) (op : OpKind) (count : Z) : CreditRequest :=
  mkRequest digest_zero op 0 vector_zero (mkIncarnation 0 0 0) (op_resource o) (op_producer o) 0 0
    (op_target o) count (op_value o) digest_zero digest_zero config_zero (op_decision o) (op_reason o) [].

Definition build_request (o : Options) : Built :=
  let attempt op := mkBuilt true (base_of o op (op_count o)) false false in
  let named name := String.eqb (op_command o) name in
  if named "issue" then attempt Issue
  else if named "consume" then attempt Consume
  else if named "return" then attempt Return
  else if named "protect" then attempt Protect
  else if named "unprotect" then attempt Unprotect
  else if named "capacity" then attempt SetCapacity
  else if named "epoch" then (if negb (op_count o =? 0) then attempt Rotate else attempt AdvanceEpoch)
  else if named "fence" then attempt Fence
  else if named "retire" then attempt Retire
  else if named "revalidate" then attempt Revalidate
  else if named "exhaust" then attempt Exhaust
  else if named "clear-exhaustion" then attempt ClearExhaustion
  else if named "reconcile" then attempt Reconcile
  else if named "describe" || named "explain" then mkBuilt true (base_of o Describe (op_count o)) true false
  else if named "snapshot" then mkBuilt false (base_of o Describe (op_count o)) false true
  else mkBuilt false (base_of o Describe (op_count o)) false false.

Definition account_config (o : Options) : AccountConfig :=
  mkConfig (op_domain o) (op_account o) (op_resource o) 1 (op_capacity o) (op_max_capacity o) (op_profile o)
    (mkPolicy (min_issue policy_default) (op_max_issue o) (allow_protect policy_default)
       (allow_return policy_default) (op_allow_growth o)).

(** ** Output *)

Definition print_outcome (o : CreditOutcome) : string :=
  outcome_describe o +:+ newline +:+ "  view: " +:+ view_to_string (o_view o) +:+ newline.

Definition exit_of (ok : bool) : Z := if ok then 0 else 1.

(** The text goes to the error stream, which is not kept apart here. *)
Definition usage : Z * string :=
  (2, "usage: cfctl --journal PREFIX [--port P] [--domain D] [--account A] <command> [options]" +:+ newline
    +:+ "  open        --resource R --capacity C [--max-capacity M] [--profile NAME] [--max-issue N] [--allow-growth]" +:+ newline
    +:+ "  explain | describe" +:+ newline
    +:+ "  issue       --count N [--producer P]" +:+ newline
    +:+ "  consume     --count N" +:+ newline
    +:+ "  return      --count N" +:+ newline
    +:+ "  protect     --count N" +:+ newline
    +:+ "  unprotect   --count N" +:+ newline
    +:+ "  reconcile" +:+ newline
    +:+ "  capacity    --value C" +:+ newline
    +:+ "  epoch       [--to N]" +:+ newline
    +:+ "  fence       --target HEX" +:+ newline
    +:+ "  retire      --count N" +:+ newline
    +:+ "  revalidate  --count N --as returned|consumed" +:+ newline
    +:+ "  exhaust     --reason NAME" +:+ newline
    +:+ "  clear-exhaustion" +:+ newline
    +:+ "  snapshot" +:+ newline
    +:+ "  bench       [--operations N] [--capacity C]" +:+ newline).

(** ** On a journal of its own *)

Section Offline.
Context {J : Type} `{Journal J}.

(** The limits of the programs that own an engine: the window is an option. *)
Definition limits_with_window (window : Z) : EngineLimits :=
  mkLimits (max_accounts default_limits) (max_incarnations_per_account default_limits)
    (max_fences_per_account default_limits) window (max_ambiguous_attempts default_limits)
    (max_refusal_log default_limits) (max_explanation_incarnations default_limits)
    (max_explanation_fences default_limits) (max_explanation_refusals default_limits)
    (max_note_bytes default_limits) (max_journal_record_bytes default_limits)
    (max_frame_payload_bytes default_limits) (max_connections default_limits)
    (max_journal_bytes default_limits) (journal_records_per_snapshot default_limits).

Definition journal_options (prefix : string) : FileJournalOptions :=
  mkFileOptions prefix (fo_max_record_bytes file_options_default) (fo_max_bytes file_options_default)
    (fo_records_per_snapshot file_options_default) (fo_truncate_torn_tail file_options_default).

(** The commands on a recovered engine; [bench] is the benchmark with that many
    operations and that capacity. *)
Definition offline_command (bench : Z -> Z -> BenchResult) (o : Options) (me : Incarnation) (entropy : Z)
    (e : Engine J) : Z * string * Engine J :=
  let s := local_make e me (op_domain o) (op_account o) entropy in
  let named name := String.eqb (op_command o) name in
  let explained (s : LocalSession J) := render (explain (ls_account s) (ls_engine s)) in
  if named "bench" then
    let r := bench (if op_count o =? 0 then 20000 else op_count o) (op_capacity o) in
    (if br_closure_ok r then 0 else 4, bench_render r, e)
  else if named "open" then
    let '(outcome, s) := local_open (account_config o) s in
    (exit_of (status_ok (o_status outcome)), print_outcome outcome, ls_engine s)
  else if named "snapshot" then
    let '(status, e) := snapshot e in
    if negb (status_ok status) then (1, "snapshot failed: " +:+ status_describe status +:+ newline, e)
    else (0, "snapshot durable" +:+ newline +:+ render (explain (op_account o) e), e)
  else if named "explain" || named "describe" then
    (exit_of (ex_found (explain (op_account o) e)), explained s, e)
  else if named "reconcile" then
    let '(status, s) := local_reconcile s in
    if negb (status_ok status) then (1, "reconcile refused: " +:+ status_describe status +:+ newline, ls_engine s)
    else (0, "reconciled incarnation " +:+ hex (i_id me) +:+ " at sequence " +:+ dec_string (ls_sequence s)
               +:+ newline +:+ explained s, ls_engine s)
  else
    let b := build_request o in
    if negb (bt_attempt b) then (usage, e) else
    let '(outcome, s) := local_call (bt_request b) s in
    (exit_of (status_ok (o_status outcome)), print_outcome outcome +:+ explained s, ls_engine s).

(** The engine is the one just constructed on the journal. *)
Definition run_offline (fuel : nat) (bench : Z -> Z -> BenchResult) (o : Options) (me : Incarnation) (entropy : Z)
    (e : Engine J) : option (Z * string * Engine J) :=
  match recover fuel e with
  | None => None
  | Some (recovered, e) =>
      if negb (status_ok recovered)
      then Some (3, "recovery failed: " +:+ status_describe recovered +:+ newline, e)
      else Some (offline_command bench o me entropy e)
  end.

End Offline.

(** ** Against a coordinator *)

Section Remote.
Context {L : Type} `{Link L} (partly_decoded : list Z -> CreditOutcome -> CreditOutcome).
Local Open Scope op_scope.

Definition remote_options (o : Options) (me : Incarnation) : ClientOptions :=
  mkClientOptions (op_host o) (Z.land (op_port o) 0xFFFF) (op_domain o) (i_publisher me) (i_boot me)
    (text_bytes "cfctl") 65536.

Definition era_line (o : CreditOutcome) : string :=
  "authority: epoch=" +:+ dec_string (a_epoch (o_authority o)) +:+ " generation="
  +:+ dec_string (a_generation (o_authority o)) +:+ newline.

Definition set_request_account (account : Z) (rq : CreditRequest) : CreditRequest :=
  mkRequest (rq_attempt rq) (rq_op rq) (rq_sequence rq)
    (mkVector (a_domain (rq_authority rq)) account (a_epoch (rq_authority rq))
       (a_generation (rq_authority rq)) (a_incarnation (rq_authority rq)))
    (rq_presenter rq) (rq_resource rq) (rq_producer rq) (rq_consumer rq) (rq_grant rq) (rq_target rq)
    (rq_count rq) (rq_new_capacity rq) (rq_proof rq) (rq_expected_state rq) (rq_config rq)
    (rq_decision rq) (rq_fence_cause rq) (rq_note rq).

(** Closing the client and leaving. *)
Definition leave (ok : bool) (text : string) : Op L (Z * string) :=
  client_close;~ op_ret (exit_of ok, text).

Definition remote_command (o : Options) (me : Incarnation) : Op L (Z * string) :=
  let named name := String.eqb (op_command o) name in
  if named "bench" then op_ret (2, "bench runs against a local engine only" +:+ newline) else
  if named "snapshot" then op_ret (2, "snapshot is an operator action on the owning process" +:+ newline) else
  if named "explain" || named "describe" then
    described <~ describe partly_decoded (op_account o);;
    leave (status_ok (o_status described)) (print_outcome described +:+ era_line described)
  else if named "open" then
    outcome <~ submit partly_decoded (opening_request (account_config o));;
    leave (status_ok (o_status outcome)) (print_outcome outcome)
  else if named "reconcile" then
    outcome <~ reconcile partly_decoded (op_account o);;
    sequence <~ op_get ct_next_sequence;;
    leave (status_ok (o_status outcome))
      (print_outcome outcome +:+ "reconciled incarnation " +:+ hex (i_id me) +:+ " at sequence "
       +:+ dec_string sequence +:+ newline)
  else
    let b := build_request o in
    if negb (bt_attempt b) then op_ret usage else
    outcome <~ submit partly_decoded (set_request_account (op_account o) (bt_request b));;
    leave (status_ok (o_status outcome)) (print_outcome outcome).

(** The client is the one made from [remote_options]. *)
Definition run_remote (o : Options) (me : Incarnation) : Op L (Z * string) :=
  connected <~ client_connect;;
  if negb (status_ok connected)
  then op_ret (3, "connect failed: " +:+ status_describe connected +:+ newline)
  else remote_command o me.

End Remote.

(** ** The program *)

(** Which mode a command line asks for, or the exit code with which it ends. *)
Inductive Mode := Ends (code : Z) (text : string) | Offline (o : Options) (me : Incarnation)
  | Remote (o : Options) (me : Incarnation).

Definition cfctl_main (argv : list string) : Mode :=
  match parse_options (args_make argv) with
  | None => Ends 2 ("error: an option was not a valid value" +:+ newline)
  | Some o =>
      if String.eqb (op_journal o) "" || String.eqb (op_command o) "" then Ends usage.1 usage.2 else
      let me := durable_operator (op_journal o) in
      if negb (op_port o =? 0) then Remote o me else Offline o me
  end.

(** ** Which command lines are taken *)

(** The numeric options in the order in which they are read. *)
Definition numeric_flags : list string :=
  ["--domain"; "--account"; "--resource"; "--capacity"; "--max-capacity"; "--max-issue"; "--count"; "--to";
   "--value"; "--limit-window"; "--port"; "--producer"]%string.

Lemma to_after values count flags ok :
  (if has "--to" values then number "--to" count values else p_ret count) (ok_after values flags ok) =
  ((if has "--to" values then (number "--to" count values (ok_after values flags ok)).1 else count),
   ok_after values (flags ++ ["--to"%string]) ok).
Proof.
  destruct (has "--to" values) eqn:E.
  - rewrite <-(number_after "--to" count). by destruct (number _ _ _ _).
  - rewrite ok_after_snoc. unfold given. rewrite get_absent; [done |]. intros Hin%has_elem. congruence.
Qed.

Lemma number_split flag fallback values flags ok :
  number flag fallback values (ok_after values flags ok) =
  ((number flag fallback values (ok_after values flags ok)).1, ok_after values (flags ++ [flag]) ok).
Proof. rewrite <-(number_after flag fallback). by destruct (number _ _ _ _). Qed.

(** The value of an option does not depend on [ok]. *)
Lemma number_value flag fallback values ok :
  (number flag fallback values ok).1 =
  match given values flag with
  | Some text => default fallback (parse_u64 (list_ascii_of_string text))
  | None => fallback
  end.
Proof.
  unfold number, given. destruct (String.eqb (get flag "" values) ""); [done |]. by destruct (parse_u64 _).
Qed.

Lemma parse_numbers_ok values ok : (parse_numbers values ok).2 = ok_after values numeric_flags ok.
Proof.
  unfold parse_numbers, numeric_flags, p_bind. rewrite <-(ok_after_nil values ok) at 1.
  do 7 (rewrite number_split; cbn [app]). rewrite to_after. cbn [app].
  do 4 (rewrite number_split; cbn [app]). reflexivity.
Qed.

Definition numbers_capacity (x : Z * Z * Z * Z * Z * Z * Z * Z * Z * Z * Z) : Z :=
  let '(_, _, _, capacity, _, _, _, _, _, _, _) := x in capacity.

Lemma parse_numbers_capacity values ok :
  numbers_capacity (parse_numbers values ok).1 =
  match given values "--capacity" with
  | Some text => default 1024 (parse_u64 (list_ascii_of_string text))
  | None => 1024
  end.
Proof.
  unfold parse_numbers, p_bind. rewrite <-(ok_after_nil values ok) at 1.
  do 7 (rewrite number_split; cbn [app]). rewrite to_after. cbn [app].
  do 4 (rewrite number_split; cbn [app]). cbn [fst p_ret numbers_capacity]. apply number_value.
Qed.

(** A command line is taken or refused by the last of its numeric options alone.
    [parse_options] succeeds exactly when the last numeric option given, in the order
    in which they are read, is a number, and the target, if any, is one: what was
    found wrong with an earlier option is forgotten, and its default stands in for
    it, so a malformed capacity becomes 1024. *)
Theorem malformed_options_are_ignored values :
  (is_Some (parse_options values) <->
     ok_after values numeric_flags true = true /\ is_Some (parse_target values)) /\
  (forall o, parse_options values = Some o ->
     op_capacity o = match given values "--capacity" with
                     | Some text => default 1024 (parse_u64 (list_ascii_of_string text))
                     | None => 1024
                     end).
Proof.
  unfold parse_options. pose proof (parse_numbers_ok values true) as Hok.
  pose proof (parse_numbers_capacity values true) as Hcap.
  destruct (parse_numbers values true) as [[[[[[[[[[[n1 n2] n3] n4] n5] n6] n7] n8] n9] n10] n11] ok].
  cbn [fst snd numbers_capacity] in *. subst ok. destruct (ok_after values numeric_flags true).
  - destruct (parse_target values) as [target|]; (split; [split |]).
    + intros _. split; [done | by eexists].
    + intros _. by eexists.
    + by intros o [= <-].
    + by intros [].
    + by intros [_ []].
    + done.
  - split; [split |]; [by intros [] | by intros [] | done].
Qed.

(** A capacity with a typing error is taken for 1024. *)
Example mistyped_capacity :
  op_capacity <$> parse_options ["--journal"; "x"; "open"; "--capacity"; "2o48"; "--producer"; "7"]%string = Some 1024.
Proof. reflexivity. Qed.

(** A flag without a value hides the command behind it. *)
Example hidden_command :
  op_command <$> parse_options ["--journal"; "x"; "--allow-growth"; "open"]%string = Some ""%string.
Proof. reflexivity. Qed.
