(* ===== verification/Text.v ===== *)
(** * What is printed is read back (strong.cpp, apps/cfctl.cpp)

    The parser of decimal numbers against its definition by digits, and the round
    trips of numbers, identities, digests and the names of reasons. *)

From Stdlib Require Import Ascii String.
From stdpp Require Import pretty.
From S2P Require Import Prelude Checked Status Digest Ledger Authority Request Bytes Wire.
From S2P Require Import Record Journal Window Account Engine Recovery Steps Invariant Verdicts.
From S2P Require Import Safety Sample Explain Platform FileJournal Transport Client Args LocalSession Bench Cfctl.
Local Open Scope word_scope.
Local Open Scope Z_scope.

(** ** Decimal numbers *)

Definition is_digit (c : ascii) : bool := (48 <=? char_code c) && (char_code c <=? 57).

(** The number that digits spell behind [value]. *)
Definition decimal_from (value : Z) (text : list ascii) : Z :=
  foldl (fun v c => v * 10 + (char_code c - 48)) value text.

(** What a decimal number is, and when it fits. *)
Definition decimal (text : list ascii) : option Z :=
  if forallb is_digit text && (decimal_from 0 text <=? u64_max) then Some (decimal_from 0 text) else None.

Lemma decimal_from_ge text value :
  0 <= value -> forallb is_digit text = true -> value <= decimal_from value text.
Proof.
  revert value. induction text as [|c text IH]; intros value Hv; [done |]. simpl.
  intros [Hc Ht]%andb_true_iff. apply andb_true_iff in Hc as [H1%Z.leb_le H2%Z.leb_le].
  specialize (IH (value * 10 + (char_code c - 48)) ltac:(lia) Ht). lia.
Qed.

Lemma parse_loop_spec text value :
  0 <= value <= u64_max ->
  parse_u64_loop text value =
  if forallb is_digit text && (decimal_from value text <=? u64_max) then Some (decimal_from value text) else None.
Proof.
  unfold u64_max. revert value. induction text as [|c text IH]; intros value Hv; simpl.
  { destruct (Z.leb_spec value 18446744073709551615); [done | lia]. }
  unfold is_digit at 1. destruct (Z.ltb_spec (char_code c) 48); simpl.
  { destruct (Z.leb_spec 48 (char_code c)); [lia | done]. }
  destruct (Z.ltb_spec 57 (char_code c)); simpl.
  { destruct (Z.leb_spec 48 (char_code c)), (Z.leb_spec (char_code c) 57); done || lia. }
  destruct (Z.leb_spec 48 (char_code c)), (Z.leb_spec (char_code c) 57); try lia. simpl.
  unfold u64_max. set (digit := char_code c - 48). assert (Hdig : 0 <= digit <= 9) by (subst digit; lia). clearbody digit.
  destruct (Z.gtb_spec value ((18446744073709551615 - digit) / 10)) as [Hg|Hg].
  - destruct (forallb is_digit text) eqn:Ht; [simpl | done].
    pose proof (decimal_from_ge text (value * 10 + digit) ltac:(lia) Ht).
    pose proof (Z.div_lt_upper_bound (18446744073709551615 - digit) 10 value) as Hd.
    destruct (Z.leb_spec (decimal_from (value * 10 + digit) text) 18446744073709551615) as [Hle|]; [| done].
    assert (value <= (18446744073709551615 - digit) / 10); [apply Z.div_le_lower_bound; lia | lia].
  - assert (value * 10 + digit <= 18446744073709551615).
    { pose proof (Z.mul_div_le (18446744073709551615 - digit) 10). lia. }
    rewrite (wrap64_small (value * 10)), wrap64_small by word_lia. apply IH. lia.
Qed.

(** Printing digits. *)
Lemma pretty_char_digit n : (n < 10)%N -> char_code (pretty_N_char n) = 48 + Z.of_N n.
Proof. intros Hn. destruct n as [|p]; [done |]. do 4 (destruct p as [p|p|]; try done; try lia). Qed.

Lemma pretty_go_digits n : forall s,
  exists digits, list_ascii_of_string (pretty_N_go n s) = digits ++ list_ascii_of_string s /\
    forallb is_digit digits = true /\ decimal_from 0 digits = Z.of_N n /\
    (forall k : nat, (Z.of_N n < 10 ^ Z.of_nat k)%Z -> (List.length digits <= k)%nat).
Proof.
  induction (N.lt_wf_0 n) as [n _ IH]. intros s. destruct (decide (n = 0)%N) as [->|Hn].
  { exists []. rewrite pretty_N_go_0. split_and!; try done. intros k _. simpl. lia. }
  rewrite pretty_N_go_step by lia.
  destruct (IH (n / 10)%N ltac:(apply N.div_lt; lia) (String (pretty_N_char (n mod 10)) s)) as (ds & E & Hd & Hv & Hl).
  pose proof (N.mod_lt n 10 ltac:(lia)) as Hm. pose proof (N.div_mod n 10 ltac:(lia)) as Hdm.
  pose proof (pretty_char_digit _ Hm) as Hc. set (m := (n mod 10)%N) in *. set (q := (n / 10)%N) in *.
  clearbody m q.
  exists (ds ++ [pretty_N_char m]). rewrite E, <-app_assoc. split; [done |].
  split.
  { rewrite forallb_app, Hd. simpl. unfold is_digit. rewrite Hc, andb_true_r.
    apply andb_true_iff. split; apply Z.leb_le; lia. }
  split.
  { unfold decimal_from in *. rewrite foldl_app, Hv. simpl. rewrite Hc. lia. }
  intros k Hk. rewrite length_app. simpl. destruct k as [|k]; [simpl in Hk; lia |].
  assert (List.length ds <= k)%nat; [| lia]. apply Hl.
  rewrite Nat2Z.inj_succ, Z.pow_succ_r in Hk by lia. lia.
Qed.

Lemma parse_dec z : in_u64 z -> parse_u64 (list_ascii_of_string (dec_string z)) = Some z.
Proof.
  intros Hz. assert (Hd : exists digits, list_ascii_of_string (dec_string z) = digits /\
    forallb is_digit digits = true /\ decimal_from 0 digits = z /\ (1 <= List.length digits <= 20)%nat).
  { unfold dec_string, pretty, pretty_N. case_decide as Hn.
    - exists ["0"%char]. assert (z = 0) as -> by word_lia. split_and!; done || (simpl; lia).
    - destruct (pretty_go_digits (Z.to_N z) "") as (ds & E & H1 & H2 & H3). rewrite app_nil_r in E.
      exists ds. rewrite H2. split_and!; try done; [word_lia | | apply H3; simpl; word_lia].
      destruct ds; [| simpl; lia]. simpl in H2. word_lia. }
  destruct Hd as (ds & -> & H1 & H2 & H3). unfold parse_u64.
  destruct (Z.eqb_spec (Z.of_nat (List.length ds)) 0); [lia |].
  destruct (Z.gtb_spec (Z.of_nat (List.length ds)) 20); [lia |]. simpl.
  rewrite parse_loop_spec by (unfold u64_max; lia). rewrite H1, H2. simpl.
  unfold u64_max. destruct (Z.leb_spec z 18446744073709551615); [done | word_lia].
Qed.

(** ** Hexadecimal words *)

Lemma hex_value_digit n : 0 <= n < 16 -> hex_value (hex_digit n) = n.
Proof.
  intros Hn. assert (H : forall k : nat, (k < 16)%nat -> hex_value (hex_digit (Z.of_nat k)) = Z.of_nat k).
  { intros k Hk. do 16 (destruct k as [|k]; [done |]). lia. }
  specialize (H (Z.to_nat n) ltac:(lia)). by rewrite Z2Nat.id in H by lia.
Qed.

Lemma nibble_range v k : 0 <= Z.land (Z.shiftr v k) 0xF < 16.
Proof. change 0xF with (Z.ones 4). rewrite Z.land_ones by lia. apply Z.mod_pos_bound. lia. Qed.

(** Reading one more digit shifts four bits in. *)
Lemma nibble_step v n :
  0 <= n -> Z.shiftr v (4 * (n + 1)) * 16 + Z.land (Z.shiftr v (4 * n)) 0xF = Z.shiftr v (4 * n).
Proof.
  intros Hn. change 0xF with (Z.ones 4). rewrite Z.land_ones by lia.
  replace (4 * (n + 1)) with (4 * n + 4) by lia. rewrite <-Z.shiftr_shiftr by lia.
  rewrite (Z.shiftr_div_pow2 (Z.shiftr v (4 * n)) 4) by lia. change (2 ^ 4) with 16.
  pose proof (Z.div_mod (Z.shiftr v (4 * n)) 16 ltac:(lia)). lia.
Qed.

Lemma parse_hex_digits v (n : nat) :
  in_u64 v -> (n <= 16)%nat ->
  parse_hex_loop ((fun i => hex_digit (Z.land (Z.shiftr v ((15 - i) * 4)) 0xF)) <$> seqZ (16 - Z.of_nat n) (Z.of_nat n))
    (Z.shiftr v (4 * Z.of_nat n)) = Some v.
Proof.
  intros Hv. induction n as [|n IH]; intros Hn.
  { simpl. by rewrite Z.shiftr_0_r. }
  rewrite seqZ_cons by lia. cbn [fmap list_fmap parse_hex_loop].
  replace ((15 - (16 - Z.of_nat (S n))) * 4) with (4 * Z.of_nat n) by lia.
  rewrite hex_value_digit by apply nibble_range.
  destruct (Z.ltb_spec (Z.land (Z.shiftr v (4 * Z.of_nat n)) 0xF) 0) as [Hneg|_];
    [pose proof (nibble_range v (4 * Z.of_nat n)); lia |].
  assert (Hs : 0 <= Z.shiftr v (4 * Z.of_nat n) <= v).
  { rewrite Z.shiftr_div_pow2 by lia. pose proof (Z.pow_pos_nonneg 2 (4 * Z.of_nat n) ltac:(lia) ltac:(lia)).
    assert (0 <= v) by word_lia. split; [apply Z.div_pos; lia |]. apply Z.div_le_upper_bound; nia. }
  pose proof (nibble_step v (Z.of_nat n) ltac:(lia)) as Hstep.
  pose proof (nibble_range v (4 * Z.of_nat n)) as Hr.
  replace (4 * Z.of_nat (S n)) with (4 * (Z.of_nat n + 1)) by lia.
  rewrite (wrap64_small (_ * 16)), wrap64_small, Hstep by word_lia.
  replace (Z.succ (16 - Z.of_nat (S n))) with (16 - Z.of_nat n) by lia.
  replace (Z.pred (Z.of_nat (S n))) with (Z.of_nat n) by lia. apply IH. lia.
Qed.

Lemma length_list_ascii s : List.length (list_ascii_of_string s) = String.length s.
Proof. induction s as [|c s IH]; simpl; [done | by rewrite IH]. Qed.

Lemma parse_hex_word v : in_u64 v -> parse_hex_id (hex v) = Some v.
Proof.
  intros Hv. unfold parse_hex_id, hex. rewrite list_ascii_of_string_of_list_ascii.
  assert (Hl : String.length (string_of_list_ascii (to_hex v)) = 16%nat).
  { rewrite <-length_list_ascii, list_ascii_of_string_of_list_ascii. unfold to_hex. by rewrite length_fmap, length_seqZ. }
  destruct (String.eqb_spec (string_of_list_ascii (to_hex v)) "") as [E|_]; [by rewrite E in Hl |].
  rewrite Hl. change (false || (16 <? 16)%nat) with false. cbv iota.
  pose proof (parse_hex_digits v 16 Hv ltac:(lia)) as H. change (Z.of_nat 16) with 16 in H.
  rewrite Z.shiftr_div_pow2, Z.div_small in H by (try lia; word_lia). exact H.
Qed.

(** ** Digests *)

(** The low [k] bytes of a word. *)
Definition low_bytes (w k : Z) : Z := Z.land w (Z.ones (8 * k)).

Lemma low_bytes_step w k :
  0 <= k -> Z.lor (low_bytes w k) (Z.shiftl (Z.land (Z.shiftr w (8 * k)) 0xFF) (8 * k)) = low_bytes w (k + 1).
Proof.
  intros Hk. unfold low_bytes. change 0xFF with (Z.ones 8). apply Z.bits_inj'. intros n Hn.
  rewrite Z.lor_spec, !Z.land_spec, Z.shiftl_spec by done.
  rewrite !Z.testbit_ones_nonneg by lia. replace (8 * (k + 1)) with (8 * k + 8) by lia.
  destruct (Z.ltb_spec n (8 * k)).
  - rewrite (Z.testbit_neg_r _ (n - 8 * k)) by lia. destruct (Z.ltb_spec n (8 * k + 8)); [| lia].
    by rewrite orb_false_r.
  - rewrite andb_false_r, orb_false_l, Z.land_spec, Z.shiftr_spec, Z.testbit_ones_nonneg by lia.
    replace (n - 8 * k + 8 * k) with n by lia.
    destruct (Z.ltb_spec (n - 8 * k) 8), (Z.ltb_spec n (8 * k + 8)); done || lia.
Qed.

(** The two digits of a byte. *)
Lemma hex_pair_value byte :
  0 <= byte < 256 ->
  let high := hex_value (hex_digit (Z.shiftr byte 4)) in
  let low := hex_value (hex_digit (Z.land byte 0xF)) in
  (0 <= high /\ 0 <= low) /\ Z.lor (Z.shiftl high 4) low = byte.
Proof.
  intros Hb high low. subst high low.
  assert (Hs : 0 <= Z.shiftr byte 4 < 16).
  { rewrite Z.shiftr_div_pow2 by lia. change (2 ^ 4) with 16. split; [apply Z.div_pos; lia |].
    apply Z.div_lt_upper_bound; lia. }
  pose proof (nibble_range byte 0) as Hl. rewrite Z.shiftr_0_r in Hl. rewrite !hex_value_digit by done.
  split; [lia |]. change 0xF with (Z.ones 4). rewrite <-Z.ldiff_ones_r by lia. apply Z.lor_ldiff_and.
Qed.

(** The first [i] bytes of a digest. *)
Definition first_bytes (d : Digest128) (i : Z) : Digest128 :=
  mkDigest (low_bytes (lo d) (Z.min i 8)) (low_bytes (hi d) (Z.max 0 (i - 8))).

Lemma byte_range w k : 0 <= Z.land (Z.shiftr w k) 0xFF < 256.
Proof. change 0xFF with (Z.ones 8). rewrite Z.land_ones by lia. apply Z.mod_pos_bound. lia. Qed.

Lemma low_bytes_all w : in_u64 w -> low_bytes w 8 = w.
Proof. intros Hw. unfold low_bytes. rewrite Z.land_ones by lia. apply Z.mod_small. exact Hw. Qed.

(** One more byte. *)
Lemma first_bytes_step d i :
  0 <= i < 16 ->
  let byte := Z.land (Z.shiftr (if i <? 8 then lo d else hi d) ((i mod 8) * 8)) 0xFF in
  let value := first_bytes d i in
  (if i <? 8 then mkDigest (Z.lor (lo value) (Z.shiftl byte ((i mod 8) * 8))) (hi value)
   else mkDigest (lo value) (Z.lor (hi value) (Z.shiftl byte ((i mod 8) * 8)))) = first_bytes d (i + 1).
Proof.
  intros Hi byte value. subst byte value. unfold first_bytes. destruct (Z.ltb_spec i 8); simpl.
  - rewrite Z.mod_small, !Z.min_l, !Z.max_l by lia. rewrite (Z.mul_comm i 8), low_bytes_step by lia. done.
  - rewrite !Z.min_r, !Z.max_r by lia. assert (i mod 8 = i - 8) as ->.
    { symmetry. apply (Z.mod_unique_pos _ _ 1); lia. }
    rewrite (Z.mul_comm (i - 8) 8), low_bytes_step by lia. by replace (i + 1 - 8) with (i - 8 + 1) by lia.
Qed.

Lemma parse_digest_bytes d (n : nat) :
  digest_range d -> (n <= 16)%nat ->
  digest_parse_from n (16 - Z.of_nat n)
    (mjoin (digest_hex_pair d <$> seqZ (16 - Z.of_nat n) (Z.of_nat n))) (first_bytes d (16 - Z.of_nat n)) = Some d.
Proof.
  intros Hd. induction n as [|n IH]; intros Hn.
  { simpl. unfold first_bytes. simpl. destruct d as [l h], Hd as [Hl Hh]. by rewrite !low_bytes_all. }
  rewrite seqZ_cons by lia. set (i := 16 - Z.of_nat (S n)) in *.
  cbn [fmap list_fmap mjoin list_join]. unfold digest_hex_pair at 1. cbn [app digest_parse_from].
  set (w := if i <? 8 then lo d else hi d). pose proof (byte_range w (i mod 8 * 8)) as Hb.
  pose proof (first_bytes_step d i ltac:(lia)) as Hstep. cbv zeta in Hstep. fold w in Hstep.
  set (byte := Z.land (Z.shiftr w (i mod 8 * 8)) 255) in *.
  destruct (hex_pair_value byte Hb) as [Hh Hv].
  destruct (Z.ltb_spec (hex_value (hex_digit (Z.shiftr byte 4))) 0); [lia |].
  destruct (Z.ltb_spec (hex_value (hex_digit (Z.land byte 15))) 0); [lia |]. cbn [orb].
  rewrite Hv, Hstep.
  replace (i + 1) with (16 - Z.of_nat n) by lia. replace (Z.succ i) with (16 - Z.of_nat n) by lia.
  replace (Z.pred (Z.of_nat (S n))) with (Z.of_nat n) by lia. apply IH. lia.
Qed.

Lemma parse_digest d : digest_range d -> digest_parse (digest_to_hex d) = Some d.
Proof.
  intros Hd. unfold digest_parse.
  assert (List.length (digest_to_hex d) = 32%nat) as Hl by reflexivity. rewrite Hl.
  change (negb (Z.of_nat 32 =? 32)) with false. cbv iota.
  pose proof (parse_digest_bytes d 16 Hd ltac:(lia)) as H. change (16 - Z.of_nat 16) with 0 in H.
  change (Z.of_nat 16) with 16 in H. replace (first_bytes d 0) with digest_zero in H; [exact H |].
  unfold first_bytes, low_bytes. simpl. by rewrite !Z.land_0_r.
Qed.

Lemma parse_reason_name r : parse_reason (reason_to_string r) = r.
Proof. by destruct r. Qed.

(** [parse_u64] accepts exactly the texts of one to twenty decimal digits whose
    value fits 64 bits, and returns that value: its check against overflow before
    each digit refuses nothing that fits and lets nothing wrap. *)
Theorem parse_u64_exact text :
  parse_u64 text =
  if (1 <=? List.length text)%nat && (List.length text <=? 20)%nat then decimal text else None.
Proof.
  unfold parse_u64, decimal. destruct text as [|c text]; [done |].
  destruct (Z.eqb_spec (Z.of_nat (List.length (c :: text))) 0) as [E|_]; [simpl in E; lia |].
  rewrite parse_loop_spec by (unfold u64_max; lia). cbn [orb]. change (1 <=? List.length (c :: text))%nat with true.
  destruct (Z.gtb_spec (Z.of_nat (List.length (c :: text))) 20), (Nat.leb_spec (List.length (c :: text)) 20);
    done || lia.
Qed.

(** What the programs print they read back: a word from its decimal text and from
    its sixteen hexadecimal digits, a digest from its thirty-two, a reason from its
    name. *)
Theorem printed_text_reads_back v d r :
  in_u64 v -> digest_range d ->
  parse_u64 (list_ascii_of_string (dec_string v)) = Some v /\ parse_hex_id (hex v) = Some v /\
  digest_parse (digest_to_hex d) = Some d /\ parse_reason (reason_to_string r) = r.
Proof. intros Hv Hd. split_and!; [by apply parse_dec | by apply parse_hex_word | by apply parse_digest | apply parse_reason_name]. Qed.

Lemma printed_text_reads_back_witness :
  parse_u64 (list_ascii_of_string (dec_string 18446744073709551615)) = Some 18446744073709551615 /\
  parse_hex_id (hex 18446744073709551615) = Some 18446744073709551615 /\
  digest_parse (digest_to_hex (mkDigest 1 2)) = Some (mkDigest 1 2) /\
  parse_reason (reason_to_string RStaleReplay) = RStaleReplay.
Proof.
  apply (printed_text_reads_back 18446744073709551615 (mkDigest 1 2) RStaleReplay); [word_lia |].
  split; simpl; word_lia.
Defined.
