(* ===== verification/Worker.v ===== *)
(** * The other programs (apps/cf_worker.cpp, apps/cf_coordinator.cpp, apps/cf_bench.cpp)

    A worker process reconciles and then issues, consumes and returns the same
    amount in every round; a coordinator process recovers an engine, opens an
    account and serves; the benchmark program runs the benchmark of Bench.  What a
    worker's run does to the account is proved in WorkerProps. *)

From Stdlib Require Import Ascii String.
From stdpp Require Import pretty.
From S2P Require Import Prelude Checked Status Digest Ledger Authority Request Bytes Wire.
From S2P Require Import Record Journal Window Account Engine Recovery Steps Invariant Verdicts.
From S2P Require Import Safety Sample Guarantees Durability Explain Restart Typing.
From S2P Require Import Platform FileJournal Transport Coordinator Service Client ClientProps Dialogue Submission.
From S2P Require Import Args LocalSession Bench Cfctl.
Local Open Scope word_scope.
Local Open Scope Z_scope.

(** ** The worker *)

Record WorkerOptions := mkWorkerOptions {
  wo_client : ClientOptions;
  wo_account : Z;
  wo_issue : Z;
  wo_rounds : Z;
  wo_hold : bool;
}.

Definition fail_text (message : string) : Z * string := (2, "error: " +:+ message +:+ newline).

(** [boot] is what [make_boot_id] returns. *)
Definition worker_options (boot_id : Z) (values : list string) : (Z * string) + WorkerOptions :=
  let '((port, domain, account, publisher, boot, issue, rounds), ok) :=
    (port <# number "--port" 0 values;;
     domain <# number "--domain" 0xD0A1 values;;
     account <# number "--account" 0xACC values;;
     publisher <# number "--publisher" 0x1001 values;;
     boot <# number "--boot" 0 values;;
     issue <# number "--issue" 8 values;;
     rounds <# number "--rounds" 4 values;;
     p_ret (port, domain, account, publisher, boot, issue, rounds))%parsed true in
  if negb ok then inl (fail_text "a numeric option was not a valid unsigned integer") else
  if port =? 0 then inl (fail_text "--port is required") else
  if issue =? 0 then inl (fail_text "--issue must be greater than zero") else
  inr (mkWorkerOptions
    (mkClientOptions (get "--host" "127.0.0.1" values) (Z.land port 0xFFFF) domain publisher
       (if boot =? 0 then boot_id else boot) (text_bytes (get "--label" "creditfabric-worker" values)) 65536)
    account issue rounds (has "--hold" values)).

(** A request of the worker's. *)
Definition worker_request (account : Z) (op : OpKind) (count : Z) : CreditRequest :=
  mkRequest digest_zero op 0 (mkVector 0 account 0 0 0) (mkIncarnation 0 0 0) 0 0 0 0 0 count 0
    digest_zero digest_zero config_zero DecisionNone RUnknownState [].

Definition refuse_text (stage : string) (status : Status) : Z * string :=
  (5, "REFUSED " +:+ stage +:+ ": " +:+ status_describe status +:+ newline).

Definition round_line (round : Z) (granted returned : CreditView) : string :=
  "ROUND " +:+ dec_string (round +% 1) +:+ " issued=" +:+ dec_string (v_issued granted)
  +:+ " consumed=" +:+ dec_string (v_consumed returned) +:+ " returned=" +:+ dec_string (v_returned returned)
  +:+ newline.

Definition final_line (v : CreditView) : string :=
  "FINAL capacity=" +:+ dec_string (v_capacity v) +:+ " available=" +:+ dec_string (v_available v)
  +:+ " issued=" +:+ dec_string (v_issued v) +:+ " consumed=" +:+ dec_string (v_consumed v)
  +:+ " returned=" +:+ dec_string (v_returned v) +:+ " in_flight=" +:+ dec_string (v_in_flight v)
  +:+ " closed=" +:+ (if v_closed v then "yes" else "no") +:+ newline.

Definition done_line (s : ClientStats) : string :=
  "DONE refusals=" +:+ dec_string (cs_refusals s) +:+ " duplicates=" +:+ dec_string (cs_duplicates s)
  +:+ " reconstructions=" +:+ dec_string (cs_retries s) +:+ newline.

Section Worker.
Context {L : Type} `{Link L} (partly_decoded : list Z -> CreditOutcome -> CreditOutcome).
Local Open Scope op_scope.

(** An operation that never ends. *)
Definition op_forever {A} : Op L A := fun _ => None.

(** A stage of a round: [inl] is the exit. *)
Definition worker_stage (stage : string) (account : Z) (op : OpKind) (issue : Z)
    : Op L ((Z * string) + CreditOutcome) :=
  outcome <~ submit partly_decoded (worker_request account op issue);;
  op_ret (if negb (status_ok (o_status outcome)) then inl (refuse_text stage (o_status outcome)) else inr outcome).

Definition worker_round (account issue round : Z) : Op L ((Z * string) + string) :=
  granted <~ worker_stage "issue" account Issue issue;;
  match granted with
  | inl exit => op_ret (inl exit)
  | inr granted =>
      spent <~ worker_stage "consume" account Consume issue;;
      match spent with
      | inl exit => op_ret (inl exit)
      | inr _ =>
          returned <~ worker_stage "return" account Return issue;;
          match returned with
          | inl exit => op_ret (inl exit)
          | inr returned => op_ret (inr (round_line round (o_view granted) (o_view returned)))
          end
      end
  end.

(** The rounds from [round] on, [rounds] to go, after [text] was printed. *)
Fixpoint worker_rounds (rounds : nat) (account issue round : Z) (text : string)
    : Op L ((Z * string) + string) :=
  match rounds with
  | O => op_ret (inr text)
  | S rounds =>
      r <~ worker_round account issue round;;
      match r with
      | inl (code, error) => op_ret (inl (code, text +:+ error))
      | inr line => worker_rounds rounds account issue (round +% 1) (text +:+ line)
      end
  end.

(** What a connected worker does before it closes. *)
Definition worker_session (o : WorkerOptions) : Op L ((Z * string) + string) :=
  revalidated <~ reconcile partly_decoded (wo_account o);;
  if negb (status_ok (o_status revalidated)) then op_ret (inl (refuse_text "reconcile" (o_status revalidated))) else
  c <~ op_get id;;
  let text := "RECONCILED incarnation=" +:+ hex (i_id (ct_incarnation c)) +:+ " sequence="
              +:+ dec_string (ct_next_sequence c) +:+ newline in
  if wo_hold o then op_forever else
  r <~ worker_rounds (Z.to_nat (wo_rounds o)) (wo_account o) (wo_issue o) 0 text;;
  match r with
  | inl exit => op_ret (inl exit)
  | inr text =>
      final <~ describe partly_decoded (wo_account o);;
      if negb (status_ok (o_status final)) then op_ret (inl (refuse_text "describe" (o_status final))) else
      stats <~ op_get ct_stats;;
      op_ret (inr (text +:+ final_line (o_view final) +:+ done_line stats))
  end.

(** The client is the one made from [wo_client]. *)
Definition worker_main (o : WorkerOptions) : Op L (Z * string) :=
  connected <~ client_connect;;
  if negb (status_ok connected)
  then op_ret (3, "connect failed: " +:+ status_describe connected +:+ newline) else
  r <~ worker_session o;;
  match r with
  | inl exit => op_ret exit
  | inr text => client_close;~ op_ret (0, text)
  end.

End Worker.

(** ** The coordinator *)

Record ServeOptions := mkServeOptions {
  vo_journal : string;
  vo_port : Z;
  vo_account : AccountConfig;
  vo_open : bool;
  vo_label : string;
  vo_max_requests : Z;
  vo_window : Z;
}.

Definition serve_options (values : list string) : (Z * string) + ServeOptions :=
  let journal := get "--journal" "" values in
  if String.eqb journal "" then inl (fail_text "--journal PREFIX is required") else
  let '((port, domain, account, resource, capacity, max_capacity, max_requests, window), ok) :=
    (port <# number "--port" 0 values;;
     domain <# number "--domain" 0xD0A1 values;;
     account <# number "--account" 0xACC values;;
     resource <# number "--resource" 0x2E50 values;;
     capacity <# number "--capacity" 4096 values;;
     max_capacity <# number "--max-capacity" capacity values;;
     max_requests <# number "--max-requests" 0 values;;
     window <# number "--limit-window" 4096 values;;
     p_ret (port, domain, account, resource, capacity, max_capacity, max_requests, window))%parsed true in
  if negb ok then inl (fail_text "a numeric option was not a valid unsigned integer") else
  inr (mkServeOptions journal port
    (mkConfig domain account resource 1 capacity max_capacity Synthetic
       (mkPolicy (min_issue policy_default) capacity true true (allow_capacity_growth policy_default)))
    (has "--open" values) (get "--label" "creditfabric-coordinator" values) max_requests window).

(** The engine a coordinator serves, after recovery and the opening of its account:
    [inl] is the exit. *)
Definition serve_engine {J} `{Journal J} (fuel : nat) (o : ServeOptions) (entropy : Z) (e : Engine J)
    : option ((Z * string) + string * Engine J) :=
  match recover fuel e with
  | None => None
  | Some (recovered, e) =>
      if negb (status_ok recovered)
      then Some (inl (3, "recovery failed: " +:+ status_describe recovered +:+ newline)) else
      if vo_open o then
        let config := vo_account o in
        let '(outcome, s) :=
          local_open config (local_make e (e_operator e) (c_domain config) (c_account config) entropy) in
        if negb (status_ok (o_status outcome))
        then Some (inl (4, "open refused: " +:+ status_describe (o_status outcome) +:+ newline))
        else Some (inr ("OPENED account=" +:+ dec_string (c_account config) +:+ " capacity="
                        +:+ dec_string (c_capacity config) +:+ newline, ls_engine s))
      else Some (inr (""%string, e))
  end.

(** The options of the server; the limits are those of the engine. *)
Definition serve_coordinator_options (o : ServeOptions) : CoordinatorOptions :=
  mkCoordinatorOptions "127.0.0.1" (Z.land (vo_port o) 0xFFFF) 65536 128 (text_bytes (vo_label o)) 0 64.

(** Whether the loop that waits ends, [served] requests having been served by a
    service that is [running]. *)
Definition serve_ends (o : ServeOptions) (served : Z) (running : bool) : bool :=
  if vo_max_requests o =? 0 then false else negb (served <? vo_max_requests o) || negb running.

Section Serve.
Context {J : Type} `{Journal J}.

(** The program up to the point where its server listens, on [port]: [inl] is the
    exit.  [open_journal] makes the journal, the rest is what the system answers. *)
Definition coordinator_boot (fuel : nat) (open_journal : FileJournalOptions -> J) (nonce : Digest128)
    (entropy : Z) (os : OS) (port : Z) (argv : list string)
    : option ((Z * string) + (ServeOptions * string * CoordinatorServer J)) :=
  match serve_options (args_make argv) with
  | inl exit => Some (inl exit)
  | inr o =>
      let e := engine_make (limits_with_window (vo_window o)) true
                 (open_journal (journal_options (vo_journal o))) (durable_operator (vo_journal o)) nonce in
      match serve_engine fuel o entropy e with
      | None => None
      | Some (inl exit) => Some (inl exit)
      | Some (inr (text, e)) =>
          let '(started, s) := start os port (server_make e (serve_coordinator_options o)) in
          if negb (status_ok started)
          then Some (inl (5, text +:+ "listen failed: " +:+ status_describe started +:+ newline))
          else Some (inr (o, text +:+ "LISTENING " +:+ dec_string (sv_port s) +:+ newline, s))
      end
  end.

(** The whole program: [waiting] is what its threads do until the loop that waits
    ends, [stopping] what they do after the stop was requested.  [None]: it still
    serves, or still joins. *)
Definition coordinator_main (fuel : nat) (open_journal : FileJournalOptions -> J) (nonce : Digest128)
    (entropy : Z) (os : OS) (port : Z) (argv : list string) (waiting stopping : list Action)
    : option (Z * string * Served) :=
  match coordinator_boot fuel open_journal nonce entropy os port argv with
  | None => None
  | Some (inl (code, text)) => Some (code, text, [])
  | Some (inr (o, text, s)) =>
      let '(served, s) := service_run waiting s in
      if negb (serve_ends o (sv_served s) (sv_running s)) then None else
      let '(more, s) := service_run stopping (stop_begin s) in
      match stop_end s with
      | None => None
      | Some (_, s) =>
          Some (0, text +:+ "STOPPED served=" +:+ dec_string (sv_served s) +:+ newline, served ++ more)
      end
  end.

(** An early exit is an error. *)
Lemma boot_exit fuel open_journal nonce entropy os port argv code text :
  coordinator_boot fuel open_journal nonce entropy os port argv = Some (inl (code, text)) -> 2 <= code <= 5.
Proof.
  assert (Ho : forall values c t, serve_options values = inl (c, t) -> c = 2).
  { intros values c t. unfold serve_options. destruct (String.eqb _ _); [by intros [= <- _] |].
    destruct ((_ <# _ ;; _)%parsed true) as [[[[[[[[x1 x2] x3] x4] x5] x6] x7] x8] ok].
    destruct (negb ok); [by intros [= <- _] | done]. }
  unfold coordinator_boot. destruct (serve_options _) as [[c t]|o] eqn:E; [intros [= <- _]; apply Ho in E; lia |].
  destruct (serve_engine _ _ _ _) as [[[c t]|[t e]]|] eqn:E2; [| | done].
  - intros [= <- _]. revert E2. unfold serve_engine. destruct (recover _ _) as [[st e]|]; [| done].
    destruct (negb (status_ok st)); [intros [= <- _]; lia |]. destruct (vo_open o); [| done].
    destruct (local_open _ _) as [oc s]. destruct (negb _); [intros [= <- _]; lia | done].
  - destruct (start _ _ _) as [st s]. destruct (negb _); [intros [= <- _]; lia | done].
Qed.

(** The program that ends well has served at least the requests it was told to, one
    run of the engine it recovered, and prints how many. *)
Theorem coordinator_program_serves fuel open_journal nonce entropy os port argv waiting stopping text served :
  coordinator_main fuel open_journal nonce entropy os port argv waiting stopping = Some (0, text, served) ->
  exists o text0 s e, coordinator_boot fuel open_journal nonce entropy os port argv = Some (inr (o, text0, s)) /\
    run (CApply <$> served.*1) (sv_engine s) = (served, e) /\
    text = text0 +:+ "STOPPED served=" +:+ dec_string (wrap64 (sv_served s + Z.of_nat (length served))) +:+ newline.
Proof.
  unfold coordinator_main. destruct (coordinator_boot _ _ _ _ _ _ _) as [[[c t]|[[o t] s]]|] eqn:E; [| | done].
  { intros [= -> _ _]. apply boot_exit in E. lia. }
  assert (Hs : sv_served s = 0).
  { revert E. unfold coordinator_boot. destruct (serve_options _) as [?|o']; [done |].
    destruct (serve_engine _ _ _ _) as [[?|[t' e]]|]; [done | | done]. unfold start. simpl.
    destruct (bind_loopback _ _ _) as [st l]. destruct (status_ok st) eqn:Hst; simpl; rewrite ?Hst; [| done].
    by intros [= _ _ <-]. }
  pose proof (service_run_decides waiting s ltac:(rewrite Hs; word_lia)) as D1.
  destruct (service_run waiting s) as [l1 s1]. destruct (negb (serve_ends _ _ _)); [done |]. simpl in D1.
  pose proof (service_run_decides stopping (stop_begin s1) (decides_range _ _ _ D1)) as D2.
  destruct (service_run stopping (stop_begin s1)) as [l2 s2]. simpl in D2.
  assert (D : decides (l1 ++ l2) s s2) by (eapply decides_trans; [exact D1 |]; destruct D2; by constructor).
  unfold stop_end. destruct (forallb _ _); [| done]. intros [= <- <-]. simpl.
  destruct D as [R1 R2 _]. exists o, t, s, (sv_engine s2). by rewrite <-R2, R1.
Qed.

End Serve.

(** ** The benchmark program *)

Definition bench_options (values : list string) : (Z * string) + BenchConfig :=
  let '((operations, capacity, producers, consumers, seed), ok) :=
    (operations <# number "--operations" 200000 values;;
     capacity <# number "--capacity" 4194304 values;;
     producers <# number "--producers" 8 values;;
     consumers <# number "--consumers" 8 values;;
     seed <# number "--seed" 0xC0FFEE values;;
     p_ret (operations, capacity, producers, consumers, seed))%parsed true in
  if negb ok then inl (fail_text "a numeric option was not a valid unsigned integer") else
  inr (mkBenchConfig (get "--scenario" "synthetic-ledger" values) operations capacity producers consumers
    (bc_resources bench_config_default) seed (has "--durable" values)
    (get "--journal" "creditfabric-bench" values)).

(** [run] is the benchmark. *)
Definition bench_main (run : BenchConfig -> BenchResult) (argv : list string) : Z * string :=
  match bench_options (args_make argv) with
  | inl exit => exit
  | inr config => let result := run config in (if br_closure_ok result then 0 else 1, bench_render result)
  end.
