(* ===== verification/WorkerProps.v ===== *)
(** * A worker leaves the account as it found it

    Each round of a worker issues, consumes and returns the same amount.  On an
    account with room for it, every step is applied and the credit is back in its
    bucket after every round. *)

From Stdlib Require Import Ascii String.
From S2P Require Import Prelude Checked Status Digest Ledger Authority Request Bytes Wire.
From S2P Require Import Record Journal Window Account Engine Recovery Steps Invariant Verdicts.
From S2P Require Import Safety Sample Guarantees Durability Explain Restart Typing.
From S2P Require Import Platform FileJournal Transport Coordinator Service Client ClientProps Dialogue Submission.
From S2P Require Import Args LocalSession Bench Cfctl Worker.
Local Open Scope word_scope.
Local Open Scope Z_scope.

(** ** An operation that the ledger accepts *)

(** The request names no producer, consumer or grant. *)
Definition anonymous (rq : CreditRequest) : Prop :=
  rq_producer rq = 0 /\ rq_consumer rq = 0 /\ rq_grant rq = 0.

(** The ledger of the account accepts the operation. *)
Definition accepts (a : AccountState) (op : LedgerOp) : Prop :=
  counters_fit op (account_plan a) /\ exists b, bucket_step op (plan_buckets (account_plan a)) b.

Lemma accepts_runs limits a op :
  account_ok limits a -> op_range op -> accepts a op ->
  run_op op (account_plan a) = (exact_plan op (account_plan a), true).
Proof.
  intros Ha Hr Hacc. pose proof (account_plan_ok a (li_ok _ _ _ (ao_ledger _ _ Ha))) as Hok.
  destruct (run_op op (account_plan a)) as [p []] eqn:E.
  - by apply run_op_exact in E as (-> & _); auto.
  - by apply run_op_refused in E as (_ & _ & _ & []); auto.
Qed.

Lemma bind_anonymous rq r : anonymous rq -> bind_issue rq r = inr r.
Proof. intros (E1 & E2 & E3). unfold bind_issue, bind_identity. by rewrite E1, E2, E3. Qed.

Lemma put_same i r a : find_incarnation i a = Some r -> put_incarnation i r a = a.
Proof. intros Hr. unfold put_incarnation, find_incarnation in *. destruct a. simpl in *. unfold set_incarnations. simpl. by rewrite insert_id. Qed.

Lemma data_applied limits a rq op r :
  account_ok limits a -> anonymous rq -> in_u64 (rq_count rq) ->
  find_incarnation (a_incarnation (rq_authority rq)) a = Some r ->
  (rq_op rq = Issue -> ac_hard_exhausted a = false) ->
  ledger_op (c_rules (ac_config a)) rq = Some op -> accepts a op ->
  data_verdict rq a = VApplied (set_totals (exact_totals op (ac_totals a)) a).
Proof.
  intros Ha Hn Hc Hr Hex Hop Hacc. pose proof (ledger_op_range _ _ _ Hc Hop) as Hrange.
  assert (Hl : ledger_verdict rq a = VApplied (set_totals (exact_totals op (ac_totals a)) a)).
  { unfold ledger_verdict. rewrite ledger_apply_op, Hop, (accepts_runs _ _ _ Ha Hrange Hacc). done. }
  unfold data_verdict. destruct (rq_op rq) eqn:E; unfold ledger_op in Hop; rewrite E in Hop; try done; simpl.
  - rewrite Hex by done. simpl. rewrite Hr, bind_anonymous by done. by rewrite put_same.
  - by rewrite andb_false_r.
  - by rewrite andb_false_r.
  - by rewrite andb_false_r.
  - by rewrite andb_false_r.
Qed.

(** What an account is after an operation: its totals have moved. *)
Definition moved (op : LedgerOp) (a b : AccountState) : Prop :=
  ac_totals b = exact_totals op (ac_totals a) /\ ac_capacity b = ac_capacity a /\
  ac_config b = ac_config a /\ ac_hard_exhausted b = ac_hard_exhausted a.

(** The account after a ledger request that was applied. *)
Lemma committed_on limits inc op a rq o :
  account_ok limits a -> addressed limits inc a rq -> live_on inc a -> rq_sequence rq = watermark_on inc a + 1 ->
  let b := committed_account rq o (set_totals (exact_totals op (ac_totals a)) a) in
  live_on inc b /\ vector_on inc b = vector_on inc a /\ watermark_on inc b = watermark_on inc a + 1 /\ moved op a b /\
  (forall id, id <> rq_attempt rq -> window_find_by_attempt id (ac_window a) = None ->
     window_find_by_attempt id (ac_window b) = None).
Proof.
  intros Hok [_ Hau _ _ _ _] [Hf (r & Hr & Hl)] Hs b. destruct (ao_window _ _ Hok) as [Ww Wb _].
  unfold find_incarnation in Hr. subst b. unfold committed_account. rewrite Hau. simpl a_incarnation. split_and!.
  - split; [exact Hf |]. unfold find_incarnation. simpl. rewrite Hau. simpl.
    rewrite !lookup_alter_eq, Hr. simpl. eexists. split; [done |]. exact Hl.
  - done.
  - unfold watermark_on at 1, watermark_in. simpl. rewrite Hau. simpl. rewrite !lookup_alter_eq, Hr. simpl. exact Hs.
  - done.
  - intros id Hid Hw. simpl. apply insert_by_attempt; [done | | done | done]. simpl.
    destruct (window_find (_, _) _) as [x|] eqn:E; [| done]. rewrite Hau in E. apply Wb in E.
    change (rq_sequence rq <= watermark_on inc a) in E. lia.
Qed.

(** ** A round on the ledger *)

(** The account has room for [k] rounds of [i] credits. *)
Record roomy (i k : Z) (a : AccountState) : Prop := {
  ro_exhausted : ac_hard_exhausted a = false;
  ro_rules : min_issue (c_rules (ac_config a)) <= i <= max_issue_per_attempt (c_rules (ac_config a));
  ro_return : allow_return (c_rules (ac_config a)) = true;
  ro_available : 0 < i <= b_available (plan_buckets (account_plan a));
  ro_issued : issued (ac_totals a) + k * i <= u64_max;
  ro_consumed : consumed (ac_totals a) + k * i <= u64_max;
}.

Definition issue_op (a : AccountState) (i : Z) : LedgerOp :=
  LIssue i (min_issue (c_rules (ac_config a))) (max_issue_per_attempt (c_rules (ac_config a))).

Section Round.
Context (limits : EngineLimits) (i k : Z) (a b d e : AccountState).
Hypothesis Ha : account_ok limits a.
Hypothesis Hroom : roomy i k a.
Hypothesis Hk : 1 <= k.

Lemma issue_accepted : accepts a (issue_op a i).
Proof.
  destruct Hroom as [_ R2 _ R4 R5 _]. split; simpl; [nia |].
  eexists. unfold plan_buckets in *. simpl in *. by apply step_issue.
Qed.

Hypothesis Hb : moved (issue_op a i) a b.

Lemma consume_accepted : accepts b (LConsume i).
Proof.
  destruct Hroom as [_ R2 _ R4 R5 R6], Hb as (T & C & _ & _).
  destruct (li_ok _ _ _ (ao_ledger _ _ Ha)) as [_ _ _ Hp _]. unfold accepts, account_plan.
  rewrite T, C. simpl. split; [nia |]. eexists. unfold plan_buckets. simpl. apply step_consume. lia.
Qed.

Hypothesis Hd : moved (LConsume i) b d.

Lemma return_accepted : accepts d (LGiveBack i).
Proof.
  destruct Hroom as [_ R2 _ R4 R5 R6], Hb as (T & C & _ & _), Hd as (T' & C' & _ & _).
  destruct (li_ok _ _ _ (ao_ledger _ _ Ha)) as [_ (_ & _ & _ & _ & Hsp & _) _ Hp _]. unfold accepts, account_plan.
  rewrite T', C', T, C. simpl. split; [done |]. eexists. unfold plan_buckets. simpl. eapply step_give_back; [| done].
  word_lia.
Qed.

Hypothesis He : moved (LGiveBack i) d e.

(** The credit is back in its bucket, and there is room for one round less. *)
Lemma round_restores :
  plan_buckets (account_plan e) = plan_buckets (account_plan a) /\ roomy i (k - 1) e /\
  ac_config e = ac_config a.
Proof.
  destruct Hroom as [R1 R2 R3 R4 R5 R6], Hb as (T & C & G & X), Hd as (T' & C' & G' & X'), He as (T2 & C2 & G2 & X2).
  destruct (li_ok _ _ _ (ao_ledger _ _ Ha)) as [_ (_ & _ & _ & _ & Hsp & _) _ Hp _].
  assert (Hbuckets : plan_buckets (account_plan e) = plan_buckets (account_plan a)).
  { unfold plan_buckets, account_plan. simpl. rewrite T2, C2, T', C', T, C. simpl. f_equal; word_lia. }
  split; [done |]. split; [| congruence]. constructor; rewrite ?Hbuckets, ?G2, ?G', ?G; try done; try congruence.
  - rewrite T2, T', T. simpl. nia.
  - rewrite T2, T', T. simpl. nia.
Qed.
End Round.

(** ** Submissions that are applied *)

Section Applied.
Context {J : Type} `{Journal J} (partly_decoded : list Z -> CreditOutcome -> CreditOutcome).
Context (inc : Incarnation) (seed : Z) (limits : EngineLimits) (options : CoordinatorOptions).
Implicit Types (c : CoordinatorClient (Loopback J)) (a : AccountState) (rq : CreditRequest).

Lemma settle_attempt_responsive rq request o : responsive (settle_attempt partly_decoded rq request o).
Proof. unfold settle_attempt. respond; first [apply responsive_reconcile | apply responsive_exchange]. Qed.

(** The account [b] and the client after [n] identities, [b] being [a] moved by [op]. *)
Record advanced (n : Z) op a b c : Prop := {
  av_settled : settled_on inc seed limits options n b c;
  av_account : ac_account b = ac_account a;
  av_moved : moved op a b;
  av_watermark : watermark_on inc b = watermark_on inc a + 1;
  av_fresh : forall id, id <> id_at seed n -> window_find_by_attempt id (ac_window a) = None ->
    window_find_by_attempt id (ac_window b) = None;
}.

(** What a client settled behind the watermark sends, and what submitting it does. *)
Lemma submit_sends n a c rq :
  settled_on inc seed limits options n a c -> on_account limits options a rq -> n + 1 < 18446744073709551616 ->
  let c1 := drew seed (n + 1) c in
  let request := attempt_at (id_at seed (n + 1)) rq c1 in
  talking inc seed limits options (n + 1) a c1 /\ addressed limits inc a request /\ servable options request /\
  exists o c2, submit partly_decoded rq c = settle_attempt partly_decoded rq request o c2 /\
    in_u64 (served_of c2) /\ engine_of c2 = (apply request (engine_of c1)).2 /\
    (e_journal_failed (apply request (engine_of c1)).2 = false -> exchanged request c1 o c2).
Proof.
  intros [[Ht Hau Hp] Hlive Hseq] (Hq & Hop & Hacc) Hn c1 request.
  destruct (next_draws _ _ _ _ _ _ _ Ht Hn) as [_ Ht1].
  assert (Hpl1 : placed inc seed limits options (n + 1) a c1) by (by constructor).
  pose proof (attempt_servable _ _ _ _ _ _ _ (id_at seed (n + 1)) rq Hpl1 Hq (id_at_range _ _)) as Hsv.
  split; [done |]. split; [by eapply attempt_addressed |]. split; [exact Hsv |].
  destruct (talk_exchange partly_decoded _ _ _ _ _ _ _ request Ht1 Hsv) as (o & c2 & Hx & Hs2 & He & Hd).
  exists o, c2. split; [| done].
  by apply (submit_attempts partly_decoded _ _ _ _ _ a c c1 rq o c2 Ht Hn Hop Hacc
    (placed_stays partly_decoded _ _ _ _ _ _ _ Hpl1)).
Qed.

Lemma submit_applies n a c rq op :
  settled_on inc seed limits options n a c -> on_account limits options a rq -> anonymous rq ->
  (rq_op rq = Issue -> ac_hard_exhausted a = false) ->
  ledger_op (c_rules (ac_config a)) rq = Some op -> accepts a op ->
  n + 1 < 18446744073709551616 -> watermark_on inc a + 2 < 18446744073709551616 ->
  window_find_by_attempt (id_at seed (n + 1)) (ac_window a) = None ->
  exists o c', submit partly_decoded rq c = Some (o, c') /\ in_u64 (served_of c') /\
    (e_journal_failed (engine_of c') = true \/
     status_ok (o_status o) = true /\ exists b, advanced (n + 1) op a b c').
Proof.
  intros [Hpl Hlive Hseq] (Hq & Hop & Hacc) Han Hex Hlop Hacp Hn Hwm Hw. pose proof Hpl as [Ht Hau Hp].
  pose proof (watermark_word _ _ _ _ _ _ _ Ht) as Hww. pose proof (talking_account _ _ _ _ _ _ _ Ht) as Haok.
  destruct (submit_sends n a c rq ltac:(by constructor) ltac:(by split_and!) Hn)
    as (Ht1 & Had & Hsv & o & c2 & -> & Hs2 & He & Hd).
  set (c1 := drew seed (n + 1) c) in *. set (request := attempt_at (id_at seed (n + 1)) rq c1) in *.
  destruct (e_journal_failed (apply request (engine_of c1)).2) eqn:Hf.
  { destruct (settle_attempt_responsive rq request o c2 Hs2) as (o' & c' & Hm & Hsv' & Hl).
    exists o', c'. split; [exact Hm |]. split; [done |]. left. apply Hl. by rewrite He. }
  specialize (Hd eq_refl). pose proof Hlive as [Hfe (r & Hr & _)].
  pose proof Ht1 as [_ _ I3 [Hi Hpr] I5 _ I7 _ I9 [Hl Ho] _ I12].
  pose proof (dr_authority _ _ _ _ Had) as Ea.
  assert (Hops : rq_op request <> Open /\ rq_op request <> Describe)
    by (change (rq_op request) with (rq_op rq); by destruct (rq_op rq)).
  assert (Hr' : find_incarnation (a_incarnation (rq_authority request)) a = Some r) by (by rewrite Ea).
  assert (Hv : verdict (e_challenge (engine_of c1)) (e_limits (engine_of c1)) request a =
    VApplied (set_totals (exact_totals op (ac_totals a)) a)).
  { replace (verdict (e_challenge (engine_of c1)) (e_limits (engine_of c1)) request a) with (data_verdict request a)
      by (unfold verdict; change (rq_op request) with (rq_op rq); by destruct (rq_op rq)).
    apply (data_applied limits a request op r); try done. apply (rwf_count _ _ (ak_wf _ _ _ Hq)). }
  destruct (applied_taken (engine_of c1) request a (set_totals (exact_totals op (ac_totals a)) a)) as
    (T1 & T2 & T3 & T4 & T5 & T6 & T7); try done; try apply Hops; try (by rewrite Ea).
  - by eapply request_wf_4096, sb_wf.
  - rewrite Hl. by apply (addressed_well_formed _ inc a).
  - rewrite Hl. by apply (live_authorized inc).
  - change (in_u64 (ct_next_sequence c)). rewrite Hseq. word_lia.
  - destruct (committed_on limits inc op a request (set_outcome_era a (initial_outcome request)) Haok Had Hlive Hseq)
      as (B1 & B2 & B3 & B4 & B5).
    rewrite Ea in T6. set (b := committed_account _ _ _) in *. change (a_account (mkVector _ _ _ _ _)) with (ac_account a) in T6.
    clearbody b. pose proof Hd as [_ X2 X3 _ (_ & _ & _ & X5) X6 X7].
    assert (Hdem : demands_reconciliation o = false).
    { unfold demands_reconciliation. rewrite X2. apply status_ok_iff in T1. by rewrite T1. }
    unfold settle_attempt. rewrite Hdem. exists o, c2. split; [done |]. split; [done |]. right.
    split; [by rewrite X2 |]. exists b.
    assert (BD : ac_domain b = ac_domain a) by exact (f_equal a_domain B2).
    assert (BA : ac_account b = ac_account a) by exact (f_equal a_account B2).
    assert (Hs4 : ct_next_sequence c2 = watermark_on inc b + 1).
    { rewrite X6, X2, T2, B3. change (rq_sequence request) with (ct_next_sequence c). rewrite Hseq.
      by rewrite wrap64_small by word_lia. }
    constructor; [| done | done | done | done]. constructor; [| done | done].
    constructor; [| | by rewrite X5].
    + eapply (exchanged_talking _ _ _ _ (n + 1) a b c1); try done; rewrite ?X3; try done; [by rewrite BA |].
      rewrite Hs4, B3. word_lia.
    + rewrite X7, X2, T7, Hi. unfold confirmed_authority. simpl.
      rewrite Hau, B2. simpl. repeat case_match; done.
Qed.

(** ** Sequences of operations on a healthy service *)

(** [m] returns, in a state where [Q] holds unless the journal has failed. *)
Definition achieves {A} (m : Op (Loopback J) A) c (Q : A -> CoordinatorClient (Loopback J) -> Prop) : Prop :=
  exists x c', m c = Some (x, c') /\ in_u64 (served_of c') /\ (e_journal_failed (engine_of c') = true \/ Q x c').

Lemma achieves_bind {A B} (m : Op (Loopback J) A) (k : A -> Op (Loopback J) B) c Q R :
  achieves m c Q -> (forall x, responsive (k x)) ->
  (forall x c', in_u64 (served_of c') -> Q x c' -> achieves (k x) c' R) -> achieves (op_bind m k) c R.
Proof.
  intros (x & c1 & Hm & Hs & Hq) Hk Hr. unfold achieves. rewrite (op_bind_step _ _ _ _ _ Hm).
  destruct Hq as [Hf | Hq]; [| by apply Hr].
  destruct (Hk x c1 Hs) as (y & c2 & Hy & Hs2 & Hl). exists y, c2. split_and!; [done | done |]. left. by apply Hl.
Qed.

Lemma achieves_ret {A} (x : A) c (Q : A -> CoordinatorClient (Loopback J) -> Prop) :
  in_u64 (served_of c) -> Q x c -> achieves (op_ret x) c Q.
Proof. intros Hs Hq. exists x, c. split_and!; [done | done | by right]. Qed.

Lemma achieves_get {A B} (f : CoordinatorClient (Loopback J) -> A) (k : A -> Op (Loopback J) B) c Q :
  achieves (k (f c)) c Q -> achieves (op_bind (op_get f) k) c Q.
Proof. done. Qed.

(** The identities from [lo] to [hi] are not in the window of the account. *)
Definition unseen (lo hi : Z) a : Prop :=
  forall k, lo < k <= hi -> window_find_by_attempt (id_at seed k) (ac_window a) = None.

(** The identities drawn from [first] to [last] are different. *)
Context (first last : Z) (Hlast : last < 18446744073709551616).
Context (Hdistinct : forall j k, first < j < k -> k <= last -> id_at seed k <> id_at seed j).

Lemma unseen_fresh n a b :
  (forall id, id <> id_at seed n -> window_find_by_attempt id (ac_window a) = None ->
     window_find_by_attempt id (ac_window b) = None) ->
  first < n -> unseen (n - 1) last a -> unseen n last b.
Proof. intros Hf Hn Hu k Hk. apply Hf; [apply Hdistinct; lia | apply Hu; lia]. Qed.

(** A request of the worker on the account. *)
Lemma worker_request_on a op i :
  0 <= max_note_bytes limits -> 0 <= co_max_note options -> 252 <= co_max_frame_payload options ->
  op_is_ledger op = true -> 0 < i < 18446744073709551616 -> in_u64 (ac_account a) ->
  on_account limits options a (worker_request (ac_account a) op i).
Proof.
  intros H1 H2 H3 Hop Hi Ha. destruct (zero_askable limits options H1 H2 H3) as [[] A2 A3 A4 _].
  split_and!; [| done | done]. constructor; simpl; try done; [| lia].
  constructor; simpl; try done. word_lia.
Qed.

(** One stage of a round. *)
Lemma stage_applies stage n a c op lop i :
  settled_on inc seed limits options n a c -> in_u64 (served_of c) -> unseen n last a ->
  first <= n -> n + 1 <= last -> watermark_on inc a + 2 < 18446744073709551616 ->
  op_is_ledger op = true -> 0 < i < 18446744073709551616 ->
  ledger_op (c_rules (ac_config a)) (worker_request (ac_account a) op i) = Some lop -> accepts a lop ->
  (op = Issue -> ac_hard_exhausted a = false) ->
  achieves (worker_stage partly_decoded stage (ac_account a) op i) c (fun r c' =>
    exists o b, r = inr o /\ advanced (n + 1) lop a b c' /\ unseen (n + 1) last b).
Proof.
  intros Hst Hs Hu Hfn Hn Hwm Hop Hi Hlop Hacc Hex. unfold worker_stage.
  pose proof (pl_talking _ _ _ _ _ _ _ (st_placed _ _ _ _ _ _ _ Hst)) as Ht.
  pose proof (vector_on_wf _ _ _ _ _ _ _ Ht) as Hv. pose proof (tk_room _ _ _ _ _ _ _ Ht) as (R1 & R2 & R3).
  pose proof (vwf_account _ Hv) as Ha.
  destruct (submit_applies n a c (worker_request (ac_account a) op i) lop) as (o & c' & Hx & Hs' & Hr); try done.
  - by apply worker_request_on.
  - lia.
  - apply Hu. lia.
  - eapply (achieves_bind _ _ _ (fun o c' => status_ok (o_status o) = true /\ exists b, advanced (n + 1) lop a b c')).
    + exists o, c'. done.
    + intros x. apply responsive_ret.
    + clear o c' Hx Hs' Hr. intros o c' Hs' [Hok [b Hb]]. apply achieves_ret; [done |]. rewrite Hok.
      exists o, b. split_and!; [done | done |]. apply (unseen_fresh _ a); [apply Hb | lia |].
      by replace (n + 1 - 1) with n by lia.
Qed.
(** ** Rounds *)

Context (i : Z).

(** A client and its account with [k] rounds ahead of them, [n] identities drawn. *)
Record working (k n : Z) a c : Prop := {
  wk_settled : settled_on inc seed limits options n a c;
  wk_served : in_u64 (served_of c);
  wk_unseen : unseen n last a;
  wk_roomy : roomy i k a;
  wk_ids : first <= n /\ n + 3 * k <= last;
  wk_watermark : watermark_on inc a + 3 * k + 2 < 18446744073709551616;
}.

Lemma roomy_count k a : account_ok limits a -> roomy i k a -> 1 <= k -> 0 < i < 18446744073709551616.
Proof.
  intros Ha [_ _ _ R4 R5 _] Hk. destruct (li_ok _ _ _ (ao_ledger _ _ Ha)) as [_ (Hi & _) _ _ _]. split; [lia |].
  assert (i <= k * i) by nia. word_lia.
Qed.

Lemma settled_on_ok n a c : settled_on inc seed limits options n a c -> account_ok limits a.
Proof. intros [[Ht _ _] _ _]. by eapply talking_account. Qed.

(** A round is applied, and puts the credit back where it was. *)
Lemma round_applies k n a c round :
  1 <= k -> working k n a c ->
  achieves (worker_round partly_decoded (ac_account a) i round) c (fun r c' =>
    exists line e, r = inr line /\ working (k - 1) (n + 3) e c' /\
      plan_buckets (account_plan e) = plan_buckets (account_plan a) /\ ac_account e = ac_account a).
Proof.
  intros Hk [Hst Hs Hu Hroom Hids Hwm]. pose proof (settled_on_ok _ _ _ Hst) as Ha.
  pose proof (roomy_count _ _ Ha Hroom Hk) as Hi. pose proof Hroom as [Hex _ Hret _ _ _]. unfold worker_round.
  assert (Hresp : forall stage op, responsive (worker_stage partly_decoded stage (ac_account a) op i))
    by (intros; unfold worker_stage; respond; apply responsive_submit).
  eapply achieves_bind; [eapply (stage_applies _ n a c Issue (issue_op a i)); try done; try lia | |].
  - by eapply issue_accepted.
  - intros []; respond; apply Hresp.
  - intros x c1 Hs1 (o1 & b & -> & [Hst1 E1 M1 W1 _] & Hu1). pose proof M1 as (_ & _ & G1 & X1).
    eapply achieves_bind; [rewrite <-E1; eapply (stage_applies _ (n + 1) b c1 Consume (LConsume i)); try done; try lia | |].
    + by eapply (consume_accepted limits i k a b).
    + intros []; respond; apply Hresp.
    + intros y c2 Hs2 (o2 & d & -> & [Hst2 E2 M2 W2 _] & Hu2). pose proof M2 as (_ & _ & G2 & X2).
      eapply achieves_bind;
        [rewrite <-E1, <-E2; eapply (stage_applies _ (n + 1 + 1) d c2 Return (LGiveBack i)); try done; try lia | |].
      * unfold ledger_op. simpl. by rewrite G2, G1, Hret.
      * by eapply (return_accepted limits i k a b d).
      * intros []; respond.
      * intros z c3 Hs3 (o3 & e & -> & [Hst3 E3 M3 W3 _] & Hu3). apply achieves_ret; [done |].
        destruct (round_restores limits i k a b d e) as (Hb & Hr & _); try done.
        replace (n + 1 + 1 + 1) with (n + 3) in * by lia. do 2 eexists. split_and!; [done | | done | congruence].
        constructor; try done; lia.
Qed.

Lemma responsive_rounds rounds : forall account round text,
  responsive (worker_rounds partly_decoded rounds account i round text).
Proof.
  induction rounds as [|rounds IH]; intros; simpl; [apply responsive_ret |].
  unfold worker_round, worker_stage. respond; first [apply responsive_submit | apply IH].
Qed.

(** So is every round of the run. *)
Lemma rounds_apply rounds : forall k n a c round text,
  k = Z.of_nat rounds -> working k n a c ->
  achieves (worker_rounds partly_decoded rounds (ac_account a) i round text) c (fun r c' =>
    exists text' n' b, r = inr text' /\ working 0 n' b c' /\
      plan_buckets (account_plan b) = plan_buckets (account_plan a) /\ ac_account b = ac_account a).
Proof.
  induction rounds as [|rounds IH]; intros k n a c round text Hk Hw; simpl worker_rounds.
  - simpl in Hk. subst k. pose proof (wk_served _ _ _ _ Hw). apply achieves_ret; [done |]. by exists text, n, a.
  - eapply achieves_bind; [apply (round_applies k n); [lia | done] | |].
    + intros [[]|]; [apply responsive_ret | apply responsive_rounds].
    + intros r c' Hs (line & e & -> & Hwe & Hb & Ea). rewrite <-Ea.
      destruct (IH (k - 1) (n + 3) e c' (round +% 1) (text +:+ line)) as (x & c2 & Hx & Hs2 & Hq); [lia | done |].
      exists x, c2. split; [done |]. split; [done |]. destruct Hq as [|(t' & n' & b & ? & ? & Hb' & Ea')]; [by left |].
      right. exists t', n', b. split_and!; [done | done | |]; by etransitivity.
Qed.

(** The start and the end of a run. *)
Lemma books_roomy k a b : same_books a b -> roomy i k a -> roomy i k b.
Proof.
  intros (T & C & G & X) [R1 R2 R3 R4 R5 R6]. unfold account_plan in *.
  constructor; unfold account_plan; by rewrite ?T, ?C, ?G, ?X.
Qed.

Lemma books_buckets a b : same_books a b -> plan_buckets (account_plan b) = plan_buckets (account_plan a).
Proof. intros (T & C & _ & _). unfold account_plan. by rewrite T, C. Qed.

Lemma reconciled_works k n a c :
  talking inc seed limits options n a c -> may_reconcile limits (i_id inc) a -> roomy i k a -> 0 <= k ->
  first <= n + 2 -> n + 2 + 3 * k <= last -> unseen n last a ->
  (forall j, n + 2 < j <= last -> id_at seed j <> id_at seed (n + 2)) ->
  watermark_on inc a + 3 * k + 3 < 18446744073709551616 ->
  achieves (reconcile partly_decoded (ac_account a)) c (fun o c' =>
    status_ok (o_status o) = true /\ exists b, working k (n + 2) b c' /\
      plan_buckets (account_plan b) = plan_buckets (account_plan a) /\ ac_account b = ac_account a).
Proof.
  intros Ht Hmay Hroom Hk Hf Hl Hu Hne Hwm.
  destruct (talk_reconcile partly_decoded _ _ _ _ _ _ _ Ht ltac:(lia) Hmay) as (o & c' & Hx & Hs & Hr);
    [lia | apply Hu; lia |].
  exists o, c'. split; [done |]. split; [done |]. destruct Hr as [|(Hok & b & Hst & Ea & Hw & Hbk & Hfr)]; [by left | right].
  split; [done |]. exists b. split_and!; [| by apply books_buckets | done].
  constructor; [done | done | | by eapply books_roomy | lia | lia].
  intros j Hj. apply Hfr; [by apply Hne | apply Hu; lia].
Qed.
End Applied.

(** ** A run of a worker *)

(** C32: A worker leaves the account closed and as it found it.  A connected worker
    without a hold, whose incarnation may reconcile on its account and whose account
    has room for its rounds, gets through: every issue, consume and return of every
    round is applied, the run ends with the final report, and the credit in every
    bucket of the account is what it was before; unless the journal has failed.  It
    is the only client of the coordinator, its connection moves bytes in pieces of
    one size, any size, and does not stall, and the attempt identities it draws are
    fresh and distinct. *)
Theorem worker_leaves_account_closed {J : Type} `{Journal J} partly_decoded inc seed limits options n a
    (c : CoordinatorClient (Loopback J)) (o : WorkerOptions) :
  let last := n + 2 + 3 * wo_rounds o in
  talking inc seed limits options n a c -> wo_account o = ac_account a -> wo_hold o = false ->
  may_reconcile limits (i_id inc) a -> 0 <= wo_rounds o -> roomy (wo_issue o) (wo_rounds o) a ->
  last + 1 < 18446744073709551616 -> watermark_on inc a + 3 * wo_rounds o + 3 < 18446744073709551616 ->
  unseen seed n last a ->
  (forall j k, n + 1 < j < k -> k <= last -> id_at seed k <> id_at seed j) ->
  exists r c', worker_session partly_decoded o c = Some (r, c') /\
    (e_journal_failed (engine_of c') = true \/
     exists text b, r = inr text /\ e_accounts (engine_of c') !! wo_account o = Some b /\
       plan_buckets (account_plan b) = plan_buckets (account_plan a)).
Proof.
  intros last Ht Ea Hhold Hmay Hk Hroom Hlast Hwm Hu Hne.
  assert (Hach : achieves (worker_session partly_decoded o) c (fun r c' => exists text b, r = inr text /\
    e_accounts (engine_of c') !! ac_account a = Some b /\ plan_buckets (account_plan b) = plan_buckets (account_plan a))).
  { unfold worker_session. rewrite Hhold, Ea.
    eapply achieves_bind; [eapply (reconciled_works partly_decoded inc seed limits options (n + 1) last); try done; try lia | |].
    - intros j Hj. apply Hne; lia.
    - intros x. respond; first [apply responsive_rounds | apply responsive_describe].
    - intros x c1 Hs1 (Hok & b & Hw & Hb & Eb). rewrite Hok. simpl negb. cbv iota. rewrite <-Eb.
      apply achieves_get.
      pose proof (rounds_apply partly_decoded inc seed limits options (n + 1) last ltac:(lia) Hne (wo_issue o)
        (Z.to_nat (wo_rounds o)) (wo_rounds o) (n + 2) b c1) as Hrun.
      eapply achieves_bind; [apply Hrun; [lia | done] | |].
      + intros []; respond; apply responsive_describe.
      + intros r c2 Hs2 (text & n2 & d & -> & [Hst _ _ _ [_ Hid] _] & Hb2 & Ed).
        pose proof (pl_talking _ _ _ _ _ _ _ (st_placed _ _ _ _ _ _ _ Hst)) as Ht2. rewrite <-Ed.
        destruct (talk_describe partly_decoded _ _ _ _ _ _ _ Ht2 ltac:(lia)) as (f & c3 & Hx & Ht3 & _ & _ & _ & Hf & _).
        unfold achieves. rewrite (op_bind_step _ _ _ _ _ Hx), Hf.
        do 2 eexists. split; [reflexivity |]. split; [apply Ht3 |]. right.
        do 2 eexists. split; [reflexivity |]. split; [apply Ht3 | by rewrite Hb2]. }
  rewrite Ea. destruct Hach as (r & c' & Hx & _ & Hq). by exists r, c'.
Qed.

Definition sample_worker : WorkerOptions :=
  mkWorkerOptions (mkClientOptions "localhost" 7 1 2 3 [] 65536) 2 5 1 false.

Lemma worker_leaves_account_closed_witness :
  exists r c', worker_session (fun _ o => o) sample_worker (talking_client newcomer 1) = Some (r, c') /\
    (e_journal_failed (engine_of c') = true \/
     exists text b, r = inr text /\ e_accounts (engine_of c') !! 2 = Some b /\
       plan_buckets (account_plan b) = mkBuckets 80 0 20 0 0).
Proof.
  apply (worker_leaves_account_closed (fun _ o => o) newcomer 11 default_limits
    (clamp_options sample_coordinator_options) 0 sample_account).
  - apply sample_talking; [apply newcomer_presents | lia].
  - reflexivity.
  - reflexivity.
  - split; vm_compute; reflexivity.
  - simpl. lia.
  - constructor; vm_compute; repeat split; discriminate.
  - simpl. lia.
  - vm_compute. reflexivity.
  - intros k _. apply sample_unknown.
  - intros j k Hj Hk. simpl in Hk.
    assert (Hjk : (j = 2 /\ (k = 3 \/ k = 4 \/ k = 5)) \/ (j = 3 /\ (k = 4 \/ k = 5)) \/ (j = 4 /\ k = 5)) by lia.
    destruct Hjk as [(-> & [-> | [-> | ->]]) | [(-> & [-> | ->]) | (-> & ->)]]; vm_compute; discriminate.
Defined.
